(** * Bloom & Brew: the cafe service core and its M/M/c queueing model

    A shallow embedding of [algorithms/queuing-theory.js] (class
    [QueueingModel]) and of the [Customer] / [CafeSystem] classes of
    [systems/cafe.js], with the properties the specification states about
    them. *)

From Stdlib Require Import ZArith QArith Qround Qminmax Lqa Lia List Floats.
From Stdlib Require String.
From stdpp Require Import gmap list.

(** ** JavaScript numbers

    The queueing model is a set of pure formulas over JS numbers.  It is
    written once, over an interface of the arithmetic it uses, and run on
    two carriers: [float] (IEEE 754 binary64, what the JS engine computes,
    with its infinities and NaN) and [Q] (the exact value of the closed
    forms). *)

Class JsNum (num : Type) := {
  num_of_nat : nat -> num;
  num_add : num -> num -> num;
  num_sub : num -> num -> num;
  num_mul : num -> num -> num;
  num_div : num -> num -> num
}.

#[export] Instance float_JsNum : JsNum float := {
  num_of_nat n := PrimFloat.of_uint63 (Uint63.of_Z (Z.of_nat n));
  num_add := PrimFloat.add;
  num_sub := PrimFloat.sub;
  num_mul := PrimFloat.mul;
  num_div := PrimFloat.div
}.

#[export] Instance Q_JsNum : JsNum Q := {
  num_of_nat n := inject_Z (Z.of_nat n);
  num_add := Qplus;
  num_sub := Qminus;
  num_mul := Qmult;
  num_div := Qdiv
}.

Module Mmc.
Section Model.
Context {num : Type} `{JsNum num}.

(** [Math.pow(base, n)] for a loop counter or server count [n]: the product
    of [n] copies of [base]. *)
Fixpoint Math_pow (base : num) (n : nat) : num :=
  match n with
  | O => num_of_nat 1
  | S k => num_mul base (Math_pow base k)
  end.

(** [factorial(n)]: 1 for 0 and 1, otherwise [result *= i] for i = 2..n. *)
Definition factorial (n : nat) : num :=
  match n with
  | O | S O => num_of_nat 1
  | _ => fold_left (fun result i => num_mul result (num_of_nat i))
                   (seq 2 (n - 1)) (num_of_nat 1)
  end.

Record QueueingModel := {
  arrivalRate : num;
  serviceRate : num;
  servers : nat;
  trafficIntensity : num;
  probabilityZero : num;
  averageQueueLength : num;
  averageTimeInQueue : num;
  utilization : num
}.

Definition calculateTrafficIntensity (arrivalRate serviceRate : num) (servers : nat) : num :=
  num_div arrivalRate (num_mul (num_of_nat servers) serviceRate).

Definition calculateProbabilityZero
    (arrivalRate serviceRate : num) (servers : nat) (trafficIntensity : num) : num :=
  let rho := trafficIntensity in
  let sum :=
    fold_left
      (fun sum n =>
         num_add sum (num_div (Math_pow (num_div arrivalRate serviceRate) n) (factorial n)))
      (seq 0 servers) (num_of_nat 0) in
  let finalTerm :=
    num_mul
      (num_div (Math_pow (num_div arrivalRate serviceRate) servers) (factorial servers))
      (num_div (num_of_nat 1) (num_sub (num_of_nat 1) rho)) in
  num_div (num_of_nat 1) (num_add sum finalTerm).

Definition calculateAverageQueueLength
    (arrivalRate serviceRate : num) (servers : nat)
    (trafficIntensity probabilityZero : num) : num :=
  let rho := trafficIntensity in
  let numerator :=
    num_mul (num_mul (Math_pow (num_div arrivalRate serviceRate) servers) rho)
            probabilityZero in
  let denominator :=
    num_mul (factorial servers) (Math_pow (num_sub (num_of_nat 1) rho) 2) in
  num_div numerator denominator.

Definition calculateAverageTimeInQueue (averageQueueLength arrivalRate : num) : num :=
  num_div averageQueueLength arrivalRate.

Definition calculateUtilization (trafficIntensity : num) : num := trafficIntensity.

(** [new QueueingModel(arrivalRate, serviceRate, servers)]: the constructor
    stores the three inputs and then the five derived metrics, each
    computed from the fields already set.  No branch looks at the traffic
    intensity. *)
Definition new_QueueingModel (lambda mu : num) (c : nat) : QueueingModel :=
  let rho := calculateTrafficIntensity lambda mu c in
  let p0 := calculateProbabilityZero lambda mu c rho in
  let lq := calculateAverageQueueLength lambda mu c rho p0 in
  let wq := calculateAverageTimeInQueue lq lambda in
  {| arrivalRate := lambda; serviceRate := mu; servers := c;
     trafficIntensity := rho; probabilityZero := p0;
     averageQueueLength := lq; averageTimeInQueue := wq;
     utilization := calculateUtilization rho |}.

End Model.
Arguments QueueingModel num : clear implicits.

(** Closeness within a tolerance, on the binary64 carrier. *)
Definition near (x target tol : float) : bool :=
  PrimFloat.leb (PrimFloat.abs (PrimFloat.sub x target)) tol.

Definition is_finite (x : float) : bool :=
  negb (PrimFloat.is_nan x) && negb (PrimFloat.is_infinity x).

End Mmc.

(** * The cafe: customers, tables, orders *)

Module Cafe.
#[local] Open Scope Q_scope.

(** Comparison of JS numbers, as booleans. *)
Definition Qltb (x y : Q) : bool := negb (Qle_bool y x).

(** ** Static tables *)

Inductive CustomerKind := student | business | tourist | regular.

Inductive MenuItem :=
  coffee | espresso | tea | latte | cappuccino
| croissant | muffin | sandwich | salad | cake | special.

#[export] Instance MenuItem_eq_dec : EqDecision MenuItem.
Proof. solve_decision. Defined.

Record CustomerType := {
  basePatience : Q;
  baseSpend : Q;
  baseTipMultiplier : Q;
  typePreferences : list MenuItem;
  specialRequests : Q
}.

Definition CUSTOMER_TYPES (k : CustomerKind) : CustomerType :=
  match k with
  | student =>
      {| basePatience := 10; baseSpend := 8; baseTipMultiplier := 1;
         typePreferences := [coffee; croissant; muffin]; specialRequests := 1 # 10 |}
  | business =>
      {| basePatience := 8; baseSpend := 12; baseTipMultiplier := 3 # 2;
         typePreferences := [espresso; sandwich; salad]; specialRequests := 2 # 10 |}
  | tourist =>
      {| basePatience := 15; baseSpend := 15; baseTipMultiplier := 2;
         typePreferences := [cake; tea; special]; specialRequests := 3 # 10 |}
  | regular =>
      {| basePatience := 12; baseSpend := 10; baseTipMultiplier := 18 # 10;
         typePreferences := [coffee; muffin; special]; specialRequests := 15 # 100 |}
  end.

(** [Object.keys(CUSTOMER_TYPES)], in insertion order. *)
Definition CUSTOMER_TYPE_KEYS : list CustomerKind := [student; business; tourist; regular].

Record MenuEntry := {
  menu_price : Q;
  menu_prepTime : Q;
  menu_requiresBakery : bool
}.

Definition MENU_ITEMS (i : MenuItem) : MenuEntry :=
  match i with
  | coffee => {| menu_price := 7 # 2; menu_prepTime := 2; menu_requiresBakery := false |}
  | espresso => {| menu_price := 5 # 2; menu_prepTime := 3; menu_requiresBakery := false |}
  | tea => {| menu_price := 3; menu_prepTime := 2; menu_requiresBakery := false |}
  | latte => {| menu_price := 9 # 2; menu_prepTime := 4; menu_requiresBakery := false |}
  | cappuccino => {| menu_price := 4; menu_prepTime := 4; menu_requiresBakery := false |}
  | croissant => {| menu_price := 5 # 2; menu_prepTime := 1; menu_requiresBakery := true |}
  | muffin => {| menu_price := 3; menu_prepTime := 1; menu_requiresBakery := true |}
  | sandwich => {| menu_price := 7; menu_prepTime := 5; menu_requiresBakery := false |}
  | salad => {| menu_price := 8; menu_prepTime := 4; menu_requiresBakery := false |}
  | cake => {| menu_price := 5; menu_prepTime := 1; menu_requiresBakery := true |}
  | special => {| menu_price := 10; menu_prepTime := 8; menu_requiresBakery := true |}
  end.

(** [Object.keys(MENU_ITEMS)], in insertion order. *)
Definition MENU_KEYS : list MenuItem :=
  [coffee; espresso; tea; latte; cappuccino; croissant; muffin; sandwich; salad; cake; special].

Inductive SpecialRequest :=
  Extra_hot | No_sugar | Extra_cream | On_the_side | Gluten_free | Vegan_option | Extra_spicy.

Definition SPECIAL_REQUESTS : list SpecialRequest :=
  [Extra_hot; No_sugar; Extra_cream; On_the_side; Gluten_free; Vegan_option; Extra_spicy].

(** ** Objects

    Customers and orders are JS objects shared by reference: a customer is
    held by [this.customers], by [this.queue] and by its table; an order by
    its customer and by [this.orders].  They live in two stores keyed by
    object identity, and every reference is a key.  A table is identified
    by its index in [this.tables], which never changes after
    construction. *)

Inductive CustomerState :=
  entering | waiting | ordering | waiting_for_order | eating | paying | leaving.

Inductive OrderStatus := pending | preparing | ready | served.

Inductive TableStatus := t_empty | t_waiting | t_eating | t_dirty | t_cleaning.

#[export] Instance CustomerState_eq_dec : EqDecision CustomerState.
Proof. solve_decision. Defined.
#[export] Instance OrderStatus_eq_dec : EqDecision OrderStatus.
Proof. solve_decision. Defined.
#[export] Instance TableStatus_eq_dec : EqDecision TableStatus.
Proof. solve_decision. Defined.

Record Order := {
  item : MenuItem;
  quantity : Z;
  totalPrice : Q;
  prepTime : Q;
  specialRequest : option SpecialRequest;
  status : OrderStatus;
  timePlaced : Q;
  timeStarted : option Q;           (* undefined until the order is promoted *)
  timeCompleted : Q
}.

Record Customer := {
  kind : CustomerKind;              (* this.type *)
  patience : Q;
  spendingPower : Q;
  tipMultiplier : Q;
  orderPreferences : list MenuItem;
  hasSpecialRequest : bool;
  arrivalTime : Q;
  order : option nat;
  table : option nat;
  state : CustomerState;
  satisfaction : Q;
  waitStartTime : Q
}.

Record Table := {
  table_id : nat;
  table_customer : option nat;
  table_status : TableStatus;
  timeOccupied : Q
}.

Definition set_state (v : CustomerState) (c : Customer) : Customer :=
  {| kind := kind c; patience := patience c; spendingPower := spendingPower c;
     tipMultiplier := tipMultiplier c; orderPreferences := orderPreferences c;
     hasSpecialRequest := hasSpecialRequest c; arrivalTime := arrivalTime c;
     order := order c; table := table c; state := v;
     satisfaction := satisfaction c; waitStartTime := waitStartTime c |}.

Definition set_satisfaction (v : Q) (c : Customer) : Customer :=
  {| kind := kind c; patience := patience c; spendingPower := spendingPower c;
     tipMultiplier := tipMultiplier c; orderPreferences := orderPreferences c;
     hasSpecialRequest := hasSpecialRequest c; arrivalTime := arrivalTime c;
     order := order c; table := table c; state := state c;
     satisfaction := v; waitStartTime := waitStartTime c |}.

Definition set_waitStartTime (v : Q) (c : Customer) : Customer :=
  {| kind := kind c; patience := patience c; spendingPower := spendingPower c;
     tipMultiplier := tipMultiplier c; orderPreferences := orderPreferences c;
     hasSpecialRequest := hasSpecialRequest c; arrivalTime := arrivalTime c;
     order := order c; table := table c; state := state c;
     satisfaction := satisfaction c; waitStartTime := v |}.

Definition set_table (v : option nat) (c : Customer) : Customer :=
  {| kind := kind c; patience := patience c; spendingPower := spendingPower c;
     tipMultiplier := tipMultiplier c; orderPreferences := orderPreferences c;
     hasSpecialRequest := hasSpecialRequest c; arrivalTime := arrivalTime c;
     order := order c; table := v; state := state c;
     satisfaction := satisfaction c; waitStartTime := waitStartTime c |}.

Definition set_order (v : option nat) (c : Customer) : Customer :=
  {| kind := kind c; patience := patience c; spendingPower := spendingPower c;
     tipMultiplier := tipMultiplier c; orderPreferences := orderPreferences c;
     hasSpecialRequest := hasSpecialRequest c; arrivalTime := arrivalTime c;
     order := v; table := table c; state := state c;
     satisfaction := satisfaction c; waitStartTime := waitStartTime c |}.

Definition set_status (v : OrderStatus) (o : Order) : Order :=
  {| item := item o; quantity := quantity o; totalPrice := totalPrice o;
     prepTime := prepTime o; specialRequest := specialRequest o; status := v;
     timePlaced := timePlaced o; timeStarted := timeStarted o;
     timeCompleted := timeCompleted o |}.

Definition set_timePlaced (v : Q) (o : Order) : Order :=
  {| item := item o; quantity := quantity o; totalPrice := totalPrice o;
     prepTime := prepTime o; specialRequest := specialRequest o; status := status o;
     timePlaced := v; timeStarted := timeStarted o;
     timeCompleted := timeCompleted o |}.

Definition set_timeStarted (v : Q) (o : Order) : Order :=
  {| item := item o; quantity := quantity o; totalPrice := totalPrice o;
     prepTime := prepTime o; specialRequest := specialRequest o; status := status o;
     timePlaced := timePlaced o; timeStarted := Some v;
     timeCompleted := timeCompleted o |}.

Definition set_timeCompleted (v : Q) (o : Order) : Order :=
  {| item := item o; quantity := quantity o; totalPrice := totalPrice o;
     prepTime := prepTime o; specialRequest := specialRequest o; status := status o;
     timePlaced := timePlaced o; timeStarted := timeStarted o;
     timeCompleted := v |}.

Definition set_table_status (v : TableStatus) (t : Table) : Table :=
  {| table_id := table_id t; table_customer := table_customer t;
     table_status := v; timeOccupied := timeOccupied t |}.

Definition set_table_customer (v : option nat) (t : Table) : Table :=
  {| table_id := table_id t; table_customer := v;
     table_status := table_status t; timeOccupied := timeOccupied t |}.

(** ** The [Customer] class *)

Inductive LeaveReason := waited_too_long | no_available_tables | paid.

(** What [Customer.update] returns when it does not return [null]. *)
Inductive UpdateResult :=
| customer_left (reason : LeaveReason)
| payment_received (amount tip : Q).

(** [new Customer(type, gameTime)].  The four [Math.random()] draws of the
    constructor are [r1] to [r4], in the order the constructor makes
    them. *)
Definition new_Customer (type : CustomerKind) (gameTime : Q) (r1 r2 r3 r4 : Q) : Customer :=
  let customerType := CUSTOMER_TYPES type in
  {| kind := type;
     patience := basePatience customerType * ((8 # 10) + r1 * (4 # 10));
     spendingPower := baseSpend customerType * ((8 # 10) + r2 * (4 # 10));
     tipMultiplier := baseTipMultiplier customerType * ((9 # 10) + r3 * (2 # 10));
     orderPreferences := typePreferences customerType;
     hasSpecialRequest := Qltb r4 (specialRequests customerType);
     arrivalTime := gameTime;
     order := None;
     table := None;
     state := entering;
     satisfaction := 100;
     waitStartTime := 0 |}.

Definition checkBakeryAvailability (i : MenuItem) : bool := true.

(** [array[Math.floor(r * array.length)]]; [Math.random()] returns a number
    in [0, 1), so the index is in range and [default] is never used. *)
Definition random_element {A : Type} (default : A) (l : list A) (r : Q) : A :=
  nth (Z.to_nat (Qfloor (r * inject_Z (Z.of_nat (length l))))) l default.

Definition generateSpecialRequest (r : Q) : SpecialRequest :=
  random_element Extra_hot SPECIAL_REQUESTS r.

(** [generateOrder(availableItems)] up to the assignment of [this.order]:
    the order object it builds, or [None] where it returns [null].  [r1] and
    [r2] are the draws for the item and the quantity, [r3] the draw of
    [generateSpecialRequest], made only for a customer with a special
    request. *)
Definition generateOrder (availableItems : list MenuItem) (r1 r2 r3 : Q) (c : Customer)
  : option Order :=
  let preferredItems :=
    filter
      (fun i => i ∈ availableItems /\
                (menu_requiresBakery (MENU_ITEMS i) = false \/ checkBakeryAvailability i = true))
      (orderPreferences c) in
  let itemsToChooseFrom :=
    match preferredItems with [] => availableItems | _ => preferredItems end in
  match itemsToChooseFrom with
  | [] => None
  | first :: _ =>
      let selectedItem := random_element first itemsToChooseFrom r1 in
      let quantity := (1 + Qfloor (r2 * 3))%Z in
      let itemPrice := menu_price (MENU_ITEMS selectedItem) in
      let totalPrice := itemPrice * inject_Z quantity in
      let prepTime := menu_prepTime (MENU_ITEMS selectedItem) in
      Some {| item := selectedItem; quantity := quantity; totalPrice := totalPrice;
              prepTime := prepTime;
              specialRequest :=
                if hasSpecialRequest c then Some (generateSpecialRequest r3) else None;
              status := pending; timePlaced := 0; timeStarted := None;
              timeCompleted := 0 |}
  end.

(** Number of [Math.random()] calls [generateOrder] makes. *)
Definition generateOrder_draws (availableItems : list MenuItem) (c : Customer) : nat :=
  match generateOrder availableItems 0 0 0 c with
  | None => 0%nat
  | Some _ => if hasSpecialRequest c then 3%nat else 2%nat
  end.

(** [calculateTip()], for an order total [total] and the draw [r]. *)
Definition calculateTip (total : Q) (r : Q) (c : Customer) : Q :=
  let baseTip := total * ((1 # 10) + r * (1 # 10)) in
  let satisfactionModifier := satisfaction c / 100 in
  baseTip * satisfactionModifier * tipMultiplier c.

(** [update(gameTime, timeDelta)]: the customer after the call and the
    value returned.  [total] is [this.order.totalPrice] and [r] the draw of
    [calculateTip]; both are read in the paying branch only. *)
Definition Customer_update (gameTime timeDelta : Q) (total r : Q) (c : Customer)
  : Customer * option UpdateResult :=
  match state c with
  | waiting | waiting_for_order =>
      let waitTime := (gameTime - waitStartTime c) / 60 in
      let c := set_satisfaction (Qmax 0 (100 - waitTime * 5)) c in
      if Qltb (patience c) waitTime
      then (set_state leaving c, Some (customer_left waited_too_long))
      else (c, None)
  | eating =>
      let c := set_satisfaction (Qmin 100 (satisfaction c + timeDelta * (1 # 2))) c in
      if Qltb (10 * 60) (gameTime - waitStartTime c)
      then (set_waitStartTime gameTime (set_state paying c), None)
      else (c, None)
  | paying =>
      if Qltb (1 * 60) (gameTime - waitStartTime c)
      then let c := set_state leaving c in
           (c, Some (payment_received total (calculateTip total r c)))
      else (c, None)
  | _ => (c, None)
  end.


(** ** The [CafeSystem] class

    The state holds the fields of the object, the two object stores, the
    part of the game engine the class reads and writes ([gameTime] and the
    player's [money] and [reputation]), and the environment the class
    talks to: the wall clock with the callbacks registered by [setTimeout],
    and the position in the sequence of [Math.random()] results.
    [busyServers], [queueModel] and [cafeView] are written but never read
    by the methods below, and are left out together with [render] and
    [updateQueueModel], which only write them. *)

Record CafeSystem := {
  gameTime : Q;                        (* this.game.gameTime *)
  money : Q;                           (* this.game.playerStats.money *)
  reputation : Q;                      (* this.game.playerStats.reputation *)
  tables : list Table;
  customers : list nat;
  orders : list nat;
  queue : list nat;
  availableServers : nat;
  dailyEarnings : Q;
  dailyCustomers : nat;
  customerObjs : gmap nat Customer;    (* the Customer objects, by identity *)
  orderObjs : gmap nat Order;          (* the order objects, by identity *)
  clock : Z;                           (* wall clock, in milliseconds *)
  timeouts : list (Z * nat);           (* pending setTimeout callbacks: due time, table to empty *)
  draws : nat                          (* number of Math.random() calls made so far *)
}.

Definition set_gameTime (v : Q) (s : CafeSystem) : CafeSystem :=
  {| gameTime := v; money := money s; reputation := reputation s;
     tables := tables s; customers := customers s; orders := orders s;
     queue := queue s; availableServers := availableServers s;
     dailyEarnings := dailyEarnings s; dailyCustomers := dailyCustomers s;
     customerObjs := customerObjs s; orderObjs := orderObjs s; clock := clock s;
     timeouts := timeouts s; draws := draws s |}.

Definition set_money (v : Q) (s : CafeSystem) : CafeSystem :=
  {| gameTime := gameTime s; money := v; reputation := reputation s;
     tables := tables s; customers := customers s; orders := orders s;
     queue := queue s; availableServers := availableServers s;
     dailyEarnings := dailyEarnings s; dailyCustomers := dailyCustomers s;
     customerObjs := customerObjs s; orderObjs := orderObjs s; clock := clock s;
     timeouts := timeouts s; draws := draws s |}.

Definition set_reputation (v : Q) (s : CafeSystem) : CafeSystem :=
  {| gameTime := gameTime s; money := money s; reputation := v; tables := tables s;
     customers := customers s; orders := orders s; queue := queue s;
     availableServers := availableServers s; dailyEarnings := dailyEarnings s;
     dailyCustomers := dailyCustomers s; customerObjs := customerObjs s;
     orderObjs := orderObjs s; clock := clock s; timeouts := timeouts s;
     draws := draws s |}.

Definition set_tables (v : list Table) (s : CafeSystem) : CafeSystem :=
  {| gameTime := gameTime s; money := money s; reputation := reputation s;
     tables := v; customers := customers s; orders := orders s; queue := queue s;
     availableServers := availableServers s; dailyEarnings := dailyEarnings s;
     dailyCustomers := dailyCustomers s; customerObjs := customerObjs s;
     orderObjs := orderObjs s; clock := clock s; timeouts := timeouts s;
     draws := draws s |}.

Definition set_customers (v : list nat) (s : CafeSystem) : CafeSystem :=
  {| gameTime := gameTime s; money := money s; reputation := reputation s;
     tables := tables s; customers := v; orders := orders s; queue := queue s;
     availableServers := availableServers s; dailyEarnings := dailyEarnings s;
     dailyCustomers := dailyCustomers s; customerObjs := customerObjs s;
     orderObjs := orderObjs s; clock := clock s; timeouts := timeouts s;
     draws := draws s |}.

Definition set_orders (v : list nat) (s : CafeSystem) : CafeSystem :=
  {| gameTime := gameTime s; money := money s; reputation := reputation s;
     tables := tables s; customers := customers s; orders := v; queue := queue s;
     availableServers := availableServers s; dailyEarnings := dailyEarnings s;
     dailyCustomers := dailyCustomers s; customerObjs := customerObjs s;
     orderObjs := orderObjs s; clock := clock s; timeouts := timeouts s;
     draws := draws s |}.

Definition set_queue (v : list nat) (s : CafeSystem) : CafeSystem :=
  {| gameTime := gameTime s; money := money s; reputation := reputation s;
     tables := tables s; customers := customers s; orders := orders s; queue := v;
     availableServers := availableServers s; dailyEarnings := dailyEarnings s;
     dailyCustomers := dailyCustomers s; customerObjs := customerObjs s;
     orderObjs := orderObjs s; clock := clock s; timeouts := timeouts s;
     draws := draws s |}.

Definition set_dailyEarnings (v : Q) (s : CafeSystem) : CafeSystem :=
  {| gameTime := gameTime s; money := money s; reputation := reputation s;
     tables := tables s; customers := customers s; orders := orders s;
     queue := queue s; availableServers := availableServers s; dailyEarnings := v;
     dailyCustomers := dailyCustomers s; customerObjs := customerObjs s;
     orderObjs := orderObjs s; clock := clock s; timeouts := timeouts s;
     draws := draws s |}.

Definition set_dailyCustomers (v : nat) (s : CafeSystem) : CafeSystem :=
  {| gameTime := gameTime s; money := money s; reputation := reputation s;
     tables := tables s; customers := customers s; orders := orders s;
     queue := queue s; availableServers := availableServers s;
     dailyEarnings := dailyEarnings s; dailyCustomers := v;
     customerObjs := customerObjs s; orderObjs := orderObjs s; clock := clock s;
     timeouts := timeouts s; draws := draws s |}.

Definition set_customerObjs (v : gmap nat Customer) (s : CafeSystem) : CafeSystem :=
  {| gameTime := gameTime s; money := money s; reputation := reputation s;
     tables := tables s; customers := customers s; orders := orders s;
     queue := queue s; availableServers := availableServers s;
     dailyEarnings := dailyEarnings s; dailyCustomers := dailyCustomers s;
     customerObjs := v; orderObjs := orderObjs s; clock := clock s;
     timeouts := timeouts s; draws := draws s |}.

Definition set_orderObjs (v : gmap nat Order) (s : CafeSystem) : CafeSystem :=
  {| gameTime := gameTime s; money := money s; reputation := reputation s;
     tables := tables s; customers := customers s; orders := orders s;
     queue := queue s; availableServers := availableServers s;
     dailyEarnings := dailyEarnings s; dailyCustomers := dailyCustomers s;
     customerObjs := customerObjs s; orderObjs := v; clock := clock s;
     timeouts := timeouts s; draws := draws s |}.

Definition set_clock (v : Z) (s : CafeSystem) : CafeSystem :=
  {| gameTime := gameTime s; money := money s; reputation := reputation s;
     tables := tables s; customers := customers s; orders := orders s;
     queue := queue s; availableServers := availableServers s;
     dailyEarnings := dailyEarnings s; dailyCustomers := dailyCustomers s;
     customerObjs := customerObjs s; orderObjs := orderObjs s; clock := v;
     timeouts := timeouts s; draws := draws s |}.

Definition set_timeouts (v : list (Z * nat)) (s : CafeSystem) : CafeSystem :=
  {| gameTime := gameTime s; money := money s; reputation := reputation s;
     tables := tables s; customers := customers s; orders := orders s;
     queue := queue s; availableServers := availableServers s;
     dailyEarnings := dailyEarnings s; dailyCustomers := dailyCustomers s;
     customerObjs := customerObjs s; orderObjs := orderObjs s; clock := clock s;
     timeouts := v; draws := draws s |}.

Definition set_draws (v : nat) (s : CafeSystem) : CafeSystem :=
  {| gameTime := gameTime s; money := money s; reputation := reputation s;
     tables := tables s; customers := customers s; orders := orders s;
     queue := queue s; availableServers := availableServers s;
     dailyEarnings := dailyEarnings s; dailyCustomers := dailyCustomers s;
     customerObjs := customerObjs s; orderObjs := orderObjs s; clock := clock s;
     timeouts := timeouts s; draws := v |}.

Definition initializeTables (count : nat) : list Table :=
  (fun i => {| table_id := i; table_customer := None; table_status := t_empty;
               timeOccupied := 0 |}) <$> seq 0 count.

(** [new CafeSystem(gameEngine)] for an engine at [gameTime] with the given
    player statistics. *)
Definition new_CafeSystem (gameTime money reputation : Q) (clock : Z) : CafeSystem :=
  {| gameTime := gameTime; money := money; reputation := reputation;
     tables := initializeTables 4; customers := []; orders := []; queue := [];
     availableServers := 2; dailyEarnings := 0; dailyCustomers := 0%nat;
     customerObjs := ∅; orderObjs := ∅; clock := clock; timeouts := []; draws := 0%nat |}.

Definition store_customer (cid : nat) (c : Customer) (s : CafeSystem) : CafeSystem :=
  set_customerObjs (<[cid := c]> (customerObjs s)) s.

Definition store_order (oid : nat) (o : Order) (s : CafeSystem) : CafeSystem :=
  set_orderObjs (<[oid := o]> (orderObjs s)) s.

Definition alter_table (f : Table -> Table) (t : nat) (s : CafeSystem) : CafeSystem :=
  set_tables (alter f t (tables s)) s.

(** [table.status = 'dirty'; table.customer = null]. *)
Definition free_table (t : nat) (s : CafeSystem) : CafeSystem :=
  alter_table (fun tb => set_table_customer None (set_table_status t_dirty tb)) t s.

Definition customer_in_state (s : CafeSystem) (st : CustomerState) (cid : nat) : Prop :=
  state <$> customerObjs s !! cid = Some st.

Definition order_has_status (s : CafeSystem) (st : OrderStatus) (oid : nat) : Prop :=
  status <$> orderObjs s !! oid = Some st.

(** [c.order === order], for the customer object [cid] and the order
    object [oid]. *)
Definition holds_order (s : CafeSystem) (oid : nat) (cid : nat) : Prop :=
  order <$> customerObjs s !! cid = Some (Some oid).

Definition table_available (tb : Table) : Prop :=
  table_status tb = t_empty \/ table_status tb = t_dirty.

#[export] Instance customer_in_state_dec s st cid : Decision (customer_in_state s st cid).
Proof. unfold customer_in_state. apply _. Defined.
#[export] Instance order_has_status_dec s st oid : Decision (order_has_status s st oid).
Proof. unfold order_has_status. apply _. Defined.
#[export] Instance holds_order_dec s oid cid : Decision (holds_order s oid cid).
Proof. unfold holds_order. apply _. Defined.
#[export] Instance table_available_dec tb : Decision (table_available tb).
Proof. unfold table_available. apply _. Defined.

Section Engine.

(** The values [Math.random()] returns, in call order; each lies in
    [0, 1). *)
Variable random : nat -> Q.

Definition spawnCustomer (s : CafeSystem) : CafeSystem :=
  let k := draws s in
  let type := random_element student CUSTOMER_TYPE_KEYS (random k) in
  let customer :=
    new_Customer type (gameTime s)
      (random (k + 1)%nat) (random (k + 2)%nat) (random (k + 3)%nat) (random (k + 4)%nat) in
  let cid := fresh (dom (customerObjs s)) in
  let s := set_draws (k + 5)%nat s in
  let s := set_customers (customers s ++ [cid]) s in
  let s := set_queue (queue s ++ [cid]) s in
  store_customer cid (set_waitStartTime (gameTime s) (set_state waiting customer)) s.

Definition handlePayment (cid : nat) (amount tip : Q) (s : CafeSystem) : CafeSystem :=
  match customerObjs s !! cid with
  | None => s
  | Some customer =>
      let s := set_dailyEarnings (dailyEarnings s + (amount + tip)) s in
      let s := set_dailyCustomers (S (dailyCustomers s)) s in
      let s := set_money (money s + (amount + tip)) s in
      let repChange := Qfloor ((satisfaction customer - 50) / 10) in
      let s := set_reputation (Qmax 0 (Qmin 100 (reputation s + inject_Z repChange))) s in
      match table customer with
      | Some t => store_customer cid (set_table None customer) (free_table t s)
      | None => s
      end
  end.

Definition handleCustomerLeave (cid : nat) (reason : LeaveReason) (s : CafeSystem)
  : CafeSystem :=
  match customerObjs s !! cid with
  | None => s
  | Some customer =>
      let s :=
        match reason with
        | waited_too_long => set_reputation (Qmax 0 (reputation s - 2)) s
        | no_available_tables => set_reputation (Qmax 0 (reputation s - 1)) s
        | paid => s
        end in
      let s := match table customer with Some t => free_table t s | None => s end in
      set_queue (filter (fun c => c <> cid) (queue s)) s
  end.

(** [this.order.totalPrice] of a customer. *)
Definition order_total (s : CafeSystem) (c : Customer) : Q :=
  match order c with
  | Some oid => match orderObjs s !! oid with Some o => totalPrice o | None => 0 end
  | None => 0
  end.

(** One iteration of the loop over [this.customers] in [update], at
    index [i]. *)
Definition update_customer_at (timeDelta : Q) (i : nat) (s : CafeSystem) : CafeSystem :=
  match customers s !! i with
  | None => s
  | Some cid =>
      match customerObjs s !! cid with
      | None => s
      | Some customer =>
          let '(customer, result) :=
            Customer_update (gameTime s) timeDelta (order_total s customer)
                            (random (draws s)) customer in
          let s := store_customer cid customer s in
          match result with
          | None => s
          | Some (customer_left reason) =>
              let s := handleCustomerLeave cid reason s in
              set_customers (delete i (customers s)) s
          | Some (payment_received amount tip) =>
              let s := set_draws (S (draws s)) s in
              let s := handlePayment cid amount tip s in
              let s := handleCustomerLeave cid paid s in
              set_customers (delete i (customers s)) s
          end
      end
  end.

(** [for (let i = n - 1; i >= 0; i--)]. *)
Fixpoint update_customers (timeDelta : Q) (n : nat) (s : CafeSystem) : CafeSystem :=
  match n with
  | O => s
  | S i => update_customers timeDelta i (update_customer_at timeDelta i s)
  end.

Definition serveOrder (oid : nat) (s : CafeSystem) : CafeSystem :=
  match list_find (holds_order s oid) (customers s) with
  | None => s
  | Some (_, cid) =>
      match customerObjs s !! cid, orderObjs s !! oid with
      | Some customer, Some order =>
          let customer := set_waitStartTime (gameTime s) (set_state eating customer) in
          let waitTime := (gameTime s - timePlaced order) / 60 in
          let expectedWaitTime := prepTime order * (3 # 2) in
          let customer :=
            if Qltb expectedWaitTime waitTime
            then let waitPenalty := (waitTime - expectedWaitTime) * 5 in
                 set_satisfaction (Qmax 0 (satisfaction customer - waitPenalty)) customer
            else set_satisfaction (Qmin 100 (satisfaction customer + 5)) customer in
          store_order oid (set_status served order) (store_customer cid customer s)
      | _, _ => s
      end
  end.

(** [order.timeStarted || order.timePlaced]: [undefined] and [0] are
    falsy. *)
Definition start_time (o : Order) : Q :=
  match timeStarted o with
  | Some t => if Qeq_bool t 0 then timePlaced o else t
  | None => timePlaced o
  end.

(** Body of the first loop of [processOrders]. *)
Definition startOrder (s : CafeSystem) (oid : nat) : CafeSystem :=
  match orderObjs s !! oid with
  | None => s
  | Some o => store_order oid (set_timeStarted (gameTime s) (set_status preparing o)) s
  end.

(** Body of the second loop of [processOrders]. *)
Definition checkOrder (s : CafeSystem) (oid : nat) : CafeSystem :=
  match orderObjs s !! oid with
  | None => s
  | Some o =>
      let prepTimeElapsed := (gameTime s - start_time o) / 60 in
      if Qle_bool (prepTime o) prepTimeElapsed
      then serveOrder oid
             (store_order oid (set_timeCompleted (gameTime s) (set_status ready o)) s)
      else s
  end.

Definition promoteOrders (s : CafeSystem) : CafeSystem :=
  let pendingOrders := filter (order_has_status s pending) (orders s) in
  let preparingOrders := filter (order_has_status s preparing) (orders s) in
  if bool_decide (length preparingOrders < availableServers s)%nat
     && bool_decide (0 < length pendingOrders)%nat
  then
    let ordersToStart :=
      Nat.min (availableServers s - length preparingOrders) (length pendingOrders) in
    foldl startOrder s (take ordersToStart pendingOrders)
  else s.

Definition processOrders (timeDelta : Q) (s : CafeSystem) : CafeSystem :=
  let s := promoteOrders s in
  foldl checkOrder s (filter (order_has_status s preparing) (orders s)).

(** [findAvailableTable()]: the index of the table found. *)
Definition findAvailableTable (s : CafeSystem) : option nat :=
  fst <$> list_find table_available (tables s).

(** [seatCustomer(customer, table)]: the state after the call and the value
    returned.  [customer.generateOrder] stores the order it builds in
    [customer.order]; the test [if (customer.order)] that follows reads that
    field. *)
Definition seatCustomer (cid t : nat) (s : CafeSystem) : CafeSystem * bool :=
  match customerObjs s !! cid, tables s !! t with
  | Some customer, Some tb =>
      if decide (table_status tb = t_dirty)
      then
        let s := alter_table (set_table_status t_cleaning) t s in
        (set_timeouts (timeouts s ++ [((clock s + 3000)%Z, t)]) s, false)
      else
        let s :=
          alter_table (fun tb => set_table_status t_waiting (set_table_customer (Some cid) tb))
                      t s in
        let customer :=
          set_waitStartTime (gameTime s) (set_state waiting (set_table (Some t) customer)) in
        let availableItems := MENU_KEYS in
        let k := draws s in
        let generated :=
          generateOrder availableItems (random k) (random (k + 1)%nat) (random (k + 2)%nat)
                        customer in
        let s := set_draws (k + generateOrder_draws availableItems customer)%nat s in
        let s :=
          match generated with
          | Some o =>
              let oid := fresh (dom (orderObjs s)) in
              store_customer cid (set_order (Some oid) customer) (store_order oid o s)
          | None => store_customer cid customer s
          end in
        match customerObjs s !! cid with
        | Some customer =>
            match order customer with
            | Some oid =>
                let s :=
                  set_orderObjs (alter (set_timePlaced (gameTime s)) oid (orderObjs s)) s in
                let s := set_orders (orders s ++ [oid]) s in
                (store_customer cid (set_state waiting_for_order customer) s, true)
            | None => (s, true)
            end
        | None => (s, true)
        end
  | _, _ => (s, false)
  end.

(** [seatCustomer] with the call of [generateOrder] resolved: on the full
    menu it always builds an order, which is then placed.  The two
    definitions agree (lemma [seatCustomer_placed]); the proofs work with
    this one. *)
Definition seatCustomer_placing (cid t : nat) (s : CafeSystem) : CafeSystem * bool :=
  match customerObjs s !! cid, tables s !! t with
  | Some customer, Some tb =>
      if decide (table_status tb = t_dirty)
      then
        let s := alter_table (set_table_status t_cleaning) t s in
        (set_timeouts (timeouts s ++ [((clock s + 3000)%Z, t)]) s, false)
      else
        let s :=
          alter_table (fun tb => set_table_status t_waiting (set_table_customer (Some cid) tb))
                      t s in
        let customer :=
          set_waitStartTime (gameTime s) (set_state waiting (set_table (Some t) customer)) in
        let k := draws s in
        let generated :=
          generateOrder MENU_KEYS (random k) (random (k + 1)%nat) (random (k + 2)%nat)
                        customer in
        let s := set_draws (k + generateOrder_draws MENU_KEYS customer)%nat s in
        match generated with
        | Some o =>
            let oid := fresh (dom (orderObjs s)) in
            let customer := set_order (Some oid) customer in
            let s := store_order oid (set_timePlaced (gameTime s) o) s in
            let s := set_orders (orders s ++ [oid]) s in
            (store_customer cid (set_state waiting_for_order customer) s, true)
        | None => (store_customer cid customer s, true)
        end
  | _, _ => (s, false)
  end.

(** The [for ... of waitingCustomers] loop of [processQueue], with its
    [break]. *)
Fixpoint seat_waiting (waitingCustomers : list nat) (s : CafeSystem) : CafeSystem :=
  match waitingCustomers with
  | [] => s
  | cid :: rest =>
      match findAvailableTable s with
      | Some t =>
          let s := fst (seatCustomer cid t s) in
          let s := set_queue (filter (fun c => c <> cid) (queue s)) s in
          seat_waiting rest s
      | None => s
      end
  end.

Definition processQueue (s : CafeSystem) : CafeSystem :=
  let waitingCustomers := filter (customer_in_state s waiting) (queue s) in
  seat_waiting waitingCustomers s.

Definition update (timeDelta : Q) (s : CafeSystem) : CafeSystem :=
  let s := update_customers timeDelta (length (customers s)) s in
  let s := processOrders timeDelta s in
  let s := processQueue s in
  let r := random (draws s) in
  let s := set_draws (S (draws s)) s in
  if Qltb r (5 # 100) && bool_decide (length (customers s) < 10)%nat
  then spawnCustomer s
  else s.

(** ** The environment

    What happens to a cafe between construction and now: the game loop
    advances the game time and calls [update]; a button or a start-up timer
    calls [spawnCustomer]; wall-clock time passes; a [setTimeout] callback
    that is due runs. *)

Inductive Event :=
| Frame (gameTime timeDelta : Q)   (* game.gameTime = gameTime; cafe.update(timeDelta) *)
| Spawn                            (* cafe.spawnCustomer() *)
| Elapse (ms : Z)                  (* ms milliseconds of wall-clock time pass *)
| Timeout (k : nat).               (* the k-th pending callback runs, if due *)

(** The callback registered by [seatCustomer]: [table.status = 'empty']. *)
Definition run_timeout (k : nat) (s : CafeSystem) : CafeSystem :=
  match timeouts s !! k with
  | Some (due, t) =>
      if bool_decide (due <= clock s)%Z
      then set_timeouts (delete k (timeouts s)) (alter_table (set_table_status t_empty) t s)
      else s
  | None => s
  end.

Definition step (s : CafeSystem) (e : Event) : CafeSystem :=
  match e with
  | Frame g dt => update dt (set_gameTime g s)
  | Spawn => spawnCustomer s
  | Elapse ms => set_clock (clock s + Z.max 0 ms)%Z s
  | Timeout k => run_timeout k s
  end.

Definition run (s : CafeSystem) (events : list Event) : CafeSystem :=
  foldl step s events.

End Engine.

(** ** Invariants of the order pipeline *)

Definition preparing_count (s : CafeSystem) : nat :=
  length (filter (order_has_status s preparing) (orders s)).

(** [this.orders] holds each order object once, every entry is a live
    object, and no more orders are being prepared than there are servers. *)
Record orders_ok (s : CafeSystem) : Prop := {
  orders_nodup : NoDup (orders s);
  orders_live : forall oid, oid ∈ orders s -> is_Some (orderObjs s !! oid);
  preparing_bounded : (preparing_count s <= availableServers s)%nat
}.

(** ** Invariants of the customers *)

(** A customer record is sound at game time [g]: its satisfaction is a
    percentage and it did not start waiting in the future. *)
Definition sound_customer (g : Q) (c : Customer) : Prop :=
  0 <= satisfaction c /\ satisfaction c <= 100 /\ waitStartTime c <= g.

Definition customers_sound (s : CafeSystem) : Prop :=
  map_Forall (fun _ c => sound_customer (gameTime s) c) (customerObjs s).

(** The game clock of a trace never runs backwards and every frame passes a
    non-negative [timeDelta]. *)
Fixpoint monotone_frames (g : Q) (events : list Event) : Prop :=
  match events with
  | [] => True
  | Frame g' dt :: rest => g <= g' /\ 0 <= dt /\ monotone_frames g' rest
  | _ :: rest => monotone_frames g rest
  end.


(** The part of the state only the environment changes. *)
Definition env_view (s : CafeSystem) : Q * Z * nat :=
  (gameTime s, clock s, availableServers s).


(** ** Invariants of the seating *)

Definition status_at (s : CafeSystem) (t : nat) : option TableStatus :=
  table_status <$> tables s !! t.

(** Every active customer is a distinct live object; a customer that
    holds a table sits at it, and the table is occupied ([t_waiting]) with
    a reference back to that customer; tables with another status hold
    nobody; each pending timeout is for a distinct table that is being
    cleaned. *)
Record tables_ok (s : CafeSystem) : Prop := {
  customers_nodup : NoDup (customers s);
  customers_live : forall cid, cid ∈ customers s -> is_Some (customerObjs s !! cid);
  seated_at : forall cid c t,
    cid ∈ customers s -> customerObjs s !! cid = Some c -> table c = Some t ->
    exists tb, tables s !! t = Some tb /\ table_status tb = t_waiting /\
               table_customer tb = Some cid;
  unoccupied : forall t tb,
    tables s !! t = Some tb -> table_status tb <> t_waiting -> table_customer tb = None;
  timeouts_cleaning : forall due t,
    (due, t) ∈ timeouts s -> status_at s t = Some t_cleaning;
  timeouts_nodup : NoDup (timeouts s).*2
}.

(** The queue holds distinct active customers that are waiting, without a
    table and without an order. *)
Record queue_ok (s : CafeSystem) : Prop := {
  queue_nodup : NoDup (queue s);
  queue_waiting : forall cid,
    cid ∈ queue s ->
    cid ∈ customers s /\
    exists c, customerObjs s !! cid = Some c /\
              state c = waiting /\ table c = None /\ order c = None
}.


(** The part of the state the seating invariant speaks about. *)
Definition seat_view (s : CafeSystem)
  : list nat * gmap nat Customer * list Table * list (Z * nat) :=
  (customers s, customerObjs s, tables s, timeouts s).

(** [table.customer = customer; table.status = 'waiting']. *)
Definition occupied_by (cid : nat) (tb : Table) : Table :=
  set_table_status t_waiting (set_table_customer (Some cid) tb).


(** The part of the state the queue invariant speaks about. *)
Definition queue_view (s : CafeSystem) : list nat * list nat * gmap nat Customer :=
  (customers s, queue s, customerObjs s).


(** ** A concrete run

    The engine starts the cafe at 6:00 AM (game time 360) with 1000 in money
    and a reputation of 50.  [steady] is a random source that always
    returns 0.5: every customer is a tourist with a patience of 15 minutes
    who orders two teas, and [update] never spawns a customer by itself. *)

Definition steady : nat -> Q := fun _ => 1 # 2.

Definition opening : CafeSystem := new_CafeSystem 360 1000 50 0.


(** ** Orders are kept in the order they were placed *)

Definition placed_at (s : CafeSystem) (oid : nat) : option Q :=
  timePlaced <$> orderObjs s !! oid.

(** [this.orders] is sorted by [timePlaced], and no order was placed in the
    future. *)
Record placement_ok (s : CafeSystem) : Prop := {
  placed_in_order : forall i j a b ta tb,
    (i <= j)%nat -> orders s !! i = Some a -> orders s !! j = Some b ->
    placed_at s a = Some ta -> placed_at s b = Some tb -> ta <= tb;
  placed_in_past : forall a ta,
    a ∈ orders s -> placed_at s a = Some ta -> ta <= gameTime s
}.


(** ** Auxiliary notions for the order pipeline and the tables *)

(** The part of the state the order pipeline lives in. *)
Definition order_view (s : CafeSystem) : list nat * gmap nat Order * nat :=
  (orders s, orderObjs s, availableServers s).

(** What [startOrder] writes into an order. *)
Definition started (g : Q) (o : Order) : Order :=
  set_timeStarted g (set_status preparing o).

(** The guard of the promotion step only skips a loop that would run zero
    times. *)
Definition ordersToStart (s : CafeSystem) : nat :=
  Nat.min (availableServers s - preparing_count s)
          (length (filter (order_has_status s pending) (orders s))).

(** The customer [serveOrder] finds for an order. *)
Definition holder (s : CafeSystem) (oid : nat) : option (nat * nat) :=
  list_find (holds_order s oid) (customers s).

(** What the completion check writes into an order that is due. *)
Definition completed (g : Q) (o : Order) : Order :=
  set_timeCompleted g (set_status ready o).

Definition is_due (g : Q) (o : Order) : bool :=
  Qle_bool (prepTime o) ((g - start_time o) / 60).

(** [table.status = 'dirty'; table.customer = null]. *)
Definition freed (tb : Table) : Table :=
  set_table_customer None (set_table_status t_dirty tb).

(** ** The terminal events of a tick

    [update] returns nothing.  What its customer loop does with the values
    [Customer.update] returns is recorded here on the side: [tick_results]
    lists, for the iterations from index [n - 1] down to 0, each value
    returned together with the record of the customer that returned it;
    [apply_result] is the effect the handlers [handlePayment] and
    [handleCustomerLeave] have on the player's money and reputation. *)

Fixpoint tick_results (random : nat -> Q) (timeDelta : Q) (n : nat) (s : CafeSystem)
  : list (Customer * UpdateResult) :=
  match n with
  | O => []
  | S i =>
      let rest := tick_results random timeDelta i (update_customer_at random timeDelta i s) in
      match customers s !! i with
      | Some cid =>
          match customerObjs s !! cid with
          | Some c =>
              let cr := Customer_update (gameTime s) timeDelta (order_total s c)
                                        (random (draws s)) c in
              match cr.2 with
              | Some result => (cr.1, result) :: rest
              | None => rest
              end
          | None => rest
          end
      | None => rest
      end
  end.

Definition apply_result (stats : Q * Q) (cr : Customer * UpdateResult) : Q * Q :=
  match cr.2 with
  | payment_received amount tip =>
      (stats.1 + (amount + tip),
       Qmax 0 (Qmin 100 (stats.2 + inject_Z (Qfloor ((satisfaction cr.1 - 50) / 10)))))
  | customer_left waited_too_long => (stats.1, Qmax 0 (stats.2 - 2))
  | customer_left no_available_tables => (stats.1, Qmax 0 (stats.2 - 1))
  | customer_left paid => stats
  end.

(** The player statistics the cafe shares with the engine. *)
Definition stats_view (s : CafeSystem) : Q * Q := (money s, reputation s).


(** The outcome of the completion check for an order in preparation. *)
Definition checked (s : CafeSystem) (oid : nat) (o : Order) : Order :=
  if is_due (gameTime s) o
  then match holder s oid with
       | Some _ => set_status served (completed (gameTime s) o)
       | None => completed (gameTime s) o
       end
  else o.

(** No frame of [events] comes at a game time at which the order [o] is
    due. *)
Definition frames_not_due (o : Order) (events : list Event) : bool :=
  forallb (fun e => match e with Frame g _ => negb (is_due g o) | _ => true end) events.


(** A customer that has left: it is on neither list and its record is
    [c]. *)
Definition departed (s : CafeSystem) (cid : nat) (c : Customer) : Prop :=
  (cid ∉ customers s) /\ (cid ∉ queue s) /\ customerObjs s !! cid = Some c.


(** The customer is on [this.customers], waiting without a table and
    without an order, with patience [P], and its wait began at game time
    [W]. *)
Definition waits_since (P W : Q) (s : CafeSystem) (cid : nat) : Prop :=
  cid ∈ customers s /\
  exists c, customerObjs s !! cid = Some c /\
            state c = waiting /\ table c = None /\ order c = None /\
            patience c = P /\ waitStartTime c = W.

(** The customer has been given a table. *)
Definition seated (s : CafeSystem) (cid : nat) : bool :=
  match customerObjs s !! cid with
  | Some c => match table c with Some _ => true | None => false end
  | None => false
  end.

(** No seat is available to the customer: none of the events gives it a
    table. *)
Fixpoint never_seated (random : nat -> Q) (s : CafeSystem) (cid : nat)
    (events : list Event) : bool :=
  match events with
  | [] => true
  | e :: rest =>
      let s' := step random s e in
      negb (seated s' cid) && never_seated random s' cid rest
  end.

(** At every frame of [events] a wait that began at [W] has lasted at
    most [P] minutes. *)
Definition frames_within (P W : Q) (events : list Event) : bool :=
  forallb (fun e => match e with
                    | Frame g _ => Qle_bool ((g - W) / 60) P
                    | _ => true
                    end) events.


(** ** The life of a table *)

(** What one pass of the customer loop can do to the status of a table:
    nothing, or occupied to dirty when its customer leaves. *)
Definition vacates (st st' : option TableStatus) : Prop :=
  st' = st \/ (st = Some t_waiting /\ st' = Some t_dirty).

(** What one pass of the seating loop can do to the status of a table:
    nothing, empty to occupied, or dirty to cleaning. *)
Definition takes (st st' : option TableStatus) : Prop :=
  st' = st \/ (st = Some t_empty /\ st' = Some t_waiting) \/
  (st = Some t_dirty /\ st' = Some t_cleaning).

(** What one event can do to the status of a table. *)
Definition table_step (e : Event) (st st' : option TableStatus) : Prop :=
  match e with
  | Frame _ _ =>
      st' = st \/
      (st = Some t_empty /\ st' = Some t_waiting) \/
      (st = Some t_waiting /\ st' = Some t_dirty) \/
      (st = Some t_waiting /\ st' = Some t_cleaning) \/
      (st = Some t_dirty /\ st' = Some t_cleaning)
  | Timeout _ => st' = st \/ (st = Some t_cleaning /\ st' = Some t_empty)
  | Spawn | Elapse _ => st' = st
  end.

(** Callbacks present after a pass of the seating loop were there before,
    or were registered in the pass, 3000 ms ahead, for a table that was
    dirty. *)
Definition registered (s s' : CafeSystem) : Prop :=
  forall due t,
    (due, t) ∈ timeouts s' ->
    (due, t) ∈ timeouts s \/
    (status_at s t = Some t_dirty /\ due = (clock s + 3000)%Z).

(** Table [t] is dirty, or is being cleaned with no callback for it due
    before wall-clock time [D]; [D] is at most 3000 ms away while the table
    is still dirty. *)
Definition not_clean_before (t : nat) (D : Z) (s : CafeSystem) : Prop :=
  (status_at s t = Some t_dirty /\ (D <= clock s + 3000)%Z) \/
  (status_at s t = Some t_cleaning /\ forall due, (due, t) ∈ timeouts s -> (D <= due)%Z).


(** ** Customers the queue has lost *)

(** An active customer that is waiting, without a table and without an
    order, and is not in the queue. *)
Definition stranded (s : CafeSystem) (cid : nat) : Prop :=
  cid ∈ customers s /\ (cid ∉ queue s) /\
  exists c, customerObjs s !! cid = Some c /\
            state c = waiting /\ table c = None /\ order c = None.

(** A customer that has left without ever having had a table or an
    order. *)
Definition abandoned (s : CafeSystem) (cid : nat) : Prop :=
  exists c, departed s cid c /\ state c = leaving /\ table c = None /\ order c = None.


(** A morning with all four tables taken.  Customer 0 arrives first and is
    served first; customers 1, 2 and 3 take the other tables; at game time
    1083 customer 0 starts paying and the customers A = 4, B = 5 and C = 6
    arrive, in that order, and queue. *)
Definition full_house : list Event :=
  [Spawn; Frame 361 1; Frame 362 1; Frame 482 1;
   Spawn; Spawn; Spawn; Frame 483 1; Frame 484 1; Frame 604 1; Frame 724 1; Frame 844 1;
   Frame 1083 1; Spawn; Spawn; Spawn].


End Cafe.

Module MmcQueries.
Import Mmc.

(** The comparisons of JS numbers the search uses. *)
Class JsCompare (num : Type) := {
  num_leb : num -> num -> bool;
  num_ltb : num -> num -> bool
}.

#[export] Instance float_JsCompare : JsCompare float := {
  num_leb := PrimFloat.leb;
  num_ltb := PrimFloat.ltb
}.

#[export] Instance Q_JsCompare : JsCompare Q := {
  num_leb := Qle_bool;
  num_ltb x y := negb (Qle_bool y x)
}.

(** Every division the constructor and [calculateAverageTimeInQueue] make
    for the model has a divisor other than zero: the rates, the server
    count, [1 - rho], and the sum whose inverse is [probabilityZero]
    (an inverse is zero only where the divisor is).  The metrics of such a
    model are the exact values of the closed forms. *)
Definition defined (m : QueueingModel Q) : bool :=
  negb (Qeq_bool (serviceRate m) 0) && negb (servers m =? 0)%nat
  && negb (Qeq_bool (arrivalRate m) 0) && negb (Qeq_bool (trafficIntensity m) 1)
  && negb (Qeq_bool (probabilityZero m) 0).

(** The integer a binary64 number is, if it is one. *)
Definition float_integer (f : float) : option Z :=
  match Prim2SF f with
  | S754_zero _ => Some 0%Z
  | S754_finite negative m e =>
      let magnitude :=
        if (0 <=? e)%Z then Some (Z.pos m * 2 ^ e)%Z
        else if (Z.pos m mod 2 ^ (- e) =? 0)%Z then Some (Z.pos m / 2 ^ (- e))%Z
        else None in
      (fun z => if negative then (- z)%Z else z) <$> magnitude
  | _ => None
  end.

Section Queries.
Context {num : Type} `{JsNum num} `{JsCompare num}.

(** [probabilityOfNCustomers(n)], for a count [n] of customers. *)
Definition probabilityOfNCustomers (m : QueueingModel num) (n : nat) : num :=
  if (n <? servers m)%nat
  then num_mul (num_div (Math_pow (num_div (arrivalRate m) (serviceRate m)) n) (factorial n))
               (probabilityZero m)
  else num_mul
         (num_div (Math_pow (num_div (arrivalRate m) (serviceRate m)) n)
                  (num_mul (Math_pow (num_of_nat (servers m)) (n - servers m))
                           (factorial (servers m))))
         (probabilityZero m).

Definition probabilityOfWaiting (m : QueueingModel num) : num :=
  let rho := trafficIntensity m in
  let numerator :=
    num_mul (Math_pow (num_div (arrivalRate m) (serviceRate m)) (servers m))
            (probabilityZero m) in
  let denominator := num_mul (factorial (servers m)) (num_sub (num_of_nat 1) rho) in
  num_div numerator denominator.

(** [model.calculateAverageTimeInQueue()] called on a constructed model. *)
Definition waitOf (m : QueueingModel num) : num :=
  calculateAverageTimeInQueue (averageQueueLength m) (arrivalRate m).

(** The first loop of [optimizeServersForWaitTime]:
    [while (servers > 1)], with its [break]. *)
Fixpoint fewer_servers (lambda mu target : num) (servers : nat) : nat :=
  match servers with
  | S (S _ as fewer) =>
      let testModel := new_QueueingModel lambda mu fewer in
      if num_ltb target (waitOf testModel)
      then servers
      else fewer_servers lambda mu target fewer
  | _ => servers
  end.

(** The second loop, [while (currentWait > targetWaitTime)], run for at
    most [fuel] iterations. *)
Fixpoint more_servers (fuel : nat) (lambda mu target : num) (servers : nat)
    (currentWait : num) : option nat :=
  if num_ltb target currentWait
  then match fuel with
       | O => None
       | S fuel =>
           let servers := S servers in
           let testModel := new_QueueingModel lambda mu servers in
           more_servers fuel lambda mu target servers (waitOf testModel)
       end
  else Some servers.

Definition optimizeServersForWaitTime (fuel : nat) (m : QueueingModel num)
    (targetWaitTime : num) : option nat :=
  let currentWait := waitOf m in
  if num_leb currentWait targetWaitTime
  then Some (fewer_servers (arrivalRate m) (serviceRate m) targetWaitTime (servers m))
  else more_servers fuel (arrivalRate m) (serviceRate m) targetWaitTime (servers m)
                    currentWait.

End Queries.
End MmcQueries.

Module QueueSimulation.
#[local] Open Scope Q_scope.

(** A service time or a server's remaining busy time: an integer, or one
    of the two values [Math.ceil] returns when [2 / serviceProb] is a
    division by zero. *)
Inductive JsCount := Count (z : Z) | Infinity | NaN.

(** [Math.ceil(r * (2 / serviceProb))]. *)
Definition serviceTimeOf (serviceProb r : Q) : JsCount :=
  if Qeq_bool serviceProb 0
  then if Qeq_bool r 0 then NaN else Infinity
  else Count (Qceiling (r * (2 / serviceProb))).

(** [busy > 0]. *)
Definition is_busy (busy : JsCount) : bool :=
  match busy with
  | Count z => (0 <? z)%Z
  | Infinity => true
  | NaN => false
  end.

(** [busy--]. *)
Definition decrement (busy : JsCount) : JsCount :=
  match busy with
  | Count z => Count (z - 1)
  | other => other
  end.

(** [busy === 0]. *)
Definition is_idle (busy : JsCount) : bool :=
  match busy with
  | Count z => (z =? 0)%Z
  | _ => false
  end.

(** An entry of the simulation's queue. *)
Record Arrival := {
  sim_arrivalTime : nat;
  sim_serviceTime : JsCount
}.

(** The variables of the simulation loop: the local [queue], [serverBusy]
    and [totalWaitTime], the counters of [results], and the number of
    [Math.random()] calls made so far. *)
Record SimState := {
  sim_queue : list Arrival;
  sim_serverBusy : list JsCount;
  sim_totalCustomers : nat;
  sim_servedCustomers : nat;
  sim_maxQueueLength : nat;
  sim_busyMinutes : list nat;           (* results.serverUtilization, before the final map *)
  sim_totalWaitTime : Z;
  sim_draws : nat
}.

Record SimResults := {
  totalCustomers : nat;
  servedCustomers : nat;
  averageWaitTime : Q;
  maxQueueLength : nat;
  serverUtilization : list Q
}.

Section Simulation.

(** [Math.random()], in call order, and [Math.exp]. *)
Variable random : nat -> Q.
Variable Math_exp : Q -> Q.

Definition sim_start (servers : nat) : SimState :=
  {| sim_queue := []; sim_serverBusy := replicate servers (Count 0);
     sim_totalCustomers := 0; sim_servedCustomers := 0; sim_maxQueueLength := 0;
     sim_busyMinutes := replicate servers 0%nat; sim_totalWaitTime := 0; sim_draws := 0 |}.

(** The arrival step of one minute. *)
Definition sim_arrive (arrivalProb serviceProb : Q) (minute : nat) (st : SimState)
  : SimState :=
  let k := sim_draws st in
  if Cafe.Qltb (random k) arrivalProb
  then {| sim_queue :=
            sim_queue st ++
            [{| sim_arrivalTime := minute;
                sim_serviceTime := serviceTimeOf serviceProb (random (S k)) |}];
          sim_serverBusy := sim_serverBusy st;
          sim_totalCustomers := S (sim_totalCustomers st);
          sim_servedCustomers := sim_servedCustomers st;
          sim_maxQueueLength := sim_maxQueueLength st;
          sim_busyMinutes := sim_busyMinutes st;
          sim_totalWaitTime := sim_totalWaitTime st;
          sim_draws := S (S k) |}
  else {| sim_queue := sim_queue st; sim_serverBusy := sim_serverBusy st;
          sim_totalCustomers := sim_totalCustomers st;
          sim_servedCustomers := sim_servedCustomers st;
          sim_maxQueueLength := sim_maxQueueLength st;
          sim_busyMinutes := sim_busyMinutes st;
          sim_totalWaitTime := sim_totalWaitTime st;
          sim_draws := S k |}.

(** The body of the loop over the servers, for server [i]. *)
Definition sim_server (minute : nat) (st : SimState) (i : nat) : SimState :=
  match sim_serverBusy st !! i with
  | None => st
  | Some busy =>
      let '(busy, busyMinutes) :=
        if is_busy busy
        then (decrement busy, alter S i (sim_busyMinutes st))
        else (busy, sim_busyMinutes st) in
      match sim_queue st with
      | customer :: rest =>
          if is_idle busy
          then {| sim_queue := rest;
                  sim_serverBusy := <[i := sim_serviceTime customer]> (sim_serverBusy st);
                  sim_totalCustomers := sim_totalCustomers st;
                  sim_servedCustomers := S (sim_servedCustomers st);
                  sim_maxQueueLength := sim_maxQueueLength st;
                  sim_busyMinutes := busyMinutes;
                  sim_totalWaitTime :=
                    (sim_totalWaitTime st +
                     (Z.of_nat minute - Z.of_nat (sim_arrivalTime customer)))%Z;
                  sim_draws := sim_draws st |}
          else {| sim_queue := sim_queue st;
                  sim_serverBusy := <[i := busy]> (sim_serverBusy st);
                  sim_totalCustomers := sim_totalCustomers st;
                  sim_servedCustomers := sim_servedCustomers st;
                  sim_maxQueueLength := sim_maxQueueLength st;
                  sim_busyMinutes := busyMinutes;
                  sim_totalWaitTime := sim_totalWaitTime st;
                  sim_draws := sim_draws st |}
      | [] => {| sim_queue := [];
                 sim_serverBusy := <[i := busy]> (sim_serverBusy st);
                 sim_totalCustomers := sim_totalCustomers st;
                 sim_servedCustomers := sim_servedCustomers st;
                 sim_maxQueueLength := sim_maxQueueLength st;
                 sim_busyMinutes := busyMinutes;
                 sim_totalWaitTime := sim_totalWaitTime st;
                 sim_draws := sim_draws st |}
      end
  end.

(** The update of [results.maxQueueLength] that ends a minute. *)
Definition sim_measure (st : SimState) : SimState :=
  {| sim_queue := sim_queue st; sim_serverBusy := sim_serverBusy st;
     sim_totalCustomers := sim_totalCustomers st;
     sim_servedCustomers := sim_servedCustomers st;
     sim_maxQueueLength :=
       if (sim_maxQueueLength st <? length (sim_queue st))%nat
       then length (sim_queue st) else sim_maxQueueLength st;
     sim_busyMinutes := sim_busyMinutes st;
     sim_totalWaitTime := sim_totalWaitTime st;
     sim_draws := sim_draws st |}.

(** One iteration of the loop over the minutes. *)
Definition sim_minute (arrivalProb serviceProb : Q) (servers : nat) (st : SimState)
    (minute : nat) : SimState :=
  let st := sim_arrive arrivalProb serviceProb minute st in
  let st := foldl (sim_server minute) st (seq 0 servers) in
  sim_measure st.

(** The state when the loop over the minutes has ended. *)
Definition sim_run (duration : nat) (arrivalRate serviceRate : Q) (servers : nat)
  : SimState :=
  let arrivalProb := 1 - Math_exp (- arrivalRate / 60) in
  let serviceProb := 1 - Math_exp (- serviceRate / 60) in
  foldl (sim_minute arrivalProb serviceProb servers) (sim_start servers) (seq 0 duration).

(** [simulateQueue({duration, arrivalRate, serviceRate, servers})], for a
    whole number of minutes and of servers.  [duration] is not 0 where the
    utilization is read: [u / 0] is NaN. *)
Definition simulateQueue (duration : nat) (arrivalRate serviceRate : Q) (servers : nat)
  : SimResults :=
  let st := sim_run duration arrivalRate serviceRate servers in
  {| totalCustomers := sim_totalCustomers st;
     servedCustomers := sim_servedCustomers st;
     averageWaitTime :=
       if (0 <? sim_servedCustomers st)%nat
       then inject_Z (sim_totalWaitTime st) / inject_Z (Z.of_nat (sim_servedCustomers st))
       else 0;
     maxQueueLength := sim_maxQueueLength st;
     serverUtilization :=
       (fun u => inject_Z (Z.of_nat u) / inject_Z (Z.of_nat duration)) <$> sim_busyMinutes st |}.

End Simulation.

(** ** Invariants of the simulation loop *)

(** The counters agree with the queue, and the two arrays keep their
    length. *)
Record sim_counted (servers : nat) (st : SimState) : Prop := {
  sim_conserved :
    sim_totalCustomers st = (sim_servedCustomers st + length (sim_queue st))%nat;
  sim_max_le_total : (sim_maxQueueLength st <= sim_totalCustomers st)%nat;
  sim_busy_length : length (sim_serverBusy st) = servers;
  sim_minutes_length : length (sim_busyMinutes st) = servers
}.

(** In minute [minute] or before it: everybody queued has arrived, and
    nobody served has waited longer than the simulation has run. *)
Record sim_timed (minute : nat) (st : SimState) : Prop := {
  sim_arrived : Forall (fun a => (sim_arrivalTime a <= minute)%nat) (sim_queue st);
  sim_wait_bounds :
    (0 <= sim_totalWaitTime st <= Z.of_nat (sim_servedCustomers st) * Z.of_nat minute)%Z
}.

(** The servers below [done] have been busy for at most [S minute]
    minutes, the others for at most [minute]. *)
Definition sim_utilized (minute done : nat) (st : SimState) : Prop :=
  forall i u, sim_busyMinutes st !! i = Some u ->
              (u <= (if (i <? done)%nat then S minute else minute))%nat.

(** What holds when [minutes] minutes have been simulated. *)
Record sim_ok (servers minutes : nat) (st : SimState) : Prop := {
  sim_ok_counted : sim_counted servers st;
  sim_ok_total : (sim_totalCustomers st <= minutes)%nat;
  sim_ok_timed : sim_timed minutes st;
  sim_ok_utilized : sim_utilized minutes 0 st;
  sim_ok_measured : (length (sim_queue st) <= sim_maxQueueLength st)%nat
}.

End QueueSimulation.

Module CafeInvariants.
Import Cafe.
#[local] Open Scope Q_scope.

(** ** The books of the cafe *)

(** The part of the state the payments are booked in. *)
Definition books_view (s : CafeSystem) : Q * Q * Q * nat :=
  (money s, reputation s, dailyEarnings s, dailyCustomers s).

(** The player's money is the money the cafe started with plus the
    earnings it has booked, and the reputation is a percentage. *)
Record books_ok (startMoney : Q) (s : CafeSystem) : Prop := {
  books_balance : money s == startMoney + dailyEarnings s;
  books_reputation : 0 <= reputation s /\ reputation s <= 100
}.

(** ** Cleaning always ends *)

(** Every table that is being cleaned has a callback pending for it, due
    no later than 3000 ms from now. *)
Definition cleaning_scheduled (s : CafeSystem) : Prop :=
  forall t, status_at s t = Some t_cleaning ->
            exists due, (due, t) ∈ timeouts s /\ (due <= clock s + 3000)%Z.

End CafeInvariants.

Module Management.
Import String.StringSyntax.
#[local] Open Scope Q_scope.
#[local] Open Scope string_scope.

(** ** Game data *)

Record Equipment := {
  cost : Q;
  equipment_rep : option Q
}.

(** [equipmentData[itemId]]. *)
Definition equipmentData (itemId : String.string) : option Equipment :=
  if String.eqb itemId "coffee-machine"
  then Some {| cost := 500; equipment_rep := Some 10 |}
  else if String.eqb itemId "pro-coffee-machine"
  then Some {| cost := 1200; equipment_rep := Some 25 |}
  else if String.eqb itemId "pastry-display"
  then Some {| cost := 300; equipment_rep := Some 5 |}
  else if String.eqb itemId "desk"
  then Some {| cost := 150; equipment_rep := None |}
  else if String.eqb itemId "premium-chair"
  then Some {| cost := 250; equipment_rep := Some 5 |}
  else None.

Record Staff := {
  dailyCost : Q;
  staff_rep : option Q
}.

(** [staffData[itemId]]. *)
Definition staffData (itemId : String.string) : option Staff :=
  if String.eqb itemId "barista"
  then Some {| dailyCost := 50; staff_rep := Some 10 |}
  else None.

(** ** The management system

    The state holds [isPanelOpen], the fields of [mgmtState], the part of
    the game engine the class reads and writes ([playerStats] and
    [isPaused]), and what the class shows: the [disabled] flags of the
    purchase buttons and the alerts raised.  The text contents written by
    [updateUI] and the console output are left out. *)

Inductive CoffeeMachine := machine_none | machine_basic | machine_pro.

Record ManagementSystem := {
  isPanelOpen : bool;
  coffeeMachine : CoffeeMachine;
  hasPastryDisplay : bool;
  coworkingDesks : nat;
  premiumChairs : nat;
  hasBarista : bool;
  deskCapacity : nat;
  baseRent : Q;
  money : Q;                            (* game.playerStats.money *)
  reputation : Q;                       (* game.playerStats.reputation *)
  day : nat;                            (* game.playerStats.day *)
  customersServed : Z;                  (* game.playerStats.customersServed *)
  isPaused : bool;                      (* game.isPaused *)
  disabledButtons : list (String.string * bool);
  alerts : list String.string
}.

(** [new ManagementSystem(game)], for an engine with the given player
    statistics. *)
Definition new_ManagementSystem (money reputation : Q) (day : nat) (customersServed : Z)
    (isPaused : bool) : ManagementSystem :=
  {| isPanelOpen := false; coffeeMachine := machine_none; hasPastryDisplay := false;
     coworkingDesks := 0; premiumChairs := 0; hasBarista := false; deskCapacity := 6;
     baseRent := 20; money := money; reputation := reputation; day := day;
     customersServed := customersServed; isPaused := isPaused;
     disabledButtons := []; alerts := [] |}.

Definition set_isPanelOpen (v : bool) (s : ManagementSystem) : ManagementSystem :=
  {| isPanelOpen := v; coffeeMachine := coffeeMachine s;
     hasPastryDisplay := hasPastryDisplay s; coworkingDesks := coworkingDesks s;
     premiumChairs := premiumChairs s; hasBarista := hasBarista s;
     deskCapacity := deskCapacity s; baseRent := baseRent s; money := money s;
     reputation := reputation s; day := day s; customersServed := customersServed s;
     isPaused := isPaused s; disabledButtons := disabledButtons s; alerts := alerts s |}.

Definition set_coffeeMachine (v : CoffeeMachine) (s : ManagementSystem) : ManagementSystem :=
  {| isPanelOpen := isPanelOpen s; coffeeMachine := v;
     hasPastryDisplay := hasPastryDisplay s; coworkingDesks := coworkingDesks s;
     premiumChairs := premiumChairs s; hasBarista := hasBarista s;
     deskCapacity := deskCapacity s; baseRent := baseRent s; money := money s;
     reputation := reputation s; day := day s; customersServed := customersServed s;
     isPaused := isPaused s; disabledButtons := disabledButtons s; alerts := alerts s |}.

Definition set_hasPastryDisplay (v : bool) (s : ManagementSystem) : ManagementSystem :=
  {| isPanelOpen := isPanelOpen s; coffeeMachine := coffeeMachine s;
     hasPastryDisplay := v; coworkingDesks := coworkingDesks s;
     premiumChairs := premiumChairs s; hasBarista := hasBarista s;
     deskCapacity := deskCapacity s; baseRent := baseRent s; money := money s;
     reputation := reputation s; day := day s; customersServed := customersServed s;
     isPaused := isPaused s; disabledButtons := disabledButtons s; alerts := alerts s |}.

Definition set_coworkingDesks (v : nat) (s : ManagementSystem) : ManagementSystem :=
  {| isPanelOpen := isPanelOpen s; coffeeMachine := coffeeMachine s;
     hasPastryDisplay := hasPastryDisplay s; coworkingDesks := v;
     premiumChairs := premiumChairs s; hasBarista := hasBarista s;
     deskCapacity := deskCapacity s; baseRent := baseRent s; money := money s;
     reputation := reputation s; day := day s; customersServed := customersServed s;
     isPaused := isPaused s; disabledButtons := disabledButtons s; alerts := alerts s |}.

Definition set_premiumChairs (v : nat) (s : ManagementSystem) : ManagementSystem :=
  {| isPanelOpen := isPanelOpen s; coffeeMachine := coffeeMachine s;
     hasPastryDisplay := hasPastryDisplay s; coworkingDesks := coworkingDesks s;
     premiumChairs := v; hasBarista := hasBarista s;
     deskCapacity := deskCapacity s; baseRent := baseRent s; money := money s;
     reputation := reputation s; day := day s; customersServed := customersServed s;
     isPaused := isPaused s; disabledButtons := disabledButtons s; alerts := alerts s |}.

Definition set_hasBarista (v : bool) (s : ManagementSystem) : ManagementSystem :=
  {| isPanelOpen := isPanelOpen s; coffeeMachine := coffeeMachine s;
     hasPastryDisplay := hasPastryDisplay s; coworkingDesks := coworkingDesks s;
     premiumChairs := premiumChairs s; hasBarista := v;
     deskCapacity := deskCapacity s; baseRent := baseRent s; money := money s;
     reputation := reputation s; day := day s; customersServed := customersServed s;
     isPaused := isPaused s; disabledButtons := disabledButtons s; alerts := alerts s |}.

Definition set_money (v : Q) (s : ManagementSystem) : ManagementSystem :=
  {| isPanelOpen := isPanelOpen s; coffeeMachine := coffeeMachine s;
     hasPastryDisplay := hasPastryDisplay s; coworkingDesks := coworkingDesks s;
     premiumChairs := premiumChairs s; hasBarista := hasBarista s;
     deskCapacity := deskCapacity s; baseRent := baseRent s; money := v;
     reputation := reputation s; day := day s; customersServed := customersServed s;
     isPaused := isPaused s; disabledButtons := disabledButtons s; alerts := alerts s |}.

Definition set_reputation (v : Q) (s : ManagementSystem) : ManagementSystem :=
  {| isPanelOpen := isPanelOpen s; coffeeMachine := coffeeMachine s;
     hasPastryDisplay := hasPastryDisplay s; coworkingDesks := coworkingDesks s;
     premiumChairs := premiumChairs s; hasBarista := hasBarista s;
     deskCapacity := deskCapacity s; baseRent := baseRent s; money := money s;
     reputation := v; day := day s; customersServed := customersServed s;
     isPaused := isPaused s; disabledButtons := disabledButtons s; alerts := alerts s |}.

Definition set_day (v : nat) (s : ManagementSystem) : ManagementSystem :=
  {| isPanelOpen := isPanelOpen s; coffeeMachine := coffeeMachine s;
     hasPastryDisplay := hasPastryDisplay s; coworkingDesks := coworkingDesks s;
     premiumChairs := premiumChairs s; hasBarista := hasBarista s;
     deskCapacity := deskCapacity s; baseRent := baseRent s; money := money s;
     reputation := reputation s; day := v; customersServed := customersServed s;
     isPaused := isPaused s; disabledButtons := disabledButtons s; alerts := alerts s |}.

Definition set_customersServed (v : Z) (s : ManagementSystem) : ManagementSystem :=
  {| isPanelOpen := isPanelOpen s; coffeeMachine := coffeeMachine s;
     hasPastryDisplay := hasPastryDisplay s; coworkingDesks := coworkingDesks s;
     premiumChairs := premiumChairs s; hasBarista := hasBarista s;
     deskCapacity := deskCapacity s; baseRent := baseRent s; money := money s;
     reputation := reputation s; day := day s; customersServed := v;
     isPaused := isPaused s; disabledButtons := disabledButtons s; alerts := alerts s |}.

Definition set_isPaused (v : bool) (s : ManagementSystem) : ManagementSystem :=
  {| isPanelOpen := isPanelOpen s; coffeeMachine := coffeeMachine s;
     hasPastryDisplay := hasPastryDisplay s; coworkingDesks := coworkingDesks s;
     premiumChairs := premiumChairs s; hasBarista := hasBarista s;
     deskCapacity := deskCapacity s; baseRent := baseRent s; money := money s;
     reputation := reputation s; day := day s; customersServed := customersServed s;
     isPaused := v; disabledButtons := disabledButtons s; alerts := alerts s |}.

Definition set_disabledButtons (v : list (String.string * bool)) (s : ManagementSystem)
  : ManagementSystem :=
  {| isPanelOpen := isPanelOpen s; coffeeMachine := coffeeMachine s;
     hasPastryDisplay := hasPastryDisplay s; coworkingDesks := coworkingDesks s;
     premiumChairs := premiumChairs s; hasBarista := hasBarista s;
     deskCapacity := deskCapacity s; baseRent := baseRent s; money := money s;
     reputation := reputation s; day := day s; customersServed := customersServed s;
     isPaused := isPaused s; disabledButtons := v; alerts := alerts s |}.

Definition set_alerts (v : list String.string) (s : ManagementSystem) : ManagementSystem :=
  {| isPanelOpen := isPanelOpen s; coffeeMachine := coffeeMachine s;
     hasPastryDisplay := hasPastryDisplay s; coworkingDesks := coworkingDesks s;
     premiumChairs := premiumChairs s; hasBarista := hasBarista s;
     deskCapacity := deskCapacity s; baseRent := baseRent s; money := money s;
     reputation := reputation s; day := day s; customersServed := customersServed s;
     isPaused := isPaused s; disabledButtons := disabledButtons s; alerts := v |}.

Definition is_machine (m : CoffeeMachine) (s : ManagementSystem) : bool :=
  match coffeeMachine s, m with
  | machine_none, machine_none | machine_basic, machine_basic | machine_pro, machine_pro =>
      true
  | _, _ => false
  end.

(** [money < cost], for the cost of a piece of equipment. *)
Definition cannot_afford (itemId : String.string) (s : ManagementSystem) : bool :=
  match equipmentData itemId with
  | Some item => Cafe.Qltb (money s) (cost item)
  | None => false
  end.

(** The six assignments to [disabled] in [updateUI], in their order. *)
Definition button_states (s : ManagementSystem) : list (String.string * bool) :=
  [("buy-coffee-machine",
    negb (is_machine machine_none s) || cannot_afford "coffee-machine" s);
   ("buy-pro-coffee-machine",
    is_machine machine_pro s || cannot_afford "pro-coffee-machine" s);
   ("buy-pastry-display", hasPastryDisplay s || cannot_afford "pastry-display" s);
   ("buy-desk", (deskCapacity s <=? coworkingDesks s)%nat || cannot_afford "desk" s);
   ("buy-premium-chair",
    (coworkingDesks s <=? premiumChairs s)%nat || cannot_afford "premium-chair" s);
   ("hire-barista", hasBarista s || Cafe.Qltb (money s) 100)].

Definition updateUI (s : ManagementSystem) : ManagementSystem :=
  if isPanelOpen s then set_disabledButtons (button_states s) s else s.

(** [game.pause()] and [game.resume()], as far as the state goes. *)
Definition pause (s : ManagementSystem) : ManagementSystem := set_isPaused true s.

Definition resume (s : ManagementSystem) : ManagementSystem :=
  if isPaused s then set_isPaused false s else s.

Definition openPanel (s : ManagementSystem) : ManagementSystem :=
  if isPanelOpen s then s else updateUI (pause (set_isPanelOpen true s)).

Definition closePanel (s : ManagementSystem) : ManagementSystem :=
  if isPanelOpen s then resume (set_isPanelOpen false s) else s.

Definition checkEndConditions (s : ManagementSystem) : ManagementSystem :=
  let s :=
    if Cafe.Qltb (money s) 0
    then set_alerts (alerts s ++ ["Game Over: You've gone bankrupt!"]) (pause s)
    else s in
  if Qle_bool (reputation s) 0
  then set_alerts (alerts s ++ ["Game Over: Your reputation is ruined!"]) (pause s)
  else s.

(** The income of the cafe for one day, before and after the barista. *)
Definition cafeIncome (s : ManagementSystem) : Q :=
  let cafeIncome := 0 in
  let cafeIncome :=
    if is_machine machine_basic s then cafeIncome + (50 + reputation s / 4)
    else cafeIncome in
  let cafeIncome :=
    if is_machine machine_pro s then cafeIncome + (120 + reputation s / 2)
    else cafeIncome in
  let cafeIncome := if hasPastryDisplay s then cafeIncome + 30 else cafeIncome in
  if hasBarista s then cafeIncome * (12 # 10) else cafeIncome.

Definition nextDay (s : ManagementSystem) : ManagementSystem :=
  let cafeIncome := cafeIncome s in
  let coworkIncome :=
    inject_Z (Z.of_nat (coworkingDesks s)) * 20 + inject_Z (Z.of_nat (premiumChairs s)) * 5 in
  let dailyIncome := cafeIncome + coworkIncome in
  let dailyExpenses := baseRent s in
  let dailyExpenses :=
    if hasBarista s
    then match staffData "barista" with
         | Some barista => dailyExpenses + dailyCost barista
         | None => dailyExpenses
         end
    else dailyExpenses in
  let s := set_money (money s + (dailyIncome - dailyExpenses)) s in
  let s := set_day (S (day s)) s in
  let s :=
    set_customersServed
      (customersServed s + (Qfloor (cafeIncome / 5) + Z.of_nat (coworkingDesks s)))%Z s in
  let s := checkEndConditions s in
  updateUI s.

Definition purchase (itemId : String.string) (s : ManagementSystem) : ManagementSystem :=
  let s :=
    match equipmentData itemId with
    | Some item =>
        if Qle_bool (cost item) (money s)
        then
          let s := set_money (money s - cost item) s in
          let s :=
            match equipment_rep item with
            | Some rep => set_reputation (reputation s + rep) s
            | None => s
            end in
          let s :=
            if String.eqb itemId "coffee-machine" then set_coffeeMachine machine_basic s
            else s in
          let s :=
            if String.eqb itemId "pro-coffee-machine" then set_coffeeMachine machine_pro s
            else s in
          let s :=
            if String.eqb itemId "pastry-display" then set_hasPastryDisplay true s else s in
          let s :=
            if String.eqb itemId "desk" then set_coworkingDesks (S (coworkingDesks s)) s
            else s in
          if String.eqb itemId "premium-chair"
          then set_premiumChairs (S (premiumChairs s)) s
          else s
        else s
    | None =>
        match staffData itemId with
        | Some item =>
            if Qle_bool 100 (money s)
            then
              let s :=
                match staff_rep item with
                | Some rep => set_reputation (reputation s + rep) s
                | None => s
                end in
              if String.eqb itemId "barista" then set_hasBarista true s else s
            else s
        | None => s
        end
    end in
  updateUI s.

(** ** The purchase buttons *)

(** [s.replace(pattern, replacement)] for a string pattern: the first
    occurrence is replaced. *)
Definition replace (pattern replacement s : String.string) : String.string :=
  match String.index 0 pattern s with
  | Some n =>
      String.append (String.substring 0 n s)
        (String.append replacement
           (String.substring (n + String.length pattern)
                             (String.length s - (n + String.length pattern)) s))
  | None => s
  end.

Definition purchaseButtons : list String.string :=
  ["buy-coffee-machine"; "buy-pro-coffee-machine"; "buy-pastry-display";
   "buy-desk"; "buy-premium-chair"; "hire-barista"].

(** The click listener [init] attaches to the button [buttonId]. *)
Definition clickPurchase (buttonId : String.string) (s : ManagementSystem)
  : ManagementSystem :=
  let itemId := replace "hire-" "" (replace "buy-" "" buttonId) in
  purchase itemId s.

(** The [disabled] flag [updateUI] computes for a button. *)
Definition button_disabled (s : ManagementSystem) (buttonId : String.string) : bool :=
  match find (fun entry => String.eqb (fst entry) buttonId) (button_states s) with
  | Some (_, disabled) => disabled
  | None => false
  end.

(** The furniture bought fits: no more premium chairs than desks, no more
    desks than the room has places. *)
Definition furnished (s : ManagementSystem) : Prop :=
  (premiumChairs s <= coworkingDesks s <= deskCapacity s)%nat.

Definition machine_rank (m : CoffeeMachine) : nat :=
  match m with machine_none => 0 | machine_basic => 1 | machine_pro => 2 end.

(** What a purchase leaves alone and what it may change. *)
Definition purchased (s s1 : ManagementSystem) : Prop :=
  (money s1 = money s \/ (0 <= money s1 /\ money s1 < money s)) /\
  reputation s <= reputation s1 /\
  day s1 = day s /\ customersServed s1 = customersServed s /\
  deskCapacity s1 = deskCapacity s /\ baseRent s1 = baseRent s /\
  isPaused s1 = isPaused s /\ alerts s1 = alerts s /\ isPanelOpen s1 = isPanelOpen s.

(** The income from the coworking desks for one day. *)
Definition coworkIncome (s : ManagementSystem) : Q :=
  inject_Z (Z.of_nat (coworkingDesks s)) * 20 + inject_Z (Z.of_nat (premiumChairs s)) * 5.

End Management.

Module Bakery.
Import String.StringSyntax.
#[local] Open Scope Q_scope.
#[local] Open Scope string_scope.

(** ** Products and ingredients

    [bakeryState.inventory] and [bakeryState.products] are objects used as
    maps.  Their keys are fixed: the inventory is created with seven
    ingredients and [initBakery] fills the products from
    [BAKERY_PRODUCTS]; no function adds or removes a key.  A key is a
    constructor here, an object is a function on its keys, and a name that
    comes from a caller is looked up with [ingredient_of_name] or
    [product_of_name].  A name that is no key can still be a property the
    object inherits: [inherited] tells. *)

Inductive Ingredient := flour | butter | yeast | sugar | salt | water | starter.

Inductive ProductId := croissant | sourdough.

#[export] Instance Ingredient_eq_dec : EqDecision Ingredient.
Proof. solve_decision. Defined.
#[export] Instance ProductId_eq_dec : EqDecision ProductId.
Proof. solve_decision. Defined.

(** The keys of the inventory, in insertion order. *)
Definition INGREDIENTS : list Ingredient :=
  [flour; butter; yeast; sugar; salt; water; starter].

(** [Object.keys(BAKERY_PRODUCTS)], in insertion order. *)
Definition PRODUCT_IDS : list ProductId := [croissant; sourdough].

Definition ingredient_name (i : Ingredient) : String.string :=
  match i with
  | flour => "flour" | butter => "butter" | yeast => "yeast" | sugar => "sugar"
  | salt => "salt" | water => "water" | starter => "starter"
  end.

(** [name in bakeryState.inventory]: the key, if it is one. *)
Definition ingredient_of_name (name : String.string) : option Ingredient :=
  List.find (fun i => String.eqb (ingredient_name i) name) INGREDIENTS.

Definition product_key (p : ProductId) : String.string :=
  match p with croissant => "croissant" | sourdough => "sourdough" end.

(** [bakeryState.products[productId]]: the key, if the product exists. *)
Definition product_of_name (name : String.string) : option ProductId :=
  List.find (fun p => String.eqb (product_key p) name) PRODUCT_IDS.

(** The properties every object literal inherits from [Object.prototype].
    [object[name]] finds a function or an object for them and
    [name in object] holds, although they are no keys of the object. *)
Definition Object_prototype : list String.string :=
  ["constructor"; "hasOwnProperty"; "isPrototypeOf"; "propertyIsEnumerable";
   "toLocaleString"; "toString"; "valueOf"; "__proto__"; "__defineGetter__";
   "__defineSetter__"; "__lookupGetter__"; "__lookupSetter__"].

Definition inherited (name : String.string) : bool :=
  existsb (String.eqb name) Object_prototype.

(** An entry of [BAKERY_PRODUCTS]. *)
Record Recipe := {
  recipe_name : String.string;
  basePrice : Q;
  recipe_cost : Q;
  recipe_prepTime : Q;                   (* minutes *)
  qualityDecay : Q;
  ingredients : list (Ingredient * Q);   (* Object.entries(ingredients) *)
  complexity : Q;
  recipe_baseDemand : Q
}.

Definition BAKERY_PRODUCTS (p : ProductId) : Recipe :=
  match p with
  | croissant =>
      {| recipe_name := "Croissant"; basePrice := 35 # 10; recipe_cost := 12 # 10;
         recipe_prepTime := 20; qualityDecay := 1 # 10;
         ingredients := [(flour, 2 # 10); (butter, 15 # 100); (yeast, 1 # 100);
                         (sugar, 3 # 100); (salt, 5 # 1000)];
         complexity := 1; recipe_baseDemand := 15 |}
  | sourdough =>
      {| recipe_name := "Sourdough Loaf"; basePrice := 6; recipe_cost := 18 # 10;
         recipe_prepTime := 1440; qualityDecay := 5 # 100;
         ingredients := [(flour, 5 # 10); (water, 3 # 10); (salt, 1 # 100);
                         (starter, 1 # 10)];
         complexity := 2; recipe_baseDemand := 8 |}
  end.

(** The fields of a product that change; the others are those of its
    recipe.  [quality] and [salesToday] are undefined until written. *)
Record Product := {
  baseDemand : Q;
  currentStock : Q;
  price : Q;
  demand : Q;
  popularity : Q;
  quality : option Q;
  salesToday : option Q
}.

Record Batch := {
  productId : ProductId;
  quantity : Q;
  startTime : Q;
  timeRemaining : Q;
  batch_quality : Q
}.

(** [game.playerStats.lastNotification], without the wording of the
    message. *)
Inductive Notification :=
| baked (quantity : Q) (p : ProductId) (quality : Q)
| event_happened (success : bool) (name : String.string).

(** The module state [bakeryState] after [initBakery], with the part of
    the game engine the module reads and writes and the number of
    [Math.random()] calls made.  [staff.bakers] and [staff.skillLevel] are
    never written: they are the constants [bakers] and [skillLevel]. *)
Record BakeryState := {
  inventory : Ingredient -> Q;
  products : ProductId -> Product;
  queue : list Batch;
  activeBatches : list Batch;
  ovens : Q;
  qualityMultiplier : Q;
  efficiency : Q;
  money : Q;                            (* game.playerStats.money *)
  lastNotification : option Notification;
  draws : nat
}.

Definition bakers : nat := 2.
Definition skillLevel : Q := 1.

Definition set_inventory (v : Ingredient -> Q) (s : BakeryState) : BakeryState :=
  {| inventory := v; products := products s; queue := queue s;
     activeBatches := activeBatches s; ovens := ovens s;
     qualityMultiplier := qualityMultiplier s; efficiency := efficiency s;
     money := money s; lastNotification := lastNotification s; draws := draws s |}.

Definition set_products (v : ProductId -> Product) (s : BakeryState) : BakeryState :=
  {| inventory := inventory s; products := v; queue := queue s;
     activeBatches := activeBatches s; ovens := ovens s;
     qualityMultiplier := qualityMultiplier s; efficiency := efficiency s;
     money := money s; lastNotification := lastNotification s; draws := draws s |}.

Definition set_queue (v : list Batch) (s : BakeryState) : BakeryState :=
  {| inventory := inventory s; products := products s; queue := v;
     activeBatches := activeBatches s; ovens := ovens s;
     qualityMultiplier := qualityMultiplier s; efficiency := efficiency s;
     money := money s; lastNotification := lastNotification s; draws := draws s |}.

Definition set_activeBatches (v : list Batch) (s : BakeryState) : BakeryState :=
  {| inventory := inventory s; products := products s; queue := queue s;
     activeBatches := v; ovens := ovens s;
     qualityMultiplier := qualityMultiplier s; efficiency := efficiency s;
     money := money s; lastNotification := lastNotification s; draws := draws s |}.

Definition set_ovens (v : Q) (s : BakeryState) : BakeryState :=
  {| inventory := inventory s; products := products s; queue := queue s;
     activeBatches := activeBatches s; ovens := v;
     qualityMultiplier := qualityMultiplier s; efficiency := efficiency s;
     money := money s; lastNotification := lastNotification s; draws := draws s |}.

Definition set_qualityMultiplier (v : Q) (s : BakeryState) : BakeryState :=
  {| inventory := inventory s; products := products s; queue := queue s;
     activeBatches := activeBatches s; ovens := ovens s;
     qualityMultiplier := v; efficiency := efficiency s;
     money := money s; lastNotification := lastNotification s; draws := draws s |}.

Definition set_efficiency (v : Q) (s : BakeryState) : BakeryState :=
  {| inventory := inventory s; products := products s; queue := queue s;
     activeBatches := activeBatches s; ovens := ovens s;
     qualityMultiplier := qualityMultiplier s; efficiency := v;
     money := money s; lastNotification := lastNotification s; draws := draws s |}.

Definition set_money (v : Q) (s : BakeryState) : BakeryState :=
  {| inventory := inventory s; products := products s; queue := queue s;
     activeBatches := activeBatches s; ovens := ovens s;
     qualityMultiplier := qualityMultiplier s; efficiency := efficiency s;
     money := v; lastNotification := lastNotification s; draws := draws s |}.

Definition set_lastNotification (v : option Notification) (s : BakeryState) : BakeryState :=
  {| inventory := inventory s; products := products s; queue := queue s;
     activeBatches := activeBatches s; ovens := ovens s;
     qualityMultiplier := qualityMultiplier s; efficiency := efficiency s;
     money := money s; lastNotification := v; draws := draws s |}.

Definition set_draws (v : nat) (s : BakeryState) : BakeryState :=
  {| inventory := inventory s; products := products s; queue := queue s;
     activeBatches := activeBatches s; ovens := ovens s;
     qualityMultiplier := qualityMultiplier s; efficiency := efficiency s;
     money := money s; lastNotification := lastNotification s; draws := v |}.

(** [object[key] = value] for an object with fixed keys. *)
Definition assign {K V : Type} `{EqDecision K} (key : K) (value : V) (object : K -> V)
  : K -> V :=
  fun k => if decide (k = key) then value else object k.

(** The inventory the module starts with. *)
Definition initial_inventory (i : Ingredient) : Q :=
  match i with
  | flour => 50 | butter => 20 | yeast => 5 | sugar => 10 | salt => 2
  | water => 100 | starter => 5
  end.

(** [initBakery(gameEngine)], for an engine whose player has [money]. *)
Definition initBakery (money : Q) : BakeryState :=
  {| inventory := initial_inventory;
     products := fun p =>
       {| baseDemand := recipe_baseDemand (BAKERY_PRODUCTS p); currentStock := 0;
          price := basePrice (BAKERY_PRODUCTS p);
          demand := recipe_baseDemand (BAKERY_PRODUCTS p); popularity := 1 # 2;
          quality := None; salesToday := None |};
     queue := []; activeBatches := []; ovens := 2; qualityMultiplier := 1;
     efficiency := 1; money := money; lastNotification := None; draws := 0 |}.

(** ** Results of functions that can throw

    A function that throws hands back the state as it is when the
    exception leaves it. *)
Inductive Outcome (A : Type) :=
| Returned (value : A) (s : BakeryState)
| Thrown (message : String.string) (s : BakeryState).
Arguments Returned {A} value s.
Arguments Thrown {A} message s.

(** ** Baking *)

(** The first loop of [bakeProduct]: the first ingredient of the recipe
    of which the inventory holds less than the batch needs. *)
Definition lacking (quantity : Q) (s : BakeryState) (recipe : list (Ingredient * Q))
  : option Ingredient :=
  fst <$> List.find (fun entry => Cafe.Qltb (inventory s (fst entry)) (snd entry * quantity))
                    recipe.

(** The second loop: [inventory[ingredient] -= amount], with the amounts
    already multiplied by the quantity. *)
Definition deduct (quantity : Q) (recipe : list (Ingredient * Q))
    (inventory : Ingredient -> Q) : Ingredient -> Q :=
  fold_left (fun inventory entry =>
               assign (fst entry) (inventory (fst entry) - snd entry * quantity) inventory)
            recipe inventory.

(** [bakeProduct(productId, quantity, game)], for a game at [gameTime].
    For a name that is an inherited property the test [!product] lets the
    inherited value pass as the product; the batch the code then queues
    belongs to no product and has [NaN] as its time, which a [Batch] does
    not hold: the result is [None]. *)
Definition bakeProduct (name : String.string) (quantity : Q) (gameTime : Q) (s : BakeryState)
  : option (Outcome Batch) :=
  match product_of_name name with
  | None =>
      if inherited name then None
      else Some (Thrown (String.append "Product " (String.append name " not found")) s)
  | Some p =>
      let recipe := ingredients (BAKERY_PRODUCTS p) in
      match lacking quantity s recipe with
      | Some ingredient =>
          Some (Thrown (String.append "Not enough " (ingredient_name ingredient)) s)
      | None =>
          let s := set_inventory (deduct quantity recipe (inventory s)) s in
          let productionTime :=
            recipe_prepTime (BAKERY_PRODUCTS p) * quantity / skillLevel in
          let batch :=
            {| productId := p; quantity := quantity; startTime := gameTime;
               timeRemaining := productionTime; batch_quality := 1 |} in
          Some (Returned batch (set_queue (queue s ++ [batch]) s))
      end
  end.

(** [processQueue()]: queued batches go to the bakers that are free. *)
Definition processQueue (s : BakeryState) : BakeryState :=
  match queue s with
  | [] => s
  | _ =>
      let availableBakers := (Z.of_nat bakers - Z.of_nat (length (activeBatches s)))%Z in
      if (availableBakers <=? 0)%Z then s
      else
        let batchesToStart := Z.to_nat (Z.min availableBakers (Z.of_nat (length (queue s)))) in
        set_activeBatches (activeBatches s ++ take batchesToStart (queue s))
                          (set_queue (drop batchesToStart (queue s)) s)
  end.

(** The units of product [p] in a list of batches. *)
Definition in_the_oven (p : ProductId) (batches : list Batch) : Q :=
  fold_right (fun b total => if decide (productId b = p) then quantity b + total else total)
             0 batches.

Definition set_timeRemaining (v : Q) (b : Batch) : Batch :=
  {| productId := productId b; quantity := quantity b; startTime := startTime b;
     timeRemaining := v; batch_quality := batch_quality b |}.

(** A batch after [deltaTime] minutes of work at efficiency [e]. *)
Definition worked (deltaTime e : Q) (b : Batch) : Batch :=
  set_timeRemaining (timeRemaining b - deltaTime * skillLevel * e) b.

Definition unfinished (b : Batch) : bool := negb (Qle_bool (timeRemaining b) 0).

Section Random.

(** The values [Math.random()] returns, in call order. *)
Variable random : nat -> Q.

(** [calculateBatchQuality(batch)], with its two draws. *)
Definition calculateBatchQuality (r1 r2 : Q) (batch : Batch) : Q :=
  let quality := 8 # 10 in
  let quality := quality * skillLevel in
  let equipmentQuality := (9 # 10) + r1 * (2 # 10) in
  let quality := quality * equipmentQuality in
  let recipe := BAKERY_PRODUCTS (productId batch) in
  let quality := quality * Qmax (1 # 2) (1 - complexity recipe * (1 # 10)) in
  let quality := quality * ((9 # 10) + r2 * (2 # 10)) in
  Qmin 1 (Qmax 0 quality).

(** One iteration of the loop of [updateBatches], at index [i]. *)
Definition updateBatch_at (deltaTime : Q) (s : BakeryState) (i : nat) : BakeryState :=
  match activeBatches s !! i with
  | None => s
  | Some batch =>
      let batch :=
        set_timeRemaining (timeRemaining batch - deltaTime * skillLevel * efficiency s)
                          batch in
      let s := set_activeBatches (<[i := batch]> (activeBatches s)) s in
      if Qle_bool (timeRemaining batch) 0
      then
        let product := products s (productId batch) in
        let k := draws s in
        let quality := calculateBatchQuality (random k) (random (S k)) batch in
        let s := set_draws (S (S k)) s in
        let product :=
          {| baseDemand := baseDemand product;
             currentStock := currentStock product + quantity batch;
             price := price product; demand := demand product;
             popularity := popularity product; quality := Some quality;
             salesToday := salesToday product |} in
        let s := set_products (assign (productId batch) product (products s)) s in
        let s := set_activeBatches (delete i (activeBatches s)) s in
        set_lastNotification (Some (baked (quantity batch) (productId batch) quality)) s
      else s
  end.

(** [updateBatches(deltaTime)]:
    [for (let i = activeBatches.length - 1; i >= 0; i--)]. *)
Definition updateBatches (deltaTime : Q) (s : BakeryState) : BakeryState :=
  fold_left (updateBatch_at deltaTime) (rev (seq 0 (length (activeBatches s)))) s.

(** [updateProductQuality(deltaTime)]: the loop body, for one product.
    [product.quality || 1] is 1 for a quality that is undefined or 0. *)
Definition decay_quality (deltaTime : Q) (p : ProductId) (product : Product) : Product :=
  let hoursPassed := deltaTime / 60 in
  if Cafe.Qltb 0 (currentStock product)
     && negb (Qeq_bool (qualityDecay (BAKERY_PRODUCTS p)) 0)
  then
    let decayFactor := 1 - qualityDecay (BAKERY_PRODUCTS p) * hoursPassed in
    let current :=
      match quality product with
      | Some q => if Qeq_bool q 0 then 1 else q
      | None => 1
      end in
    {| baseDemand := baseDemand product; currentStock := currentStock product;
       price := price product; demand := demand product;
       popularity := popularity product; quality := Some (current * decayFactor);
       salesToday := salesToday product |}
  else product.

Definition updateProductQuality (deltaTime : Q) (s : BakeryState) : BakeryState :=
  set_products (fun p => decay_quality deltaTime p (products s p)) s.

(** [x % m] on JS numbers: the remainder has the sign of [x]. *)
Definition js_mod (x m : Q) : Q :=
  let q := x / m in
  x - m * inject_Z (if Qle_bool 0 q then Qfloor q else Qceiling q).

(** The multiplier [updateDemand] takes from the hour of the day. *)
Definition demandMultiplier (gameTime : Q) : Q :=
  let hour := Qfloor (js_mod (gameTime / 60) 24) in
  if (7 <=? hour)%Z && (hour <? 10)%Z then 15 # 10
  else if (11 <=? hour)%Z && (hour <? 14)%Z then 2
  else if (17 <=? hour)%Z && (hour <? 20)%Z then 18 # 10
  else 5 # 10.

(** The loop body of [updateDemand], for one product and its draw [r]. *)
Definition update_demand (multiplier r : Q) (product : Product) : Product :=
  let randomFactor := (8 # 10) + r * (4 # 10) in
  let demand :=
    Qmax 1 (inject_Z (Qfloor (baseDemand product * multiplier * randomFactor / 24))) in
  match salesToday product with
  | Some sales =>
      if Qeq_bool sales 0
      then {| baseDemand := baseDemand product; currentStock := currentStock product;
              price := price product; demand := demand;
              popularity := popularity product; quality := quality product;
              salesToday := salesToday product |}
      else
        let salesFactor := Qmin 1 (sales / (baseDemand product * (1 # 2))) in
        let qualityFactor :=
          match quality product with
          | Some q => if Qeq_bool q 0 then 1 else q
          | None => 1
          end in
        let popular :=
          if Qeq_bool (popularity product) 0 then 1 # 2 else popularity product in
        {| baseDemand := baseDemand product; currentStock := currentStock product;
           price := price product; demand := demand;
           popularity :=
             Qmax (1 # 10)
                  (Qmin (9 # 10) (popular * (9 # 10) + salesFactor * qualityFactor * (1 # 10)));
           quality := quality product; salesToday := Some 0 |}
  | None =>
      {| baseDemand := baseDemand product; currentStock := currentStock product;
         price := price product; demand := demand;
         popularity := popularity product; quality := quality product;
         salesToday := None |}
  end.

(** [updateDemand()], for a game at [gameTime]: one draw per product, in
    the order of the products. *)
Definition updateDemand (gameTime : Q) (s : BakeryState) : BakeryState :=
  let multiplier := demandMultiplier gameTime in
  let k := draws s in
  let draw (p : ProductId) : Q :=
    match p with croissant => random k | sourdough => random (S k) end in
  set_draws (k + 2)%nat
    (set_products (fun p => update_demand multiplier (draw p) (products s p)) s).

(** The four random events, in the order of the array. *)
Inductive RandomEvent := Happy_Accident | Efficient_Day | Oven_Malfunction | Ingredient_Spoilage.

Definition event_name (e : RandomEvent) : String.string :=
  match e with
  | Happy_Accident => "Happy Accident"
  | Efficient_Day => "Efficient Day"
  | Oven_Malfunction => "Oven Malfunction"
  | Ingredient_Spoilage => "Ingredient Spoilage"
  end.

Definition event_probability (e : RandomEvent) : Q :=
  match e with
  | Happy_Accident => 3 # 10
  | Efficient_Day => 4 # 10
  | Oven_Malfunction => 2 # 10
  | Ingredient_Spoilage => 1 # 10
  end.

(** The selection loop: the first event whose cumulated probability
    reaches [r]. *)
Fixpoint select_event (r cumulativeProbability : Q) (events : list RandomEvent)
  : option RandomEvent :=
  match events with
  | [] => None
  | event :: rest =>
      let cumulativeProbability := cumulativeProbability + event_probability event in
      if Qle_bool r cumulativeProbability then Some event
      else select_event r cumulativeProbability rest
  end.

Definition type_error : String.string := "TypeError".

(** [event.effect()].  [game] tells whether the parameter [game] of
    [triggerRandomEvent] is an engine or undefined; reading
    [game.playerStats] of an undefined [game] throws. *)
Definition event_effect (game : bool) (e : RandomEvent) (s : BakeryState) : Outcome unit :=
  match e with
  | Happy_Accident =>
      Returned tt (set_qualityMultiplier (qualityMultiplier s + (5 # 100)) s)
  | Efficient_Day => Returned tt (set_efficiency (12 # 10) s)
  | Oven_Malfunction =>
      let s := set_ovens (Qmax 1 (ovens s - 1)) s in
      if game then Returned tt (set_money (money s - 100) s) else Thrown type_error s
  | Ingredient_Spoilage =>
      Returned tt (set_inventory (fun i => inventory s i * (8 # 10)) s)
  end.

(** [triggerRandomEvent(game)]. *)
Definition triggerRandomEvent (game : bool) (s : BakeryState) : Outcome unit :=
  let r := random (draws s) in
  let s := set_draws (S (draws s)) s in
  match select_event r 0
          [Happy_Accident; Efficient_Day; Oven_Malfunction; Ingredient_Spoilage] with
  | None => Returned tt s
  | Some event =>
      match event_effect game event s with
      | Thrown message s => Thrown message s
      | Returned _ s =>
          if game
          then
            let success :=
              match event with
              | Happy_Accident | Efficient_Day => true
              | _ => false
              end in
            Returned tt
              (set_lastNotification (Some (event_happened success (event_name event))) s)
          else Thrown type_error s
      end
  end.

(** The module's [update(gameTime, deltaTime)], called by the game loop
    with the game's own [gameTime], the time [updateDemand] reads from the
    game.  It calls [triggerRandomEvent()] without an argument. *)
Definition update (gameTime deltaTime : Q) (s : BakeryState) : Outcome unit :=
  let s := updateBatches deltaTime s in
  let s := updateProductQuality deltaTime s in
  let s := updateDemand gameTime s in
  let s := processQueue s in
  let r := random (draws s) in
  let s := set_draws (S (draws s)) s in
  if Cafe.Qltb r ((1 # 1000) * deltaTime)
  then triggerRandomEvent false s
  else Returned tt s.

End Random.

(** ** Stock keeping *)

(** The price list of [restockIngredients]. *)
Definition pricePerUnit (i : Ingredient) : Q :=
  match i with
  | flour => 25 # 10 | butter => 8 | yeast => 15 | sugar => 3 | salt => 1
  | water => 1 # 10 | starter => 5
  end.

(** The loop of [restockIngredients] over [Object.entries(order)]: the
    inventory and the total cost when it ends, or the name it throws at
    with the inventory as it is then.  For a name that is an inherited
    property the test [ingredient in bakeryState.inventory] holds and the
    loop goes on with a price and a stock that are no numbers: the result
    is [None]. *)
Fixpoint restock (order : list (String.string * Q)) (totalCost : Q)
    (inventory : Ingredient -> Q) : option ((Ingredient -> Q) * (Q + String.string)) :=
  match order with
  | [] => Some (inventory, inl totalCost)
  | (name, amount) :: rest =>
      match ingredient_of_name name with
      | None => if inherited name then None else Some (inventory, inr name)
      | Some i =>
          restock rest (totalCost + pricePerUnit i * amount)
                  (assign i (inventory i + amount) inventory)
      end
  end.

(** [restockIngredients(order, game)]; it returns
    [{ success: true, totalCost }]. *)
Definition restockIngredients (order : list (String.string * Q)) (s : BakeryState)
  : option (Outcome Q) :=
  match restock order 0 (inventory s) with
  | Some (inventory, inl totalCost) =>
      Some (Returned totalCost (set_money (money s - totalCost) (set_inventory inventory s)))
  | Some (inventory, inr name) =>
      Some (Thrown (String.append "Invalid ingredient: " name) (set_inventory inventory s))
  | None => None
  end.

(** The amount of ingredient [i] in the entries of an order. *)
Definition ordered (i : Ingredient) (order : list (String.string * Q)) : Q :=
  fold_right (fun entry total =>
                if decide (ingredient_of_name (fst entry) = Some i)
                then snd entry + total else total)
             0 order.

(** The price of the entries of an order. *)
Definition order_cost (order : list (String.string * Q)) : Q :=
  fold_right (fun entry total =>
                match ingredient_of_name (fst entry) with
                | Some i => pricePerUnit i * snd entry + total
                | None => total
                end)
             0 order.

(** An entry of the list [getAvailableProducts] returns. *)
Record Offer := {
  offer_id : String.string;
  offer_name : String.string;
  offer_price : Q;
  offer_stock : Q;
  offer_quality : Q;
  offer_demand : Q
}.

Definition getAvailableProducts (s : BakeryState) : list Offer :=
  (fun p =>
     let product := products s p in
     {| offer_id := product_key p; offer_name := recipe_name (BAKERY_PRODUCTS p);
        offer_price := price product; offer_stock := currentStock product;
        offer_quality :=
          match quality product with
          | Some q => if Qeq_bool q 0 then 1 else q
          | None => 1
          end;
        offer_demand := demand product |}) <$> PRODUCT_IDS.

Definition set_price (v : Q) (product : Product) : Product :=
  {| baseDemand := baseDemand product; currentStock := currentStock product;
     price := v; demand := demand product; popularity := popularity product;
     quality := quality product; salesToday := salesToday product |}.

Definition set_baseDemand (v : Q) (product : Product) : Product :=
  {| baseDemand := v; currentStock := currentStock product;
     price := price product; demand := demand product;
     popularity := popularity product; quality := quality product;
     salesToday := salesToday product |}.

(** [updatePrices(newPrices)], over [Object.entries(newPrices)]. *)
Definition updatePrices (newPrices : list (String.string * Q)) (s : BakeryState)
  : BakeryState :=
  fold_left
    (fun s entry =>
       match product_of_name (fst entry) with
       | Some p => set_products (assign p (set_price (snd entry) (products s p)) (products s)) s
       | None => s
       end)
    newPrices s.

(** What [handleSpecialEvent] returns: the name of the event and its
    message, or nothing where [success] is false.  For a name that is an
    inherited property [events[eventType]] is found and has no [effect]
    to call. *)
Definition handleSpecialEvent (eventType : String.string) (s : BakeryState)
  : Outcome (option (String.string * String.string)) :=
  if String.eqb eventType "holiday"
  then Returned (Some ("Holiday Season", "Increased demand for all products!"))
         (set_products
            (fun p => set_baseDemand (baseDemand (products s p) * (15 # 10)) (products s p))
            s)
  else if String.eqb eventType "festival"
  then Returned (Some ("Local Festival", "Increased demand for pastries!"))
         (set_products
            (assign croissant
                    (set_baseDemand (baseDemand (products s croissant) * 2)
                                    (products s croissant))
                    (products s)) s)
  else if inherited eventType then Thrown type_error s
  else Returned None s.

End Bakery.

Module MonteCarlo.
#[local] Open Scope Q_scope.

(** ** Statistics of a sample

    The helpers of the Monte Carlo module that the revenue simulation, and
    through it the bakery's demand forecast, calls on its results.  A
    number is a rational; reading an array outside its bounds gives
    [undefined], and arithmetic on it gives [NaN]: both are [None]. *)

(** [array[i]] for an integer [i]. *)
Definition element (data : list Q) (i : Z) : option Q :=
  if (i <? 0)%Z then None else data !! Z.to_nat i.

(** [calculatePercentile(sortedData, percentile)]. *)
Definition calculatePercentile (sortedData : list Q) (percentile : Q) : option Q :=
  if (length sortedData =? 0)%nat then Some 0
  else
    let index := percentile / 100 * (inject_Z (Z.of_nat (length sortedData)) - 1) in
    let lower := Qfloor index in
    let upper := Qceiling index in
    if (lower =? upper)%Z then element sortedData lower
    else
      match element sortedData lower, element sortedData upper with
      | Some l, Some u => Some (l + (u - l) * (index - inject_Z lower))
      | _, _ => None
      end.

(** The order [sort((a, b) => a - b)] leaves an array in. *)
Fixpoint ascending (data : list Q) : bool :=
  match data with
  | x :: rest =>
      match rest with
      | y :: _ => Qle_bool x y && ascending rest
      | [] => true
      end
  | [] => true
  end.

(** The object [calculateStatistics] returns; [median] is undefined for
    an empty sample. *)
Record Statistics := {
  mean : Q;
  stdDev : Q;
  stat_min : Q;
  stat_max : Q;
  median : option Q
}.

(** [data.reduce((a, b) => a + b, 0)]. *)
Definition sum (data : list Q) : Q := fold_left Qplus data 0.

(** [Math.min(...data)] and [Math.max(...data)] of a sample that is not
    empty. *)
Definition Math_min (data : list Q) : Q :=
  match data with
  | [] => 0
  | x :: rest => fold_left Qmin rest x
  end.

Definition Math_max (data : list Q) : Q :=
  match data with
  | [] => 0
  | x :: rest => fold_left Qmax rest x
  end.

Section Statistics.

(** [Math.sqrt]. *)
Variable Math_sqrt : Q -> Q.

(** [calculateStatistics(data)]. *)
Definition calculateStatistics (data : list Q) : Statistics :=
  if (length data =? 0)%nat
  then {| mean := 0; stdDev := 0; stat_min := 0; stat_max := 0; median := None |}
  else
    let n := inject_Z (Z.of_nat (length data)) in
    let mean := sum data / n in
    let squaredDiffs := map (fun x => (x - mean) * (x - mean)) data in
    let variance := sum squaredDiffs / n in
    {| mean := mean; stdDev := Math_sqrt variance;
       stat_min := Math_min data; stat_max := Math_max data;
       median := calculatePercentile data 50 |}.

End Statistics.

End MonteCarlo.

(** * Properties of the queueing model *)

Module MmcFacts.
Import Mmc.
#[local] Set Warnings "-inexact-float".

(** C1 (as stated, refuted): the claim promises that with a traffic
    intensity of at least 1 no NaN is produced for Lq and Wq.  With
    lambda = 0.6, mu = 0.3 and c = 2 the traffic intensity is exactly 1 and
    the constructor stores NaN in both fields. *)
Lemma C1_nan_at_rho_one :
  let m := new_QueueingModel 0.6%float 0.3%float 2 in
  PrimFloat.leb 1 (trafficIntensity m) = true /\
  PrimFloat.is_nan (averageQueueLength m) = true /\
  PrimFloat.is_nan (averageTimeInQueue m) = true.
Proof. vm_compute. repeat split. Qed.

(** C1 (amended): the constructor has no stability status and applies the
    closed forms whatever the traffic intensity is.  For lambda = 0.9,
    mu = 0.3, c = 2 it reports rho = 1.5 and computes the finite, negative
    values P0 = -0.2, Lq = -5.4 and Wq = -6 (exactly so over the rationals,
    within 1e-9 in binary64); for lambda = 0.6, mu = 0.3, c = 2, where rho
    is exactly 1, P0 is 0 and Lq and Wq are NaN. *)
Theorem C1_metrics_computed_unguarded :
  (let m := new_QueueingModel 0.9%float 0.3%float 2 in
   trafficIntensity m = 1.5%float /\
   near (probabilityZero m) (-0.2)%float 1e-9%float = true /\
   near (averageQueueLength m) (-5.4)%float 1e-9%float = true /\
   near (averageTimeInQueue m) (-6)%float 1e-9%float = true /\
   is_finite (averageQueueLength m) = true /\
   is_finite (averageTimeInQueue m) = true) /\
  (let q := new_QueueingModel (9 # 10)%Q (3 # 10)%Q 2 in
   trafficIntensity q == 3 # 2 /\
   probabilityZero q == - (1 # 5) /\
   averageQueueLength q == - (27 # 5) /\
   averageTimeInQueue q == - 6 # 1)%Q /\
  (let m := new_QueueingModel 0.6%float 0.3%float 2 in
   trafficIntensity m = 1%float /\
   probabilityZero m = 0%float /\
   PrimFloat.is_nan (averageQueueLength m) = true /\
   PrimFloat.is_nan (averageTimeInQueue m) = true).
Proof. vm_compute. repeat split. Qed.

(** C2: for lambda = 0.5, mu = 0.3, c = 2 the derived metrics are the
    M/M/c closed forms: rho = 5/6, P0 = 1/11, Lq = 125/33 and Wq = 250/33
    over the rationals, and the binary64 values the constructor stores lie
    within 0.01 of 0.8333, 0.0909, 3.79 and 7.57. *)
Theorem C2_closed_form_check :
  (let m := new_QueueingModel 0.5%float 0.3%float 2 in
   near (trafficIntensity m) 0.8333%float 0.01%float = true /\
   near (probabilityZero m) 0.0909%float 0.01%float = true /\
   near (averageQueueLength m) 3.79%float 0.01%float = true /\
   near (averageTimeInQueue m) 7.57%float 0.01%float = true) /\
  (let q := new_QueueingModel (1 # 2)%Q (3 # 10)%Q 2 in
   trafficIntensity q == 5 # 6 /\
   probabilityZero q == 1 # 11 /\
   averageQueueLength q == 125 # 33 /\
   averageTimeInQueue q == 250 # 33)%Q.
Proof. vm_compute. repeat split. Qed.

End MmcFacts.

(** * Properties of the cafe *)

Module CafeFacts.
Import Cafe.

(** ** Lists *)

Section Lists.
Context {A : Type}.
Implicit Types (P Q : A -> Prop) (l : list A).

Lemma filter_length_mono P Q `{!forall x, Decision (P x)} `{!forall x, Decision (Q x)} l :
  (forall x, x ∈ l -> Q x -> P x) ->
  length (filter Q l) <= length (filter P l).
Proof.
  induction l as [|x l IH]; intros HPQ; [done|].
  rewrite !filter_cons.
  assert (length (filter Q l) <= length (filter P l)) as Hl.
  { apply IH. intros y Hy. apply HPQ. by right. }
  destruct (decide (Q x)) as [HQ|HQ]; destruct (decide (P x)) as [HP|HP]; simpl; try lia.
  exfalso. apply HP, HPQ; [left|done].
Qed.

Lemma filter_ext_in P Q `{!forall x, Decision (P x)} `{!forall x, Decision (Q x)} l :
  (forall x, x ∈ l -> P x <-> Q x) -> filter P l = filter Q l.
Proof.
  induction l as [|x l IH]; intros HPQ; [done|].
  rewrite !filter_cons.
  rewrite IH by (intros y Hy; apply HPQ; by right).
  destruct (decide (P x)) as [HP|HP]; destruct (decide (Q x)) as [HQ|HQ]; try done.
  - exfalso. apply HQ, HPQ; [left|done].
  - exfalso. apply HP, HPQ; [left|done].
Qed.

(** Turning the predicate on at one entry of a duplicate-free list adds one
    to the count. *)
Lemma filter_length_flip P Q `{!forall x, Decision (P x)} `{!forall x, Decision (Q x)} l a :
  NoDup l -> a ∈ l -> ~ P a -> Q a ->
  (forall x, x ∈ l -> x <> a -> (P x <-> Q x)) ->
  length (filter Q l) = S (length (filter P l)).
Proof.
  induction l as [|x l IH]; intros Hnd Ha HPa HQa Hrest.
  { by apply elem_of_nil in Ha. }
  apply NoDup_cons in Hnd as [Hx Hnd].
  rewrite !filter_cons.
  apply elem_of_cons in Ha as [->|Ha].
  - rewrite decide_True by done. rewrite decide_False by done. simpl. f_equal.
    f_equal. symmetry. apply filter_ext_in.
    intros y Hy. apply Hrest; [by right|]. intros ->. done.
  - assert (x <> a) by (intros ->; done).
    assert (P x <-> Q x) as Hxx by (apply Hrest; [left|done]).
    pose proof (IH Hnd Ha HPa HQa) as IH'.
    destruct (decide (Q x)) as [HQ|HQ]; destruct (decide (P x)) as [HP|HP]; simpl;
      try tauto; rewrite IH'; try done; intros y Hy; apply Hrest; by right.
Qed.

End Lists.

(** ** Seating always places an order *)

(** The menu is never empty, so seating always produces an order. *)
Lemma generateOrder_menu r1 r2 r3 c : is_Some (generateOrder MENU_KEYS r1 r2 r3 c).
Proof.
  unfold generateOrder.
  destruct (filter _ (orderPreferences c)) as [|p l]; simpl; eauto.
Qed.

Lemma seatCustomer_placed random cid t s :
  seatCustomer random cid t s = seatCustomer_placing random cid t s.
Proof.
  unfold seatCustomer, seatCustomer_placing.
  destruct (customerObjs s !! cid) as [c|]; [|done].
  destruct (tables s !! t) as [tb|]; [|done].
  destruct (decide _); [done|]. cbv zeta.
  set (c1 := set_waitStartTime _ _).
  destruct (generateOrder_menu (random (draws s)) (random (draws s + 1))
              (random (draws s + 2)) c1) as [o Ho].
  simpl in Ho |- *. rewrite Ho. simpl. rewrite lookup_insert_eq. simpl.
  unfold store_customer, store_order. simpl.
  by rewrite insert_insert_eq, alter_insert_eq.
Qed.

(** ** The order pipeline *)

Section Orders.
Variable random : nat -> Q.

Lemma orders_ok_view s s' : order_view s' = order_view s -> orders_ok s -> orders_ok s'.
Proof.
  unfold order_view. intros Hview [Hnd Hlive Hprep].
  destruct s, s'; simpl in *; simplify_eq. split; [done..|exact Hprep].
Qed.

Lemma handlePayment_order_view cid a t s :
  order_view (handlePayment cid a t s) = order_view s.
Proof. unfold handlePayment. repeat case_match; done. Qed.

Lemma handleCustomerLeave_order_view cid r s :
  order_view (handleCustomerLeave cid r s) = order_view s.
Proof. unfold handleCustomerLeave. repeat case_match; done. Qed.

Lemma update_customer_at_order_view dt i s :
  order_view (update_customer_at random dt i s) = order_view s.
Proof.
  unfold update_customer_at.
  destruct (customers s !! i) as [cid|]; [|done].
  destruct (customerObjs s !! cid) as [c|]; [|done].
  destruct (Customer_update _ _ _ _ c) as [c' [[reason|amount tip]|]]; [| |done].
  - exact (handleCustomerLeave_order_view cid reason (store_customer cid c' s)).
  - etrans; [exact (handleCustomerLeave_order_view cid paid _)|].
    exact (handlePayment_order_view cid amount tip
             (set_draws (S (draws s)) (store_customer cid c' s))).
Qed.

Lemma update_customers_order_view dt n s :
  order_view (update_customers random dt n s) = order_view s.
Proof.
  revert s. induction n as [|n IH]; intros s; simpl; [done|].
  by rewrite IH, update_customer_at_order_view.
Qed.

Lemma spawnCustomer_order_view s : order_view (spawnCustomer random s) = order_view s.
Proof. done. Qed.

Lemma run_timeout_order_view k s : order_view (run_timeout k s) = order_view s.
Proof. unfold run_timeout. repeat case_match; done. Qed.

End Orders.


Section OrderPipeline.
Variable random : nat -> Q.

Lemma startOrder_frame s oid :
  orders (startOrder s oid) = orders s /\
  availableServers (startOrder s oid) = availableServers s /\
  gameTime (startOrder s oid) = gameTime s /\
  customers (startOrder s oid) = customers s /\
  customerObjs (startOrder s oid) = customerObjs s.
Proof. unfold startOrder. by case_match. Qed.

Lemma startOrder_lookup s oid oid' :
  orderObjs (startOrder s oid) !! oid' =
  if decide (oid' = oid) then started (gameTime s) <$> orderObjs s !! oid
  else orderObjs s !! oid'.
Proof.
  unfold startOrder. destruct (orderObjs s !! oid) as [o|] eqn:Ho; simpl.
  - case_decide; subst; [by rewrite lookup_insert_eq|by rewrite lookup_insert_ne].
  - case_decide; subst; done.
Qed.

Lemma foldl_startOrder_frame l s :
  orders (foldl startOrder s l) = orders s /\
  availableServers (foldl startOrder s l) = availableServers s /\
  gameTime (foldl startOrder s l) = gameTime s /\
  customers (foldl startOrder s l) = customers s /\
  customerObjs (foldl startOrder s l) = customerObjs s.
Proof.
  revert s. induction l as [|a l IH]; intros s; simpl; [done|].
  destruct (IH (startOrder s a)) as (-> & -> & -> & -> & ->).
  apply startOrder_frame.
Qed.

Lemma foldl_startOrder_lookup l s oid :
  orderObjs (foldl startOrder s l) !! oid =
  if decide (oid ∈ l) then started (gameTime s) <$> orderObjs s !! oid
  else orderObjs s !! oid.
Proof.
  revert s. induction l as [|a l IH]; intros s; simpl.
  { done. }
  rewrite IH. destruct (startOrder_frame s a) as (_ & _ & -> & _).
  rewrite startOrder_lookup.
  destruct (decide (oid ∈ l)) as [Hl|Hl];
    destruct (decide (oid ∈ a :: l)) as [Hal|Hal];
    destruct (decide (oid = a)) as [Heq|Hne]; subst; try done;
    try (exfalso; apply Hal; first [by left|by right]);
    try (apply elem_of_cons in Hal as [?|?]; done).
  by destruct (orderObjs s !! a).
Qed.

Lemma promoteOrders_eq s :
  promoteOrders s =
  foldl startOrder s (take (ordersToStart s) (filter (order_has_status s pending) (orders s))).
Proof.
  unfold promoteOrders, ordersToStart, preparing_count.
  set (pend := filter (order_has_status s pending) (orders s)).
  set (prep := filter (order_has_status s preparing) (orders s)).
  destruct (bool_decide (length prep < availableServers s)) eqn:H1;
    destruct (bool_decide (0 < length pend)) eqn:H2; simpl; try done.
  - apply bool_decide_eq_false in H2.
    replace (length pend) with 0 by lia. by rewrite Nat.min_0_r.
  - apply bool_decide_eq_false in H1.
    replace (availableServers s - length prep) with 0 by lia. done.
  - apply bool_decide_eq_false in H1.
    replace (availableServers s - length prep) with 0 by lia. done.
Qed.

Lemma status_started g o : status (started g o) = preparing.
Proof. done. Qed.

(** Starting [l], a duplicate-free set of pending orders of [this.orders],
    raises the number of orders in preparation by [length l]. *)
Lemma foldl_startOrder_count l s :
  NoDup (orders s) -> NoDup l ->
  (forall oid, oid ∈ l -> oid ∈ orders s /\ order_has_status s pending oid) ->
  preparing_count (foldl startOrder s l) = preparing_count s + length l.
Proof.
  revert s. induction l as [|a l IH]; intros s Hnd Hl Hpend; simpl; [lia|].
  apply NoDup_cons in Hl as [Hal Hl].
  destruct (Hpend a) as [Ha Hpa]; [left|].
  destruct (startOrder_frame s a) as (Hord & _).
  rewrite IH; [|by rewrite Hord|done|].
  - enough (preparing_count (startOrder s a) = S (preparing_count s)) by lia.
    unfold preparing_count. rewrite Hord.
    apply (filter_length_flip _ _ _ a); [done..| | |].
    + unfold order_has_status in *. intros Hprep. congruence.
    + unfold order_has_status in *. rewrite startOrder_lookup, decide_True by done.
      destruct (orderObjs s !! a); simplify_eq/=; done.
    + intros x _ Hx. unfold order_has_status.
      by rewrite startOrder_lookup, decide_False by done.
  - intros oid Hoid. destruct (Hpend oid) as [? ?]; [by right|].
    rewrite Hord. split; [done|]. unfold order_has_status in *.
    rewrite startOrder_lookup, decide_False; [done|]. intros ->. done.
Qed.

Lemma promoteOrders_ok s : orders_ok s -> orders_ok (promoteOrders s).
Proof.
  intros [Hnd Hlive Hprep]. rewrite promoteOrders_eq.
  set (pend := filter (order_has_status s pending) (orders s)).
  set (l := take (ordersToStart s) pend).
  destruct (foldl_startOrder_frame l s) as (Hord & Hsrv & _).
  assert (NoDup l) as Hl.
  { apply (sublist_NoDup l pend); [by apply NoDup_filter|apply sublist_take]. }
  assert (forall oid, oid ∈ l -> oid ∈ orders s /\ order_has_status s pending oid) as Hin.
  { intros oid Hoid. apply (elem_of_sublist _ pend) in Hoid; [|apply sublist_take].
    apply list_elem_of_filter in Hoid as [? ?]. done. }
  split.
  - by rewrite Hord.
  - intros oid Hoid. rewrite Hord in Hoid. rewrite foldl_startOrder_lookup.
    destruct (Hlive oid Hoid) as [o Ho]. rewrite Ho. case_decide; eauto.
  - rewrite foldl_startOrder_count, Hsrv by done.
    assert (length l <= ordersToStart s) by (unfold l; rewrite length_take; lia).
    unfold ordersToStart in *. lia.
Qed.

Lemma serveOrder_frame oid s :
  orders (serveOrder oid s) = orders s /\
  availableServers (serveOrder oid s) = availableServers s /\
  gameTime (serveOrder oid s) = gameTime s /\
  customers (serveOrder oid s) = customers s.
Proof. unfold serveOrder. repeat case_match; done. Qed.

Lemma serveOrder_orderObjs oid s :
  orderObjs (serveOrder oid s) =
  match holder s oid, orderObjs s !! oid with
  | Some _, Some o => <[oid := set_status served o]> (orderObjs s)
  | _, _ => orderObjs s
  end.
Proof.
  unfold serveOrder, holder.
  destruct (list_find _ _) as [[i cid]|] eqn:Hfind; [|done].
  apply list_find_Some in Hfind as (_ & Hholds & _).
  unfold holds_order in Hholds.
  destruct (customerObjs s !! cid) as [c|]; [|done].
  by destruct (orderObjs s !! oid).
Qed.

Lemma checkOrder_frame s oid :
  orders (checkOrder s oid) = orders s /\
  availableServers (checkOrder s oid) = availableServers s /\
  gameTime (checkOrder s oid) = gameTime s /\
  customers (checkOrder s oid) = customers s.
Proof.
  unfold checkOrder. repeat case_match; try done.
  destruct (serveOrder_frame oid
    (store_order oid (set_timeCompleted (gameTime s) (set_status ready o)) s))
    as (-> & -> & -> & ->). done.
Qed.

Lemma checkOrder_orderObjs s oid :
  orderObjs (checkOrder s oid) =
  match orderObjs s !! oid with
  | Some o =>
      if is_due (gameTime s) o
      then <[oid := match holder s oid with
                    | Some _ => set_status served (completed (gameTime s) o)
                    | None => completed (gameTime s) o
                    end]> (orderObjs s)
      else orderObjs s
  | None => orderObjs s
  end.
Proof.
  unfold checkOrder, is_due.
  destruct (orderObjs s !! oid) as [o|] eqn:Ho; [|done].
  destruct (Qle_bool _ _); [|done].
  rewrite serveOrder_orderObjs.
  change (holder (store_order oid _ s) oid) with (holder s oid).
  destruct (holder s oid); simpl.
  - by rewrite lookup_insert_eq, insert_insert_eq.
  - done.
Qed.

(** A completion check never puts an order into preparation, and keeps
    every order object alive. *)
Lemma checkOrder_status s oid oid' :
  order_has_status (checkOrder s oid) preparing oid' ->
  order_has_status s preparing oid'.
Proof.
  unfold order_has_status. rewrite checkOrder_orderObjs.
  destruct (orderObjs s !! oid) as [o|] eqn:Ho; [|done].
  destruct (is_due _ _); [|done].
  destruct (decide (oid' = oid)) as [->|Hne].
  - rewrite lookup_insert_eq. by destruct (holder s oid).
  - by rewrite lookup_insert_ne.
Qed.

Lemma checkOrder_live s oid oid' :
  is_Some (orderObjs s !! oid') -> is_Some (orderObjs (checkOrder s oid) !! oid').
Proof.
  rewrite checkOrder_orderObjs.
  destruct (orderObjs s !! oid) as [o|] eqn:Ho; [|done].
  destruct (is_due _ _); [|done].
  destruct (decide (oid' = oid)) as [->|Hne].
  - rewrite lookup_insert_eq. eauto.
  - by rewrite lookup_insert_ne.
Qed.

Lemma checkOrder_ok s oid : orders_ok s -> orders_ok (checkOrder s oid).
Proof.
  intros [Hnd Hlive Hprep].
  destruct (checkOrder_frame s oid) as (Hord & Hsrv & _).
  split.
  - by rewrite Hord.
  - intros oid'. rewrite Hord. intros ?. by apply checkOrder_live, Hlive.
  - rewrite Hsrv. etrans; [|exact Hprep]. unfold preparing_count. rewrite Hord.
    apply filter_length_mono. intros x _. apply checkOrder_status.
Qed.

Lemma foldl_checkOrder_ok l s : orders_ok s -> orders_ok (foldl checkOrder s l).
Proof.
  revert s. induction l as [|a l IH]; intros s Hs; simpl; [done|].
  by apply IH, checkOrder_ok.
Qed.

Lemma processOrders_ok dt s : orders_ok s -> orders_ok (processOrders dt s).
Proof. intros Hs. unfold processOrders. by apply foldl_checkOrder_ok, promoteOrders_ok. Qed.

End OrderPipeline.


Section Seating.
Variable random : nat -> Q.

Lemma generateOrder_pending items r1 r2 r3 c o :
  generateOrder items r1 r2 r3 c = Some o ->
  status o = pending /\ timeStarted o = None /\
  prepTime o = menu_prepTime (MENU_ITEMS (item o)).
Proof.
  unfold generateOrder. repeat case_match; intros; simplify_eq; done.
Qed.

(** Seating leaves the order pipeline alone, or places one new pending
    order at the end of [this.orders]. *)
Lemma seatCustomer_orders cid t s :
  let s' := (seatCustomer random cid t s).1 in
  order_view s' = order_view s \/
  exists o, status o = pending /\ timePlaced o = gameTime s /\
    orders s' = orders s ++ [fresh (dom (orderObjs s))] /\
    orderObjs s' = <[fresh (dom (orderObjs s)) := o]> (orderObjs s) /\
    availableServers s' = availableServers s.
Proof.
  rewrite seatCustomer_placed. unfold seatCustomer_placing.
  destruct (customerObjs s !! cid) as [c|]; [|by left].
  destruct (tables s !! t) as [tb|]; [|by left].
  destruct (decide (table_status tb = t_dirty)); [by left|].
  simpl. destruct (generateOrder _ _ _ _ _) as [o|] eqn:Hgen; [|by left].
  right. apply generateOrder_pending in Hgen as (Hst & _).
  exists (set_timePlaced (gameTime s) o). done.
Qed.

Lemma seatCustomer_ok cid t s : orders_ok s -> orders_ok (seatCustomer random cid t s).1.
Proof.
  intros Hs.
  destruct (seatCustomer_orders cid t s) as [Hview|(o & Hst & _ & Hord & Hobj & Hsrv)].
  { by apply (orders_ok_view s). }
  destruct Hs as [Hnd Hlive Hprep].
  set (oid := fresh (dom (orderObjs s))) in *.
  assert (orderObjs s !! oid = None) as Hfresh.
  { apply not_elem_of_dom. apply is_fresh. }
  assert (oid ∉ orders s) as Hnew.
  { intros Hin. apply Hlive in Hin as [? Hin]. congruence. }
  split.
  - rewrite Hord. apply NoDup_app. split; [done|]. split; [|apply NoDup_singleton].
    intros x Hx ->%list_elem_of_singleton. done.
  - intros x. rewrite Hord, Hobj. intros [Hx| ->%list_elem_of_singleton]%elem_of_app.
    + rewrite lookup_insert_ne by (intros ->; done). by apply Hlive.
    + rewrite lookup_insert_eq. eauto.
  - rewrite Hsrv. etrans; [|exact Hprep]. unfold preparing_count. rewrite Hord.
    rewrite filter_app, length_app.
    rewrite (filter_ext_in _ (order_has_status s preparing) (orders s)).
    + rewrite filter_cons, decide_False; [simpl; lia|].
      unfold order_has_status. rewrite Hobj, lookup_insert_eq. simpl. congruence.
    + intros x Hx. unfold order_has_status.
      rewrite Hobj, lookup_insert_ne by (intros ->; done). done.
Qed.

Lemma seat_waiting_ok ws s : orders_ok s -> orders_ok (seat_waiting random ws s).
Proof.
  revert s. induction ws as [|cid ws IH]; intros s Hs; simpl; [done|].
  destruct (findAvailableTable s) as [t|]; [|done].
  apply IH. eapply orders_ok_view; [|by apply (seatCustomer_ok cid t)]. done.
Qed.

Lemma update_customers_ok dt n s :
  orders_ok s -> orders_ok (update_customers random dt n s).
Proof. apply orders_ok_view, update_customers_order_view. Qed.

Lemma update_ok dt s : orders_ok s -> orders_ok (update random dt s).
Proof.
  intros Hs. unfold update.
  set (s1 := processQueue random _).
  assert (orders_ok s1) as Hs1.
  { apply seat_waiting_ok, processOrders_ok, update_customers_ok, Hs. }
  case_match; [|by apply (orders_ok_view s1)].
  eapply orders_ok_view; [|exact Hs1]. done.
Qed.

Lemma step_ok s e : orders_ok s -> orders_ok (step random s e).
Proof.
  intros Hs. destruct e as [g dt| |ms|k]; simpl.
  - apply update_ok. by apply (orders_ok_view s).
  - by apply (orders_ok_view s).
  - by apply (orders_ok_view s).
  - eapply orders_ok_view; [apply run_timeout_order_view|done].
Qed.

Lemma run_ok s events : orders_ok s -> orders_ok (run random s events).
Proof.
  revert s. induction events as [|e events IH]; intros s Hs; simpl; [done|].
  by apply IH, step_ok.
Qed.

Lemma new_CafeSystem_ok g m r clk : orders_ok (new_CafeSystem g m r clk).
Proof.
  split; simpl; [apply NoDup_nil_2|by intros ? ?%elem_of_nil|].
  unfold preparing_count; simpl; lia.
Qed.

End Seating.


(** ** Satisfaction stays a percentage *)

(** Seconds to minutes: division by 60 as a multiplication, for [lra]. *)
Ltac minutes := unfold Qdiv in *; change (/ 60)%Q with (1 # 60)%Q in *.

Section Satisfaction.
Variable random : nat -> Q.
#[local] Open Scope Q_scope.

Lemma Qltb_lt x y : Qltb x y = true <-> x < y.
Proof.
  unfold Qltb. rewrite negb_true_iff. split.
  - intros H. apply Qnot_le_lt. intros Hle. apply Qle_bool_iff in Hle. congruence.
  - intros H. destruct (Qle_bool y x) eqn:E; [|done].
    apply Qle_bool_iff in E. exfalso. by apply (Qlt_not_le x y).
Qed.

Lemma Qltb_ge x y : Qltb x y = false <-> y <= x.
Proof.
  unfold Qltb. rewrite negb_false_iff. apply Qle_bool_iff.
Qed.

Lemma Qmax_0_bounds x : x <= 100 -> 0 <= Qmax 0 x /\ Qmax 0 x <= 100.
Proof.
  intros Hx. split; [apply Q.le_max_l|]. apply Q.max_lub; [done|exact Hx].
Qed.

Lemma Qmin_100_bounds x : 0 <= x -> 0 <= Qmin 100 x /\ Qmin 100 x <= 100.
Proof.
  intros Hx. split; [|apply Q.le_min_l]. apply Q.min_glb; [done|exact Hx].
Qed.

Lemma Customer_update_sound g dt total r c :
  0 <= dt -> sound_customer g c ->
  sound_customer g (Customer_update g dt total r c).1.
Proof.
  intros Hdt (Hlo & Hhi & Hw). unfold Customer_update.
  destruct (state c); simpl; try done.
  - assert (100 - (g - waitStartTime c) / 60 * 5 <= 100) as Hx by (minutes; lra).
    apply Qmax_0_bounds in Hx as [? ?]. by case_match.
  - assert (100 - (g - waitStartTime c) / 60 * 5 <= 100) as Hx by (minutes; lra).
    apply Qmax_0_bounds in Hx as [? ?]. by case_match.
  - assert (0 <= satisfaction c + dt * (1 # 2)) as Hx by lra.
    apply Qmin_100_bounds in Hx as [? ?].
    case_match; simpl; repeat split; try done. apply Qle_refl.
  - by case_match.
Qed.

(** *** Nothing but the environment touches the clocks *)

Lemma handlePayment_env cid a t s : env_view (handlePayment cid a t s) = env_view s.
Proof. unfold handlePayment. repeat case_match; done. Qed.

Lemma handleCustomerLeave_env cid r s : env_view (handleCustomerLeave cid r s) = env_view s.
Proof. unfold handleCustomerLeave. repeat case_match; done. Qed.

Lemma update_customer_at_env dt i s :
  env_view (update_customer_at random dt i s) = env_view s.
Proof.
  unfold update_customer_at.
  destruct (customers s !! i) as [cid|]; [|done].
  destruct (customerObjs s !! cid) as [c|]; [|done].
  destruct (Customer_update _ _ _ _ c) as [c' [[reason|amount tip]|]]; [| |done].
  - exact (handleCustomerLeave_env cid reason (store_customer cid c' s)).
  - etrans; [exact (handleCustomerLeave_env cid paid _)|].
    exact (handlePayment_env cid amount tip
             (set_draws (S (draws s)) (store_customer cid c' s))).
Qed.

Lemma update_customers_env dt n s :
  env_view (update_customers random dt n s) = env_view s.
Proof.
  revert s. induction n as [|n IH]; intros s; simpl; [done|].
  by rewrite IH, update_customer_at_env.
Qed.

Lemma serveOrder_env oid s : env_view (serveOrder oid s) = env_view s.
Proof. unfold serveOrder. repeat case_match; done. Qed.

Lemma startOrder_env s oid : env_view (startOrder s oid) = env_view s.
Proof. unfold startOrder. by case_match. Qed.

Lemma checkOrder_env s oid : env_view (checkOrder s oid) = env_view s.
Proof.
  unfold checkOrder. repeat case_match; try done.
  by rewrite serveOrder_env.
Qed.

Lemma foldl_env (f : CafeSystem -> nat -> CafeSystem) l s :
  (forall s x, env_view (f s x) = env_view s) -> env_view (foldl f s l) = env_view s.
Proof.
  intros Hf. revert s. induction l as [|a l IH]; intros s; simpl; [done|].
  by rewrite IH, Hf.
Qed.

Lemma promoteOrders_env s : env_view (promoteOrders s) = env_view s.
Proof. rewrite promoteOrders_eq. apply foldl_env, startOrder_env. Qed.

Lemma processOrders_env dt s : env_view (processOrders dt s) = env_view s.
Proof.
  unfold processOrders. rewrite foldl_env by apply checkOrder_env. apply promoteOrders_env.
Qed.

Lemma seatCustomer_env cid t s : env_view (seatCustomer random cid t s).1 = env_view s.
Proof. rewrite seatCustomer_placed. unfold seatCustomer_placing. repeat case_match; done. Qed.

Lemma seat_waiting_env ws s : env_view (seat_waiting random ws s) = env_view s.
Proof.
  revert s. induction ws as [|cid ws IH]; intros s; simpl; [done|].
  destruct (findAvailableTable s) as [t|]; [|done].
  rewrite IH. exact (seatCustomer_env cid t s).
Qed.

Lemma processQueue_env s : env_view (processQueue random s) = env_view s.
Proof. apply seat_waiting_env. Qed.

Lemma spawnCustomer_env s : env_view (spawnCustomer random s) = env_view s.
Proof. done. Qed.

Lemma update_env dt s : env_view (update random dt s) = env_view s.
Proof.
  unfold update. set (s1 := processQueue random _).
  assert (env_view s1 = env_view s) as <-.
  { unfold s1. by rewrite processQueue_env, processOrders_env, update_customers_env. }
  by case_match.
Qed.

Lemma run_timeout_env k s : env_view (run_timeout k s) = env_view s.
Proof. unfold run_timeout. repeat case_match; done. Qed.

Lemma env_gameTime s s' : env_view s' = env_view s -> gameTime s' = gameTime s.
Proof. by intros [= -> _ _]. Qed.

Lemma env_clock s s' : env_view s' = env_view s -> clock s' = clock s.
Proof. by intros [= _ -> _]. Qed.

Lemma env_servers s s' : env_view s' = env_view s -> availableServers s' = availableServers s.
Proof. by intros [= _ _ ->]. Qed.

End Satisfaction.


Section Soundness.
Variable random : nat -> Q.
#[local] Open Scope Q_scope.

Lemma customers_sound_view s s' :
  gameTime s' = gameTime s -> customerObjs s' = customerObjs s ->
  customers_sound s -> customers_sound s'.
Proof. unfold customers_sound. by intros -> ->. Qed.

Lemma store_customer_sound cid c s :
  sound_customer (gameTime s) c -> customers_sound s ->
  customers_sound (store_customer cid c s).
Proof. intros Hc Hs. by apply map_Forall_insert_2. Qed.

Lemma handlePayment_sound cid a t s :
  customers_sound s -> customers_sound (handlePayment cid a t s).
Proof.
  intros Hs. unfold handlePayment.
  destruct (customerObjs s !! cid) as [c|] eqn:Hc; [|done].
  destruct (table c); [|exact Hs].
  apply store_customer_sound; [|exact Hs].
  exact (Hs cid c Hc).
Qed.

Lemma handleCustomerLeave_sound cid r s :
  customers_sound s -> customers_sound (handleCustomerLeave cid r s).
Proof.
  intros Hs. unfold handleCustomerLeave.
  destruct (customerObjs s !! cid) as [c|]; [|done].
  destruct r, (table c); exact Hs.
Qed.

Lemma update_customer_at_sound dt i s :
  0 <= dt -> customers_sound s -> customers_sound (update_customer_at random dt i s).
Proof.
  intros Hdt Hs. unfold update_customer_at.
  destruct (customers s !! i) as [cid|]; [|done].
  destruct (customerObjs s !! cid) as [c|] eqn:Hc; [|done].
  pose proof (Customer_update_sound (gameTime s) dt (order_total s c)
                (random (draws s)) c Hdt (Hs cid c Hc)) as Hc'.
  destruct (Customer_update _ _ _ _ c) as [c' result]. simpl in Hc'.
  assert (customers_sound (store_customer cid c' s)) as Hs'
    by by apply store_customer_sound.
  destruct result as [[reason|amount tip]|]; [| |done].
  - exact (handleCustomerLeave_sound cid reason _ Hs').
  - exact (handleCustomerLeave_sound cid paid _
             (handlePayment_sound cid amount tip
                (set_draws (S (draws s)) (store_customer cid c' s)) Hs')).
Qed.

Lemma update_customers_sound dt n s :
  0 <= dt -> customers_sound s -> customers_sound (update_customers random dt n s).
Proof.
  intros Hdt. revert s. induction n as [|n IH]; intros s Hs; simpl; [done|].
  by apply IH, update_customer_at_sound.
Qed.

Lemma serveOrder_sound oid s : customers_sound s -> customers_sound (serveOrder oid s).
Proof.
  intros Hs. unfold serveOrder.
  destruct (list_find _ _) as [[i cid]|]; [|done].
  destruct (customerObjs s !! cid) as [c|] eqn:Hc; [|done].
  destruct (orderObjs s !! oid) as [o|]; [|done].
  destruct (Hs cid c Hc) as (Hlo & Hhi & Hw).
  eapply customers_sound_view;
    [| |apply (store_customer_sound cid), Hs]; [done|done|].
  destruct (Qltb _ _) eqn:Hlate; simpl.
  - apply Qltb_lt in Hlate.
    assert (satisfaction c
            - ((gameTime s - timePlaced o) / 60 - prepTime o * (3 # 2)) * 5 <= 100) as Hx
      by lra.
    apply Qmax_0_bounds in Hx as [? ?]. repeat split; try done. apply Qle_refl.
  - assert (0 <= satisfaction c + 5) as Hx by lra.
    apply Qmin_100_bounds in Hx as [? ?]. repeat split; try done. apply Qle_refl.
Qed.

Lemma startOrder_sound s oid : customers_sound s -> customers_sound (startOrder s oid).
Proof. unfold startOrder. by case_match. Qed.

Lemma checkOrder_sound s oid : customers_sound s -> customers_sound (checkOrder s oid).
Proof.
  intros Hs. unfold checkOrder. repeat case_match; try done.
  by apply serveOrder_sound.
Qed.

Lemma foldl_sound (f : CafeSystem -> nat -> CafeSystem) l s :
  (forall s x, customers_sound s -> customers_sound (f s x)) ->
  customers_sound s -> customers_sound (foldl f s l).
Proof.
  intros Hf. revert s. induction l as [|a l IH]; intros s Hs; simpl; [done|].
  by apply IH, Hf.
Qed.

Lemma processOrders_sound dt s : customers_sound s -> customers_sound (processOrders dt s).
Proof.
  intros Hs. unfold processOrders. apply foldl_sound; [apply checkOrder_sound|].
  rewrite promoteOrders_eq. apply foldl_sound; [apply startOrder_sound|done].
Qed.

Lemma seatCustomer_sound cid t s :
  customers_sound s -> customers_sound (seatCustomer random cid t s).1.
Proof.
  intros Hs. rewrite seatCustomer_placed. unfold seatCustomer_placing.
  destruct (customerObjs s !! cid) as [c|] eqn:Hc; [|done].
  destruct (tables s !! t) as [tb|]; [|done].
  destruct (decide _); [exact Hs|].
  destruct (Hs cid c Hc) as (Hlo & Hhi & Hw).
  simpl. destruct (generateOrder _ _ _ _ _); simpl.
  - eapply customers_sound_view; [| |apply (store_customer_sound cid), Hs]; [done|done|].
    repeat split; try done. apply Qle_refl.
  - eapply customers_sound_view; [| |apply (store_customer_sound cid), Hs]; [done|done|].
    repeat split; try done. apply Qle_refl.
Qed.

Lemma seat_waiting_sound ws s :
  customers_sound s -> customers_sound (seat_waiting random ws s).
Proof.
  revert s. induction ws as [|cid ws IH]; intros s Hs; simpl; [done|].
  destruct (findAvailableTable s) as [t|]; [|done].
  apply IH. exact (seatCustomer_sound cid t s Hs).
Qed.

Lemma spawnCustomer_sound s : customers_sound s -> customers_sound (spawnCustomer random s).
Proof.
  intros Hs. unfold spawnCustomer. cbv zeta.
  apply store_customer_sound; [|exact Hs].
  repeat split; simpl; try done. apply Qle_refl.
Qed.

Lemma update_sound dt s :
  0 <= dt -> customers_sound s -> customers_sound (update random dt s).
Proof.
  intros Hdt Hs. unfold update.
  set (s1 := processQueue random _).
  assert (customers_sound s1) as Hs1.
  { apply seat_waiting_sound, processOrders_sound, update_customers_sound; done. }
  case_match; [|exact Hs1].
  exact (spawnCustomer_sound (set_draws _ s1) Hs1).
Qed.

Lemma run_timeout_sound k s : customers_sound s -> customers_sound (run_timeout k s).
Proof. unfold run_timeout. repeat case_match; done. Qed.

Lemma set_gameTime_sound g s :
  gameTime s <= g -> customers_sound s -> customers_sound (set_gameTime g s).
Proof.
  intros Hg Hs cid c Hc. destruct (Hs cid c Hc) as (Hlo & Hhi & Hw).
  repeat split; try done. simpl. by apply (Qle_trans _ (gameTime s)).
Qed.

Lemma run_sound events s :
  monotone_frames (gameTime s) events -> customers_sound s ->
  customers_sound (run random s events).
Proof.
  revert s. induction events as [|e events IH]; intros s Hmono Hs; simpl; [done|].
  destruct e as [g dt| |ms|k]; simpl in *.
  - destruct Hmono as (Hg & Hdt & Hmono). apply IH.
    + by rewrite (env_gameTime _ _ (update_env random dt _)).
    + by apply update_sound, set_gameTime_sound.
  - apply IH; [done|]. by apply spawnCustomer_sound.
  - by apply IH.
  - apply IH; [|by apply run_timeout_sound].
    by rewrite (env_gameTime _ _ (run_timeout_env k _)).
Qed.

End Soundness.


(** ** Seating *)

Section ListsMore.
Context {A : Type}.
Implicit Types (l : list A).

Lemma NoDup_delete l i : NoDup l -> NoDup (delete i l).
Proof. intros H. eapply sublist_NoDup; [exact H|apply sublist_delete]. Qed.

Lemma NoDup_lookup_delete l i x : NoDup l -> l !! i = Some x -> x ∉ delete i l.
Proof.
  intros Hnd Hi Hin.
  rewrite <-(take_drop_middle l i x Hi) in Hnd.
  rewrite delete_take_drop in Hin.
  apply NoDup_app in Hnd as (_ & Hnot & Hnd).
  apply NoDup_cons in Hnd as [Hx _].
  apply elem_of_app in Hin as [Hin|Hin]; [|done].
  apply (Hnot x Hin). left.
Qed.

Lemma elem_of_delete_ne l i x y : l !! i = Some y -> x <> y -> x ∈ l -> x ∈ delete i l.
Proof.
  intros Hi Hne Hin.
  rewrite <-(take_drop_middle l i y Hi) in Hin.
  rewrite delete_take_drop.
  apply elem_of_app in Hin as [Hin|Hin]; apply elem_of_app; [by left|].
  apply elem_of_cons in Hin as [?|?]; [done|by right].
Qed.

End ListsMore.


Section Tables.
Variable random : nat -> Q.

Lemma Customer_update_frame g dt total r c :
  let c' := (Customer_update g dt total r c).1 in
  table c' = table c /\ order c' = order c /\ patience c' = patience c.
Proof. unfold Customer_update. repeat case_match; done. Qed.

Lemma status_at_alter f t t' s :
  status_at (alter_table f t s) t' =
  if decide (t = t') then table_status <$> (f <$> tables s !! t) else status_at s t'.
Proof. unfold status_at. simpl. rewrite list_lookup_alter. by case_decide. Qed.

(** Replacing the record of a customer by one that holds the same table. *)
Lemma tables_ok_store cid c c' s :
  customerObjs s !! cid = Some c -> table c' = table c ->
  tables_ok s -> tables_ok (store_customer cid c' s).
Proof.
  intros Hc Htable [Hnd Hlive Hseat Hun Htime Htnd].
  split; simpl; try done.
  - intros x Hx. destruct (decide (x = cid)) as [->|Hne].
    + rewrite lookup_insert_eq. eauto.
    + rewrite lookup_insert_ne by done. by apply Hlive.
  - intros x cx t Hx. destruct (decide (x = cid)) as [->|Hne].
    + rewrite lookup_insert_eq. intros [= <-] Ht. rewrite Htable in Ht. by eapply Hseat.
    + rewrite lookup_insert_ne by done. by apply Hseat.
Qed.

(** A customer leaves: it is taken off [this.customers] and the table it
    held, if any, is freed. *)
Lemma tables_ok_remove s s' i cid c :
  tables_ok s ->
  customers s !! i = Some cid -> customerObjs s !! cid = Some c ->
  customers s' = delete i (customers s) ->
  (forall x, x <> cid -> customerObjs s' !! x = customerObjs s !! x) ->
  tables s' = match table c with
              | Some t => alter freed t (tables s)
              | None => tables s
              end ->
  timeouts s' = timeouts s ->
  tables_ok s'.
Proof.
  intros [Hnd Hlive Hseat Hun Htime Htnd] Hi Hc Hcust Hobjs Htables Htimeouts.
  assert (cid ∈ customers s) as Hcid by (by eapply list_elem_of_lookup_2).
  assert (forall x, x ∈ customers s' -> x ∈ customers s /\ x <> cid) as Hin.
  { intros x. rewrite Hcust. intros Hx. split; [by eapply list_elem_of_delete_inv|].
    intros ->. exact (NoDup_lookup_delete _ _ _ Hnd Hi Hx). }
  split.
  - rewrite Hcust. by apply NoDup_delete.
  - intros x [Hx Hne]%Hin. rewrite Hobjs by done. by apply Hlive.
  - intros x cx t [Hx Hne]%Hin. rewrite Hobjs by done. intros Hcx Ht.
    destruct (Hseat x cx t Hx Hcx Ht) as (tb & Htb & Hst & Hback).
    exists tb. split; [|done].
    rewrite Htables. destruct (table c) as [t0|] eqn:Ht0; [|done].
    rewrite list_lookup_alter_ne; [done|]. intros ->.
    destruct (Hseat cid c t Hcid Hc Ht0) as (tb' & Htb' & _ & Hback').
    congruence.
  - intros t tb. rewrite Htables. destruct (table c) as [t0|] eqn:Ht0; [|apply Hun].
    rewrite list_lookup_alter. case_decide; [subst|apply Hun].
    destruct (tables s !! t); intros; simplify_eq/=. done.
  - intros due t. rewrite Htimeouts. intros Hdue%Htime.
    unfold status_at in *. rewrite Htables.
    destruct (table c) as [t0|] eqn:Ht0; [|done].
    rewrite list_lookup_alter_ne; [done|]. intros ->.
    destruct (Hseat cid c t Hcid Hc Ht0) as (tb' & Htb' & Hst & _).
    rewrite Htb' in Hdue. simpl in Hdue. congruence.
  - by rewrite Htimeouts.
Qed.

Lemma handleCustomerLeave_fields cid r s c :
  customerObjs s !! cid = Some c ->
  let s' := handleCustomerLeave cid r s in
  customers s' = customers s /\
  customerObjs s' = customerObjs s /\
  tables s' = match table c with
              | Some t => alter freed t (tables s)
              | None => tables s
              end /\
  timeouts s' = timeouts s /\
  queue s' = filter (fun x => x <> cid) (queue s) /\
  draws s' = draws s.
Proof.
  intros Hc. unfold handleCustomerLeave. rewrite Hc. by destruct r, (table c).
Qed.

Lemma handlePayment_fields cid a t s c :
  customerObjs s !! cid = Some c ->
  let s' := handlePayment cid a t s in
  customers s' = customers s /\
  customerObjs s' = match table c with
                    | Some _ => <[cid := set_table None c]> (customerObjs s)
                    | None => customerObjs s
                    end /\
  tables s' = match table c with
              | Some t => alter freed t (tables s)
              | None => tables s
              end /\
  timeouts s' = timeouts s /\
  queue s' = queue s /\
  draws s' = draws s.
Proof.
  intros Hc. unfold handlePayment. rewrite Hc. by destruct (table c).
Qed.

(** The three outcomes of one iteration of the customer loop: nothing but
    the customer's own record changes, or the customer leaves. *)
Lemma update_customer_at_spec dt i s cid c :
  customers s !! i = Some cid -> customerObjs s !! cid = Some c ->
  let cr := Customer_update (gameTime s) dt (order_total s c) (random (draws s)) c in
  let s' := update_customer_at random dt i s in
  match cr.2 with
  | None => s' = store_customer cid cr.1 s
  | Some _ =>
      customers s' = delete i (customers s) /\
      queue s' = filter (fun x => x <> cid) (queue s) /\
      tables s' = match table c with
                  | Some t => alter freed t (tables s)
                  | None => tables s
                  end /\
      timeouts s' = timeouts s /\
      (forall x, x <> cid -> customerObjs s' !! x = customerObjs s !! x) /\
      (customerObjs s' !! cid = Some cr.1 \/
       customerObjs s' !! cid = Some (set_table None cr.1))
  end.
Proof.
  intros Hi Hc. unfold update_customer_at. rewrite Hi, Hc.
  destruct (Customer_update_frame (gameTime s) dt (order_total s c) (random (draws s)) c)
    as (Htable & _).
  destruct (Customer_update _ _ _ _ c) as [c' result]. simpl in *.
  destruct result as [[reason|amount tip]|]; [| |done].
  - set (s1 := store_customer cid c' s).
    assert (customerObjs s1 !! cid = Some c') as Hc1 by apply lookup_insert_eq.
    destruct (handleCustomerLeave_fields cid reason s1 c' Hc1)
      as (Hcust & Hobjs & Htabs & Htime & Hqueue & _).
    simpl. rewrite Hcust, Hobjs, Htabs, Htime, Hqueue, Htable.
    repeat split; try done.
    + intros x Hx. by apply lookup_insert_ne.
    + by left.
  - set (s1 := set_draws (S (draws s)) (store_customer cid c' s)).
    assert (customerObjs s1 !! cid = Some c') as Hc1 by apply lookup_insert_eq.
    destruct (handlePayment_fields cid amount tip s1 c' Hc1)
      as (Hcust & Hobjs & Htabs & Htime & Hqueue & _).
    set (s2 := handlePayment cid amount tip s1) in *.
    assert (exists c2, customerObjs s2 !! cid = Some c2 /\ table c2 = None /\
                       (c2 = c' \/ c2 = set_table None c')) as (c2 & Hc2 & Ht2 & Hc2').
    { rewrite Hobjs. destruct (table c') eqn:Ht.
      - exists (set_table None c'). rewrite lookup_insert_eq. auto.
      - exists c'. auto. }
    destruct (handleCustomerLeave_fields cid paid s2 c2 Hc2)
      as (Hcust' & Hobjs' & Htabs' & Htime' & Hqueue' & _).
    simpl. rewrite Hcust', Hobjs', Htabs', Htime', Hqueue', Ht2.
    rewrite Hcust, Htabs, Htime, Hqueue, Htable. repeat split; try done.
    + intros x Hx. rewrite Hobjs.
      destruct (table c'); rewrite ?lookup_insert_ne by done; by apply lookup_insert_ne.
    + rewrite Hc2. destruct Hc2' as [->| ->]; auto.
Qed.

Lemma update_customer_at_tables_ok dt i s :
  tables_ok s -> tables_ok (update_customer_at random dt i s).
Proof.
  intros Hs.
  destruct (customers s !! i) as [cid|] eqn:Hi; [|by unfold update_customer_at; rewrite Hi].
  destruct (customerObjs s !! cid) as [c|] eqn:Hc;
    [|by unfold update_customer_at; rewrite Hi, Hc].
  pose proof (update_customer_at_spec dt i s cid c Hi Hc) as Hspec. simpl in Hspec.
  destruct (Customer_update_frame (gameTime s) dt (order_total s c) (random (draws s)) c)
    as (Htable & _).
  destruct (Customer_update _ _ _ _ c) as [c' result]. simpl in *.
  destruct result as [ev|].
  - destruct Hspec as (Hcust & _ & Htabs & Htime & Hobjs & _).
    by apply (tables_ok_remove s _ i cid c).
  - rewrite Hspec. by apply (tables_ok_store cid c).
Qed.

Lemma update_customers_tables_ok dt n s :
  tables_ok s -> tables_ok (update_customers random dt n s).
Proof.
  revert s. induction n as [|n IH]; intros s Hs; simpl; [done|].
  by apply IH, update_customer_at_tables_ok.
Qed.

Lemma tables_ok_view s s' : seat_view s' = seat_view s -> tables_ok s -> tables_ok s'.
Proof.
  unfold seat_view. intros Hview [Hnd Hlive Hseat Hun Htime Htnd].
  destruct s, s'; unfold status_at in *; simpl in *; simplify_eq. by split.
Qed.

Lemma serveOrder_tables_ok oid s : tables_ok s -> tables_ok (serveOrder oid s).
Proof.
  intros Hs. unfold serveOrder.
  destruct (list_find _ _) as [[i cid]|]; [|done].
  destruct (customerObjs s !! cid) as [c|] eqn:Hc; [|done].
  destruct (orderObjs s !! oid) as [o|]; [|done].
  eapply tables_ok_view; [|apply (tables_ok_store cid c), Hs]; [done|done|].
  by case_match.
Qed.

Lemma startOrder_seat_view s oid : seat_view (startOrder s oid) = seat_view s.
Proof. unfold startOrder. by case_match. Qed.

Lemma checkOrder_tables_ok s oid : tables_ok s -> tables_ok (checkOrder s oid).
Proof.
  intros Hs. unfold checkOrder. repeat case_match; try done.
  apply serveOrder_tables_ok. by apply (tables_ok_view s).
Qed.

Lemma processOrders_tables_ok dt s : tables_ok s -> tables_ok (processOrders dt s).
Proof.
  intros Hs. unfold processOrders.
  assert (forall l s, tables_ok s -> tables_ok (foldl checkOrder s l)) as Hfold.
  { intros l. induction l as [|a l IH]; intros s0 Hs0; simpl; [done|].
    by apply IH, checkOrder_tables_ok. }
  apply Hfold. rewrite promoteOrders_eq.
  generalize (take (ordersToStart s) (filter (order_has_status s pending) (orders s))).
  intros l. revert s Hs. induction l as [|a l IH]; intros s Hs; simpl; [done|].
  apply IH. eapply tables_ok_view; [apply startOrder_seat_view|done].
Qed.

Lemma findAvailableTable_Some s t :
  findAvailableTable s = Some t ->
  exists tb, tables s !! t = Some tb /\ table_available tb /\
    forall j tb', tables s !! j = Some tb' -> j < t -> ~ table_available tb'.
Proof.
  unfold findAvailableTable. destruct (list_find _ _) as [[i tb]|] eqn:Hfind; [|done].
  intros [= <-]. apply list_find_Some in Hfind as (Hi & Hav & Hmin).
  exists tb. repeat split; [done..|]. intros j tb' Hj Hlt. by eapply Hmin.
Qed.

Lemma findAvailableTable_None s t tb :
  findAvailableTable s = None -> tables s !! t = Some tb -> ~ table_available tb.
Proof.
  unfold findAvailableTable. destruct (list_find _ _) as [[i tb']|] eqn:Hfind; [done|].
  intros _ Ht. eapply list_find_None in Hfind. rewrite Forall_forall in Hfind.
  apply Hfind. by eapply list_elem_of_lookup_2.
Qed.

(** A dirty table is not given to the customer: it goes to cleaning and a
    callback is registered for 3000 ms from now. *)
Lemma seatCustomer_dirty cid t s c tb :
  customerObjs s !! cid = Some c -> tables s !! t = Some tb ->
  table_status tb = t_dirty ->
  seatCustomer random cid t s =
  (set_timeouts (timeouts s ++ [((clock s + 3000)%Z, t)])
     (alter_table (set_table_status t_cleaning) t s), false).
Proof.
  intros Hc Ht Hst. rewrite seatCustomer_placed. unfold seatCustomer_placing.
  rewrite Hc, Ht. by rewrite decide_True.
Qed.

(** Any other table is taken: the customer gets it and places an order. *)
Lemma seatCustomer_seated cid t s c tb :
  customerObjs s !! cid = Some c -> tables s !! t = Some tb ->
  table_status tb <> t_dirty ->
  let s' := (seatCustomer random cid t s).1 in
  (seatCustomer random cid t s).2 = true /\
  customers s' = customers s /\ queue s' = queue s /\
  tables s' = alter (occupied_by cid) t (tables s) /\
  timeouts s' = timeouts s /\
  (forall x, x <> cid -> customerObjs s' !! x = customerObjs s !! x) /\
  exists c', customerObjs s' !! cid = Some c' /\ table c' = Some t /\
    state c' = waiting_for_order /\ order c' = Some (fresh (dom (orderObjs s))) /\
    waitStartTime c' = gameTime s /\ patience c' = patience c.
Proof.
  intros Hc Ht Hst. rewrite seatCustomer_placed. unfold seatCustomer_placing.
  rewrite Hc, Ht. rewrite decide_False by done.
  cbv zeta.
  set (c1 := set_waitStartTime _ _).
  destruct (generateOrder_menu (random (draws s)) (random (draws s + 1))
              (random (draws s + 2)) c1) as [o Ho].
  simpl in Ho |- *. rewrite Ho. simpl. repeat split; try done.
  - intros x Hx. by apply lookup_insert_ne.
  - eexists. rewrite lookup_insert_eq. done.
Qed.

Lemma seatCustomer_tables_ok cid t s :
  findAvailableTable s = Some t -> tables_ok s -> tables_ok (seatCustomer random cid t s).1.
Proof.
  intros (tb & Ht & Hav & _)%findAvailableTable_Some Hs.
  destruct (customerObjs s !! cid) as [c|] eqn:Hc;
    [|by rewrite seatCustomer_placed; unfold seatCustomer_placing; rewrite Hc].
  destruct Hs as [Hnd Hlive Hseat Hun Htime Htnd].
  destruct (decide (table_status tb = t_dirty)) as [Hdirty|Hclean].
  - rewrite (seatCustomer_dirty cid t s c tb) by done.
    split; simpl; try done.
    + intros x cx t' Hx Hcx Ht'.
      destruct (Hseat x cx t' Hx Hcx Ht') as (tb' & Htb' & Hst & Hback).
      exists tb'. rewrite list_lookup_alter_ne; [done|]. intros ->. congruence.
    + intros t' tb'. rewrite list_lookup_alter. case_decide; [subst|apply Hun].
      rewrite Ht. intros [= <-] _. simpl. apply (Hun t' tb); [done|congruence].
    + intros due t' [Hin|[= -> ->]%list_elem_of_singleton]%elem_of_app.
      * apply Htime in Hin. unfold status_at in *. simpl. rewrite list_lookup_alter.
        case_decide; [subst|done]. rewrite Ht in Hin. simpl in Hin. congruence.
      * unfold status_at. simpl. by rewrite list_lookup_alter_eq, Ht.
    + rewrite fmap_app. apply NoDup_app. split; [done|]. split; [|apply NoDup_singleton].
      intros x Hx ->%list_elem_of_singleton.
      apply list_elem_of_fmap in Hx as ([due t'] & Heq & Hin). simpl in Heq. subst t'.
      apply Htime in Hin. unfold status_at in Hin. rewrite Ht in Hin.
      simpl in Hin. congruence.
  - destruct (seatCustomer_seated cid t s c tb Hc Ht Hclean)
      as (_ & Hcust & _ & Htabs & Htimeouts & Hobjs & c' & Hc' & Htc' & _).
    assert (table_status tb = t_empty) as Hempty by (destruct Hav; done).
    split.
    + by rewrite Hcust.
    + rewrite Hcust. intros x Hx. destruct (decide (x = cid)) as [->|Hne].
      * rewrite Hc'. eauto.
      * rewrite Hobjs by done. by apply Hlive.
    + rewrite Hcust, Htabs. intros x cx t' Hx. destruct (decide (x = cid)) as [->|Hne].
      * rewrite Hc'. intros [= <-]. rewrite Htc'. intros [= <-].
        exists (occupied_by cid tb). by rewrite list_lookup_alter_eq, Ht.
      * rewrite Hobjs by done. intros Hcx Ht'.
        destruct (Hseat x cx t' Hx Hcx Ht') as (tb' & Htb' & Hst & Hback).
        exists tb'. rewrite list_lookup_alter_ne; [done|]. intros ->. congruence.
    + rewrite Htabs. intros t' tb'. rewrite list_lookup_alter.
      case_decide; [subst|apply Hun]. rewrite Ht. by intros [= <-].
    + rewrite Htimeouts. intros due t' Hin. unfold status_at. rewrite Htabs.
      rewrite list_lookup_alter_ne; [by eapply Htime|]. intros ->.
      apply Htime in Hin. unfold status_at in Hin. rewrite Ht in Hin.
      simpl in Hin. congruence.
    + by rewrite Htimeouts.
Qed.

Lemma seat_waiting_tables_ok ws s :
  tables_ok s -> tables_ok (seat_waiting random ws s).
Proof.
  revert s. induction ws as [|cid ws IH]; intros s Hs; simpl; [done|].
  destruct (findAvailableTable s) as [t|] eqn:Hfind; [|done].
  apply IH. eapply tables_ok_view; [|by apply (seatCustomer_tables_ok cid t)]. done.
Qed.

Lemma spawnCustomer_tables_ok s : tables_ok s -> tables_ok (spawnCustomer random s).
Proof.
  intros [Hnd Hlive Hseat Hun Htime Htnd]. unfold spawnCustomer. cbv zeta.
  set (cid := fresh (dom (customerObjs s))).
  assert (customerObjs s !! cid = None) as Hfresh.
  { apply not_elem_of_dom. apply is_fresh. }
  assert (cid ∉ customers s) as Hnew.
  { intros Hin. apply Hlive in Hin as [? Hin]. congruence. }
  split; simpl; try done.
  - apply NoDup_app. split; [done|]. split; [|apply NoDup_singleton].
    intros x Hx ->%list_elem_of_singleton. done.
  - intros x [Hx| ->%list_elem_of_singleton]%elem_of_app.
    + rewrite lookup_insert_ne by (intros ->; done). by apply Hlive.
    + rewrite lookup_insert_eq. eauto.
  - intros x cx t [Hx| ->%list_elem_of_singleton]%elem_of_app.
    + rewrite lookup_insert_ne by (intros ->; done). by apply Hseat.
    + rewrite lookup_insert_eq. by intros [= <-].
Qed.

Lemma update_tables_ok dt s : tables_ok s -> tables_ok (update random dt s).
Proof.
  intros Hs. unfold update.
  set (s1 := processQueue random _).
  assert (tables_ok s1) as Hs1.
  { apply seat_waiting_tables_ok, processOrders_tables_ok, update_customers_tables_ok, Hs. }
  case_match; [|by apply (tables_ok_view s1)].
  apply spawnCustomer_tables_ok. by apply (tables_ok_view s1).
Qed.

Lemma run_timeout_tables_ok k s : tables_ok s -> tables_ok (run_timeout k s).
Proof.
  intros Hs. unfold run_timeout.
  destruct (timeouts s !! k) as [[due t]|] eqn:Hk; [|done].
  case_bool_decide; [|done].
  destruct Hs as [Hnd Hlive Hseat Hun Htime Htnd].
  assert (status_at s t = Some t_cleaning) as Hclean.
  { apply (Htime due). by eapply list_elem_of_lookup_2. }
  unfold status_at in Hclean.
  destruct (tables s !! t) as [tb|] eqn:Ht; [|done]. simpl in Hclean.
  split; simpl; try done.
  - intros x cx t' Hx Hcx Ht'.
    destruct (Hseat x cx t' Hx Hcx Ht') as (tb' & Htb' & Hst & Hback).
    exists tb'. rewrite list_lookup_alter_ne; [done|]. intros ->. congruence.
  - intros t' tb'. rewrite list_lookup_alter. case_decide; [subst|apply Hun].
    rewrite Ht. intros [= <-] _. simpl. apply (Hun t' tb); [done|congruence].
  - intros due' t' Hin. unfold status_at. simpl. rewrite list_lookup_alter.
    case_decide; [subst|apply (Htime due'); by eapply list_elem_of_delete_inv].
    exfalso. apply (list_elem_of_fmap_2 snd) in Hin. simpl in Hin.
    rewrite list_fmap_delete in Hin.
    eapply NoDup_lookup_delete; [exact Htnd| |exact Hin].
    by rewrite list_lookup_fmap, Hk.
  - rewrite list_fmap_delete. by apply NoDup_delete.
Qed.

Lemma step_tables_ok s e : tables_ok s -> tables_ok (step random s e).
Proof.
  intros Hs. destruct e as [g dt| |ms|k]; simpl.
  - apply update_tables_ok. by apply (tables_ok_view s).
  - by apply spawnCustomer_tables_ok.
  - by apply (tables_ok_view s).
  - by apply run_timeout_tables_ok.
Qed.

Lemma run_tables_ok s events : tables_ok s -> tables_ok (run random s events).
Proof.
  revert s. induction events as [|e events IH]; intros s Hs; simpl; [done|].
  by apply IH, step_tables_ok.
Qed.

Lemma new_CafeSystem_tables_ok g m r clk : tables_ok (new_CafeSystem g m r clk).
Proof.
  split; simpl.
  - apply NoDup_nil_2.
  - by intros ? ?%elem_of_nil.
  - by intros ??? ?%elem_of_nil.
  - intros t tb Ht _. apply list_elem_of_lookup_2 in Ht.
    repeat (apply elem_of_cons in Ht as [->|Ht]; [done|]). by apply elem_of_nil in Ht.
  - by intros ?? ?%elem_of_nil.
  - apply NoDup_nil_2.
Qed.

End Tables.


(** ** The queue *)

Section Queue.
Variable random : nat -> Q.

Lemma queue_ok_view s s' : queue_view s' = queue_view s -> queue_ok s -> queue_ok s'.
Proof.
  unfold queue_view. intros Hview [Hnd Hq].
  destruct s, s'; simpl in *; simplify_eq. by split.
Qed.

(** Without an event, a waiting customer is still waiting. *)
Lemma Customer_update_quiet g dt total r c :
  (Customer_update g dt total r c).2 = None -> state c = waiting ->
  state (Customer_update g dt total r c).1 = waiting.
Proof.
  unfold Customer_update. intros Hev Hst. rewrite Hst in *.
  destruct (Qltb _ _); simpl in *; [done|exact Hst].
Qed.

(** Removing a customer from the queue, whatever happened to its own
    record. *)
Lemma queue_ok_dequeue s s' cid :
  queue_ok s ->
  queue s' = filter (fun x => x <> cid) (queue s) ->
  (forall x, x <> cid -> x ∈ customers s -> x ∈ customers s') ->
  (forall x, x <> cid -> customerObjs s' !! x = customerObjs s !! x) ->
  queue_ok s'.
Proof.
  intros [Hnd Hq] Hqueue Hcust Hobjs. split.
  - rewrite Hqueue. by apply NoDup_filter.
  - intros x. rewrite Hqueue. intros [Hne Hx]%list_elem_of_filter.
    destruct (Hq x Hx) as (Hin & Hc). split; [by apply Hcust|].
    by rewrite Hobjs.
Qed.

Lemma update_customer_at_queue_ok dt i s :
  queue_ok s -> queue_ok (update_customer_at random dt i s).
Proof.
  intros Hs.
  destruct (customers s !! i) as [cid|] eqn:Hi; [|by unfold update_customer_at; rewrite Hi].
  destruct (customerObjs s !! cid) as [c|] eqn:Hc;
    [|by unfold update_customer_at; rewrite Hi, Hc].
  pose proof (update_customer_at_spec random dt i s cid c Hi Hc) as Hspec.
  pose proof (Customer_update_quiet (gameTime s) dt (order_total s c)
                (random (draws s)) c) as Hquiet.
  destruct (Customer_update_frame (gameTime s) dt (order_total s c) (random (draws s)) c)
    as (Htable & Horder & _).
  destruct (Customer_update _ _ _ _ c) as [c' result]. simpl in *.
  destruct result as [ev|].
  - destruct Hspec as (Hcust & Hqueue & _ & _ & Hobjs & _).
    apply (queue_ok_dequeue s _ cid); try done.
    intros x Hne Hx. rewrite Hcust. by eapply elem_of_delete_ne.
  - rewrite Hspec. destruct Hs as [Hnd Hq]. split; [done|].
    intros x Hx. destruct (Hq x Hx) as (Hin & cx & Hcx & Hst & Htab & Hord).
    split; [done|]. simpl. destruct (decide (x = cid)) as [->|Hne].
    + rewrite lookup_insert_eq. exists c'. simplify_eq.
      rewrite Htable, Horder. auto.
    + rewrite lookup_insert_ne by done. eauto.
Qed.

Lemma update_customers_queue_ok dt n s :
  queue_ok s -> queue_ok (update_customers random dt n s).
Proof.
  revert s. induction n as [|n IH]; intros s Hs; simpl; [done|].
  by apply IH, update_customer_at_queue_ok.
Qed.

Lemma serveOrder_queue_ok oid s : queue_ok s -> queue_ok (serveOrder oid s).
Proof.
  intros Hs. unfold serveOrder.
  destruct (list_find _ _) as [[i cid]|] eqn:Hfind; [|done].
  apply list_find_Some in Hfind as (_ & Hholds & _). unfold holds_order in Hholds.
  destruct (customerObjs s !! cid) as [c|] eqn:Hc; [|done].
  destruct (orderObjs s !! oid) as [o|]; [|done].
  destruct Hs as [Hnd Hq]. split; [done|].
  intros x Hx. destruct (Hq x Hx) as (Hin & cx & Hcx & Hst & Htab & Hord).
  split; [done|]. simpl. rewrite lookup_insert_ne; [eauto|].
  intros ->. by simplify_eq/=.
Qed.

Lemma checkOrder_queue_ok s oid : queue_ok s -> queue_ok (checkOrder s oid).
Proof.
  intros Hs. unfold checkOrder. repeat case_match; try done.
  apply serveOrder_queue_ok. by apply (queue_ok_view s).
Qed.

Lemma startOrder_queue_view s oid : queue_view (startOrder s oid) = queue_view s.
Proof. unfold startOrder. by case_match. Qed.

Lemma processOrders_queue_ok dt s : queue_ok s -> queue_ok (processOrders dt s).
Proof.
  intros Hs. unfold processOrders.
  assert (forall l s, queue_ok s -> queue_ok (foldl checkOrder s l)) as Hfold.
  { intros l. induction l as [|a l IH]; intros s0 Hs0; simpl; [done|].
    by apply IH, checkOrder_queue_ok. }
  apply Hfold. rewrite promoteOrders_eq.
  generalize (take (ordersToStart s) (filter (order_has_status s pending) (orders s))).
  intros l. revert s Hs. induction l as [|a l IH]; intros s Hs; simpl; [done|].
  apply IH. eapply queue_ok_view; [apply startOrder_queue_view|done].
Qed.

(** Whatever [seatCustomer] does, it touches no customer record but that
    of the customer it was given, and neither list of customers. *)
Lemma seatCustomer_others cid t s :
  let s' := (seatCustomer random cid t s).1 in
  customers s' = customers s /\ queue s' = queue s /\
  forall x, x <> cid -> customerObjs s' !! x = customerObjs s !! x.
Proof.
  rewrite seatCustomer_placed. unfold seatCustomer_placing.
  destruct (customerObjs s !! cid) as [c|]; [|done].
  destruct (tables s !! t) as [tb|]; [|done].
  destruct (decide _); [done|]. cbv zeta.
  destruct (generateOrder _ _ _ _ _); simpl; repeat split; try done;
    intros x Hx; by apply lookup_insert_ne.
Qed.

Lemma seat_waiting_queue_ok ws s : queue_ok s -> queue_ok (seat_waiting random ws s).
Proof.
  revert s. induction ws as [|cid ws IH]; intros s Hs; simpl; [done|].
  destruct (findAvailableTable s) as [t|]; [|done].
  apply IH. destruct (seatCustomer_others cid t s) as (Hcust & Hqueue & Hobjs).
  apply (queue_ok_dequeue s _ cid); simpl; try done.
  - by rewrite Hqueue.
  - intros x _ Hx. by rewrite Hcust.
Qed.

Lemma spawnCustomer_queue_ok s : queue_ok s -> queue_ok (spawnCustomer random s).
Proof.
  intros [Hnd Hq]. unfold spawnCustomer. cbv zeta.
  set (cid := fresh (dom (customerObjs s))).
  assert (customerObjs s !! cid = None) as Hfresh.
  { apply not_elem_of_dom. apply is_fresh. }
  assert (cid ∉ queue s) as Hnew.
  { intros Hin. apply Hq in Hin as (_ & c & Hc & _). congruence. }
  split; simpl.
  - apply NoDup_app. split; [done|]. split; [|apply NoDup_singleton].
    intros x Hx ->%list_elem_of_singleton. done.
  - intros x [Hx| ->%list_elem_of_singleton]%elem_of_app.
    + destruct (Hq x Hx) as (Hin & Hc). split; [apply elem_of_app; by left|].
      rewrite lookup_insert_ne by (intros ->; done). done.
    + split; [apply elem_of_app; right; by apply list_elem_of_singleton|].
      rewrite lookup_insert_eq. eauto.
Qed.

Lemma update_queue_ok dt s : queue_ok s -> queue_ok (update random dt s).
Proof.
  intros Hs. unfold update.
  set (s1 := processQueue random _).
  assert (queue_ok s1) as Hs1.
  { apply seat_waiting_queue_ok, processOrders_queue_ok, update_customers_queue_ok, Hs. }
  case_match; [|by apply (queue_ok_view s1)].
  apply spawnCustomer_queue_ok. by apply (queue_ok_view s1).
Qed.

Lemma step_queue_ok s e : queue_ok s -> queue_ok (step random s e).
Proof.
  intros Hs. destruct e as [g dt| |ms|k]; simpl.
  - apply update_queue_ok. by apply (queue_ok_view s).
  - by apply spawnCustomer_queue_ok.
  - by apply (queue_ok_view s).
  - eapply queue_ok_view; [|exact Hs]. unfold run_timeout. repeat case_match; done.
Qed.

Lemma run_queue_ok s events : queue_ok s -> queue_ok (run random s events).
Proof.
  revert s. induction events as [|e events IH]; intros s Hs; simpl; [done|].
  by apply IH, step_queue_ok.
Qed.

Lemma new_CafeSystem_queue_ok g m r clk : queue_ok (new_CafeSystem g m r clk).
Proof. split; simpl; [apply NoDup_nil_2|by intros ? ?%elem_of_nil]. Qed.

End Queue.



(** ** Placement order *)

Section Placement.
Variable random : nat -> Q.
#[local] Open Scope Q_scope.

Lemma placement_ok_same s s' :
  orders s' = orders s -> gameTime s <= gameTime s' ->
  (forall a, a ∈ orders s -> placed_at s' a = placed_at s a) ->
  placement_ok s -> placement_ok s'.
Proof.
  intros Hord Hg Hplaced [Hsorted Hpast]. split.
  - intros i j a b ta tb Hij. rewrite Hord. intros Ha Hb.
    rewrite !Hplaced by (by eapply list_elem_of_lookup_2). by apply (Hsorted i j).
  - intros a ta. rewrite Hord. intros Ha. rewrite Hplaced by done. intros Hta.
    apply (Qle_trans _ (gameTime s)); [by eapply Hpast|done].
Qed.

Lemma placement_ok_view s s' :
  order_view s' = order_view s -> gameTime s' = gameTime s ->
  placement_ok s -> placement_ok s'.
Proof.
  unfold order_view. intros [= Hord Hobjs _] Hg. apply placement_ok_same; [done| |].
  - rewrite Hg. apply Qle_refl.
  - intros a _. unfold placed_at. by rewrite Hobjs.
Qed.

Lemma startOrder_placed s oid a : placed_at (startOrder s oid) a = placed_at s a.
Proof.
  unfold placed_at. rewrite startOrder_lookup. case_decide; [subst|done].
  by destruct (orderObjs s !! oid).
Qed.

Lemma checkOrder_placed s oid a : placed_at (checkOrder s oid) a = placed_at s a.
Proof.
  unfold placed_at. rewrite checkOrder_orderObjs.
  destruct (orderObjs s !! oid) as [o|] eqn:Ho; [|done].
  destruct (is_due _ _); [|done].
  destruct (decide (a = oid)) as [->|Hne].
  - rewrite lookup_insert_eq, Ho. by destruct (holder s oid).
  - by rewrite lookup_insert_ne.
Qed.

Lemma processOrders_placement_ok dt s : placement_ok s -> placement_ok (processOrders dt s).
Proof.
  intros Hs. unfold processOrders.
  assert (forall l s, placement_ok s -> placement_ok (foldl checkOrder s l)) as Hfold.
  { intros l. induction l as [|a l IH]; intros s0 Hs0; simpl; [done|].
    apply IH. destruct (checkOrder_frame s0 a) as (Hord & _ & Hg & _).
    eapply placement_ok_same; [exact Hord| |intros; apply checkOrder_placed|done].
    rewrite Hg. apply Qle_refl. }
  apply Hfold. rewrite promoteOrders_eq.
  generalize (take (ordersToStart s) (filter (order_has_status s pending) (orders s))).
  intros l. revert s Hs. induction l as [|a l IH]; intros s Hs; simpl; [done|].
  apply IH. destruct (startOrder_frame s a) as (Hord & _ & Hg & _).
  eapply placement_ok_same; [exact Hord| |intros; apply startOrder_placed|done].
  rewrite Hg. apply Qle_refl.
Qed.

Lemma seatCustomer_placement_ok cid t s :
  orders_ok s -> placement_ok s -> placement_ok (seatCustomer random cid t s).1.
Proof.
  intros Hok Hs.
  pose proof (env_gameTime _ _ (seatCustomer_env random cid t s)) as Hg.
  destruct (seatCustomer_orders random cid t s)
    as [Hview|(o & Hst & Hplaced & Hord & Hobj & Hsrv)].
  { by apply (placement_ok_view s). }
  destruct Hok as [Hnd Hlive _]. destruct Hs as [Hsorted Hpast].
  set (oid := fresh (dom (orderObjs s))) in *.
  assert (orderObjs s !! oid = None) as Hfresh.
  { apply not_elem_of_dom. apply is_fresh. }
  assert (forall a, a ∈ orders s ->
            placed_at (seatCustomer random cid t s).1 a = placed_at s a) as Hold.
  { intros a Ha. unfold placed_at. rewrite Hobj, lookup_insert_ne; [done|].
    intros <-. apply Hlive in Ha as [? Ha]. congruence. }
  assert (placed_at (seatCustomer random cid t s).1 oid = Some (gameTime s)) as Hnew.
  { unfold placed_at. by rewrite Hobj, lookup_insert_eq, <-Hplaced. }
  split.
  - intros i j a b ta tb Hij. rewrite Hord. intros Ha Hb Hta Htb.
    apply lookup_app_Some in Hb as [Hb|[Hlen Hb]].
    + assert (orders s !! i = Some a) as Ha'.
      { apply lookup_app_Some in Ha as [Ha|[Hlen' _]]; [done|].
        apply lookup_lt_Some in Hb. lia. }
      rewrite Hold in Hta by (by eapply list_elem_of_lookup_2).
      rewrite Hold in Htb by (by eapply list_elem_of_lookup_2).
      by apply (Hsorted i j a b).
    + apply list_lookup_singleton_Some in Hb as [_ <-]. rewrite Hnew in Htb.
      injection Htb as <-.
      apply lookup_app_Some in Ha as [Ha|[_ Ha]].
      * apply list_elem_of_lookup_2 in Ha. rewrite Hold in Hta by done.
        by eapply Hpast.
      * apply list_lookup_singleton_Some in Ha as [_ <-]. rewrite Hnew in Hta.
        injection Hta as <-. apply Qle_refl.
  - intros a ta. rewrite Hord, Hg.
    intros [Ha| ->%list_elem_of_singleton]%elem_of_app Hta.
    + rewrite Hold in Hta by done. by eapply Hpast.
    + rewrite Hnew in Hta. injection Hta as <-. apply Qle_refl.
Qed.

Lemma seat_waiting_placement_ok ws s :
  orders_ok s -> placement_ok s -> placement_ok (seat_waiting random ws s).
Proof.
  revert s. induction ws as [|cid ws IH]; intros s Hok Hs; simpl; [done|].
  destruct (findAvailableTable s) as [t|]; [|done].
  apply IH.
  - eapply orders_ok_view; [|by apply (seatCustomer_ok random cid t)]. done.
  - eapply placement_ok_view; [| |by apply (seatCustomer_placement_ok cid t)]; done.
Qed.

Lemma update_placement_ok dt s :
  orders_ok s -> placement_ok s -> placement_ok (update random dt s).
Proof.
  intros Hok Hs. unfold update.
  set (s0 := update_customers random dt _ s).
  assert (orders_ok s0) as Hok0 by by apply update_customers_ok.
  assert (placement_ok s0) as Hs0.
  { eapply placement_ok_view; [apply update_customers_order_view| |done].
    apply env_gameTime, update_customers_env. }
  set (s1 := processQueue random _).
  assert (placement_ok s1) as Hs1.
  { apply seat_waiting_placement_ok; [by apply processOrders_ok|].
    by apply processOrders_placement_ok. }
  case_match; by apply (placement_ok_view s1).
Qed.

Lemma run_placement_ok events s :
  monotone_frames (gameTime s) events -> orders_ok s -> placement_ok s ->
  placement_ok (run random s events).
Proof.
  revert s. induction events as [|e events IH]; intros s Hmono Hok Hs; simpl; [done|].
  pose proof (step_ok random s e Hok) as Hok'.
  destruct e as [g dt| |ms|k]; simpl in *.
  - destruct Hmono as (Hg & Hdt & Hmono). apply IH; [|done|].
    + by rewrite (env_gameTime _ _ (update_env random dt _)).
    + apply update_placement_ok; [by apply (orders_ok_view s)|].
      by apply (placement_ok_same s).
  - apply IH; [done|done|]. by apply (placement_ok_view s).
  - apply IH; [done|done|]. by apply (placement_ok_view s).
  - apply IH; [|done|].
    + by rewrite (env_gameTime _ _ (run_timeout_env k _)).
    + eapply placement_ok_view; [apply run_timeout_order_view| |done].
      apply env_gameTime, run_timeout_env.
Qed.

Lemma new_CafeSystem_placement_ok g m r clk : placement_ok (new_CafeSystem g m r clk).
Proof. split; simpl; [by intros ?????? _ ?|by intros ?? ?%elem_of_nil]. Qed.

(** In a sorted [this.orders], an order among the first [k] pending ones
    was placed no later than a pending order that is not among them. *)
Lemma take_pending_first s k a b ta tb :
  placement_ok s -> NoDup (orders s) ->
  let pend := filter (order_has_status s pending) (orders s) in
  a ∈ take k pend -> b ∈ pend -> b ∉ take k pend ->
  placed_at s a = Some ta -> placed_at s b = Some tb -> ta <= tb.
Proof.
  intros [Hsorted _] Hnd pend Ha Hb Hnb Hta Htb.
  assert (b ∈ drop k pend) as Hb'.
  { rewrite <-(take_drop k pend) in Hb. apply elem_of_app in Hb as [?|?]; done. }
  assert (take k pend ++ drop k pend `sublist_of` orders s) as Hsub.
  { rewrite take_drop. apply sublist_filter. }
  apply sublist_app_l in Hsub as (l1 & l2 & Hsplit & Hsub1 & Hsub2).
  apply (elem_of_sublist _ _ _ Ha), list_elem_of_lookup_1 in Hsub1 as [i Hi].
  apply (elem_of_sublist _ _ _ Hb'), list_elem_of_lookup_1 in Hsub2 as [j Hj].
  apply (Hsorted i (length l1 + j)%nat a b); try done.
  - apply lookup_lt_Some in Hi. lia.
  - rewrite Hsplit. by apply lookup_app_l_Some.
  - rewrite Hsplit, lookup_app_r by lia.
    by replace (length l1 + j - length l1)%nat with j by lia.
Qed.

End Placement.


(** ** Money and reputation *)

Section Stats.
Variable random : nat -> Q.

Lemma handleCustomerLeave_stats cid r s c :
  customerObjs s !! cid = Some c ->
  stats_view (handleCustomerLeave cid r s) = apply_result (stats_view s) (c, customer_left r).
Proof.
  intros Hc. unfold handleCustomerLeave. rewrite Hc. by destruct r, (table c).
Qed.

Lemma handlePayment_stats cid a t s c :
  customerObjs s !! cid = Some c ->
  stats_view (handlePayment cid a t s) =
  apply_result (stats_view s) (c, payment_received a t).
Proof.
  intros Hc. unfold handlePayment. rewrite Hc. by destruct (table c).
Qed.

(** One iteration of the customer loop applies the value its customer
    returned, and nothing else, to the statistics. *)
Lemma update_customer_at_applies dt i s :
  stats_view (update_customer_at random dt i s) =
  match customers s !! i with
  | Some cid =>
      match customerObjs s !! cid with
      | Some c =>
          let cr := Customer_update (gameTime s) dt (order_total s c)
                                    (random (draws s)) c in
          match cr.2 with
          | Some result => apply_result (stats_view s) (cr.1, result)
          | None => stats_view s
          end
      | None => stats_view s
      end
  | None => stats_view s
  end.
Proof.
  unfold update_customer_at.
  destruct (customers s !! i) as [cid|]; [|done].
  destruct (customerObjs s !! cid) as [c|]; [|done].
  destruct (Customer_update _ _ _ _ c) as [c' [[reason|amount tip]|]]; cbv zeta; [| |done].
  - set (s1 := store_customer cid c' s).
    assert (customerObjs s1 !! cid = Some c') as Hc1 by apply lookup_insert_eq.
    exact (handleCustomerLeave_stats cid reason s1 c' Hc1).
  - set (s1 := set_draws (S (draws s)) (store_customer cid c' s)).
    assert (customerObjs s1 !! cid = Some c') as Hc1 by apply lookup_insert_eq.
    pose proof (handlePayment_stats cid amount tip s1 c' Hc1) as Hpay.
    destruct (handlePayment_fields cid amount tip s1 c' Hc1) as (_ & Hobjs & _).
    set (s2 := handlePayment cid amount tip s1) in *.
    assert (exists c2, customerObjs s2 !! cid = Some c2) as [c2 Hc2].
    { rewrite Hobjs. destruct (table c'); [rewrite lookup_insert_eq|]; eauto. }
    etrans; [exact (handleCustomerLeave_stats cid paid s2 c2 Hc2)|]. exact Hpay.
Qed.

Lemma update_customers_stats dt n s :
  stats_view (update_customers random dt n s) =
  foldl apply_result (stats_view s) (tick_results random dt n s).
Proof.
  revert s. induction n as [|n IH]; intros s; simpl; [done|].
  rewrite IH, update_customer_at_applies.
  destruct (customers s !! n) as [cid|]; [|done].
  destruct (customerObjs s !! cid) as [c|]; [|done].
  by destruct (Customer_update _ _ _ _ c) as [c' [result|]].
Qed.

Lemma serveOrder_stats oid s : stats_view (serveOrder oid s) = stats_view s.
Proof. unfold serveOrder. repeat case_match; done. Qed.

Lemma startOrder_stats s oid : stats_view (startOrder s oid) = stats_view s.
Proof. unfold startOrder. by case_match. Qed.

Lemma checkOrder_stats s oid : stats_view (checkOrder s oid) = stats_view s.
Proof. unfold checkOrder. repeat case_match; try done. by rewrite serveOrder_stats. Qed.

Lemma foldl_stats (f : CafeSystem -> nat -> CafeSystem) l s :
  (forall s x, stats_view (f s x) = stats_view s) -> stats_view (foldl f s l) = stats_view s.
Proof.
  intros Hf. revert s. induction l as [|a l IH]; intros s; simpl; [done|].
  by rewrite IH, Hf.
Qed.

Lemma processOrders_stats dt s : stats_view (processOrders dt s) = stats_view s.
Proof.
  unfold processOrders. rewrite foldl_stats by apply checkOrder_stats.
  rewrite promoteOrders_eq. apply foldl_stats, startOrder_stats.
Qed.

Lemma seatCustomer_stats cid t s : stats_view (seatCustomer random cid t s).1 = stats_view s.
Proof. rewrite seatCustomer_placed. unfold seatCustomer_placing. repeat case_match; done. Qed.

Lemma processQueue_stats s : stats_view (processQueue random s) = stats_view s.
Proof.
  unfold processQueue. generalize (filter (customer_in_state s waiting) (queue s)).
  intros ws. revert s. induction ws as [|cid ws IH]; intros s; simpl; [done|].
  destruct (findAvailableTable s) as [t|]; [|done].
  rewrite IH. exact (seatCustomer_stats cid t s).
Qed.

End Stats.


(** ** Completion of an order *)

Section Completion.
Variable random : nat -> Q.

Lemma serveOrder_holds oid s x :
  order <$> customerObjs (serveOrder oid s) !! x = order <$> customerObjs s !! x.
Proof.
  unfold serveOrder.
  destruct (list_find _ _) as [[i cid]|]; [|done].
  destruct (customerObjs s !! cid) as [c|] eqn:Hc; [|done].
  destruct (orderObjs s !! oid) as [o|]; [|done]. simpl.
  destruct (decide (x = cid)) as [->|Hne].
  - rewrite lookup_insert_eq, Hc. by case_match.
  - by rewrite lookup_insert_ne.
Qed.

Lemma holder_view s s' oid :
  customers s' = customers s -> customerObjs s' = customerObjs s ->
  holder s' oid = holder s oid.
Proof.
  intros Hcust Hobjs. unfold holder. rewrite Hcust. apply list_find_ext.
  intros x. unfold holds_order. by rewrite Hobjs.
Qed.

Lemma checkOrder_holder s a oid : holder (checkOrder s a) oid = holder s oid.
Proof.
  unfold holder. destruct (checkOrder_frame s a) as (_ & _ & _ & ->).
  apply list_find_ext. intros x. unfold holds_order.
  assert (order <$> customerObjs (checkOrder s a) !! x = order <$> customerObjs s !! x)
    as ->; [|done].
  unfold checkOrder. repeat case_match; try done. by rewrite serveOrder_holds.
Qed.

Lemma checkOrder_lookup s a oid o :
  orderObjs s !! oid = Some o ->
  orderObjs (checkOrder s a) !! oid =
  Some (if decide (oid = a) then checked s oid o else o).
Proof.
  intros Ho. rewrite checkOrder_orderObjs. unfold checked.
  destruct (decide (oid = a)) as [->|Hne].
  - rewrite Ho. destruct (is_due _ _); [|done]. by rewrite lookup_insert_eq.
  - destruct (orderObjs s !! a) as [oa|]; [|done].
    destruct (is_due _ oa); [|done]. by rewrite lookup_insert_ne.
Qed.

Lemma checkOrder_checked s a oid o : checked (checkOrder s a) oid o = checked s oid o.
Proof.
  unfold checked. rewrite checkOrder_holder.
  by destruct (checkOrder_frame s a) as (_ & _ & -> & _).
Qed.

Lemma foldl_checkOrder_lookup l s oid o :
  NoDup l -> orderObjs s !! oid = Some o ->
  orderObjs (foldl checkOrder s l) !! oid =
  Some (if decide (oid ∈ l) then checked s oid o else o).
Proof.
  revert s o. induction l as [|a l IH]; intros s o Hnd Ho; simpl; [done|].
  apply NoDup_cons in Hnd as [Ha Hnd].
  pose proof (checkOrder_lookup s a oid o Ho) as Ho1.
  rewrite (IH _ _ Hnd Ho1).
  destruct (decide (oid = a)) as [->|Hne].
  - rewrite decide_False by done. by rewrite decide_True by left.
  - rewrite checkOrder_checked.
    destruct (decide (oid ∈ l)) as [Hl|Hl].
    + by rewrite decide_True by (by right).
    + rewrite decide_False; [done|]. by intros [?|?]%elem_of_cons.
Qed.

(** An order in preparation goes through [processOrders] as through its own
    completion check. *)
Lemma processOrders_lookup dt s oid o :
  NoDup (orders s) -> oid ∈ orders s ->
  orderObjs s !! oid = Some o -> status o = preparing ->
  orderObjs (processOrders dt s) !! oid = Some (checked s oid o).
Proof.
  intros Hnd Hin Ho Hst. unfold processOrders.
  set (s1 := promoteOrders s).
  assert (orderObjs s1 !! oid = Some o) as Ho1.
  { unfold s1. rewrite promoteOrders_eq, foldl_startOrder_lookup, Ho.
    rewrite decide_False; [done|].
    intros Hoid%(elem_of_sublist _ _ _)%list_elem_of_filter; [|apply sublist_take].
    destruct Hoid as [Hpend _]. unfold order_has_status in Hpend.
    rewrite Ho in Hpend. simpl in Hpend. congruence. }
  assert (orders s1 = orders s /\ gameTime s1 = gameTime s /\
          customers s1 = customers s /\ customerObjs s1 = customerObjs s)
    as (Hord & Hg & Hcust & Hobjs).
  { unfold s1. rewrite promoteOrders_eq.
    destruct (foldl_startOrder_frame
                (take (ordersToStart s) (filter (order_has_status s pending) (orders s))) s)
      as (? & _ & ? & ? & ?). done. }
  rewrite (foldl_checkOrder_lookup _ _ oid o); [|by apply NoDup_filter; rewrite Hord|done].
  rewrite decide_True.
  - unfold checked. by rewrite Hg, (holder_view s s1).
  - apply list_elem_of_filter. split; [|by rewrite Hord].
    unfold order_has_status. by rewrite Ho1, <-Hst.
Qed.

Lemma seatCustomer_keeps cid t s oid o :
  orderObjs s !! oid = Some o ->
  orderObjs (seatCustomer random cid t s).1 !! oid = Some o /\
  (oid ∈ orders s -> oid ∈ orders (seatCustomer random cid t s).1).
Proof.
  intros Ho.
  destruct (seatCustomer_orders random cid t s)
    as [[= -> -> _]|(o' & _ & _ & -> & -> & _)]; [done|].
  split.
  - rewrite lookup_insert_ne; [done|]. intros Heq.
    pose proof (is_fresh (dom (orderObjs s))) as Hfresh. rewrite Heq in Hfresh.
    apply Hfresh, elem_of_dom. eauto.
  - intros Hin. apply elem_of_app. by left.
Qed.

Lemma seat_waiting_keeps ws s oid o :
  orderObjs s !! oid = Some o ->
  orderObjs (seat_waiting random ws s) !! oid = Some o /\
  (oid ∈ orders s -> oid ∈ orders (seat_waiting random ws s)).
Proof.
  revert s. induction ws as [|cid ws IH]; intros s Ho; simpl; [done|].
  destruct (findAvailableTable s) as [t|]; [|done].
  destruct (seatCustomer_keeps cid t s oid o Ho) as [Ho' Hin'].
  destruct (IH (set_queue (filter (fun c => c <> cid) (queue (seatCustomer random cid t s).1))
                  (seatCustomer random cid t s).1) Ho') as [Ho'' Hin''].
  split; [done|]. intros Hin. by apply Hin'', Hin'.
Qed.

(** One frame, seen from an order that is in preparation when the frame
    begins: only the completion check touches it. *)
Lemma update_lookup dt s oid o :
  NoDup (orders s) -> oid ∈ orders s ->
  orderObjs s !! oid = Some o -> status o = preparing ->
  let s1 := update_customers random dt (length (customers s)) s in
  orderObjs (update random dt s) !! oid = Some (checked s1 oid o) /\
  oid ∈ orders (update random dt s).
Proof.
  intros Hnd Hin Ho Hst s1.
  pose proof (update_customers_order_view random dt (length (customers s)) s) as Hview.
  fold s1 in Hview. injection Hview as Hord Hobjs _.
  assert (orderObjs (processOrders dt s1) !! oid = Some (checked s1 oid o)) as Ho2.
  { apply processOrders_lookup; rewrite ?Hord, ?Hobjs; done. }
  assert (oid ∈ orders (processOrders dt s1)) as Hin2.
  { unfold processOrders.
    assert (forall l s, orders (foldl checkOrder s l) = orders s) as Hfold.
    { intros l. induction l as [|a l IH]; intros s0; simpl; [done|].
      rewrite IH. apply checkOrder_frame. }
    rewrite Hfold, promoteOrders_eq.
    destruct (foldl_startOrder_frame
                (take (ordersToStart s1) (filter (order_has_status s1 pending) (orders s1)))
                s1) as (-> & _). by rewrite Hord. }
  destruct (seat_waiting_keeps
              (filter (customer_in_state (processOrders dt s1) waiting)
                      (queue (processOrders dt s1)))
              (processOrders dt s1) oid _ Ho2) as [Ho3 Hin3].
  unfold update. fold s1. fold (processQueue random (processOrders dt s1)).
  unfold processQueue. case_match; simpl; auto.
Qed.

Lemma frame_keeps_undue g dt s oid o :
  orders_ok s -> oid ∈ orders s ->
  orderObjs s !! oid = Some o -> status o = preparing ->
  is_due g o = false ->
  orderObjs (step random s (Frame g dt)) !! oid = Some o /\
  oid ∈ orders (step random s (Frame g dt)).
Proof.
  intros [Hnd _ _] Hin Ho Hst Hdue. simpl.
  destruct (update_lookup dt (set_gameTime g s) oid o Hnd Hin Ho Hst) as [Ho' Hin'].
  split; [|done]. rewrite Ho'. unfold checked.
  rewrite (env_gameTime _ _ (update_customers_env random dt _ _)). simpl.
  by rewrite Hdue.
Qed.

Lemma run_keeps_undue events s oid o :
  orders_ok s -> oid ∈ orders s ->
  orderObjs s !! oid = Some o -> status o = preparing ->
  frames_not_due o events = true ->
  orderObjs (run random s events) !! oid = Some o /\
  oid ∈ orders (run random s events) /\ orders_ok (run random s events).
Proof.
  revert s. induction events as [|e events IH]; intros s Hok Hin Ho Hst Hund; simpl;
    [done|].
  simpl in Hund. apply andb_true_iff in Hund as [He Hund].
  pose proof (step_ok random s e Hok) as Hok'.
  destruct e as [g dt| |ms|k].
  - apply negb_true_iff in He.
    destruct (frame_keeps_undue g dt s oid o Hok Hin Ho Hst He) as [Ho' Hin'].
    by apply IH.
  - by apply IH.
  - by apply IH.
  - pose proof (run_timeout_order_view k s) as Hview.
    injection Hview as Hord Hobjs _.
    apply IH; simpl; rewrite ?Hord, ?Hobjs; done.
Qed.

End Completion.


(** ** Customers that have left *)

Section Departed.
Variable random : nat -> Q.

Lemma departed_view s s' cid c :
  queue_view s' = queue_view s -> departed s cid c -> departed s' cid c.
Proof. unfold queue_view, departed. by intros [= -> -> ->]. Qed.

Lemma update_customer_at_departed dt i s cid c :
  departed s cid c -> departed (update_customer_at random dt i s) cid c.
Proof.
  intros (Hcust & Hqueue & Hc).
  destruct (customers s !! i) as [x|] eqn:Hi;
    [|by unfold update_customer_at; rewrite Hi].
  destruct (customerObjs s !! x) as [cx|] eqn:Hx;
    [|by unfold update_customer_at; rewrite Hi, Hx].
  assert (cid <> x) as Hne.
  { intros ->. by apply Hcust, (list_elem_of_lookup_2 _ i). }
  pose proof (update_customer_at_spec random dt i s x cx Hi Hx) as Hspec. simpl in Hspec.
  destruct (Customer_update _ _ _ _ cx) as [c' [ev|]]; simpl in Hspec.
  - destruct Hspec as (Hcust' & Hqueue' & _ & _ & Hobjs & _).
    split; [|split].
    + rewrite Hcust'. intros Hin. by apply Hcust, (list_elem_of_delete_inv _ i).
    + rewrite Hqueue'. by intros [_ Hin]%list_elem_of_filter.
    + by rewrite Hobjs.
  - rewrite Hspec. split; [done|]. split; [done|]. simpl. by rewrite lookup_insert_ne.
Qed.

Lemma update_customers_departed dt n s cid c :
  departed s cid c -> departed (update_customers random dt n s) cid c.
Proof.
  revert s. induction n as [|n IH]; intros s Hs; simpl; [done|].
  by apply IH, update_customer_at_departed.
Qed.

Lemma serveOrder_departed oid s cid c :
  departed s cid c -> departed (serveOrder oid s) cid c.
Proof.
  intros (Hcust & Hqueue & Hc). unfold serveOrder.
  destruct (list_find _ _) as [[i x]|] eqn:Hfind; [|done].
  apply list_find_Some in Hfind as (Hi & _ & _).
  destruct (customerObjs s !! x) as [cx|]; [|done].
  destruct (orderObjs s !! oid) as [o|]; [|done].
  split; [done|]. split; [done|]. simpl. rewrite lookup_insert_ne; [done|].
  intros ->. by apply Hcust, (list_elem_of_lookup_2 _ i).
Qed.

Lemma checkOrder_departed s oid cid c :
  departed s cid c -> departed (checkOrder s oid) cid c.
Proof.
  intros Hs. unfold checkOrder. repeat case_match; try done.
  apply serveOrder_departed. by apply (departed_view s).
Qed.

Lemma processOrders_departed dt s cid c :
  departed s cid c -> departed (processOrders dt s) cid c.
Proof.
  intros Hs. unfold processOrders.
  assert (forall l s, departed s cid c -> departed (foldl checkOrder s l) cid c) as Hfold.
  { intros l. induction l as [|a l IH]; intros s0 Hs0; simpl; [done|].
    by apply IH, checkOrder_departed. }
  apply Hfold. rewrite promoteOrders_eq.
  generalize (take (ordersToStart s) (filter (order_has_status s pending) (orders s))).
  intros l. revert s Hs. induction l as [|a l IH]; intros s Hs; simpl; [done|].
  apply IH. eapply departed_view; [apply startOrder_queue_view|done].
Qed.

Lemma seat_waiting_departed ws s cid c :
  cid ∉ ws -> departed s cid c -> departed (seat_waiting random ws s) cid c.
Proof.
  revert s. induction ws as [|x ws IH]; intros s Hws Hs; simpl; [done|].
  destruct (findAvailableTable s) as [t|]; [|done].
  apply not_elem_of_cons in Hws as [Hne Hws].
  apply IH; [done|]. destruct Hs as (Hcust & Hqueue & Hc).
  destruct (seatCustomer_others random x t s) as (Hcust' & Hqueue' & Hobjs).
  split; [|split]; simpl.
  - by rewrite Hcust'.
  - rewrite Hqueue'. by intros [_ Hin]%list_elem_of_filter.
  - by rewrite Hobjs.
Qed.

Lemma processQueue_departed s cid c :
  departed s cid c -> departed (processQueue random s) cid c.
Proof.
  intros Hs. apply seat_waiting_departed; [|done].
  destruct Hs as (_ & Hqueue & _). by intros [_ Hin]%list_elem_of_filter.
Qed.

Lemma spawnCustomer_departed s cid c :
  departed s cid c -> departed (spawnCustomer random s) cid c.
Proof.
  intros (Hcust & Hqueue & Hc). unfold spawnCustomer. cbv zeta.
  set (x := fresh (dom (customerObjs s))).
  assert (cid <> x) as Hne.
  { intros Heq. pose proof (is_fresh (dom (customerObjs s))) as Hfresh.
    fold x in Hfresh. rewrite <-Heq in Hfresh. apply Hfresh, elem_of_dom. eauto. }
  split; [|split]; simpl.
  - intros [?| ?%list_elem_of_singleton]%elem_of_app; done.
  - intros [?| ?%list_elem_of_singleton]%elem_of_app; done.
  - by rewrite lookup_insert_ne.
Qed.

Lemma update_departed dt s cid c :
  departed s cid c -> departed (update random dt s) cid c.
Proof.
  intros Hs. unfold update.
  set (s1 := processQueue random _).
  assert (departed s1 cid c) as Hs1.
  { apply processQueue_departed, processOrders_departed, update_customers_departed, Hs. }
  case_match; [|by apply (departed_view s1)].
  apply spawnCustomer_departed. by apply (departed_view s1).
Qed.

Lemma update_departed_from_loop dt s cid c :
  departed (update_customers random dt (length (customers s)) s) cid c ->
  departed (update random dt s) cid c.
Proof.
  intros Hs. unfold update.
  set (s1 := processQueue random _).
  assert (departed s1 cid c) as Hs1.
  { apply processQueue_departed, processOrders_departed, Hs. }
  case_match; [|by apply (departed_view s1)].
  apply spawnCustomer_departed. by apply (departed_view s1).
Qed.

Lemma step_departed s e cid c : departed s cid c -> departed (step random s e) cid c.
Proof.
  intros Hs. destruct e as [g dt| |ms|k]; simpl.
  - apply update_departed. by apply (departed_view s).
  - by apply spawnCustomer_departed.
  - by apply (departed_view s).
  - eapply departed_view; [|exact Hs]. unfold run_timeout. repeat case_match; done.
Qed.

Lemma run_departed events s cid c :
  departed s cid c -> departed (run random s events) cid c.
Proof.
  revert s. induction events as [|e events IH]; intros s Hs; simpl; [done|].
  by apply IH, step_departed.
Qed.

(** *** The customer loop, seen from one customer *)

(** For a waiting customer the update depends neither on the order total
    nor on the random draw. *)
Lemma Customer_update_waiting g dt total r c :
  state c = waiting ->
  Customer_update g dt total r c =
  let waitTime := ((g - waitStartTime c) / 60)%Q in
  let c1 := set_satisfaction (Qmax 0 (100 - waitTime * 5)) c in
  if Qltb (patience c) waitTime
  then (set_state leaving c1, Some (customer_left waited_too_long))
  else (c1, None).
Proof. unfold Customer_update. by intros ->. Qed.

(** The iterations at the indices above [i] leave the customer at index
    [i] where and as it is. *)
Lemma update_customers_above dt n i s cid c :
  NoDup (customers s) -> customers s !! i = Some cid ->
  customerObjs s !! cid = Some c -> i < n ->
  exists s1,
    update_customers random dt n s = update_customers random dt (S i) s1 /\
    NoDup (customers s1) /\ customers s1 !! i = Some cid /\
    customerObjs s1 !! cid = Some c /\ env_view s1 = env_view s.
Proof.
  revert s. induction n as [|n IH]; intros s Hnd Hi Hc Hlt; [lia|].
  destruct (decide (n = i)) as [->|Hne]; [by exists s|].
  assert (i < n) as Hlt' by lia.
  set (s' := update_customer_at random dt n s).
  assert (NoDup (customers s') /\ customers s' !! i = Some cid /\
          customerObjs s' !! cid = Some c) as (Hnd' & Hi' & Hc').
  { unfold s'.
    destruct (customers s !! n) as [x|] eqn:Hn;
      [|by unfold update_customer_at; rewrite Hn].
    destruct (customerObjs s !! x) as [cx|] eqn:Hx;
      [|by unfold update_customer_at; rewrite Hn, Hx].
    assert (cid <> x) as Hcx.
    { intros ->. assert (i = n) by (by eapply NoDup_lookup). lia. }
    pose proof (update_customer_at_spec random dt n s x cx Hn Hx) as Hspec.
    simpl in Hspec.
    destruct (Customer_update _ _ _ _ cx) as [c' [ev|]]; simpl in Hspec.
    - destruct Hspec as (Hcust' & _ & _ & _ & Hobjs & _).
      rewrite Hcust', Hobjs by done. split; [by apply NoDup_delete|].
      split; [|done]. by rewrite list_lookup_delete_lt.
    - rewrite Hspec. simpl. by rewrite lookup_insert_ne. }
  destruct (IH s' Hnd' Hi' Hc' Hlt') as (s1 & Heq & Hnd1 & Hi1 & Hc1 & Henv).
  exists s1. simpl. fold s'. rewrite Heq. repeat split; try done.
  rewrite Henv. apply update_customer_at_env.
Qed.

(** The iterations at the indices below that of a customer do not take it
    off the list. *)
Lemma update_customers_below dt n s cid j :
  NoDup (customers s) -> customers s !! j = Some cid -> n <= j ->
  cid ∈ customers (update_customers random dt n s).
Proof.
  revert s j. induction n as [|n IH]; intros s j Hnd Hj Hle; simpl.
  { by eapply list_elem_of_lookup_2. }
  set (s' := update_customer_at random dt n s).
  assert (NoDup (customers s') /\ exists j', customers s' !! j' = Some cid /\ n <= j')
    as (Hnd' & j' & Hj' & Hle').
  { unfold s'.
    destruct (customers s !! n) as [x|] eqn:Hn;
      [|unfold update_customer_at; rewrite Hn; split; [done|exists j; split; [done|lia]]].
    destruct (customerObjs s !! x) as [cx|] eqn:Hx;
      [|unfold update_customer_at; rewrite Hn, Hx;
        split; [done|exists j; split; [done|lia]]].
    pose proof (update_customer_at_spec random dt n s x cx Hn Hx) as Hspec.
    simpl in Hspec.
    destruct (Customer_update _ _ _ _ cx) as [c' [ev|]]; simpl in Hspec.
    - destruct Hspec as (Hcust' & _). rewrite Hcust'. split; [by apply NoDup_delete|].
      exists (j - 1). split; [|lia].
      rewrite list_lookup_delete_ge by lia. by replace (S (j - 1)) with j by lia.
    - rewrite Hspec. split; [done|]. exists j. split; [done|lia]. }
  by apply (IH s' j').
Qed.

Lemma update_customer_at_left dt i s cid c :
  customers s !! i = Some cid -> customerObjs s !! cid = Some c ->
  let cr := Customer_update (gameTime s) dt (order_total s c) (random (draws s)) c in
  forall reason, cr.2 = Some (customer_left reason) ->
  customerObjs (update_customer_at random dt i s) !! cid = Some cr.1.
Proof.
  intros Hi Hc cr reason Hev. unfold update_customer_at. rewrite Hi, Hc.
  fold cr. destruct cr as [c' result]. simpl in Hev. subst result.
  set (s1 := store_customer cid c' s).
  assert (customerObjs s1 !! cid = Some c') as Hc1 by apply lookup_insert_eq.
  destruct (handleCustomerLeave_fields cid reason s1 c' Hc1) as (_ & Hobjs & _).
  simpl. by rewrite Hobjs.
Qed.

Lemma processOrders_customers dt s : customers (processOrders dt s) = customers s.
Proof.
  unfold processOrders.
  assert (forall l s, customers (foldl checkOrder s l) = customers s) as Hfold.
  { intros l. induction l as [|a l IH]; intros s0; simpl; [done|].
    rewrite IH. apply checkOrder_frame. }
  rewrite Hfold, promoteOrders_eq. apply foldl_startOrder_frame.
Qed.

Lemma seat_waiting_customers ws s : customers (seat_waiting random ws s) = customers s.
Proof.
  revert s. induction ws as [|x ws IH]; intros s; simpl; [done|].
  destruct (findAvailableTable s) as [t|]; [|done].
  rewrite IH. simpl. apply seatCustomer_others.
Qed.

(** *** A customer that keeps waiting *)

(** The iterations at the indices below that of a customer leave its
    record as it is. *)
Lemma update_customers_below_record dt n s cid c j :
  NoDup (customers s) -> customers s !! j = Some cid ->
  customerObjs s !! cid = Some c -> n <= j ->
  customerObjs (update_customers random dt n s) !! cid = Some c.
Proof.
  revert s j. induction n as [|n IH]; intros s j Hnd Hj Hc Hle; simpl; [done|].
  set (s' := update_customer_at random dt n s).
  assert (NoDup (customers s') /\ customerObjs s' !! cid = Some c /\
          exists j', customers s' !! j' = Some cid /\ n <= j')
    as (Hnd' & Hc' & j' & Hj' & Hle').
  { unfold s'.
    destruct (customers s !! n) as [x|] eqn:Hn;
      [|unfold update_customer_at; rewrite Hn;
        split; [done|split; [done|exists j; split; [done|lia]]]].
    destruct (customerObjs s !! x) as [cx|] eqn:Hx;
      [|unfold update_customer_at; rewrite Hn, Hx;
        split; [done|split; [done|exists j; split; [done|lia]]]].
    assert (cid <> x) as Hcx.
    { intros ->. assert (j = n) by (by eapply NoDup_lookup). lia. }
    pose proof (update_customer_at_spec random dt n s x cx Hn Hx) as Hspec.
    simpl in Hspec.
    destruct (Customer_update _ _ _ _ cx) as [c' [ev|]]; simpl in Hspec.
    - destruct Hspec as (Hcust' & _ & _ & _ & Hobjs & _).
      rewrite Hcust', Hobjs by done. split; [by apply NoDup_delete|].
      split; [done|]. exists (j - 1). split; [|lia].
      rewrite list_lookup_delete_ge by lia. by replace (S (j - 1)) with j by lia.
    - rewrite Hspec. simpl. rewrite lookup_insert_ne by done.
      split; [done|]. split; [done|]. exists j. split; [done|lia]. }
  by apply (IH s' j').
Qed.

(** A customer without an order is not the one an order is served to. *)
Lemma serveOrder_orderless oid s cid c :
  customerObjs s !! cid = Some c -> order c = None ->
  customerObjs (serveOrder oid s) !! cid = Some c.
Proof.
  intros Hc Hord. unfold serveOrder.
  destruct (list_find _ _) as [[i x]|] eqn:Hfind; [|done].
  apply list_find_Some in Hfind as (_ & Hholds & _). unfold holds_order in Hholds.
  destruct (customerObjs s !! x) as [cx|] eqn:Hx; [|done].
  destruct (orderObjs s !! oid) as [o|]; [|done].
  simpl. rewrite lookup_insert_ne; [done|]. intros ->. by simplify_eq/=.
Qed.

Lemma processOrders_orderless dt s cid c :
  customerObjs s !! cid = Some c -> order c = None ->
  customerObjs (processOrders dt s) !! cid = Some c.
Proof.
  intros Hc Hord. unfold processOrders.
  assert (forall l s, customerObjs s !! cid = Some c ->
                      customerObjs (foldl checkOrder s l) !! cid = Some c) as Hfold.
  { intros l. induction l as [|a l IH]; intros s0 Hs0; simpl; [done|].
    apply IH. unfold checkOrder. repeat case_match; try done.
    by apply serveOrder_orderless. }
  apply Hfold. rewrite promoteOrders_eq.
  generalize (take (ordersToStart s) (filter (order_has_status s pending) (orders s))).
  intros l. revert s Hc. induction l as [|a l IH]; intros s Hc; simpl; [done|].
  apply IH. pose proof (startOrder_queue_view s a) as Hview.
  unfold queue_view in Hview. injection Hview as _ _ ->. exact Hc.
Qed.

End Departed.


(** ** A customer that waits for a seat *)

Section Waiting.
Variable random : nat -> Q.

Lemma waits_since_view P W s s' cid :
  queue_view s' = queue_view s -> waits_since P W s cid -> waits_since P W s' cid.
Proof. unfold queue_view, waits_since. by intros [= -> _ ->]. Qed.

Lemma seated_view s s' cid :
  queue_view s' = queue_view s -> seated s' cid = seated s cid.
Proof. unfold queue_view, seated. by intros [= _ _ ->]. Qed.

(** [seatCustomer] leaves the record of its customer alone, at a dirty
    table, or gives it the table. *)
Lemma seatCustomer_own_table cid t s c :
  customerObjs s !! cid = Some c ->
  let s' := (seatCustomer random cid t s).1 in
  customerObjs s' !! cid = Some c \/
  exists c', customerObjs s' !! cid = Some c' /\ table c' = Some t.
Proof.
  intros Hc. rewrite seatCustomer_placed. unfold seatCustomer_placing. rewrite Hc.
  destruct (tables s !! t) as [tb|]; [|by left].
  destruct (decide _); [by left|]. cbv zeta.
  set (c1 := set_waitStartTime _ _).
  destruct (generateOrder_menu (random (draws s)) (random (draws s + 1))
              (random (draws s + 2)) c1) as [o Ho].
  simpl in Ho |- *. rewrite Ho. simpl.
  right. eexists. rewrite lookup_insert_eq. done.
Qed.

Lemma seat_waiting_waits P W ws s cid :
  waits_since P W s cid \/ seated s cid = true ->
  waits_since P W (seat_waiting random ws s) cid \/
  seated (seat_waiting random ws s) cid = true.
Proof.
  revert s. induction ws as [|x ws IH]; intros s Hs; simpl; [done|].
  destruct (findAvailableTable s) as [t|]; [|done].
  apply IH.
  destruct (seatCustomer_others random x t s) as (Hcust' & Hqueue' & Hobjs).
  destruct (decide (x = cid)) as [->|Hne].
  - assert (exists c, customerObjs s !! cid = Some c) as [c Hc].
    { destruct Hs as [(_ & c & Hc & _)|Hs]; [by exists c|].
      unfold seated in Hs. destruct (customerObjs s !! cid) as [c|]; [by exists c|done]. }
    destruct (seatCustomer_own_table cid t s c Hc) as [Hsame|(c' & Hc' & Ht)].
    + destruct Hs as [(Hin & c0 & Hc0 & Hrest)|Hs].
      * left. split; simpl; [by rewrite Hcust'|]. exists c0. split; [|done]. congruence.
      * right. unfold seated in *. simpl. rewrite Hsame. by rewrite Hc in Hs.
    + right. unfold seated. simpl. by rewrite Hc', Ht.
  - destruct Hs as [(Hin & c0 & Hc0 & Hrest)|Hs].
    + left. split; simpl; [by rewrite Hcust'|]. exists c0. by rewrite Hobjs.
    + right. unfold seated in *. simpl. by rewrite Hobjs.
Qed.

Lemma spawnCustomer_waits P W s cid :
  waits_since P W s cid -> waits_since P W (spawnCustomer random s) cid.
Proof.
  intros (Hin & c1 & Hc1 & Hrest). unfold spawnCustomer. cbv zeta.
  set (x := fresh (dom (customerObjs s))).
  assert (cid <> x) as Hne.
  { intros Heq. pose proof (is_fresh (dom (customerObjs s))) as Hfresh.
    fold x in Hfresh. rewrite <-Heq in Hfresh. apply Hfresh, elem_of_dom. eauto. }
  split; simpl.
  - apply elem_of_app. by left.
  - exists c1. by rewrite lookup_insert_ne.
Qed.

Lemma spawnCustomer_seated s cid :
  seated s cid = true -> seated (spawnCustomer random s) cid = true.
Proof.
  unfold seated. destruct (customerObjs s !! cid) as [c|] eqn:Hc; [|done].
  intros Hs. unfold spawnCustomer. cbv zeta.
  set (x := fresh (dom (customerObjs s))).
  assert (cid <> x) as Hne.
  { intros Heq. pose proof (is_fresh (dom (customerObjs s))) as Hfresh.
    fold x in Hfresh. rewrite <-Heq in Hfresh. apply Hfresh, elem_of_dom. eauto. }
  simpl. by rewrite lookup_insert_ne, Hc.
Qed.

(** A frame at which the wait has not exceeded the patience leaves the
    customer waiting as it was, unless the frame gives it a table. *)
Lemma update_waits P W dt s cid :
  NoDup (customers s) -> waits_since P W s cid ->
  ((gameTime s - W) / 60 <= P)%Q ->
  waits_since P W (update random dt s) cid \/ seated (update random dt s) cid = true.
Proof.
  intros Hnd (Hin & c & Hc & Hst & Htab & Hord & Hpat & Hw) Hwait.
  apply list_elem_of_lookup in Hin as [i Hi].
  assert (i < length (customers s)) as Hlt by (by eapply lookup_lt_Some).
  destruct (update_customers_above random dt (length (customers s)) i s cid c
              Hnd Hi Hc Hlt) as (s1 & Heq & Hnd1 & Hi1 & Hc1 & Henv).
  assert (gameTime s1 = gameTime s) as Hg by apply (env_gameTime _ _ Henv).
  pose proof (update_customer_at_spec random dt i s1 cid c Hi1 Hc1) as Hspec.
  simpl in Hspec. rewrite Hg in Hspec.
  rewrite (Customer_update_waiting (gameTime s) dt _ _ c Hst) in Hspec.
  simpl in Hspec. rewrite Hw, Hpat in Hspec.
  apply Qltb_ge in Hwait. rewrite Hwait in Hspec. simpl in Hspec.
  set (c1 := set_satisfaction (Qmax 0 (100 - (gameTime s - W) / 60 * 5))%Q c) in *.
  set (sL := update_customers random dt (length (customers s)) s).
  assert (cid ∈ customers sL /\ customerObjs sL !! cid = Some c1) as [HinL HcL].
  { unfold sL. rewrite Heq. simpl. rewrite Hspec. split.
    - by apply (update_customers_below random dt i _ cid i).
    - apply (update_customers_below_record random dt i _ cid _ i); try done.
      apply lookup_insert_eq. }
  unfold update. fold sL.
  set (s2 := processQueue random _).
  assert (waits_since P W s2 cid \/ seated s2 cid = true) as Hs2.
  { apply seat_waiting_waits. left. split.
    - by rewrite processOrders_customers.
    - exists c1. by rewrite (processOrders_orderless dt sL cid c1). }
  case_match.
  - destruct Hs2 as [Hs2|Hs2].
    + left. apply spawnCustomer_waits. by apply (waits_since_view P W s2).
    + right. apply spawnCustomer_seated. by rewrite (seated_view s2).
  - destruct Hs2 as [Hs2|Hs2].
    + left. by apply (waits_since_view P W s2).
    + right. by rewrite (seated_view s2).
Qed.

Lemma step_waits P W s e cid :
  NoDup (customers s) -> waits_since P W s cid ->
  frames_within P W [e] = true ->
  waits_since P W (step random s e) cid \/ seated (step random s e) cid = true.
Proof.
  intros Hnd Hs He. destruct e as [g dt| |ms|k]; simpl.
  - apply update_waits; [done|by apply (waits_since_view P W s)|].
    simpl in He. rewrite andb_true_r in He. by apply Qle_bool_iff.
  - left. by apply spawnCustomer_waits.
  - left. by apply (waits_since_view P W s).
  - left. eapply waits_since_view; [|exact Hs]. unfold run_timeout. repeat case_match; done.
Qed.

(** Through events that give the customer no table and whose frames come
    before its patience is exceeded, the customer goes on waiting. *)
Lemma run_waits P W events : forall s cid,
  tables_ok s -> waits_since P W s cid ->
  frames_within P W events = true -> never_seated random s cid events = true ->
  waits_since P W (run random s events) cid.
Proof.
  induction events as [|e events IH]; intros s cid Hok Hs Hwithin Hnever; [done|].
  simpl in Hwithin, Hnever |- *.
  apply andb_prop in Hwithin as [He Hwithin]. apply andb_prop in Hnever as [Hno Hnever].
  apply IH; try done; [by apply step_tables_ok|].
  destruct (step_waits P W s e cid) as [Hw|Hseat]; try done.
  - by apply customers_nodup.
  - simpl. by rewrite He.
  - by rewrite Hseat in Hno.
Qed.

Lemma frames_within_take P W k events :
  frames_within P W events = true -> frames_within P W (take k events) = true.
Proof.
  unfold frames_within. rewrite !forallb_forall. intros Hall e He. apply Hall.
  apply list_elem_of_In. apply list_elem_of_In in He. by apply (subseteq_take k).
Qed.

Lemma never_seated_take k events : forall s cid,
  never_seated random s cid events = true ->
  never_seated random s cid (take k events) = true.
Proof.
  revert k. induction events as [|e events IH]; intros k s cid Hnever; [by destruct k|].
  destruct k as [|k]; [done|]. simpl in *.
  apply andb_prop in Hnever as [Hno Hnever]. rewrite Hno. simpl. by apply IH.
Qed.

End Waiting.


(** ** The life of a table *)

Section TableLife.
Variable random : nat -> Q.

Lemma vacates_trans a b c : vacates a b -> vacates b c -> vacates a c.
Proof. unfold vacates. intros [->|[-> ->]] [->|[? ->]]; simplify_eq; auto. Qed.

Lemma takes_trans a b c : takes a b -> takes b c -> takes a c.
Proof.
  unfold takes.
  intros [->|[[-> ->]|[-> ->]]] [->|[[? ->]|[? ->]]]; simplify_eq; auto.
Qed.

(** One iteration of the customer loop frees at most the table of the
    customer that leaves, and registers no callback. *)
Lemma update_customer_at_table dt i s t :
  tables_ok s ->
  vacates (status_at s t) (status_at (update_customer_at random dt i s) t) /\
  timeouts (update_customer_at random dt i s) = timeouts s.
Proof.
  intros Hs.
  destruct (customers s !! i) as [cid|] eqn:Hi;
    [|unfold update_customer_at; rewrite Hi; split; [by left|done]].
  destruct (customerObjs s !! cid) as [c|] eqn:Hc;
    [|unfold update_customer_at; rewrite Hi, Hc; split; [by left|done]].
  pose proof (update_customer_at_spec random dt i s cid c Hi Hc) as Hspec.
  simpl in Hspec.
  destruct (Customer_update _ _ _ _ c) as [c' [ev|]]; simpl in Hspec.
  - destruct Hspec as (_ & _ & Htabs & Htime & _). split; [|done].
    unfold status_at. rewrite Htabs.
    destruct (table c) as [t0|] eqn:Ht0; [|by left].
    assert (cid ∈ customers s) as Hin by (by eapply list_elem_of_lookup_2).
    destruct (seated_at s Hs cid c t0 Hin Hc Ht0) as (tb & Htb & Hst & _).
    rewrite list_lookup_alter. case_decide; [subst|by left].
    right. by rewrite Htb, <-Hst.
  - rewrite Hspec. split; [by left|done].
Qed.

Lemma update_customers_table dt n s t :
  tables_ok s ->
  vacates (status_at s t) (status_at (update_customers random dt n s) t) /\
  timeouts (update_customers random dt n s) = timeouts s.
Proof.
  revert s. induction n as [|n IH]; intros s Hs; simpl; [split; [by left|done]|].
  destruct (update_customer_at_table dt n s t Hs) as [Hv Ht].
  destruct (IH _ (update_customer_at_tables_ok random dt n s Hs)) as [Hv' Ht'].
  split; [by eapply vacates_trans|]. by rewrite Ht'.
Qed.

Lemma serveOrder_tables oid s :
  tables (serveOrder oid s) = tables s /\ timeouts (serveOrder oid s) = timeouts s.
Proof. unfold serveOrder. repeat case_match; done. Qed.

Lemma checkOrder_tables s oid :
  tables (checkOrder s oid) = tables s /\ timeouts (checkOrder s oid) = timeouts s.
Proof.
  unfold checkOrder. repeat case_match; try done.
  destruct (serveOrder_tables oid
    (store_order oid (set_timeCompleted (gameTime s) (set_status ready o)) s))
    as [-> ->]. done.
Qed.

Lemma processOrders_tables dt s :
  tables (processOrders dt s) = tables s /\ timeouts (processOrders dt s) = timeouts s.
Proof.
  unfold processOrders.
  assert (forall l s, tables (foldl checkOrder s l) = tables s /\
                      timeouts (foldl checkOrder s l) = timeouts s) as Hfold.
  { intros l. induction l as [|a l IH]; intros s0; simpl; [done|].
    destruct (IH (checkOrder s0 a)) as [-> ->]. apply checkOrder_tables. }
  destruct (Hfold (filter (order_has_status (promoteOrders s) preparing)
                          (orders (promoteOrders s))) (promoteOrders s)) as [-> ->].
  rewrite promoteOrders_eq.
  generalize (take (ordersToStart s) (filter (order_has_status s pending) (orders s))).
  intros l. revert s. induction l as [|a l IH]; intros s; simpl; [done|].
  destruct (IH (startOrder s a)) as [-> ->].
  pose proof (startOrder_seat_view s a) as Hview. by injection Hview as _ _ -> ->.
Qed.

Lemma seatCustomer_table cid t0 s t :
  findAvailableTable s = Some t0 ->
  let s' := (seatCustomer random cid t0 s).1 in
  takes (status_at s t) (status_at s' t) /\ registered s s'.
Proof.
  intros (tb & Ht0 & Hav & _)%findAvailableTable_Some.
  destruct (customerObjs s !! cid) as [c|] eqn:Hc;
    [|rewrite seatCustomer_placed; unfold seatCustomer_placing; rewrite Hc;
      split; [by left|by left]].
  destruct (decide (table_status tb = t_dirty)) as [Hdirty|Hclean].
  - rewrite (seatCustomer_dirty random cid t0 s c tb) by done. split.
    + unfold status_at. simpl. rewrite list_lookup_alter.
      case_decide; [subst|by left]. right. right. by rewrite Ht0, <-Hdirty.
    + intros due t'. simpl. intros [?|[= -> ->]%list_elem_of_singleton]%elem_of_app;
        [by left|]. right. unfold status_at. by rewrite Ht0, <-Hdirty.
  - destruct (seatCustomer_seated random cid t0 s c tb Hc Ht0 Hclean)
      as (_ & _ & _ & Htabs & Htime & _).
    split.
    + unfold status_at. rewrite Htabs, list_lookup_alter.
      case_decide; [subst|by left]. right. left. rewrite Ht0. simpl.
      destruct Hav as [Hempty|Hdirty]; [|done]. by rewrite Hempty.
    + intros due t'. rewrite Htime. by left.
Qed.

Lemma seat_waiting_table ws s t :
  let s' := seat_waiting random ws s in
  takes (status_at s t) (status_at s' t) /\ registered s s'.
Proof.
  revert s. induction ws as [|cid ws IH]; intros s; simpl.
  { split; [by left|]. intros due t'. by left. }
  destruct (findAvailableTable s) as [t0|] eqn:Hfind.
  2:{ split; [by left|]. intros due t'. by left. }
  set (s1 := set_queue _ _).
  destruct (seatCustomer_table cid t0 s t Hfind) as [Htake Hreg].
  destruct (IH s1) as [Htake' Hreg'].
  split; [by eapply takes_trans|].
  intros due t' Hin. destruct (Hreg' due t' Hin) as [Hin1|[Hdirty ->]].
  - by apply Hreg.
  - right. change (clock s1) with (clock (seatCustomer random cid t0 s).1).
    rewrite (env_clock _ _ (seatCustomer_env random cid t0 s)). split; [|done].
    destruct (seatCustomer_table cid t0 s t' Hfind) as [[Heq|[[_ Hst]|[_ Hst]]] _];
      change (status_at s1 t') with (status_at (seatCustomer random cid t0 s).1 t')
        in Hdirty; congruence.
Qed.

(** What one frame does to a table. *)
Lemma update_table dt s t :
  tables_ok s ->
  table_step (Frame 0 dt) (status_at s t) (status_at (update random dt s) t) /\
  (forall due t',
     (due, t') ∈ timeouts (update random dt s) ->
     (due, t') ∈ timeouts s \/
     (due = (clock s + 3000)%Z /\ status_at s t' <> Some t_cleaning)).
Proof.
  intros Hs. unfold update.
  set (s1 := update_customers random dt _ s).
  set (s2 := processOrders dt s1).
  set (s3 := processQueue random s2).
  destruct (update_customers_table dt (length (customers s)) s t Hs) as [Hv Ht1].
  destruct (processOrders_tables dt s1) as [Htab2 Ht2]. fold s1 s2 in Hv, Ht1, Htab2, Ht2.
  destruct (seat_waiting_table (filter (customer_in_state s2 waiting) (queue s2)) s2 t)
    as [Htake Hreg].
  fold (processQueue random s2) in Htake, Hreg. fold s3 in Htake, Hreg.
  assert (status_at s2 t = status_at s1 t) as Hst2 by (unfold status_at; by rewrite Htab2).
  assert (clock s2 = clock s) as Hclock.
  { unfold s2, s1.
    by rewrite (env_clock _ _ (processOrders_env dt _)),
               (env_clock _ _ (update_customers_env random dt _ _)). }
  assert (table_step (Frame 0 dt) (status_at s t) (status_at s3 t) /\
          forall due t',
            (due, t') ∈ timeouts s3 ->
            (due, t') ∈ timeouts s \/
            (due = (clock s + 3000)%Z /\ status_at s t' <> Some t_cleaning)) as Hgoal.
  { split.
    - rewrite Hst2 in Htake. simpl. unfold vacates, takes in *.
      destruct Hv as [Hv|[Hv Hv']], Htake as [Ht|[[Ht Ht']|[Ht Ht']]];
        rewrite ?Hv, ?Hv', ?Ht, ?Ht' in *; simplify_eq; auto 10.
    - intros due t' Hin. destruct (Hreg due t' Hin) as [Hold|[Hdirty ->]].
      + left. by rewrite <-Ht1, <-Ht2.
      + right. rewrite Hclock. split; [done|].
        destruct (update_customers_table dt (length (customers s)) s t' Hs) as [Hv' _].
        fold s1 in Hv'.
        assert (status_at s2 t' = status_at s1 t') as Hst2'
          by (unfold status_at; by rewrite Htab2).
        rewrite Hst2' in Hdirty. destruct Hv' as [Hv'|[Hv' _]]; congruence. }
  case_match; [|exact Hgoal]. exact Hgoal.
Qed.

End TableLife.


Section TableTimer.
Variable random : nat -> Q.

Lemma run_timeout_table k s t :
  tables_ok s ->
  table_step (Timeout k) (status_at s t) (status_at (run_timeout k s) t).
Proof.
  intros Hs. unfold run_timeout. simpl.
  destruct (timeouts s !! k) as [[due t0]|] eqn:Hk; [|by left].
  case_bool_decide; [|by left].
  assert (status_at s t0 = Some t_cleaning) as Hclean.
  { apply (timeouts_cleaning s Hs due). by eapply list_elem_of_lookup_2. }
  unfold status_at in *. simpl. rewrite list_lookup_alter.
  case_decide; [subst|by left]. right. split; [done|].
  by destruct (tables s !! t).
Qed.

(** Each event moves each table along its cycle: a frame can seat a
    customer at an empty table, free the table of a customer that leaves and
    send a dirty table to cleaning; only a callback makes a table in
    cleaning empty again. *)
Lemma step_table e s t :
  tables_ok s -> table_step e (status_at s t) (status_at (step random s e) t).
Proof.
  intros Hs. destruct e as [g dt| |ms|k].
  - assert (tables_ok (set_gameTime g s)) as Hs' by by apply (tables_ok_view s).
    exact (proj1 (update_table random dt (set_gameTime g s) t Hs')).
  - done.
  - done.
  - by apply run_timeout_table.
Qed.

Lemma step_clock s e : (clock s <= clock (step random s e))%Z.
Proof.
  destruct e as [g dt| |ms|k]; simpl.
  - rewrite (env_clock _ _ (update_env random dt _)). simpl. lia.
  - lia.
  - lia.
  - rewrite (env_clock _ _ (run_timeout_env k s)). lia.
Qed.

Lemma step_not_clean_before e s t D :
  tables_ok s -> not_clean_before t D s ->
  not_clean_before t D (step random s e) \/ (D <= clock (step random s e))%Z.
Proof.
  intros Hs Hnot. destruct e as [g dt| |ms|k].
  - left. assert (tables_ok (set_gameTime g s)) as Hs' by by apply (tables_ok_view s).
    destruct (update_table random dt (set_gameTime g s) t Hs') as [Hstep Hreg].
    change (status_at (set_gameTime g s) t) with (status_at s t) in Hstep.
    assert (clock (update random dt (set_gameTime g s)) = clock s) as Hclock.
    { by rewrite (env_clock _ _ (update_env random dt _)). }
    unfold not_clean_before. simpl in *. rewrite Hclock.
    destruct Hnot as [[Hdirty HD]|[Hclean HD]].
    + rewrite Hdirty in Hstep.
      destruct Hstep as [Hst|[[? _]|[[? _]|[[? _]|[_ Hst]]]]]; try done.
      * left. by rewrite Hst.
      * right. split; [done|]. intros due Hin.
        destruct (Hreg due t Hin) as [Hold|[-> _]]; [|lia].
        apply (timeouts_cleaning s Hs) in Hold. congruence.
    + rewrite Hclean in Hstep.
      destruct Hstep as [Hst|[[? _]|[[? _]|[[? _]|[? _]]]]]; try done.
      right. split; [by rewrite Hst|]. intros due Hin.
      destruct (Hreg due t Hin) as [Hold|[_ Hne]]; [by apply HD|done].
  - left. exact Hnot.
  - left. destruct Hnot as [[Hdirty HD]|[Hclean HD]]; [left|right]; simpl.
    + split; [done|]. lia.
    + done.
  - simpl. unfold run_timeout.
    destruct (timeouts s !! k) as [[due t0]|] eqn:Hk; [|by left].
    case_bool_decide as Hdue; [|by left].
    assert ((due, t0) ∈ timeouts s) as Hin by (by eapply list_elem_of_lookup_2).
    pose proof (timeouts_cleaning s Hs due t0 Hin) as Hclean0.
    destruct Hnot as [[Hdirty HD]|[Hclean HD]].
    + left. left. split; [|done]. unfold status_at in *. simpl.
      rewrite list_lookup_alter_ne; [done|]. intros ->. congruence.
    + destruct (decide (t0 = t)) as [->|Hne].
      * right. simpl. specialize (HD due Hin). lia.
      * left. right. split.
        -- unfold status_at in *. simpl. by rewrite list_lookup_alter_ne.
        -- intros due' Hin'. simpl in Hin'. apply HD.
           by eapply list_elem_of_delete_inv.
Qed.

Lemma run_not_clean_before events s t D :
  tables_ok s -> not_clean_before t D s ->
  not_clean_before t D (run random s events) \/ (D <= clock (run random s events))%Z.
Proof.
  revert s. induction events as [|e events IH]; intros s Hs Hnot; simpl; [by left|].
  pose proof (step_tables_ok random s e Hs) as Hs'.
  destruct (step_not_clean_before e s t D Hs Hnot) as [Hnot'|Hclock].
  - by apply IH.
  - right. etrans; [exact Hclock|].
    clear. generalize (step random s e). intros s0. revert s0.
    induction events as [|e' events IH]; intros s0; simpl; [lia|].
    etrans; [apply (step_clock s0 e')|apply IH].
Qed.

End TableTimer.


(** ** Customers the queue has lost *)

Section Stranded.
Variable random : nat -> Q.

Lemma stranded_view s s' cid :
  queue_view s' = queue_view s -> stranded s cid -> stranded s' cid.
Proof. unfold queue_view, stranded. by intros [= -> -> ->]. Qed.

Lemma abandoned_keeps (f : CafeSystem -> CafeSystem) s cid :
  (forall c, departed s cid c -> departed (f s) cid c) ->
  abandoned s cid -> abandoned (f s) cid.
Proof. intros Hf (c & Hdep & Hc). exists c. split; [by apply Hf|done]. Qed.

Lemma update_customer_at_stranded dt i s cid :
  NoDup (customers s) -> stranded s cid ->
  stranded (update_customer_at random dt i s) cid \/
  abandoned (update_customer_at random dt i s) cid.
Proof.
  intros Hnd (Hin & Hqueue & c & Hc & Hst & Htab & Hord).
  destruct (customers s !! i) as [x|] eqn:Hi;
    [|left; unfold update_customer_at; rewrite Hi; by repeat split; eauto].
  destruct (customerObjs s !! x) as [cx|] eqn:Hx;
    [|left; unfold update_customer_at; rewrite Hi, Hx; by repeat split; eauto].
  pose proof (update_customer_at_spec random dt i s x cx Hi Hx) as Hspec.
  pose proof (update_customer_at_left random dt i s x cx Hi Hx) as Hleft.
  simpl in Hspec, Hleft.
  destruct (decide (x = cid)) as [->|Hne].
  - assert (cx = c) as -> by congruence.
    rewrite (Customer_update_waiting _ dt _ _ c Hst) in Hspec, Hleft.
    simpl in Hspec, Hleft. destruct (Qltb _ _); simpl in Hspec, Hleft.
    + right. destruct Hspec as (Hcust & Hqueue' & _).
      eexists. split; [split; [|split]|].
      * rewrite Hcust. by apply NoDup_lookup_delete.
      * rewrite Hqueue'. by intros [? _]%list_elem_of_filter.
      * by apply (Hleft waited_too_long).
      * done.
    + left. rewrite Hspec. split; [done|]. split; [done|].
      eexists. simpl. rewrite lookup_insert_eq. done.
  - left. destruct (Customer_update _ _ _ _ cx) as [c' [ev|]]; simpl in Hspec.
    + destruct Hspec as (Hcust & Hqueue' & _ & _ & Hobjs & _).
      split; [|split].
      * rewrite Hcust. by eapply elem_of_delete_ne.
      * rewrite Hqueue'. by intros [_ ?]%list_elem_of_filter.
      * exists c. by rewrite Hobjs.
    + rewrite Hspec. split; [done|]. split; [done|].
      exists c. simpl. by rewrite lookup_insert_ne.
Qed.

Lemma update_customers_stranded dt n s cid :
  tables_ok s -> stranded s cid ->
  stranded (update_customers random dt n s) cid \/
  abandoned (update_customers random dt n s) cid.
Proof.
  revert s. induction n as [|n IH]; intros s Hs Hstr; simpl; [by left|].
  pose proof (update_customer_at_tables_ok random dt n s Hs) as Hs'.
  destruct (update_customer_at_stranded dt n s cid (customers_nodup s Hs) Hstr)
    as [Hstr'|Hab].
  - by apply IH.
  - right. revert Hab. apply (abandoned_keeps (update_customers random dt n)).
    intros c. apply update_customers_departed.
Qed.

Lemma serveOrder_stranded oid s cid : stranded s cid -> stranded (serveOrder oid s) cid.
Proof.
  intros (Hin & Hqueue & c & Hc & Hst & Htab & Hord). unfold serveOrder.
  destruct (list_find _ _) as [[i x]|] eqn:Hfind; [|by repeat split; eauto].
  apply list_find_Some in Hfind as (_ & Hholds & _). unfold holds_order in Hholds.
  destruct (customerObjs s !! x) as [cx|] eqn:Hx; [|by repeat split; eauto].
  destruct (orderObjs s !! oid) as [o|]; [|by repeat split; eauto].
  split; [done|]. split; [done|]. exists c. simpl.
  rewrite lookup_insert_ne; [done|]. intros ->. by simplify_eq/=.
Qed.

Lemma processOrders_stranded dt s cid :
  stranded s cid -> stranded (processOrders dt s) cid.
Proof.
  intros Hs. unfold processOrders.
  assert (forall l s, stranded s cid -> stranded (foldl checkOrder s l) cid) as Hfold.
  { intros l. induction l as [|a l IH]; intros s0 Hs0; simpl; [done|].
    apply IH. unfold checkOrder. repeat case_match; try done.
    apply serveOrder_stranded. by apply (stranded_view s0). }
  apply Hfold. rewrite promoteOrders_eq.
  generalize (take (ordersToStart s) (filter (order_has_status s pending) (orders s))).
  intros l. revert s Hs. induction l as [|a l IH]; intros s Hs; simpl; [done|].
  apply IH. eapply stranded_view; [apply startOrder_queue_view|done].
Qed.

Lemma seat_waiting_stranded ws s cid :
  cid ∉ ws -> stranded s cid -> stranded (seat_waiting random ws s) cid.
Proof.
  revert s. induction ws as [|x ws IH]; intros s Hws Hs; simpl; [done|].
  destruct (findAvailableTable s) as [t|]; [|done].
  apply not_elem_of_cons in Hws as [Hne Hws].
  apply IH; [done|]. destruct Hs as (Hin & Hqueue & c & Hc & Hrest).
  destruct (seatCustomer_others random x t s) as (Hcust' & Hqueue' & Hobjs).
  split; [|split]; simpl.
  - by rewrite Hcust'.
  - rewrite Hqueue'. by intros [_ ?]%list_elem_of_filter.
  - exists c. by rewrite Hobjs.
Qed.

Lemma processQueue_stranded s cid :
  stranded s cid -> stranded (processQueue random s) cid.
Proof.
  intros Hs. apply seat_waiting_stranded; [|done].
  destruct Hs as (_ & Hqueue & _). by intros [_ ?]%list_elem_of_filter.
Qed.

Lemma spawnCustomer_stranded s cid :
  stranded s cid -> stranded (spawnCustomer random s) cid.
Proof.
  intros (Hin & Hqueue & c & Hc & Hrest). unfold spawnCustomer. cbv zeta.
  set (x := fresh (dom (customerObjs s))).
  assert (cid <> x) as Hne.
  { intros Heq. pose proof (is_fresh (dom (customerObjs s))) as Hfresh.
    fold x in Hfresh. rewrite <-Heq in Hfresh. apply Hfresh, elem_of_dom. eauto. }
  split; [|split]; simpl.
  - apply elem_of_app. by left.
  - intros [?| ?%list_elem_of_singleton]%elem_of_app; done.
  - exists c. by rewrite lookup_insert_ne.
Qed.

(** The rest of [update] after the seating step: the spawn check. *)
Lemma update_after_queue dt s (P : CafeSystem -> Prop) :
  (forall s s', queue_view s' = queue_view s -> P s -> P s') ->
  (forall s, P s -> P (spawnCustomer random s)) ->
  P (processQueue random
       (processOrders dt (update_customers random dt (length (customers s)) s))) ->
  P (update random dt s).
Proof.
  intros Hview Hspawn HP. unfold update.
  set (s1 := processQueue random _) in *.
  case_match; [|by apply (Hview s1)].
  apply Hspawn. by apply (Hview s1).
Qed.

Lemma update_stranded dt s cid :
  tables_ok s -> stranded s cid ->
  stranded (update random dt s) cid \/ abandoned (update random dt s) cid.
Proof.
  intros Hs Hstr.
  destruct (update_customers_stranded dt (length (customers s)) s cid Hs Hstr)
    as [Hstr'|Hab].
  - left. apply (update_after_queue dt s (fun s => stranded s cid)).
    + intros ???. by apply stranded_view.
    + intros ?. apply spawnCustomer_stranded.
    + by apply processQueue_stranded, processOrders_stranded.
  - right. destruct Hab as (c & Hdep & Hc). exists c. split; [|done].
    by apply update_departed_from_loop.
Qed.

Lemma step_stranded s e cid :
  tables_ok s -> stranded s cid ->
  stranded (step random s e) cid \/ abandoned (step random s e) cid.
Proof.
  intros Hs Hstr. destruct e as [g dt| |ms|k]; simpl.
  - apply update_stranded; [by apply (tables_ok_view s)|by apply (stranded_view s)].
  - left. by apply spawnCustomer_stranded.
  - left. by apply (stranded_view s).
  - left. eapply stranded_view; [|exact Hstr]. unfold run_timeout. repeat case_match; done.
Qed.

Lemma run_stranded events s cid :
  tables_ok s -> stranded s cid ->
  stranded (run random s events) cid \/ abandoned (run random s events) cid.
Proof.
  revert s. induction events as [|e events IH]; intros s Hs Hstr; simpl; [by left|].
  pose proof (step_tables_ok random s e Hs) as Hs'.
  destruct (step_stranded s e cid Hs Hstr) as [Hstr'|(c & Hdep & Hc)].
  - by apply IH.
  - right. exists c. split; [|done]. by apply run_departed.
Qed.

End Stranded.

(** * The claims of the specification *)

Section Claims.
Variable random : nat -> Q.

(** C7: along every run of the cafe in which the game clock does not run
    backwards and the frames pass a non-negative [timeDelta], the
    satisfaction of every customer lies in [0, 100] after each event, and so
    after every call of [update]: the waiting decay, the serving penalty or
    bonus and the eating recovery all keep it there. *)
Theorem C7_satisfaction_within_0_100 g m r clk events cid c :
  monotone_frames g events ->
  customerObjs (run random (new_CafeSystem g m r clk) events) !! cid = Some c ->
  (0 <= satisfaction c /\ satisfaction c <= 100)%Q.
Proof.
  intros Hmono Hc.
  assert (customers_sound (run random (new_CafeSystem g m r clk) events)) as Hsound.
  { apply run_sound; [exact Hmono|]. intros x cx Hx. by simpl in Hx. }
  destruct (Hsound cid c Hc) as (Hlo & Hhi & _). by split.
Qed.

(** C8: along every run whose game clock does not run backwards, the number
    of orders in preparation never exceeds [availableServers], neither
    after an event nor right after the promotion step of the next frame.
    Entered in state [s], that step promotes exactly
    [k = min (availableServers - preparing_count) (number of pending orders)]
    orders, the first [k] pending ones of [this.orders]: each gets status
    preparing and [timeStarted = gameTime], no other order changes, and a
    promoted order was placed no later than any order left pending. *)
Theorem C8_preparing_within_capacity g m r clk events g' dt :
  monotone_frames g events ->
  let s0 := run random (new_CafeSystem g m r clk) events in
  (gameTime s0 <= g')%Q ->
  let s := update_customers random dt (length (customers s0)) (set_gameTime g' s0) in
  let pend := filter (order_has_status s pending) (orders s) in
  let k := Nat.min (availableServers s - preparing_count s) (length pend) in
  let s' := promoteOrders s in
  preparing_count s0 <= availableServers s0 /\
  preparing_count s' = preparing_count s + k /\
  preparing_count s' <= availableServers s' /\
  (forall oid,
     orderObjs s' !! oid =
     if decide (oid ∈ take k pend)
     then set_timeStarted g' ∘ set_status preparing <$> orderObjs s !! oid
     else orderObjs s !! oid) /\
  (forall a b ta tb,
     a ∈ take k pend -> b ∈ pend -> b ∉ take k pend ->
     placed_at s a = Some ta -> placed_at s b = Some tb -> (ta <= tb)%Q).
Proof.
  intros Hmono s0 Hg' s pend k s'.
  assert (orders_ok s0) as Hok0 by apply run_ok, new_CafeSystem_ok.
  assert (placement_ok s0) as Hpl0.
  { apply run_placement_ok;
      [done|apply new_CafeSystem_ok|apply new_CafeSystem_placement_ok]. }
  assert (orders_ok s) as Hok.
  { apply update_customers_ok. by apply (orders_ok_view s0). }
  assert (gameTime s = g') as Hg.
  { unfold s. by rewrite (env_gameTime _ _ (update_customers_env random dt _ _)). }
  assert (placement_ok s) as Hpl.
  { eapply placement_ok_view; [apply update_customers_order_view| |].
    - apply env_gameTime, update_customers_env.
    - by apply (placement_ok_same s0). }
  pose proof (promoteOrders_ok s Hok) as Hok'.
  split; [apply Hok0|]. split; [|split; [apply Hok'|split]].
  - unfold s'. rewrite promoteOrders_eq. fold pend.
    change (ordersToStart s) with k.
    destruct Hok as [Hnd Hlive _].
    rewrite foldl_startOrder_count; [|done| |].
    + rewrite length_take. unfold k. lia.
    + apply (sublist_NoDup _ pend); [by apply NoDup_filter|apply sublist_take].
    + intros oid Hoid. apply (elem_of_sublist _ pend) in Hoid; [|apply sublist_take].
      apply list_elem_of_filter in Hoid as [? ?]. done.
  - intros oid. unfold s'. rewrite promoteOrders_eq, foldl_startOrder_lookup, Hg. done.
  - intros a b ta tb. apply take_pending_first; [done|apply Hok].
Qed.


(** C3 (amended): [update] hands no events to anybody; its customer loop
    applies each value a customer returns itself.  Over one call, the
    player's money and reputation change by exactly these applications, in
    loop order: a payment adds [amount + tip] to the money and moves the
    reputation by [floor ((satisfaction - 50) / 10)], clamped to [0, 100];
    a departure after waiting too long lowers the reputation by 2, not
    below 0.  Order processing, seating and spawning leave both alone. *)
Theorem C3_update_applies_its_events dt s :
  stats_view (update random dt s) =
  foldl apply_result (stats_view s) (tick_results random dt (length (customers s)) s).
Proof.
  unfold update.
  set (s1 := processQueue random _).
  assert (stats_view s1 =
          foldl apply_result (stats_view s)
                (tick_results random dt (length (customers s)) s)) as <-.
  { unfold s1. by rewrite processQueue_stats, processOrders_stats, update_customers_stats. }
  by case_match.
Qed.


(** C5 (amended): take an order in preparation, with preparation time
    [prepTime] and start time [t] ([timeStarted], or [timePlaced] while
    [timeStarted] is 0).  Through all events before the first frame whose
    game time [g] satisfies [(g - t) / 60 >= prepTime] the order is left
    untouched, still in preparation.  In that frame it becomes ready with
    [timeCompleted = g], and served in the same frame exactly if a customer
    still on [this.customers] when the orders are processed holds it; if its
    customer has left, it stays ready. *)
Theorem C5_order_completes_at_first_due_frame events g dt s oid o :
  orders_ok s -> oid ∈ orders s ->
  orderObjs s !! oid = Some o -> status o = preparing ->
  frames_not_due o events = true -> is_due g o = true ->
  let s1 := run random s events in
  let s2 := update_customers random dt (length (customers s1)) (set_gameTime g s1) in
  orderObjs s1 !! oid = Some o /\
  orderObjs (step random s1 (Frame g dt)) !! oid =
  Some (match holder s2 oid with
        | Some _ => set_status served (completed g o)
        | None => completed g o
        end).
Proof.
  intros Hok Hin Ho Hst Hund Hdue s1 s2.
  destruct (run_keeps_undue random events s oid o Hok Hin Ho Hst Hund)
    as (Ho1 & Hin1 & [Hnd1 _ _]).
  split; [exact Ho1|]. simpl.
  destruct (update_lookup random dt (set_gameTime g s1) oid o Hnd1 Hin1 Ho1 Hst)
    as [Ho2 _].
  rewrite Ho2. unfold checked.
  change (update_customers random dt _ (set_gameTime g s1)) with s2.
  assert (gameTime s2 = g) as ->.
  { unfold s2. by rewrite (env_gameTime _ _ (update_customers_env random dt _ _)). }
  by rewrite Hdue.
Qed.


(** C6: take a customer that waits in the cafe without a table and
    without an order, with patience [P] minutes and a wait that began at
    game time [W], and let no seat be available to it: none of the events
    [early] gives it a table.  If every frame of [early] comes while the
    wait, [(g - W) / 60] minutes, is at most [P], then after each of these
    events the customer is still on [this.customers] and still waiting,
    with the same patience and the same start of its wait.  The next
    frame, the first at which the wait exceeds [P], makes its update
    return [customer_left waited_too_long] and set the state to leaving;
    in that same frame the customer is taken off [this.customers] and off
    the queue, and through every later event it stays off both, its
    record never changing again. *)
Theorem C6_abandonment_is_timely_and_final P W s cid early g dt :
  tables_ok s -> waits_since P W s cid ->
  frames_within P W early = true -> never_seated random s cid early = true ->
  (P < (g - W) / 60)%Q ->
  (forall k, waits_since P W (run random s (take k early)) cid) /\
  exists c,
    customerObjs (run random s early) !! cid = Some c /\
    let c' := set_state leaving (set_satisfaction (Qmax 0 (100 - (g - W) / 60 * 5))%Q c) in
    (forall total r,
       Customer_update g dt total r c = (c', Some (customer_left waited_too_long))) /\
    forall later,
      departed (run random (step random (run random s early) (Frame g dt)) later) cid c'.
Proof.
  intros Hok Hs Hwithin Hnever Hlate. split.
  { intros k. apply run_waits; try done.
    - by apply frames_within_take.
    - by apply never_seated_take. }
  pose proof (run_waits random P W early s cid Hok Hs Hwithin Hnever) as Hs1.
  pose proof (run_tables_ok random s early Hok) as Hok1.
  set (s1 := run random s early) in *.
  destruct Hs1 as (Hin & c & Hc & Hst & Htab & Hord & Hpat & Hw).
  exists c. split; [exact Hc|]. cbv zeta.
  apply list_elem_of_lookup in Hin as [i Hi].
  pose proof (customers_nodup _ Hok1) as Hnd.
  set (s0 := set_gameTime g s1).
  assert (i < length (customers s0)) as Hlt by (by eapply lookup_lt_Some).
  destruct (update_customers_above random dt (length (customers s0)) i s0 cid c
              Hnd Hi Hc Hlt) as (s2 & Heq & Hnd2 & Hi2 & Hc2 & Henv).
  assert (gameTime s2 = g) as Hg by apply (env_gameTime _ _ Henv).
  pose proof (update_customer_at_spec random dt i s2 cid c Hi2 Hc2) as Hspec.
  pose proof (update_customer_at_left random dt i s2 cid c Hi2 Hc2) as Hleft.
  simpl in Hspec, Hleft. rewrite Hg in Hspec, Hleft.
  rewrite (Customer_update_waiting g dt _ _ c Hst) in Hspec, Hleft.
  simpl in Hspec, Hleft. rewrite Hw, Hpat in Hspec, Hleft.
  apply Qltb_lt in Hlate. rewrite Hlate in Hspec, Hleft. simpl in Hspec, Hleft.
  split.
  { intros total r. rewrite (Customer_update_waiting g dt total r c Hst).
    simpl. rewrite Hw, Hpat. by rewrite Hlate. }
  intros later. apply run_departed. simpl. fold s0.
  apply update_departed_from_loop. rewrite Heq. simpl.
  apply update_customers_departed.
  destruct Hspec as (Hcust & Hqueue & _).
  split; [|split].
  - rewrite Hcust. by apply NoDup_lookup_delete.
  - rewrite Hqueue. by intros [? _]%list_elem_of_filter.
  - by apply (Hleft waited_too_long).
Qed.


(** C4 (amended): the status of a table moves along the cycle empty,
    occupied ([t_waiting]), dirty, cleaning, empty, one or two steps per
    frame and the last step only when a callback runs.  A dirty table holds
    no customer and is never given to one: [seatCustomer] returns false and
    changes no customer.  From the moment a table is dirty, it stays dirty
    or in cleaning, without a customer, through every event until 3000 ms
    of wall-clock time have passed, however far the game time moves. *)
Theorem C4_dirty_table_waits_for_the_wall_clock s t tb :
  tables_ok s -> tables s !! t = Some tb -> table_status tb = t_dirty ->
  table_customer tb = None /\
  (forall cid,
     (seatCustomer random cid t s).2 = false /\
     customerObjs (seatCustomer random cid t s).1 = customerObjs s) /\
  (forall e t', table_step e (status_at s t') (status_at (step random s e) t')) /\
  (forall events,
     let s' := run random s events in
     (clock s' < clock s + 3000)%Z ->
     (status_at s' t = Some t_dirty \/ status_at s' t = Some t_cleaning) /\
     table_customer <$> tables s' !! t = Some None).
Proof.
  intros Hs Ht Hdirty. split; [|split; [|split]].
  - apply (unoccupied s Hs t tb Ht). congruence.
  - intros cid. destruct (customerObjs s !! cid) as [c|] eqn:Hc.
    + by rewrite (seatCustomer_dirty random cid t s c tb).
    + rewrite seatCustomer_placed. unfold seatCustomer_placing. by rewrite Hc.
  - intros e t'. by apply step_table.
  - intros events s' Hclock.
    assert (not_clean_before t (clock s + 3000) s) as Hnot.
    { left. split; [|lia]. unfold status_at. by rewrite Ht, <-Hdirty. }
    pose proof (run_tables_ok random s events Hs) as Hs'. fold s' in Hs'.
    destruct (run_not_clean_before random events s t _ Hs Hnot) as [Hnot'|Hlate];
      [|fold s' in Hlate; lia].
    fold s' in Hnot'.
    assert (status_at s' t = Some t_dirty \/ status_at s' t = Some t_cleaning) as Hst.
    { destruct Hnot' as [[? _]|[? _]]; auto. }
    split; [done|]. unfold status_at in Hst.
    destruct (tables s' !! t) as [tb'|] eqn:Ht'; [|by destruct Hst].
    simpl in *. f_equal. apply (unoccupied s' Hs' t tb' Ht').
    destruct Hst as [[= ->]|[= ->]]; done.
Qed.


(** C10: take a frame in which, when [processQueue] is called, the first
    waiting customer of the queue is [cid] and the first available table is
    dirty.  Then [seatCustomer] returns false for [cid], and [processQueue]
    removes [cid] from the queue all the same: after it, [cid] is an active
    customer in state waiting with no table, no order and no place in the
    queue.  From then on it is never seated: after every later event it is
    either still in that position or has left by abandonment, without ever
    having had a table. *)
Theorem C10_customer_dropped_at_dirty_table g dt s0 cid rest t tb :
  tables_ok s0 -> queue_ok s0 ->
  let s := processOrders dt
             (update_customers random dt (length (customers s0)) (set_gameTime g s0)) in
  filter (customer_in_state s waiting) (queue s) = cid :: rest ->
  findAvailableTable s = Some t ->
  tables s !! t = Some tb -> table_status tb = t_dirty ->
  (seatCustomer random cid t s).2 = false /\
  stranded (processQueue random s) cid /\
  forall later,
    let s' := run random s0 (Frame g dt :: later) in
    stranded s' cid \/ abandoned s' cid.
Proof.
  intros Hs0 Hq0 s Hhead Hfind Ht Hdirty.
  assert (tables_ok s) as Hs.
  { apply processOrders_tables_ok, update_customers_tables_ok.
    by apply (tables_ok_view s0). }
  assert (queue_ok s) as Hq.
  { apply processOrders_queue_ok, update_customers_queue_ok.
    by apply (queue_ok_view s0). }
  assert (cid ∈ queue s) as Hin.
  { assert (cid ∈ filter (customer_in_state s waiting) (queue s)) as Hf
      by (rewrite Hhead; left).
    by apply list_elem_of_filter in Hf as [_ ?]. }
  destruct (queue_waiting s Hq cid Hin) as (Hcust & c & Hc & Hst & Htab & Hord).
  assert (cid ∉ rest) as Hrest.
  { assert (NoDup (cid :: rest)) as Hnd
      by (rewrite <-Hhead; apply NoDup_filter, (queue_nodup s Hq)).
    by apply NoDup_cons in Hnd as [? _]. }
  pose proof (seatCustomer_dirty random cid t s c tb Hc Ht Hdirty) as Hseat.
  assert (stranded (processQueue random s) cid) as Hstr.
  { unfold processQueue. rewrite Hhead. simpl. rewrite Hfind, Hseat. simpl.
    apply seat_waiting_stranded; [done|].
    split; [done|]. split; [by intros [? _]%list_elem_of_filter|].
    exists c. done. }
  split; [by rewrite Hseat|]. split; [exact Hstr|].
  intros later s'. unfold s'. simpl.
  apply run_stranded.
  - apply update_tables_ok. by apply (tables_ok_view s0).
  - apply (update_after_queue random dt (set_gameTime g s0) (fun s => stranded s cid)).
    + intros ???. by apply stranded_view.
    + intros ?. apply spawnCustomer_stranded.
    + exact Hstr.
Qed.


End Claims.

Lemma C7_witness :
  let events := [Spawn; Frame 361 1; Frame 362 1; Frame 482 1; Frame 700 1] in
  monotone_frames 360 events /\
  match customerObjs (run steady opening events) !! 0%nat with
  | Some c => (0 <= satisfaction c /\ satisfaction c <= 100)%Q
  | None => False
  end.
Proof.
  intros events.
  assert (monotone_frames 360 events) as Hmono
    by (simpl; repeat split; by apply Qle_bool_iff).
  split; [exact Hmono|].
  assert (is_Some (customerObjs (run steady opening events) !! 0%nat)) as [c Hc]
    by (vm_compute; eexists; reflexivity).
  rewrite Hc.
  exact (C7_satisfaction_within_0_100 steady 360 1000 50 0 events 0%nat c Hmono Hc).
Defined.


Lemma C8_witness :
  let events := [Spawn; Spawn; Spawn; Frame 361 1] in
  let s0 := run steady opening events in
  let s := update_customers steady 1 (length (customers s0)) (set_gameTime 362 s0) in
  monotone_frames 360 events /\ (gameTime s0 <= 362)%Q /\
  preparing_count s = 0 /\ preparing_count (promoteOrders s) = 2 /\
  preparing_count (promoteOrders s) <= availableServers (promoteOrders s).
Proof.
  intros events s0 s.
  assert (monotone_frames 360 events) as Hmono
    by (simpl; repeat split; by apply Qle_bool_iff).
  assert (gameTime s0 <= 362)%Q as Hg by by apply Qle_bool_iff.
  destruct (C8_preparing_within_capacity steady 360 1000 50 0 events 362 1 Hmono Hg)
    as (_ & Hcount & Hbound & _).
  repeat split; done.
Defined.


(** C3 (as stated, refuted): a tourist arrives, is seated, served, eats and
    pays.  The frame in which the payment is returned raises the player's
    money from 1000 to 1007.7175 and the reputation from 50 to 54, inside
    [update]. *)
Lemma C3_update_changes_money_and_reputation :
  let s := run steady opening
             [Spawn; Frame 361 1; Frame 362 1; Frame 482 1; Frame 1083 1] in
  let s' := update steady 1 (set_gameTime 1144 s) in
  (money s == 1000 /\ reputation s == 50 /\
   money s' == 403087 # 400 /\ reputation s' == 54)%Q.
Proof. vm_compute. repeat split. Qed.


Lemma C5_witness :
  let s := run steady opening [Spawn; Frame 361 1; Frame 362 1] in
  let events := [Frame 400 1; Spawn; Frame 481 1] in
  let o := {| item := tea; quantity := 2; totalPrice := 6; prepTime := 2;
              specialRequest := None; status := preparing; timePlaced := 361;
              timeStarted := Some 362%Q; timeCompleted := 0 |}%Q in
  (0%nat ∈ orders s /\ orderObjs s !! 0%nat = Some o /\
   frames_not_due o events = true /\ is_due 482 o = true) /\
  orderObjs (run steady s events) !! 0%nat = Some o /\
  orderObjs (step steady (run steady s events) (Frame 482 1)) !! 0%nat =
  Some (set_status served (completed 482 o)).
Proof.
  intros s events o.
  assert (orders_ok s) as Hok by apply run_ok, new_CafeSystem_ok.
  assert (0%nat ∈ orders s) as Hin by (vm_compute; left).
  assert (orderObjs s !! 0%nat = Some o) as Ho by (vm_compute; reflexivity).
  assert (frames_not_due o events = true) as Hund by (vm_compute; reflexivity).
  assert (is_due 482 o = true) as Hdue by (vm_compute; reflexivity).
  split; [by repeat split|].
  destruct (C5_order_completes_at_first_due_frame steady events 482 1 s 0%nat o
              Hok Hin Ho eq_refl Hund Hdue) as [Hkept Hserved].
  split; [exact Hkept|]. rewrite Hserved. vm_compute. reflexivity.
Defined.

(** C5 (as stated, refuted): two tourists are seated at game time 361 and
    their orders, two teas each with a preparation time of 2 minutes, are
    promoted at game time 1000.  The next frame comes at game time 1700,
    when both customers have waited more than their 15 minutes and leave.
    It is the first frame at least 2 minutes after the promotion, and it
    leaves the orders ready, not served; they stay ready from then on. *)
Lemma C5_order_of_departed_customer_stays_ready :
  let s := run steady opening [Spawn; Spawn; Frame 361 1; Frame 1000 1] in
  let s' := step steady s (Frame 1700 1) in
  let s'' := run steady s' [Frame 1800 1; Frame 5000 1] in
  (status <$> orderObjs s !! 0%nat = Some preparing /\
   timeStarted <$> orderObjs s !! 0%nat = Some (Some 1000%Q) /\
   prepTime <$> orderObjs s !! 0%nat = Some 2%Q) /\
  status <$> orderObjs s' !! 0%nat = Some ready /\
  status <$> orderObjs s'' !! 0%nat = Some ready.
Proof. vm_compute. repeat split. Qed.


Lemma C6_witness :
  let s := run steady opening [Spawn; Spawn; Spawn; Spawn; Spawn; Frame 361 1] in
  let early := [Frame 600 1; Spawn; Frame 1260 1] in
  let P := (3000 # 200)%Q in
  (tables_ok s /\ waits_since P 360 s 4%nat /\
   frames_within P 360 early = true /\ never_seated steady s 4%nat early = true /\
   (P < (1261 - 360) / 60)%Q) /\
  (forall k, waits_since P 360 (run steady s (take k early)) 4%nat) /\
  exists c,
    customerObjs (run steady s early) !! 4%nat = Some c /\
    let c' := set_state leaving
                (set_satisfaction (Qmax 0 (100 - (1261 - 360) / 60 * 5))%Q c) in
    (forall total r,
       Customer_update 1261 1 total r c = (c', Some (customer_left waited_too_long))) /\
    forall later,
      departed (run steady (step steady (run steady s early) (Frame 1261 1)) later)
               4%nat c'.
Proof.
  intros s early P.
  assert (tables_ok s) as Hok by apply run_tables_ok, new_CafeSystem_tables_ok.
  assert (customers s !! 4%nat = Some 4%nat) as Hi by (vm_compute; reflexivity).
  assert (customerObjs s !! 4%nat =
          Some {| kind := tourist; patience := P; spendingPower := 3000 # 200;
                  tipMultiplier := 400 # 200; orderPreferences := [cake; tea; special];
                  hasSpecialRequest := false; arrivalTime := 360; order := None;
                  table := None; state := waiting; satisfaction := 5995 # 60;
                  waitStartTime := 360 |}%Q) as Hc by (vm_compute; reflexivity).
  assert (waits_since P 360 s 4%nat) as Hw.
  { split; [exact (list_elem_of_lookup_2 _ _ _ Hi)|].
    eexists. split; [exact Hc|]. repeat split. }
  assert (frames_within P 360 early = true) as Hwithin by (vm_compute; reflexivity).
  assert (never_seated steady s 4%nat early = true) as Hnever by (vm_compute; reflexivity).
  assert (P < (1261 - 360) / 60)%Q as Hlate by (vm_compute; reflexivity).
  split; [exact (conj Hok (conj Hw (conj Hwithin (conj Hnever Hlate))))|].
  exact (C6_abandonment_is_timely_and_final steady P 360 s 4%nat early 1261 1
           Hok Hw Hwithin Hnever Hlate).
Defined.


Lemma C4_witness :
  let s := run steady opening
             [Spawn; Frame 361 1; Frame 362 1; Frame 482 1; Frame 1083 1; Frame 1144 1] in
  let events := [Spawn; Frame 1145 1; Elapse 2999; Timeout 0; Spawn; Frame 5000 1] in
  let s' := run steady s events in
  let tb := {| table_id := 0; table_customer := None; table_status := t_dirty;
               timeOccupied := 0 |} in
  (tables_ok s /\ tables s !! 0%nat = Some tb /\ (clock s' < clock s + 3000)%Z) /\
  status_at s' 0 = Some t_cleaning /\
  table_customer <$> tables s' !! 0%nat = Some None.
Proof.
  intros s events s' tb.
  assert (tables_ok s) as Hs by apply run_tables_ok, new_CafeSystem_tables_ok.
  assert (tables s !! 0%nat = Some tb) as Ht by (vm_compute; reflexivity).
  assert (clock s' < clock s + 3000)%Z as Hclock by (vm_compute; reflexivity).
  split; [exact (conj Hs (conj Ht Hclock))|].
  destruct (C4_dirty_table_waits_for_the_wall_clock steady s 0%nat tb Hs Ht eq_refl)
    as (_ & _ & _ & Hwait).
  destruct (Hwait events Hclock) as [_ Hnobody]. split; [|exact Hnobody].
  vm_compute. reflexivity.
Defined.

(** C4 (as stated, refuted): the first table is found dirty by the seating
    step of the frame at game time 1145 and goes to cleaning.  Three seconds
    of wall-clock time pass while the game time stands still, and the
    callback runs.  The next frame, still at game time 1145, seats a new
    customer at that table: no simulated time has elapsed. *)
Lemma C4_table_reassigned_at_the_same_game_time :
  let s := run steady opening
             [Spawn; Frame 361 1; Frame 362 1; Frame 482 1; Frame 1083 1; Frame 1144 1;
              Spawn; Frame 1145 1] in
  let s' := run steady s [Elapse 3000; Timeout 0; Spawn; Frame 1145 1] in
  (status_at s 0 = Some t_cleaning /\ gameTime s = 1145%Q) /\
  (status_at s' 0 = Some t_waiting /\
   table_customer <$> tables s' !! 0%nat = Some (Some 2%nat) /\
   gameTime s' = 1145%Q).
Proof. vm_compute. repeat split. Qed.


Lemma C10_witness :
  let s0 := run steady opening full_house in
  let s := processOrders 1
             (update_customers steady 1 (length (customers s0)) (set_gameTime 1144 s0)) in
  let tb := {| table_id := 0; table_customer := None; table_status := t_dirty;
               timeOccupied := 0 |} in
  let s' := run steady s0 [Frame 1144 1; Elapse 3000; Timeout 0; Frame 1145 1] in
  (tables_ok s0 /\ queue_ok s0 /\
   filter (customer_in_state s waiting) (queue s) = [4; 5; 6] /\
   findAvailableTable s = Some 0 /\ tables s !! 0%nat = Some tb) /\
  (seatCustomer steady 4 0 s).2 = false /\
  stranded (processQueue steady s) 4 /\
  (stranded s' 4 \/ abandoned s' 4).
Proof.
  intros s0 s tb s'.
  assert (tables_ok s0) as Hs0 by apply run_tables_ok, new_CafeSystem_tables_ok.
  assert (queue_ok s0) as Hq0 by apply run_queue_ok, new_CafeSystem_queue_ok.
  assert (filter (customer_in_state s waiting) (queue s) = [4; 5; 6]) as Hhead
    by (vm_compute; reflexivity).
  assert (findAvailableTable s = Some 0) as Hfind by (vm_compute; reflexivity).
  assert (tables s !! 0%nat = Some tb) as Ht by (vm_compute; reflexivity).
  split; [exact (conj Hs0 (conj Hq0 (conj Hhead (conj Hfind Ht))))|].
  destruct (C10_customer_dropped_at_dirty_table steady 1144 1 s0 4 [5; 6] 0 tb
              Hs0 Hq0 Hhead Hfind Ht eq_refl) as (Hfalse & Hstr & Hlater).
  split; [exact Hfalse|]. split; [exact Hstr|].
  exact (Hlater [Elapse 3000; Timeout 0; Frame 1145 1]).
Defined.

(** C9 (evaluation of the code where it fails): all four tables are taken
    and A = 4, B = 5, C = 6 queue in that order.  In the frame at game time
    1144 customer 0 pays and leaves, which frees exactly one table, the
    first.  The seating step of that frame takes A off the queue without
    seating it, because the freed table is dirty.  Once the table has been
    cleaned, the next frame seats B at it.  A is still an active customer
    without a table and is not in the queue any more; C is still queued. *)
Theorem C9_freed_table_goes_to_B_not_A :
  let s0 := run steady opening full_house in
  let s1 := step steady s0 (Frame 1144 1) in
  let s2 := run steady s1 [Elapse 3000; Timeout 0; Frame 1145 1] in
  (queue s0 = [4; 5; 6] /\
   table_status <$> tables s0 = [t_waiting; t_waiting; t_waiting; t_waiting]) /\
  (queue s1 = [5; 6] /\
   table_status <$> tables s1 = [t_cleaning; t_waiting; t_waiting; t_waiting] /\
   table <$> customerObjs s1 !! 4%nat = Some None) /\
  (queue s2 = [6] /\
   table_customer <$> tables s2 !! 0%nat = Some (Some 5%nat) /\
   table <$> customerObjs s2 !! 5%nat = Some (Some 0%nat) /\
   table <$> customerObjs s2 !! 4%nat = Some None /\
   state <$> customerObjs s2 !! 4%nat = Some waiting /\
   customers s2 = [1; 2; 3; 4; 5; 6]).
Proof. vm_compute. repeat split. Qed.

End CafeFacts.

Module MmcQueriesFacts.
Import Mmc MmcQueries.
#[local] Open Scope Q_scope.

(** ** Arithmetic of the closed forms over the rationals *)

#[local] Abbreviation Qpow := (Math_pow (num := Q)).
#[local] Abbreviation Qfact := (factorial (num := Q)).
#[local] Abbreviation Qnat n := (inject_Z (Z.of_nat n)).

Lemma Qpow_S (x : Q) n : Qpow x (S n) = x * Qpow x n.
Proof. reflexivity. Qed.

Lemma Qpow_pos (x : Q) n : 0 < x -> 0 < Qpow x n.
Proof.
  intros Hx. induction n as [|n IH]; [reflexivity|].
  rewrite Qpow_S. by apply Qmult_lt_0_compat.
Qed.

Lemma Qnat_pos n : (1 <= n)%nat -> 0 < Qnat n.
Proof. intros Hn. change 0 with (inject_Z 0). rewrite <-Zlt_Qlt. lia. Qed.

Lemma Qnat_S n : Qnat (S n) == Qnat n + 1.
Proof. rewrite Nat2Z.inj_succ, <-Z.add_1_r, inject_Z_plus. reflexivity. Qed.

Lemma fold_left_Qeq {A} (f : Q -> A -> Q) l x y :
  (forall u v a, u == v -> f u a == f v a) ->
  x == y -> fold_left f l x == fold_left f l y.
Proof.
  intros Hf. revert x y. induction l as [|a l IH]; intros x y Hxy; simpl; [done|].
  by apply IH, Hf.
Qed.

Lemma fold_left_fact k n :
  fold_left (fun result i => result * Qnat i) (seq (S n) k) (Qnat (fact n))
  == Qnat (fact (n + k)).
Proof.
  revert n. induction k as [|k IH]; intros n; simpl.
  { by rewrite Nat.add_0_r. }
  rewrite <-Nat.add_succ_comm, <-IH.
  apply fold_left_Qeq; [by intros u v a0 ->|].
  rewrite <-inject_Z_mult, <-Nat2Z.inj_mul. apply inject_Z_injective.
  f_equal. simpl. lia.
Qed.

Lemma Qfact_fact n : Qfact n == Qnat (fact n).
Proof.
  destruct n as [|[|n]]; [reflexivity..|].
  unfold factorial. cbn [num_mul num_of_nat Q_JsNum].
  replace (S (S n) - 1)%nat with (S n) by lia.
  change (inject_Z (Z.of_nat 1)) with (Qnat (fact 1)).
  rewrite (fold_left_fact (S n) 1). done.
Qed.

Lemma Qfact_pos n : 0 < Qfact n.
Proof. rewrite Qfact_fact. apply Qnat_pos. pose proof (lt_O_fact n). lia. Qed.

Lemma Qfact_S n : Qfact (S n) == Qnat (S n) * Qfact n.
Proof.
  rewrite !Qfact_fact, <-inject_Z_mult, <-Nat2Z.inj_mul. reflexivity.
Qed.


(** The sum the constructor accumulates for P0. *)
Lemma fold_left_sum (t : nat -> Q) l x :
  fold_left (fun sum n => sum + t n) l x == x + fold_right Qplus 0 (map t l).
Proof.
  revert x. induction l as [|n l IH]; intros x; simpl; [ring|].
  rewrite IH. ring.
Qed.

Lemma sum_nonneg (t : nat -> Q) l :
  (forall n, 0 <= t n) -> 0 <= fold_right Qplus 0 (map t l).
Proof.
  intros Ht. induction l as [|n l IH]; simpl; [done|].
  specialize (Ht n). lra.
Qed.

Lemma sum_scale (t : nat -> Q) l p :
  fold_right Qplus 0 (map (fun n => t n * p) l) == fold_right Qplus 0 (map t l) * p.
Proof. induction l as [|n l IH]; simpl; [ring|]. rewrite IH. ring. Qed.

Lemma averageQueueLength_eq (lambda mu : Q) (c : nat) :
  averageQueueLength (new_QueueingModel lambda mu c) ==
  Qpow (lambda / mu) c * trafficIntensity (new_QueueingModel lambda mu c) *
  probabilityZero (new_QueueingModel lambda mu c) /
  (Qfact c * ((1 - trafficIntensity (new_QueueingModel lambda mu c)) *
              (1 - trafficIntensity (new_QueueingModel lambda mu c)))).
Proof.
  unfold new_QueueingModel, calculateAverageQueueLength.
  cbn [averageQueueLength probabilityZero trafficIntensity Math_pow
       num_add num_sub num_mul num_div num_of_nat Q_JsNum].
  change (inject_Z (Z.of_nat 1)) with 1.
  apply Qdiv_comp; [reflexivity|]. ring.
Qed.

Lemma sum_ge_first (t : nat -> Q) k :
  (1 <= k)%nat -> (forall n, 0 <= t n) -> t 0%nat <= fold_right Qplus 0 (map t (seq 0 k)).
Proof.
  intros Hk Ht. destruct k as [|k]; [lia|].
  change (seq 0 (S k)) with (0%nat :: seq 1 k). simpl.
  pose proof (sum_nonneg t (seq 1 k) Ht). lra.
Qed.

Section Stable.
Variables (lambda mu : Q) (c : nat).
Hypothesis Hlambda : 0 < lambda.
Hypothesis Hmu : 0 < mu.
Hypothesis Hc : (1 <= c)%nat.
Hypothesis Hstable : lambda < Qnat c * mu.

Let m := new_QueueingModel lambda mu c.
Let term (n : nat) : Q := Qpow (lambda / mu) n / Qfact n.
Let total : Q := fold_right Qplus 0 (map term (seq 0 c)).

Lemma offered_pos : 0 < lambda / mu.
Proof using Hlambda Hmu Hc Hstable. apply Qlt_shift_div_l; lra. Qed.

Lemma rho_bounds : 0 < trafficIntensity m /\ trafficIntensity m < 1.
Proof using Hlambda Hmu Hc Hstable.
  pose proof (Qnat_pos c Hc) as Hcpos.
  assert (0 < Qnat c * mu) as Hd by (by apply Qmult_lt_0_compat).
  unfold m, new_QueueingModel, calculateTrafficIntensity.
  cbn [trafficIntensity num_mul num_div num_of_nat Q_JsNum].
  revert Hd Hstable. generalize (Qnat c * mu). intros d Hd Hstable.
  split.
  - apply Qlt_shift_div_l; lra.
  - apply Qlt_shift_div_r; lra.
Qed.

Lemma term_pos n : 0 < term n.
Proof using Hlambda Hmu Hc Hstable.
  apply Qlt_shift_div_l; [apply Qfact_pos|].
  rewrite Qmult_0_l. apply Qpow_pos, offered_pos.
Qed.

Lemma total_ge_1 : 1 <= total.
Proof using Hlambda Hmu Hc Hstable.
  assert (1 == term 0) as -> by reflexivity.
  apply sum_ge_first; [done|]. intros n. apply Qlt_le_weak, term_pos.
Qed.

Lemma probabilityZero_eq :
  probabilityZero m == 1 / (total + term c * (1 / (1 - trafficIntensity m))).
Proof using Hlambda Hmu Hc Hstable.
  unfold m, new_QueueingModel, calculateProbabilityZero.
  cbn [probabilityZero trafficIntensity num_add num_sub num_mul num_div num_of_nat Q_JsNum].
  fold (term c).
  change (fold_left _ (seq 0 c) _) with (fold_left (fun sum n => sum + term n) (seq 0 c) 0).
  rewrite fold_left_sum. fold total.
  change (inject_Z (Z.of_nat 1)) with 1. by rewrite Qplus_0_l.
Qed.

Lemma waiting_term_pos : 0 < term c * (1 / (1 - trafficIntensity m)).
Proof using Hlambda Hmu Hc Hstable.
  destruct rho_bounds as [_ Hrho].
  apply Qmult_lt_0_compat; [apply term_pos|].
  apply Qlt_shift_div_l; lra.
Qed.

Lemma probabilityZero_bounds : 0 < probabilityZero m /\ probabilityZero m < 1.
Proof using Hlambda Hmu Hc Hstable.
  rewrite probabilityZero_eq.
  pose proof total_ge_1 as Htotal. pose proof waiting_term_pos as Hw.
  revert Htotal Hw. generalize (term c * (1 / (1 - trafficIntensity m))), total.
  intros w t Ht Hw. split.
  - apply Qlt_shift_div_l; lra.
  - apply Qlt_shift_div_r; lra.
Qed.


Lemma averageQueueLength_pos : 0 < averageQueueLength m.
Proof using Hlambda Hmu Hc Hstable.
  unfold m. rewrite (averageQueueLength_eq lambda mu c). fold m.
  destruct rho_bounds as [Hrho0 Hrho1]. destruct probabilityZero_bounds as [Hp0 _].
  apply Qlt_shift_div_l.
  - apply Qmult_lt_0_compat; [apply Qfact_pos|].
    apply Qmult_lt_0_compat; lra.
  - rewrite Qmult_0_l.
    apply Qmult_lt_0_compat; [|exact Hp0].
    apply Qmult_lt_0_compat; [|exact Hrho0].
    apply Qpow_pos, offered_pos.
Qed.

Lemma probabilityOfNCustomers_low n :
  (n < c)%nat -> probabilityOfNCustomers m n = term n * probabilityZero m.
Proof using Hlambda Hmu Hc Hstable.
  intros Hn. unfold probabilityOfNCustomers.
  change (servers m) with c. by apply Nat.ltb_lt in Hn as ->.
Qed.

Lemma probabilityOfWaiting_eq :
  probabilityOfWaiting m =
  Qpow (lambda / mu) c * probabilityZero m / (Qfact c * (1 - trafficIntensity m)).
Proof using Hlambda Hmu Hc Hstable. reflexivity. Qed.

Lemma probabilities_sum :
  fold_right Qplus 0 (map (probabilityOfNCustomers m) (seq 0 c)) + probabilityOfWaiting m
  == 1.
Proof using Hlambda Hmu Hc Hstable.
  assert (map (probabilityOfNCustomers m) (seq 0 c) =
          map (fun n => term n * probabilityZero m) (seq 0 c)) as ->.
  { apply map_ext_in. intros n Hn%in_seq. apply probabilityOfNCustomers_low. lia. }
  rewrite sum_scale, probabilityOfWaiting_eq. fold total.
  pose proof total_ge_1 as Htotal. pose proof waiting_term_pos as Hw.
  destruct rho_bounds as [_ Hrho]. pose proof (Qfact_pos c) as HF.
  pose proof probabilityZero_eq as Hp0.
  unfold term in Hw, Hp0.
  revert Htotal Hw Hrho HF Hp0.
  generalize total, (probabilityZero m), (trafficIntensity m).
  generalize (Qpow (lambda / mu) c), (Qfact c).
  intros A F t p0 rho Htotal Hw Hrho HF Hp0.
  assert (t * p0 + A * p0 / (F * (1 - rho)) ==
          p0 * (t + A / F * (1 / (1 - rho)))) as ->.
  { field. split; lra. }
  revert Hw Hp0. generalize (A / F * (1 / (1 - rho))). intros w Hw Hp0.
  rewrite Hp0. field. lra.
Qed.

End Stable.

(** For a stable queue the metrics are what they are called. *)
Theorem stable_queue_metrics (lambda mu : Q) (c : nat) :
  0 < lambda -> 0 < mu -> (1 <= c)%nat -> lambda < Qnat c * mu ->
  let m := new_QueueingModel lambda mu c in
  (0 < trafficIntensity m /\ trafficIntensity m < 1) /\
  (0 < probabilityZero m /\ probabilityZero m < 1) /\
  0 < averageQueueLength m /\ 0 < averageTimeInQueue m.
Proof.
  intros Hlambda Hmu Hc Hstable m.
  pose proof (averageQueueLength_pos lambda mu c Hlambda Hmu Hc Hstable) as Hlq.
  split; [by apply rho_bounds|]. split; [by apply probabilityZero_bounds|].
  split; [exact Hlq|].
  change (averageTimeInQueue m) with (averageQueueLength m / lambda).
  apply Qlt_shift_div_l; [done|]. by rewrite Qmult_0_l.
Qed.

(** Below the server count all customers are in service, from it on the
    queue grows: for a stable queue, and with the formulas evaluated
    exactly, the probabilities of 0 .. c-1 customers and the probability
    of waiting add up to 1. *)
Theorem probabilities_add_up_to_one (lambda mu : Q) (c : nat) :
  0 < lambda -> 0 < mu -> (1 <= c)%nat -> lambda < Qnat c * mu ->
  let m := new_QueueingModel lambda mu c in
  fold_right Qplus 0 (map (probabilityOfNCustomers m) (seq 0 c)) + probabilityOfWaiting m
  == 1.
Proof. intros. by apply probabilities_sum. Qed.

Lemma fact_fold (n : nat) :
  Z.of_nat (fact n) = fold_left (fun result i => (result * Z.of_nat i)%Z) (seq 1 n) 1%Z.
Proof.
  induction n as [|n IH]; [done|].
  rewrite seq_S, fold_left_app. cbn [fold_left Nat.add]. rewrite <-IH.
  change (fact (S n)) with (S n * fact n)%nat. lia.
Qed.

(** [factorial(n)] on binary64 numbers, as the code runs it: up to
    n = 22 every product of the loop is an integer a double holds, and the
    result is n! itself. *)
Theorem factorial_exact_to_22 (n : nat) :
  (n <= 22)%nat -> float_integer (factorial n) = Some (Z.of_nat (fact n)).
Proof.
  intros Hn. rewrite fact_fold.
  do 23 (destruct n as [|n]; [vm_compute; reflexivity|]). lia.
Qed.

(** Detailed balance of the birth-death chain. *)
Lemma balance_general (lambda mu : Q) (c n : nat) :
  ~ mu == 0 -> (1 <= c)%nat ->
  let m := new_QueueingModel lambda mu c in
  lambda * probabilityOfNCustomers m n ==
  Qnat (Nat.min (S n) c) * mu * probabilityOfNCustomers m (S n).
Proof.
  intros Hmu Hc m. unfold probabilityOfNCustomers.
  change (servers m) with c. change (arrivalRate m) with lambda.
  change (serviceRate m) with mu.
  cbn [num_mul num_div num_of_nat Q_JsNum].
  generalize (probabilityZero m). intros p0.
  pose proof (Qfact_pos n) as HFn. pose proof (Qfact_pos c) as HFc.
  pose proof (Qnat_pos c Hc) as Hcpos.
  assert (0 < Qnat (S n)) as HSn by (apply Qnat_pos; lia).
  destruct (Nat.ltb_spec n c) as [Hn|Hn], (Nat.ltb_spec (S n) c) as [HSn'|HSn']; try lia.
  - rewrite Nat.min_l by lia. rewrite Qpow_S, Qfact_S.
    revert HFn. generalize (Qpow (lambda / mu) n), (Qfact n), HSn. generalize (Qnat (S n)).
    intros k A F Hk HF. field. repeat split; lra.
  - assert (c = S n) as -> by lia. rewrite Nat.min_id, Nat.sub_diag.
    rewrite Qpow_S, Qfact_S. change (Qpow (Qnat (S n)) 0) with 1.
    revert HFn. generalize (Qpow (lambda / mu) n), (Qfact n), HSn. generalize (Qnat (S n)).
    intros k A F Hk HF. field. repeat split; lra.
  - rewrite Nat.min_r by lia. replace (S n - c)%nat with (S (n - c)) by lia.
    rewrite !Qpow_S.
    assert (0 < Qpow (Qnat c) (n - c)) as HC by (by apply Qpow_pos).
    revert HC HFc. generalize (Qpow (lambda / mu) n), (Qpow (Qnat c) (n - c)), (Qfact c), Hcpos.
    generalize (Qnat c).
    intros k A C F Hk HC HF. field. repeat split; lra.
Qed.

(** For a stable queue, and with the formulas evaluated exactly,
    [probabilityOfNCustomers] satisfies the balance equations of the M/M/c
    queue across both of its branches. *)
Theorem balance_equations (lambda mu : Q) (c n : nat) :
  0 < lambda -> 0 < mu -> (1 <= c)%nat -> lambda < Qnat c * mu ->
  let m := new_QueueingModel lambda mu c in
  lambda * probabilityOfNCustomers m n ==
  Qnat (Nat.min (S n) c) * mu * probabilityOfNCustomers m (S n).
Proof.
  intros Hlambda Hmu Hc Hstable. apply balance_general; [|exact Hc].
  intros Heq. lra.
Qed.

(** The mean queue length from the probability of waiting, and Little's
    law for the queue. *)
Lemma queue_length_general (lambda mu : Q) (c : nat) :
  let m := new_QueueingModel lambda mu c in
  ~ trafficIntensity m == 1 -> ~ lambda == 0 ->
  averageQueueLength m ==
    probabilityOfWaiting m * trafficIntensity m / (1 - trafficIntensity m) /\
  averageQueueLength m == lambda * averageTimeInQueue m.
Proof.
  intros m Hrho Hlambda. split.
  - unfold m at 1. rewrite (averageQueueLength_eq lambda mu c). fold m.
    change (probabilityOfWaiting m) with
      (Qpow (lambda / mu) c * probabilityZero m / (Qfact c * (1 - trafficIntensity m))).
    pose proof (Qfact_pos c) as HF. revert Hrho HF.
    generalize (Qpow (lambda / mu) c), (Qfact c), (probabilityZero m), (trafficIntensity m).
    intros A F p0 rho Hrho HF. field. split; [|lra]. intros Heq. apply Hrho. lra.
  - change (averageTimeInQueue m) with (averageQueueLength m / lambda). by field.
Qed.

(** For a stable queue, and with the formulas evaluated exactly, the
    stored metrics are related as in queueing theory: the mean queue
    length follows from the probability of waiting, and Little's law
    holds for the queue. *)
Theorem queue_length_relations (lambda mu : Q) (c : nat) :
  0 < lambda -> 0 < mu -> (1 <= c)%nat -> lambda < Qnat c * mu ->
  let m := new_QueueingModel lambda mu c in
  averageQueueLength m ==
    probabilityOfWaiting m * trafficIntensity m / (1 - trafficIntensity m) /\
  averageQueueLength m == lambda * averageTimeInQueue m.
Proof.
  intros Hlambda Hmu Hc Hstable m.
  pose proof (rho_bounds lambda mu c Hlambda Hmu Hc Hstable) as [_ Hrho].
  subst m. apply queue_length_general; intros Heq.
  - rewrite Heq in Hrho. by apply Qlt_irrefl in Hrho.
  - rewrite Heq in Hlambda. by apply Qlt_irrefl in Hlambda.
Qed.

(** ** The search for a server count *)

Section Search.
Variables (lambda mu target : Q).

Let W (k : nat) : Q := waitOf (new_QueueingModel lambda mu k).

Lemma fewer_servers_S c :
  fewer_servers lambda mu target (S (S c)) =
  if Qle_bool (W (S c)) target
  then fewer_servers lambda mu target (S c)
  else S (S c).
Proof.
  change (fewer_servers lambda mu target (S (S c))) with
    (if negb (Qle_bool (W (S c)) target)
     then S (S c) else fewer_servers lambda mu target (S c)).
  by destruct (Qle_bool _ _).
Qed.

Lemma more_servers_S fuel c wait :
  more_servers (S fuel) lambda mu target c wait =
  if Qle_bool wait target
  then Some c
  else more_servers fuel lambda mu target (S c) (W (S c)).
Proof.
  change (more_servers (S fuel) lambda mu target c wait) with
    (if negb (Qle_bool wait target)
     then more_servers fuel lambda mu target (S c) (W (S c)) else Some c).
  by destruct (Qle_bool _ _).
Qed.

Lemma more_servers_0 c wait :
  more_servers 0 lambda mu target c wait =
  if Qle_bool wait target then Some c else None.
Proof.
  change (more_servers 0 lambda mu target c wait) with
    (if negb (Qle_bool wait target) then None else Some c).
  by destruct (Qle_bool _ _).
Qed.

Lemma fewer_servers_spec c :
  (1 <= c)%nat -> W c <= target ->
  let r := fewer_servers lambda mu target c in
  (1 <= r <= c)%nat /\
  (forall k, (r <= k <= c)%nat -> W k <= target) /\
  (r = 1%nat \/ target < W (r - 1)).
Proof.
  induction c as [|c IH]; [lia|]. intros _ Hwait.
  destruct c as [|c].
  { intros r. unfold r. change (fewer_servers lambda mu target 1) with 1%nat.
    split; [lia|]. split; [|by left]. intros k Hk. by replace k with 1%nat by lia. }
  intros r. unfold r. rewrite fewer_servers_S.
  destruct (Qle_bool (W (S c)) target) eqn:Hle.
  - apply Qle_bool_iff in Hle.
    destruct (IH ltac:(lia) Hle) as (Hr & Hall & Hmin).
    split; [lia|]. split; [|exact Hmin].
    intros k Hk. destruct (decide (k = S (S c))) as [->|Hne]; [done|].
    apply Hall. lia.
  - split; [lia|]. split.
    + intros k Hk. by replace k with (S (S c)) by lia.
    + right. replace (S (S c) - 1)%nat with (S c) by lia.
      apply Qnot_le_lt. intros Hle'%Qle_bool_iff. congruence.
Qed.

Lemma more_servers_spec fuel c r :
  (c <= r)%nat -> (forall k, (c <= k < r)%nat -> target < W k) -> W r <= target ->
  (r - c <= fuel)%nat ->
  more_servers fuel lambda mu target c (W c) = Some r.
Proof.
  revert c. induction fuel as [|fuel IH]; intros c Hcr Hbelow Hr Hfuel.
  - assert (c = r) as -> by lia. rewrite more_servers_0.
    apply Qle_bool_iff in Hr. by rewrite Hr.
  - rewrite more_servers_S.
    destruct (decide (c = r)) as [->|Hne].
    { apply Qle_bool_iff in Hr. by rewrite Hr. }
    assert (Qle_bool (W c) target = false) as ->.
    { apply not_true_is_false. intros Hle%Qle_bool_iff.
      specialize (Hbelow c ltac:(lia)). lra. }
    apply IH; [lia| |done|lia].
    intros k Hk. apply Hbelow. lia.
Qed.

End Search.

(** When the current wait meets the target, the search lowers the server
    count as long as the next lower count still meets it.  The waits are
    the exact values of the closed form: no count from 1 to the current
    one makes a divisor zero. *)
Theorem optimize_lowers_servers (lambda mu target : Q) (c fuel : nat) :
  let W (k : nat) := waitOf (new_QueueingModel lambda mu k) in
  (forall k, (1 <= k <= c)%nat -> defined (new_QueueingModel lambda mu k) = true) ->
  (1 <= c)%nat -> W c <= target ->
  exists r,
    optimizeServersForWaitTime fuel (new_QueueingModel lambda mu c) target = Some r /\
    (1 <= r <= c)%nat /\
    (forall k, (r <= k <= c)%nat -> W k <= target) /\
    (r = 1%nat \/ target < W (r - 1)%nat).
Proof.
  intros W _ Hc Hwait. exists (fewer_servers lambda mu target c). split.
  - unfold optimizeServersForWaitTime. cbn [num_leb Q_JsCompare].
    apply Qle_bool_iff in Hwait. fold (W c). by rewrite Hwait.
  - by apply fewer_servers_spec.
Qed.

(** When the current wait misses the target, the search returns the first
    higher server count that meets it, if its iterations reach one. *)
Theorem optimize_raises_servers (lambda mu target : Q) (c r fuel : nat) :
  let W (k : nat) := waitOf (new_QueueingModel lambda mu k) in
  (c < r)%nat -> (forall k, (c <= k < r)%nat -> target < W k) -> W r <= target ->
  (r - c <= fuel)%nat ->
  optimizeServersForWaitTime fuel (new_QueueingModel lambda mu c) target = Some r.
Proof.
  intros W Hcr Hbelow Hr Hfuel. unfold optimizeServersForWaitTime.
  cbn [num_leb Q_JsCompare]. fold (W c).
  assert (Qle_bool (W c) target = false) as ->.
  { apply not_true_is_false. intros Hle%Qle_bool_iff.
    exact (Qlt_not_le _ _ (Hbelow c ltac:(lia)) Hle). }
  apply (more_servers_spec lambda mu target fuel c r);
    [lia|exact Hbelow|exact Hr|exact Hfuel].
Qed.

Lemma stable_queue_metrics_witness :
  let m := new_QueueingModel (1 # 2) (3 # 10) 2 in
  (0 < 1 # 2 /\ 0 < 3 # 10 /\ (1 <= 2)%nat /\ (1 # 2) < Qnat 2 * (3 # 10)) /\
  (0 < trafficIntensity m /\ trafficIntensity m < 1) /\
  (0 < probabilityZero m /\ probabilityZero m < 1) /\
  0 < averageQueueLength m /\ 0 < averageTimeInQueue m.
Proof.
  assert (0 < 1 # 2) as H1 by reflexivity.
  assert (0 < 3 # 10) as H2 by reflexivity.
  assert (1 <= 2)%nat as H3 by lia.
  assert ((1 # 2) < Qnat 2 * (3 # 10)) as H4 by reflexivity.
  split; [exact (conj H1 (conj H2 (conj H3 H4)))|].
  exact (stable_queue_metrics (1 # 2) (3 # 10) 2 H1 H2 H3 H4).
Defined.

Lemma probabilities_add_up_to_one_witness :
  let m := new_QueueingModel (1 # 2) (3 # 10) 2 in
  (0 < 1 # 2 /\ 0 < 3 # 10 /\ (1 <= 2)%nat /\ (1 # 2) < Qnat 2 * (3 # 10)) /\
  probabilityOfNCustomers m 0 + (probabilityOfNCustomers m 1 + 0) + probabilityOfWaiting m
  == 1.
Proof.
  assert (0 < 1 # 2) as H1 by reflexivity.
  assert (0 < 3 # 10) as H2 by reflexivity.
  assert (1 <= 2)%nat as H3 by lia.
  assert ((1 # 2) < Qnat 2 * (3 # 10)) as H4 by reflexivity.
  split; [exact (conj H1 (conj H2 (conj H3 H4)))|].
  exact (probabilities_add_up_to_one (1 # 2) (3 # 10) 2 H1 H2 H3 H4).
Defined.

Lemma factorial_exact_to_22_witness :
  (22 <= 22)%nat /\
  float_integer (factorial 22) = Some (Z.of_nat (fact 22)).
Proof.
  assert (22 <= 22)%nat as H by lia.
  split; [exact H|]. exact (factorial_exact_to_22 22 H).
Defined.

Lemma balance_equations_witness :
  let m := new_QueueingModel (1 # 2) (3 # 10) 2 in
  (0 < 1 # 2 /\ 0 < 3 # 10 /\ (1 <= 2)%nat /\ (1 # 2) < Qnat 2 * (3 # 10)) /\
  (1 # 2) * probabilityOfNCustomers m 3 ==
  Qnat 2 * (3 # 10) * probabilityOfNCustomers m 4.
Proof.
  assert (0 < 1 # 2) as H1 by reflexivity.
  assert (0 < 3 # 10) as H2 by reflexivity.
  assert (1 <= 2)%nat as H3 by lia.
  assert ((1 # 2) < Qnat 2 * (3 # 10)) as H4 by reflexivity.
  split; [exact (conj H1 (conj H2 (conj H3 H4)))|].
  exact (balance_equations (1 # 2) (3 # 10) 2 3 H1 H2 H3 H4).
Defined.

Lemma queue_length_relations_witness :
  let m := new_QueueingModel (1 # 2) (3 # 10) 2 in
  (0 < 1 # 2 /\ 0 < 3 # 10 /\ (1 <= 2)%nat /\ (1 # 2) < Qnat 2 * (3 # 10)) /\
  averageQueueLength m ==
    probabilityOfWaiting m * trafficIntensity m / (1 - trafficIntensity m) /\
  averageQueueLength m == (1 # 2) * averageTimeInQueue m.
Proof.
  assert (0 < 1 # 2) as H1 by reflexivity.
  assert (0 < 3 # 10) as H2 by reflexivity.
  assert (1 <= 2)%nat as H3 by lia.
  assert ((1 # 2) < Qnat 2 * (3 # 10)) as H4 by reflexivity.
  split; [exact (conj H1 (conj H2 (conj H3 H4)))|].
  exact (queue_length_relations (1 # 2) (3 # 10) 2 H1 H2 H3 H4).
Defined.

(** With lambda = 0.5 and mu = 0.3, two servers meet a target of 8 minutes;
    so does the overloaded single server, whose closed-form wait is
    negative, and the search returns 1. *)
Lemma optimize_lowers_servers_witness :
  let W (k : nat) := waitOf (new_QueueingModel (1 # 2) (3 # 10) k) in
  ((forall k, (1 <= k <= 2)%nat ->
              defined (new_QueueingModel (1 # 2) (3 # 10) k) = true) /\
   (1 <= 2)%nat /\ W 2%nat <= 8) /\
  optimizeServersForWaitTime 0 (new_QueueingModel (1 # 2) (3 # 10) 2) 8 = Some 1%nat /\
  W 1%nat <= 8.
Proof.
  intros W.
  assert (defined (new_QueueingModel (1 # 2) (3 # 10) 1) = true) as Hd1
    by (vm_compute; reflexivity).
  assert (defined (new_QueueingModel (1 # 2) (3 # 10) 2) = true) as Hd2
    by (vm_compute; reflexivity).
  assert (forall k, (1 <= k <= 2)%nat ->
                    defined (new_QueueingModel (1 # 2) (3 # 10) k) = true) as H0.
  { intros k Hk. destruct (decide (k = 1%nat)) as [->|]; [exact Hd1|].
    destruct (decide (k = 2%nat)) as [->|]; [exact Hd2|]. lia. }
  assert (1 <= 2)%nat as H1 by lia.
  assert (W 2%nat <= 8) as H2 by (vm_compute; discriminate).
  split; [exact (conj H0 (conj H1 H2))|].
  destruct (optimize_lowers_servers (1 # 2) (3 # 10) 8 2 0 H0 H1 H2)
    as (r & Hopt & Hr & Hall & Hmin).
  assert (optimizeServersForWaitTime 0 (new_QueueingModel (1 # 2) (3 # 10) 2) 8 = Some 1%nat)
    as Hone by (vm_compute; reflexivity).
  split; [exact Hone|].
  apply Hall. rewrite Hone in Hopt. injection Hopt as <-. lia.
Defined.

Lemma optimize_raises_servers_witness :
  let W (k : nat) := waitOf (new_QueueingModel (1 # 2) (3 # 10) k) in
  ((2 < 5)%nat /\ (forall k, (2 <= k < 5)%nat -> (1 # 10) < W k) /\ W 5%nat <= 1 # 10 /\
   (5 - 2 <= 3)%nat) /\
  optimizeServersForWaitTime 3 (new_QueueingModel (1 # 2) (3 # 10) 2) (1 # 10)
  = Some 5%nat.
Proof.
  intros W.
  assert (2 < 5)%nat as H1 by lia.
  assert ((1 # 10) < W 2%nat) as Hw2 by (vm_compute; reflexivity).
  assert ((1 # 10) < W 3%nat) as Hw3 by (vm_compute; reflexivity).
  assert ((1 # 10) < W 4%nat) as Hw4 by (vm_compute; reflexivity).
  assert (forall k, (2 <= k < 5)%nat -> (1 # 10) < W k) as H2.
  { intros k Hk. destruct (decide (k = 2%nat)) as [->|]; [exact Hw2|].
    destruct (decide (k = 3%nat)) as [->|]; [exact Hw3|].
    destruct (decide (k = 4%nat)) as [->|]; [exact Hw4|]. lia. }
  assert (W 5%nat <= 1 # 10) as H3 by (vm_compute; discriminate).
  assert (5 - 2 <= 3)%nat as H4 by lia.
  split; [exact (conj H1 (conj H2 (conj H3 H4)))|].
  exact (optimize_raises_servers (1 # 2) (3 # 10) (1 # 10) 2 5 3 H1 H2 H3 H4).
Defined.

End MmcQueriesFacts.

Module QueueSimulationFacts.
Import QueueSimulation.
#[local] Open Scope Q_scope.

Section Loop.
Variable random : nat -> Q.

Lemma sim_arrive_counted arrivalProb serviceProb minute servers st :
  sim_counted servers st ->
  sim_counted servers (sim_arrive random arrivalProb serviceProb minute st).
Proof.
  intros [Hcons Hmax Hbusy Hmin]. unfold sim_arrive.
  destruct (Cafe.Qltb _ _); split; simpl; try done.
  - rewrite length_app. simpl. lia.
  - lia.
Qed.

Lemma sim_arrive_total arrivalProb serviceProb minute st :
  (sim_totalCustomers (sim_arrive random arrivalProb serviceProb minute st)
   <= S (sim_totalCustomers st))%nat.
Proof. unfold sim_arrive. destruct (Cafe.Qltb _ _); simpl; lia. Qed.

Lemma sim_arrive_timed arrivalProb serviceProb minute st :
  sim_timed minute st ->
  sim_timed minute (sim_arrive random arrivalProb serviceProb minute st).
Proof.
  intros [Harr Hwait]. unfold sim_arrive.
  destruct (Cafe.Qltb _ _); split; simpl; try done.
  apply Forall_app. split; [done|]. by apply Forall_singleton.
Qed.

Lemma sim_arrive_busyMinutes arrivalProb serviceProb minute st :
  sim_busyMinutes (sim_arrive random arrivalProb serviceProb minute st) = sim_busyMinutes st.
Proof. unfold sim_arrive. by destruct (Cafe.Qltb _ _). Qed.

End Loop.

Lemma sim_server_counted minute servers st i :
  sim_counted servers st -> sim_counted servers (sim_server minute st i).
Proof.
  intros [Hcons Hmax Hbusy Hmin]. unfold sim_server.
  destruct (sim_serverBusy st !! i) as [busy|]; [|done].
  destruct (is_busy busy), (sim_queue st) as [|customer rest] eqn:Hq;
    try destruct (is_idle _); split; simpl in *;
    rewrite ?length_insert, ?length_alter, ?Hq; simpl; try done; lia.
Qed.

Lemma sim_server_total minute st i :
  sim_totalCustomers (sim_server minute st i) = sim_totalCustomers st.
Proof.
  unfold sim_server.
  destruct (sim_serverBusy st !! i) as [busy|]; [|done].
  destruct (is_busy busy), (sim_queue st); try destruct (is_idle _); done.
Qed.

Lemma sim_server_timed minute st i :
  sim_timed minute st -> sim_timed minute (sim_server minute st i).
Proof.
  intros [Harr Hwait]. unfold sim_server.
  destruct (sim_serverBusy st !! i) as [busy|]; [|done].
  destruct (is_busy busy), (sim_queue st) as [|customer rest] eqn:Hq;
    try destruct (is_idle _); split; simpl in *; try done;
    try (by rewrite Hq).
  all: apply Forall_cons in Harr as [Hc Hrest]; try done; lia.
Qed.

Lemma sim_server_utilized minute st i :
  sim_utilized minute i st -> sim_utilized minute (S i) (sim_server minute st i).
Proof.
  intros Hu j u Hj.
  assert (sim_busyMinutes (sim_server minute st i) = sim_busyMinutes st \/
          sim_busyMinutes (sim_server minute st i) = alter S i (sim_busyMinutes st)) as Hcase.
  { unfold sim_server.
    destruct (sim_serverBusy st !! i) as [busy|]; [|by left].
    destruct (is_busy busy), (sim_queue st); try destruct (is_idle _); auto. }
  destruct (decide (j = i)) as [->|Hne].
  - assert ((i <? S i)%nat = true) as -> by (apply Nat.ltb_lt; lia).
    destruct Hcase as [Heq|Heq]; rewrite Heq in Hj.
    + specialize (Hu i u Hj). rewrite Nat.ltb_irrefl in Hu. lia.
    + rewrite list_lookup_alter_eq in Hj.
      destruct (sim_busyMinutes st !! i) as [u0|] eqn:Hi; [|by simplify_eq/=].
      specialize (Hu i u0 Hi). rewrite Nat.ltb_irrefl in Hu.
      simpl in Hj. injection Hj as <-. lia.
  - assert (sim_busyMinutes st !! j = Some u) as Hj'.
    { destruct Hcase as [Heq|Heq]; rewrite Heq in Hj; [done|].
      by rewrite list_lookup_alter_ne in Hj. }
    specialize (Hu j u Hj').
    destruct (Nat.ltb_spec j i), (Nat.ltb_spec j (S i)); lia.
Qed.


Lemma sim_servers_fold minute servers st n :
  sim_counted servers st -> sim_timed minute st -> sim_utilized minute 0 st ->
  let st' := foldl (sim_server minute) st (seq 0 n) in
  sim_counted servers st' /\ sim_timed minute st' /\ sim_utilized minute n st' /\
  sim_totalCustomers st' = sim_totalCustomers st.
Proof.
  intros Hc Ht Hu. induction n as [|n IH]; [done|].
  rewrite seq_S, foldl_app. simpl. destruct IH as (Hc' & Ht' & Hu' & Htotal).
  split; [by apply sim_server_counted|]. split; [by apply sim_server_timed|].
  split; [by apply sim_server_utilized|]. by rewrite sim_server_total.
Qed.

Lemma sim_timed_later minute st : sim_timed minute st -> sim_timed (S minute) st.
Proof.
  intros [Harr Hwait]. split.
  - eapply Forall_impl; [exact Harr|]. simpl. lia.
  - nia.
Qed.

Section Run.
Variable random : nat -> Q.
Variable Math_exp : Q -> Q.

Lemma sim_minute_ok arrivalProb serviceProb servers st minute :
  sim_ok servers minute st ->
  sim_ok servers (S minute) (sim_minute random arrivalProb serviceProb servers st minute).
Proof.
  intros [Hc Htotal Ht Hu _]. unfold sim_minute.
  set (st1 := sim_arrive random arrivalProb serviceProb minute st).
  assert (sim_utilized minute 0 st1) as Hu1.
  { intros i u. unfold st1. rewrite sim_arrive_busyMinutes. apply Hu. }
  destruct (sim_servers_fold minute servers st1 servers
              (sim_arrive_counted random _ _ _ _ _ Hc)
              (sim_arrive_timed random _ _ _ _ Ht) Hu1)
    as ([Hcons Hmax Hbusy Hmin] & Ht2 & Hu2 & Htotal2).
  set (st2 := foldl (sim_server minute) st1 (seq 0 servers)) in *.
  pose proof (sim_arrive_total random arrivalProb serviceProb minute st) as Htotal1.
  fold st1 in Htotal1.
  split.
  - split; simpl; try done. destruct (Nat.ltb_spec (sim_maxQueueLength st2)
                                        (length (sim_queue st2))); lia.
  - simpl. lia.
  - apply sim_timed_later. destruct Ht2. by split.
  - intros i u Hi. simpl in Hi. specialize (Hu2 i u Hi).
    assert (i < servers)%nat as Hlt.
    { rewrite <-Hmin. by eapply lookup_lt_Some. }
    apply Nat.ltb_lt in Hlt. rewrite Hlt in Hu2. done.
  - simpl. destruct (Nat.ltb_spec (sim_maxQueueLength st2) (length (sim_queue st2))); lia.
Qed.

Lemma sim_start_ok servers : sim_ok servers 0 (sim_start servers).
Proof.
  split.
  - split; simpl; rewrite ?length_replicate; done.
  - done.
  - split; simpl; [done|lia].
  - intros i u [-> _]%lookup_replicate. simpl. lia.
  - done.
Qed.

Lemma sim_run_S duration arrivalRate serviceRate servers :
  sim_run random Math_exp (S duration) arrivalRate serviceRate servers =
  sim_minute random (1 - Math_exp (- arrivalRate / 60)) (1 - Math_exp (- serviceRate / 60))
             servers (sim_run random Math_exp duration arrivalRate serviceRate servers)
             duration.
Proof. unfold sim_run. by rewrite seq_S, foldl_app. Qed.

Lemma sim_run_ok duration arrivalRate serviceRate servers :
  sim_ok servers duration (sim_run random Math_exp duration arrivalRate serviceRate servers).
Proof.
  induction duration as [|d IH]; [apply sim_start_ok|].
  rewrite sim_run_S. by apply sim_minute_ok.
Qed.

End Run.


(** Nobody is served who has not arrived, at most one customer arrives
    per minute, and the customers not served at the end are still queued:
    their number does not exceed the longest queue seen. *)
Theorem simulateQueue_counts random Math_exp duration arrivalRate serviceRate servers :
  let r := simulateQueue random Math_exp duration arrivalRate serviceRate servers in
  let waiting := sim_queue (sim_run random Math_exp duration arrivalRate serviceRate servers) in
  (servedCustomers r + length waiting = totalCustomers r)%nat /\
  (totalCustomers r <= duration)%nat /\
  (length waiting <= maxQueueLength r <= totalCustomers r)%nat.
Proof.
  destruct (sim_run_ok random Math_exp duration arrivalRate serviceRate servers)
    as [[Hcons Hmax _ _] Htotal _ _ Hmeasured].
  simpl. lia.
Qed.

(** Every server's utilization is a fraction of the simulated time. *)
Theorem simulateQueue_utilization random Math_exp duration arrivalRate serviceRate servers :
  (0 < duration)%nat ->
  let r := simulateQueue random Math_exp duration arrivalRate serviceRate servers in
  length (serverUtilization r) = servers /\
  Forall (fun u => 0 <= u /\ u <= 1) (serverUtilization r).
Proof.
  intros Hd.
  destruct (sim_run_ok random Math_exp duration arrivalRate serviceRate servers)
    as [[_ _ _ Hlen] _ _ Hu _].
  simpl. split; [by rewrite length_fmap|].
  apply Forall_fmap, Forall_lookup. intros i u Hi. specialize (Hu i u Hi). simpl in *.
  assert (0 < inject_Z (Z.of_nat duration)) as Hpos.
  { change 0 with (inject_Z 0). rewrite <-Zlt_Qlt. lia. }
  split.
  - apply Qle_shift_div_l; [done|]. rewrite Qmult_0_l.
    change 0 with (inject_Z 0). rewrite <-Zle_Qle. lia.
  - apply Qle_shift_div_r; [done|]. rewrite Qmult_1_l, <-Zle_Qle. lia.
Qed.

(** The average wait is not negative and not longer than the simulation. *)
Theorem simulateQueue_averageWaitTime random Math_exp duration arrivalRate serviceRate
    servers :
  let r := simulateQueue random Math_exp duration arrivalRate serviceRate servers in
  0 <= averageWaitTime r /\ averageWaitTime r <= inject_Z (Z.of_nat duration).
Proof.
  destruct (sim_run_ok random Math_exp duration arrivalRate serviceRate servers)
    as [_ _ [_ Hwait] _ _].
  simpl.
  set (st := sim_run random Math_exp duration arrivalRate serviceRate servers) in *.
  assert (0 <= inject_Z (Z.of_nat duration)) as Hd.
  { change 0 with (inject_Z 0). rewrite <-Zle_Qle. lia. }
  destruct (Nat.ltb_spec 0 (sim_servedCustomers st)) as [Hserved|Hnone].
  - assert (0 < inject_Z (Z.of_nat (sim_servedCustomers st))) as Hpos.
    { change 0 with (inject_Z 0). rewrite <-Zlt_Qlt. lia. }
    split.
    + apply Qle_shift_div_l; [done|]. rewrite Qmult_0_l.
      change 0 with (inject_Z 0). rewrite <-Zle_Qle. lia.
    + apply Qle_shift_div_r; [done|]. rewrite <-inject_Z_mult, <-Zle_Qle. lia.
  - done.
Qed.

Lemma sim_run_no_servers random Math_exp duration arrivalRate serviceRate :
  let st := sim_run random Math_exp duration arrivalRate serviceRate 0 in
  sim_servedCustomers st = 0%nat /\ sim_totalWaitTime st = 0%Z /\
  sim_maxQueueLength st = length (sim_queue st) /\ sim_busyMinutes st = [].
Proof.
  induction duration as [|d IH]; [done|].
  rewrite sim_run_S. destruct IH as (Hserved & Hwait & Hmax & Hmin).
  unfold sim_minute. simpl. unfold sim_arrive.
  destruct (Cafe.Qltb _ _); simpl; rewrite ?length_app, Hmax; simpl.
  - destruct (Nat.ltb_spec (length (sim_queue (sim_run random Math_exp d arrivalRate serviceRate 0)))
                (length (sim_queue (sim_run random Math_exp d arrivalRate serviceRate 0)) + 1));
      [done|lia].
  - by rewrite Nat.ltb_irrefl.
Qed.

(** Without servers nobody is served: every customer that arrives stays in
    the queue, which is at its longest at the end. *)
Theorem simulateQueue_no_servers random Math_exp duration arrivalRate serviceRate :
  let r := simulateQueue random Math_exp duration arrivalRate serviceRate 0 in
  servedCustomers r = 0%nat /\ averageWaitTime r = 0 /\
  maxQueueLength r = totalCustomers r /\ serverUtilization r = [].
Proof.
  destruct (sim_run_no_servers random Math_exp duration arrivalRate serviceRate)
    as (Hserved & Hwait & Hmax & Hmin).
  destruct (sim_run_ok random Math_exp duration arrivalRate serviceRate 0)
    as [[Hcons _ _ _] _ _ _ _].
  simpl. rewrite Hserved, Hmin, Hmax. simpl. split; [done|]. split; [done|].
  split; [lia|done].
Qed.

Lemma simulateQueue_utilization_witness :
  let r := simulateQueue (fun k => inject_Z (Z.of_nat ((k * 7) mod 10)) / 10)
                         (fun x => 1 / (1 - x)) 12 20 10 2 in
  (0 < 12)%nat /\
  length (serverUtilization r) = 2%nat /\
  Forall (fun u => 0 <= u /\ u <= 1) (serverUtilization r).
Proof.
  assert (0 < 12)%nat as H by lia.
  split; [exact H|].
  exact (simulateQueue_utilization _ _ 12 20 10 2 H).
Defined.

End QueueSimulationFacts.

Module CafeInvariantsFacts.
Import Cafe CafeFacts CafeInvariants.
#[local] Open Scope Q_scope.

Section Books.
Variable random : nat -> Q.

Lemma books_ok_view m0 s s' : books_view s' = books_view s -> books_ok m0 s -> books_ok m0 s'.
Proof. unfold books_view. intros [= Hm Hr He _] [Hbal Hrep]. split; by rewrite ?Hm, ?Hr, ?He. Qed.

Lemma handlePayment_books cid a t s c :
  customerObjs s !! cid = Some c ->
  books_view (handlePayment cid a t s) =
  (money s + (a + t),
   Qmax 0 (Qmin 100 (reputation s + inject_Z (Qfloor ((satisfaction c - 50) / 10)))),
   dailyEarnings s + (a + t), S (dailyCustomers s)).
Proof. intros Hc. unfold handlePayment. rewrite Hc. by destruct (table c). Qed.

Lemma handleCustomerLeave_books cid reason s :
  books_view (handleCustomerLeave cid reason s) =
  (money s,
   match customerObjs s !! cid, reason with
   | Some _, waited_too_long => Qmax 0 (reputation s - 2)
   | Some _, no_available_tables => Qmax 0 (reputation s - 1)
   | _, _ => reputation s
   end,
   dailyEarnings s, dailyCustomers s).
Proof.
  unfold handleCustomerLeave. destruct (customerObjs s !! cid) as [c|]; [|done].
  by destruct reason, (table c).
Qed.

Lemma Qmax_0_le x : x <= 100 -> 0 <= Qmax 0 x /\ Qmax 0 x <= 100.
Proof.
  intros Hx. split; [apply Q.le_max_l|]. apply Q.max_lub; [done|exact Hx].
Qed.

Lemma handleCustomerLeave_books_ok m0 cid reason s :
  books_ok m0 s -> books_ok m0 (handleCustomerLeave cid reason s).
Proof.
  intros [Hbal [Hr0 Hr1]].
  pose proof (handleCustomerLeave_books cid reason s) as Hv.
  unfold books_view in Hv. injection Hv as Hm Hr He _.
  split; rewrite ?Hm, ?Hr, ?He; [done|].
  destruct (customerObjs s !! cid), reason; try done; apply Qmax_0_le; lra.
Qed.

Lemma handlePayment_books_ok m0 cid a t s :
  books_ok m0 s -> books_ok m0 (handlePayment cid a t s).
Proof.
  intros [Hbal Hrep].
  destruct (customerObjs s !! cid) as [c|] eqn:Hc;
    [|by unfold handlePayment; rewrite Hc].
  pose proof (handlePayment_books cid a t s c Hc) as Hv.
  unfold books_view in Hv. injection Hv as Hm Hr He _.
  split; rewrite ?Hm, ?Hr, ?He.
  - rewrite Hbal. ring.
  - apply Qmax_0_le, Q.le_min_l.
Qed.

Lemma store_customer_books cid c s : books_view (store_customer cid c s) = books_view s.
Proof. done. Qed.

Lemma update_customer_at_books_ok m0 dt i s :
  books_ok m0 s -> books_ok m0 (update_customer_at random dt i s).
Proof.
  intros Hs. unfold update_customer_at.
  destruct (customers s !! i) as [cid|]; [|done].
  destruct (customerObjs s !! cid) as [c|]; [|done].
  destruct (Customer_update _ _ _ _ c) as [c' [[reason|amount tip]|]]; cbv zeta.
  - set (s1 := store_customer cid c' s).
    apply (books_ok_view m0 (handleCustomerLeave cid reason s1)); [done|].
    apply handleCustomerLeave_books_ok. by apply (books_ok_view m0 s).
  - set (s1 := set_draws (S (draws s)) (store_customer cid c' s)).
    apply (books_ok_view m0 (handleCustomerLeave cid paid (handlePayment cid amount tip s1)));
      [done|].
    apply handleCustomerLeave_books_ok, handlePayment_books_ok.
    by apply (books_ok_view m0 s).
  - by apply (books_ok_view m0 s).
Qed.

Lemma update_customers_books_ok m0 dt n s :
  books_ok m0 s -> books_ok m0 (update_customers random dt n s).
Proof.
  revert s. induction n as [|n IH]; intros s Hs; simpl; [done|].
  by apply IH, update_customer_at_books_ok.
Qed.

Lemma serveOrder_books oid s : books_view (serveOrder oid s) = books_view s.
Proof. unfold serveOrder. repeat case_match; done. Qed.

Lemma startOrder_books s oid : books_view (startOrder s oid) = books_view s.
Proof. unfold startOrder. by case_match. Qed.

Lemma checkOrder_books s oid : books_view (checkOrder s oid) = books_view s.
Proof. unfold checkOrder. repeat case_match; try done. by rewrite serveOrder_books. Qed.

Lemma foldl_books (f : CafeSystem -> nat -> CafeSystem) l s :
  (forall s x, books_view (f s x) = books_view s) -> books_view (foldl f s l) = books_view s.
Proof.
  intros Hf. revert s. induction l as [|a l IH]; intros s; simpl; [done|].
  by rewrite IH, Hf.
Qed.

Lemma processOrders_books dt s : books_view (processOrders dt s) = books_view s.
Proof.
  unfold processOrders. rewrite foldl_books by apply checkOrder_books.
  rewrite promoteOrders_eq. apply foldl_books, startOrder_books.
Qed.

Lemma seatCustomer_books cid t s : books_view (seatCustomer random cid t s).1 = books_view s.
Proof. rewrite seatCustomer_placed. unfold seatCustomer_placing. repeat case_match; done. Qed.

Lemma processQueue_books s : books_view (processQueue random s) = books_view s.
Proof.
  unfold processQueue. generalize (filter (customer_in_state s waiting) (queue s)).
  intros ws. revert s. induction ws as [|cid ws IH]; intros s; simpl; [done|].
  destruct (findAvailableTable s) as [t|]; [|done].
  rewrite IH. exact (seatCustomer_books cid t s).
Qed.

Lemma spawnCustomer_books s : books_view (spawnCustomer random s) = books_view s.
Proof. done. Qed.

Lemma update_books_ok m0 dt s : books_ok m0 s -> books_ok m0 (update random dt s).
Proof.
  intros Hs. unfold update.
  set (s1 := processQueue random _).
  assert (books_ok m0 s1) as Hs1.
  { apply (books_ok_view m0 (update_customers random dt (length (customers s)) s)).
    - unfold s1. by rewrite processQueue_books, processOrders_books.
    - by apply update_customers_books_ok. }
  case_match; by apply (books_ok_view m0 s1).
Qed.

Lemma step_books_ok m0 s e : books_ok m0 s -> books_ok m0 (step random s e).
Proof.
  intros Hs. destruct e as [g dt| |ms|k]; simpl.
  - apply update_books_ok. by apply (books_ok_view m0 s).
  - by apply (books_ok_view m0 s).
  - by apply (books_ok_view m0 s).
  - eapply books_ok_view; [|exact Hs]. unfold run_timeout. repeat case_match; done.
Qed.

Lemma run_books_ok m0 s events : books_ok m0 s -> books_ok m0 (run random s events).
Proof.
  revert s. induction events as [|e events IH]; intros s Hs; simpl; [done|].
  by apply IH, step_books_ok.
Qed.

End Books.

(** Along every run of the cafe the reputation stays a percentage:
    [handlePayment] clamps it to [0, 100] and [handleCustomerLeave] takes
    its penalty off without going below 0. *)
Theorem cafe_reputation_stays_a_percentage random g m r clk events :
  0 <= r -> r <= 100 ->
  let s := run random (new_CafeSystem g m r clk) events in
  0 <= reputation s /\ reputation s <= 100.
Proof.
  intros Hr0 Hr1 s.
  assert (books_ok m s) as [_ Hrep].
  { apply run_books_ok. split; simpl; [ring|done]. }
  done.
Qed.

Lemma cafe_reputation_stays_a_percentage_witness :
  let s := run steady opening
             [Spawn; Frame 361 1; Frame 362 1; Frame 482 1; Frame 1083 1; Frame 1144 1] in
  (0 <= 50 /\ 50 <= 100) /\ 0 <= reputation s /\ reputation s <= 100.
Proof.
  assert (0 <= 50) as H0 by discriminate.
  assert (50 <= 100) as H1 by discriminate.
  split; [exact (conj H0 H1)|].
  exact (cafe_reputation_stays_a_percentage steady 360 1000 50 0 _ H0 H1).
Defined.

(** In every state a new cafe can reach, every active customer is a
    distinct live object, a customer that holds a table is the customer of
    exactly that table, a table that is not occupied holds nobody, and
    every pending cleaning callback belongs to a different table that is
    being cleaned. *)
Theorem cafe_tables_consistent random g m r clk events :
  tables_ok (run random (new_CafeSystem g m r clk) events).
Proof. apply run_tables_ok, new_CafeSystem_tables_ok. Qed.

(** In every state a new cafe can reach, the queue holds no customer twice
    and only active customers that are waiting, without a table and without
    an order. *)
Theorem cafe_queue_consistent random g m r clk events :
  queue_ok (run random (new_CafeSystem g m r clk) events).
Proof. apply run_queue_ok, new_CafeSystem_queue_ok. Qed.

(** ** Cleaning always ends *)

Section Cleaning.
Variable random : nat -> Q.

Lemma cleaning_scheduled_same s s' :
  tables s' = tables s -> timeouts s' = timeouts s -> (clock s <= clock s')%Z ->
  cleaning_scheduled s -> cleaning_scheduled s'.
Proof.
  intros Htab Htime Hclock Hs t. unfold status_at. rewrite Htab, Htime.
  intros (due & Hin & Hdue)%Hs. exists due. split; [done|lia].
Qed.

(** A table that gets another status than cleaning takes no callback
    away. *)
Lemma cleaning_scheduled_alter s s' f t :
  tables s' = alter f t (tables s) ->
  (forall tb, table_status (f tb) <> t_cleaning) ->
  timeouts s' = timeouts s -> clock s' = clock s ->
  cleaning_scheduled s -> cleaning_scheduled s'.
Proof.
  intros Htab Hf Htime Hclock Hs t'. unfold status_at. rewrite Htab, Htime, Hclock.
  destruct (decide (t' = t)) as [->|Hne].
  - rewrite list_lookup_alter_eq. destruct (tables s !! t) as [tb|]; [|done].
    simpl. intros [= Hst]. by destruct (Hf tb).
  - rewrite list_lookup_alter_ne by done. apply Hs.
Qed.

Lemma update_customer_at_cleaning dt i s :
  cleaning_scheduled s -> cleaning_scheduled (update_customer_at random dt i s).
Proof.
  intros Hs.
  pose proof (env_clock _ _ (update_customer_at_env random dt i s)) as Hclock.
  destruct (customers s !! i) as [cid|] eqn:Hi;
    [|by unfold update_customer_at; rewrite Hi].
  destruct (customerObjs s !! cid) as [c|] eqn:Hc;
    [|by unfold update_customer_at; rewrite Hi, Hc].
  pose proof (update_customer_at_spec random dt i s cid c Hi Hc) as Hspec.
  simpl in Hspec.
  destruct (Customer_update _ _ _ _ c) as [c' [ev|]]; simpl in Hspec.
  - destruct Hspec as (_ & _ & Htab & Htime & _).
    destruct (table c) as [t|].
    + by apply (cleaning_scheduled_alter s _ freed t).
    + apply (cleaning_scheduled_same s); [done..|lia|done].
  - rewrite Hspec. by apply (cleaning_scheduled_same s).
Qed.

Lemma update_customers_cleaning dt n s :
  cleaning_scheduled s -> cleaning_scheduled (update_customers random dt n s).
Proof.
  revert s. induction n as [|n IH]; intros s Hs; simpl; [done|].
  by apply IH, update_customer_at_cleaning.
Qed.

Lemma processOrders_cleaning dt s :
  cleaning_scheduled s -> cleaning_scheduled (processOrders dt s).
Proof.
  destruct (processOrders_tables dt s) as [Htab Htime].
  pose proof (env_clock _ _ (processOrders_env dt s)) as Hclock.
  apply cleaning_scheduled_same; [done..|lia].
Qed.

Lemma seatCustomer_cleaning cid t s :
  cleaning_scheduled s -> cleaning_scheduled (seatCustomer random cid t s).1.
Proof.
  intros Hs.
  pose proof (env_clock _ _ (seatCustomer_env random cid t s)) as Hclock.
  revert Hclock. rewrite seatCustomer_placed. unfold seatCustomer_placing.
  destruct (customerObjs s !! cid) as [c|]; [|done].
  destruct (tables s !! t) as [tb|] eqn:Ht; [|done].
  destruct (decide (table_status tb = t_dirty)) as [Hdirty|Hclean].
  - simpl. intros _ t'. unfold status_at. simpl.
    destruct (decide (t' = t)) as [->|Hne].
    + intros _. exists (clock s + 3000)%Z. split; [|lia].
      apply elem_of_app. right. by apply list_elem_of_singleton.
    + rewrite list_lookup_alter_ne by done.
      intros (due & Hin & Hdue)%Hs. exists due. split; [|done].
      apply elem_of_app. by left.
  - cbv zeta. intros Hclock.
    apply (cleaning_scheduled_alter s _ (occupied_by cid) t); try done;
      by destruct (generateOrder _ _ _ _ _).
Qed.

Lemma seat_waiting_cleaning ws s :
  cleaning_scheduled s -> cleaning_scheduled (seat_waiting random ws s).
Proof.
  revert s. induction ws as [|cid ws IH]; intros s Hs; simpl; [done|].
  destruct (findAvailableTable s) as [t|]; [|done].
  apply IH. apply (cleaning_scheduled_same (seatCustomer random cid t s).1); [done..|simpl; lia|].
  by apply seatCustomer_cleaning.
Qed.

Lemma update_cleaning dt s : cleaning_scheduled s -> cleaning_scheduled (update random dt s).
Proof.
  intros Hs. unfold update.
  set (s1 := processQueue random _).
  assert (cleaning_scheduled s1) as Hs1.
  { apply seat_waiting_cleaning, processOrders_cleaning, update_customers_cleaning, Hs. }
  case_match; apply (cleaning_scheduled_same s1); try done; simpl; lia.
Qed.

Lemma run_timeout_cleaning k s :
  cleaning_scheduled s -> cleaning_scheduled (run_timeout k s).
Proof.
  intros Hs. unfold run_timeout.
  destruct (timeouts s !! k) as [[due t]|] eqn:Hk; [|done].
  destruct (bool_decide (due <= clock s)%Z); [|done].
  intros t'. unfold status_at. simpl.
  destruct (decide (t' = t)) as [->|Hne].
  - rewrite list_lookup_alter_eq. by destruct (tables s !! t).
  - rewrite list_lookup_alter_ne by done.
    intros (due' & Hin & Hdue)%Hs. exists due'. split; [|done].
    apply list_elem_of_lookup in Hin as [j Hj].
    assert (j <> k) as Hjk by (intros ->; congruence).
    apply list_elem_of_lookup.
    destruct (decide (j < k)%nat).
    + exists j. by rewrite list_lookup_delete_lt.
    + exists (j - 1)%nat. rewrite list_lookup_delete_ge by lia.
      by replace (S (j - 1)) with j by lia.
Qed.

Lemma step_cleaning s e : cleaning_scheduled s -> cleaning_scheduled (step random s e).
Proof.
  intros Hs. destruct e as [g dt| |ms|k]; simpl.
  - apply update_cleaning. by apply (cleaning_scheduled_same s).
  - by apply (cleaning_scheduled_same s).
  - apply (cleaning_scheduled_same s); [done..|simpl; lia|done].
  - by apply run_timeout_cleaning.
Qed.

Lemma run_cleaning s events :
  cleaning_scheduled s -> cleaning_scheduled (run random s events).
Proof.
  revert s. induction events as [|e events IH]; intros s Hs; simpl; [done|].
  by apply IH, step_cleaning.
Qed.

End Cleaning.

(** A table that is being cleaned is never stuck: a callback for it is
    pending, it is due once 3000 ms have passed, and running it makes the
    table empty. *)
Theorem cleaning_always_ends random g m r clk events t :
  let s := run random (new_CafeSystem g m r clk) events in
  status_at s t = Some t_cleaning ->
  exists k due,
    timeouts s !! k = Some (due, t) /\ (due <= clock s + 3000)%Z /\
    status_at (run random s [Elapse 3000; Timeout k]) t = Some t_empty.
Proof.
  intros s Hclean.
  assert (cleaning_scheduled s) as Hs.
  { apply run_cleaning. intros t' Ht'. unfold status_at in Ht'. simpl in Ht'.
    apply fmap_Some in Ht' as (tb & Htb & Hst).
    apply list_lookup_fmap_Some in Htb as (i & -> & _). done. }
  destruct (Hs t Hclean) as (due & Hin & Hdue).
  apply list_elem_of_lookup in Hin as [k Hk].
  exists k, due. split; [done|]. split; [done|].
  simpl. unfold run_timeout. simpl. rewrite Hk.
  rewrite bool_decide_true by lia.
  unfold status_at in *. simpl. rewrite list_lookup_alter_eq.
  by destruct (tables s !! t).
Qed.

Lemma cleaning_always_ends_witness :
  let events := [Spawn; Frame 361 1; Frame 362 1; Frame 482 1; Frame 1083 1; Frame 1144 1;
                 Spawn; Frame 1145 1] in
  let s := run steady opening events in
  status_at s 0 = Some t_cleaning /\
  exists k due,
    timeouts s !! k = Some (due, 0%nat) /\ (due <= clock s + 3000)%Z /\
    status_at (run steady s [Elapse 3000; Timeout k]) 0 = Some t_empty.
Proof.
  intros events s.
  assert (status_at s 0 = Some t_cleaning) as H by (vm_compute; reflexivity).
  split; [exact H|].
  exact (cleaning_always_ends steady 360 1000 50 0 events 0%nat H).
Defined.

(** ** Orders as customers generate them *)

Lemma random_index (r : Q) (n : nat) :
  0 <= r -> r < 1 -> (0 < n)%nat ->
  (Z.to_nat (Qfloor (r * inject_Z (Z.of_nat n))) < n)%nat.
Proof.
  intros Hr0 Hr1 Hn.
  assert (0 < inject_Z (Z.of_nat n)) as Hpos.
  { change 0 with (inject_Z 0). rewrite <-Zlt_Qlt. lia. }
  assert (0 <= Qfloor (r * inject_Z (Z.of_nat n)))%Z as Hlo.
  { change 0%Z with (Qfloor 0). apply Qfloor_resp_le.
    apply Qmult_le_0_compat; [done|by apply Qlt_le_weak]. }
  assert (Qfloor (r * inject_Z (Z.of_nat n)) < Z.of_nat n)%Z as Hhi.
  { rewrite Zlt_Qlt. eapply Qle_lt_trans; [apply Qfloor_le|].
    rewrite <-(Qmult_1_l (inject_Z (Z.of_nat n))) at 2.
    by apply Qmult_lt_compat_r. }
  lia.
Qed.

Lemma random_element_in {A} (d : A) (l : list A) (r : Q) :
  0 <= r -> r < 1 -> l <> [] -> random_element d l r ∈ l.
Proof.
  intros Hr0 Hr1 Hl. unfold random_element.
  apply list_elem_of_In, nth_In, random_index; try done.
  destruct l; [done|simpl; lia].
Qed.

(** From a menu that is not empty, [generateOrder] always builds an order:
    one to three units of an item of the menu, priced and timed as the menu
    says.  The item is one the customer prefers whenever the menu has
    any. *)
Theorem generateOrder_spec availableItems r1 r2 r3 c :
  0 <= r1 -> r1 < 1 -> 0 <= r2 -> r2 < 1 -> availableItems <> [] ->
  exists o,
    generateOrder availableItems r1 r2 r3 c = Some o /\
    item o ∈ availableItems /\
    (1 <= quantity o <= 3)%Z /\
    totalPrice o = menu_price (MENU_ITEMS (item o)) * inject_Z (quantity o) /\
    prepTime o = menu_prepTime (MENU_ITEMS (item o)) /\
    status o = pending /\
    ((exists i, i ∈ orderPreferences c /\ i ∈ availableItems) ->
     item o ∈ orderPreferences c).
Proof.
  intros Hr1 Hr1' Hr2 Hr2' Havail. unfold generateOrder.
  set (preferredItems := filter _ (orderPreferences c)).
  set (itemsToChooseFrom := match preferredItems with [] => availableItems | _ => preferredItems end).
  assert (itemsToChooseFrom <> []) as Hne.
  { unfold itemsToChooseFrom. by destruct preferredItems. }
  destruct itemsToChooseFrom as [|first rest] eqn:Hitems; [done|].
  rewrite <-Hitems.
  pose proof (random_element_in first itemsToChooseFrom r1 Hr1 Hr1' ltac:(by rewrite Hitems))
    as Hin.
  eexists. split; [reflexivity|]. cbn [item quantity totalPrice prepTime status].
  assert (0 <= Qfloor (r2 * 3) <= 2)%Z as Hq.
  { split.
    - change 0%Z with (Qfloor 0). apply Qfloor_resp_le. lra.
    - assert (Qfloor (r2 * 3) < 3)%Z; [|lia].
      rewrite Zlt_Qlt. eapply Qle_lt_trans; [apply Qfloor_le|].
      change (inject_Z 3) with 3. lra. }
  repeat split; try lia.
  - revert Hin. unfold itemsToChooseFrom.
    destruct preferredItems eqn:Hpref; [done|]. rewrite <-Hpref.
    unfold preferredItems. by intros [[Hin _] _]%list_elem_of_filter.
  - intros (i & Hi & Hi'). revert Hin. unfold itemsToChooseFrom.
    destruct preferredItems eqn:Hpref.
    + assert (i ∈ preferredItems) as Hip.
      { apply list_elem_of_filter. split; [|done]. split; [done|]. by right. }
      rewrite Hpref in Hip. by apply elem_of_nil in Hip.
    + rewrite <-Hpref. unfold preferredItems. by intros [_ ?]%list_elem_of_filter.
Qed.

Lemma generateOrder_spec_witness :
  let c := new_Customer tourist 360 (1 # 2) (1 # 2) (1 # 2) (1 # 2) in
  (0 <= 1 # 2 /\ (1 # 2) < 1 /\ MENU_KEYS <> []) /\
  exists o,
    generateOrder MENU_KEYS (1 # 2) (1 # 2) (1 # 2) c = Some o /\
    item o ∈ MENU_KEYS /\ (1 <= quantity o <= 3)%Z /\
    item o ∈ orderPreferences c.
Proof.
  intros c.
  assert (0 <= 1 # 2) as H0 by discriminate.
  assert ((1 # 2) < 1) as H1 by reflexivity.
  assert (MENU_KEYS <> []) as Hmenu by discriminate.
  split; [exact (conj H0 (conj H1 Hmenu))|].
  destruct (generateOrder_spec MENU_KEYS (1 # 2) (1 # 2) (1 # 2) c H0 H1 H0 H1 Hmenu)
    as (o & Ho & Hitem & Hq & _ & _ & _ & Hpref).
  exists o. split; [exact Ho|]. split; [exact Hitem|]. split; [exact Hq|].
  apply Hpref. exists cake. split; [left|].
  unfold MENU_KEYS. do 9 right. left.
Defined.

End CafeInvariantsFacts.

Module ManagementFacts.
Import Management String.StringSyntax.
#[local] Open Scope Q_scope.
#[local] Open Scope string_scope.

(** ** What a purchase does, item by item *)

Lemma purchase_coffee_machine s :
  purchase "coffee-machine" s =
  updateUI (if Qle_bool 500 (money s)
            then set_coffeeMachine machine_basic
                   (set_reputation (reputation s + 10) (set_money (money s - 500) s))
            else s).
Proof. reflexivity. Qed.

Lemma purchase_pro_coffee_machine s :
  purchase "pro-coffee-machine" s =
  updateUI (if Qle_bool 1200 (money s)
            then set_coffeeMachine machine_pro
                   (set_reputation (reputation s + 25) (set_money (money s - 1200) s))
            else s).
Proof. reflexivity. Qed.

Lemma purchase_pastry_display s :
  purchase "pastry-display" s =
  updateUI (if Qle_bool 300 (money s)
            then set_hasPastryDisplay true
                   (set_reputation (reputation s + 5) (set_money (money s - 300) s))
            else s).
Proof. reflexivity. Qed.

Lemma purchase_desk s :
  purchase "desk" s =
  updateUI (if Qle_bool 150 (money s)
            then set_coworkingDesks (S (coworkingDesks s)) (set_money (money s - 150) s)
            else s).
Proof. reflexivity. Qed.

Lemma purchase_premium_chair s :
  purchase "premium-chair" s =
  updateUI (if Qle_bool 250 (money s)
            then set_premiumChairs (S (premiumChairs s))
                   (set_reputation (reputation s + 5) (set_money (money s - 250) s))
            else s).
Proof. reflexivity. Qed.

Lemma purchase_barista s :
  purchase "barista" s =
  updateUI (if Qle_bool 100 (money s)
            then set_hasBarista true (set_reputation (reputation s + 10) s)
            else s).
Proof. reflexivity. Qed.

Lemma purchase_unknown itemId s :
  equipmentData itemId = None -> staffData itemId = None -> purchase itemId s = updateUI s.
Proof. intros He Hs. unfold purchase. by rewrite He, Hs. Qed.

Lemma item_cases itemId :
  List.In itemId ["coffee-machine"; "pro-coffee-machine"; "pastry-display"; "desk";
                  "premium-chair"; "barista"] \/
  (equipmentData itemId = None /\ staffData itemId = None).
Proof.
  unfold equipmentData, staffData.
  destruct (String.eqb_spec itemId "coffee-machine"); [left; subst; simpl; tauto|].
  destruct (String.eqb_spec itemId "pro-coffee-machine"); [left; subst; simpl; tauto|].
  destruct (String.eqb_spec itemId "pastry-display"); [left; subst; simpl; tauto|].
  destruct (String.eqb_spec itemId "desk"); [left; subst; simpl; tauto|].
  destruct (String.eqb_spec itemId "premium-chair"); [left; subst; simpl; tauto|].
  destruct (String.eqb_spec itemId "barista"); [left; subst; simpl; tauto|].
  by right.
Qed.


Lemma updateUI_fields s :
  let s' := updateUI s in
  money s' = money s /\ reputation s' = reputation s /\ day s' = day s /\
  customersServed s' = customersServed s /\ coffeeMachine s' = coffeeMachine s /\
  hasPastryDisplay s' = hasPastryDisplay s /\ coworkingDesks s' = coworkingDesks s /\
  premiumChairs s' = premiumChairs s /\ hasBarista s' = hasBarista s /\
  deskCapacity s' = deskCapacity s /\ baseRent s' = baseRent s /\
  isPaused s' = isPaused s /\ alerts s' = alerts s /\ isPanelOpen s' = isPanelOpen s.
Proof. unfold updateUI. by destruct (isPanelOpen s) eqn:H. Qed.

Lemma purchased_refl s : purchased s s.
Proof. unfold purchased. repeat split; auto. apply Qle_refl. Qed.

Ltac settle_purchase :=
  match goal with
  | |- purchased ?s (if Qle_bool ?c (money ?s) then _ else _) =>
      let H := fresh "Hcost" in
      destruct (Qle_bool c (money s)) eqn:H; [|apply purchased_refl];
      apply Qle_bool_iff in H; unfold purchased; simpl;
      repeat split; try done; try lra; try (left; reflexivity); try (right; lra)
  end.

Lemma purchase_purchased itemId s :
  exists s1, purchase itemId s = updateUI s1 /\ purchased s s1.
Proof.
  destruct (item_cases itemId) as [Hin|[He Hs]].
  - simpl in Hin.
    destruct Hin as [<-|[<-|[<-|[<-|[<-|[<-|[]]]]]]].
    + rewrite purchase_coffee_machine. eexists. split; [reflexivity|]. settle_purchase.
    + rewrite purchase_pro_coffee_machine. eexists. split; [reflexivity|]. settle_purchase.
    + rewrite purchase_pastry_display. eexists. split; [reflexivity|]. settle_purchase.
    + rewrite purchase_desk. eexists. split; [reflexivity|]. settle_purchase.
    + rewrite purchase_premium_chair. eexists. split; [reflexivity|]. settle_purchase.
    + rewrite purchase_barista. eexists. split; [reflexivity|]. settle_purchase.
  - exists s. split; [by apply purchase_unknown|apply purchased_refl].
Qed.


(** A purchase never overdraws the account, never lowers the reputation,
    and touches neither the calendar nor the rent; an item that is none of
    the six for sale changes nothing: all the call does then is refresh
    the buttons. *)
Theorem purchase_never_overdraws itemId s :
  purchased s (purchase itemId s) /\
  (List.In itemId ["coffee-machine"; "pro-coffee-machine"; "pastry-display"; "desk";
                   "premium-chair"; "barista"] \/
   purchase itemId s = updateUI s).
Proof.
  split.
  - destruct (purchase_purchased itemId s) as (s1 & -> & Hp).
    destruct (updateUI_fields s1)
      as (Hm & Hr & Hd & Hc & _ & _ & _ & _ & _ & Hcap & Hrent & Hpause & Hal & Hopen).
    unfold purchased in *. by rewrite Hm, Hr, Hd, Hc, Hcap, Hrent, Hpause, Hal, Hopen.
  - destruct (item_cases itemId) as [Hsix|[He Hs]]; [by left|].
    right. by apply purchase_unknown.
Qed.

Lemma enabled_equipment (owned : bool) (s : ManagementSystem) price :
  owned || Cafe.Qltb (money s) price = false ->
  owned = false /\ Qle_bool price (money s) = true /\ price <= money s.
Proof.
  intros [-> Hmoney]%orb_false_elim. apply CafeFacts.Qltb_ge in Hmoney.
  split; [done|]. split; [by apply Qle_bool_iff|done].
Qed.

(** A click on a purchase button that [updateUI] has left enabled buys the
    item: the money never goes below zero, the furniture still fits, and
    the coffee machine is never replaced by a lesser one. *)
Ltac through_updateUI :=
  unfold furnished;
  match goal with
  | |- context [updateUI ?x] =>
      let Hm := fresh in let Hcm := fresh in let Hcd := fresh in
      let Hpc := fresh in let Hb := fresh in let Hcap := fresh in
      destruct (updateUI_fields x) as (Hm & _ & _ & _ & Hcm & _ & Hcd & Hpc & Hb & Hcap & _);
      rewrite ?Hm, ?Hcm, ?Hcd, ?Hpc, ?Hb, ?Hcap; clear Hm Hcm Hcd Hpc Hb Hcap; simpl
  end.

Theorem enabled_purchase_is_sound buttonId s :
  In buttonId purchaseButtons -> button_disabled s buttonId = false -> furnished s ->
  let s' := clickPurchase buttonId s in
  furnished s' /\ 0 <= money s' /\
  (machine_rank (coffeeMachine s) <= machine_rank (coffeeMachine s'))%nat /\
  (money s' < money s \/ (hasBarista s = false /\ hasBarista s' = true)).
Proof.
  intros Hin Henabled [Hchairs Hdesks] s'. unfold s'. clear s'.
  simpl in Hin. destruct Hin as [<-|[<-|[<-|[<-|[<-|[<-|[]]]]]]].
  - change (clickPurchase "buy-coffee-machine" s) with (purchase "coffee-machine" s).
    apply (enabled_equipment (negb (is_machine machine_none s)) s 500) in Henabled
      as (Hnone & Hle & Hcost).
    rewrite purchase_coffee_machine, Hle.
    through_updateUI.
    unfold is_machine in Hnone. destruct (coffeeMachine s); try done.
    simpl. repeat split; try lia; lra.
  - change (clickPurchase "buy-pro-coffee-machine" s) with (purchase "pro-coffee-machine" s).
    apply (enabled_equipment (is_machine machine_pro s) s 1200) in Henabled
      as (Hnone & Hle & Hcost).
    rewrite purchase_pro_coffee_machine, Hle.
    through_updateUI.
    repeat split; try lia; try lra. destruct (coffeeMachine s); simpl; lia.
  - change (clickPurchase "buy-pastry-display" s) with (purchase "pastry-display" s).
    apply (enabled_equipment (hasPastryDisplay s) s 300) in Henabled
      as (Hnone & Hle & Hcost).
    rewrite purchase_pastry_display, Hle.
    through_updateUI.
    repeat split; try lia; lra.
  - change (clickPurchase "buy-desk" s) with (purchase "desk" s).
    apply (enabled_equipment (deskCapacity s <=? coworkingDesks s)%nat s 150) in Henabled
      as (Hroom & Hle & Hcost).
    apply Nat.leb_gt in Hroom.
    rewrite purchase_desk, Hle.
    through_updateUI.
    repeat split; try lia; lra.
  - change (clickPurchase "buy-premium-chair" s) with (purchase "premium-chair" s).
    apply (enabled_equipment (coworkingDesks s <=? premiumChairs s)%nat s 250) in Henabled
      as (Hroom & Hle & Hcost).
    apply Nat.leb_gt in Hroom.
    rewrite purchase_premium_chair, Hle.
    through_updateUI.
    repeat split; try lia; lra.
  - change (clickPurchase "hire-barista" s) with (purchase "barista" s).
    apply (enabled_equipment (hasBarista s) s 100) in Henabled as (Hnone & Hle & Hcost).
    rewrite purchase_barista, Hle.
    through_updateUI.
    repeat split; try lia; try lra. by right.
Qed.

(** ** The end of a day *)

(** Divisions by the constants of [nextDay], in a form [lra] reads. *)
Ltac shares :=
  unfold Qdiv in *;
  change (/ 4) with (1 # 4) in *; change (/ 2) with (1 # 2) in *;
  change (/ 5) with (1 # 5) in *.

Lemma checkEndConditions_fields s :
  let s' := checkEndConditions s in
  money s' = money s /\ day s' = day s /\ customersServed s' = customersServed s /\
  reputation s' = reputation s.
Proof.
  unfold checkEndConditions.
  destruct (Cafe.Qltb (money s) 0); simpl;
    match goal with |- context [Qle_bool ?a ?b] => destruct (Qle_bool a b) end; done.
Qed.

Lemma nextDay_fields s :
  let s' := nextDay s in
  money s' =
    money s + (cafeIncome s + coworkIncome s -
               if hasBarista s then baseRent s + 50 else baseRent s) /\
  day s' = S (day s) /\
  customersServed s' =
    (customersServed s + (Qfloor (cafeIncome s / 5) + Z.of_nat (coworkingDesks s)))%Z.
Proof.
  unfold nextDay. cbv zeta.
  match goal with |- context [updateUI ?x] =>
    destruct (updateUI_fields x) as (-> & _ & -> & -> & _) end.
  match goal with |- context [checkEndConditions ?x] =>
    destruct (checkEndConditions_fields x) as (-> & -> & -> & _) end.
  simpl. by destruct (hasBarista s).
Qed.

(** With a reputation that is not negative, a day costs at most the rent
    and the barista's pay, and loses no customers served. *)
Theorem nextDay_bounds s :
  0 <= reputation s ->
  let s' := nextDay s in
  day s' = S (day s) /\
  money s - (baseRent s + 50) <= money s' /\
  (customersServed s <= customersServed s')%Z.
Proof.
  intros Hrep s'. destruct (nextDay_fields s) as (Hm & Hd & Hc). fold s' in Hm, Hd, Hc.
  assert (0 <= cafeIncome s) as Hincome.
  { unfold cafeIncome.
    destruct (is_machine machine_basic s), (is_machine machine_pro s),
      (hasPastryDisplay s), (hasBarista s); shares; lra. }
  assert (0 <= coworkIncome s) as Hcowork.
  { unfold coworkIncome.
    assert (0 <= inject_Z (Z.of_nat (coworkingDesks s))) as H1
      by (change 0 with (inject_Z 0); rewrite <-Zle_Qle; lia).
    assert (0 <= inject_Z (Z.of_nat (premiumChairs s))) as H2
      by (change 0 with (inject_Z 0); rewrite <-Zle_Qle; lia).
    lra. }
  split; [done|]. split.
  - rewrite Hm. destruct (hasBarista s); lra.
  - rewrite Hc.
    assert (0 <= Qfloor (cafeIncome s / 5))%Z; [|lia].
    change 0%Z with (Qfloor 0). apply Qfloor_resp_le. shares. lra.
Qed.

(** As long as the reputation does not exceed 100, the barista costs more
    per day than the barista adds to the income. *)
Theorem barista_never_pays s :
  reputation s <= 100 ->
  money (nextDay (set_hasBarista true s)) < money (nextDay (set_hasBarista false s)).
Proof.
  intros Hrep.
  destruct (nextDay_fields (set_hasBarista true s)) as (-> & _).
  destruct (nextDay_fields (set_hasBarista false s)) as (-> & _).
  unfold cafeIncome, coworkIncome, is_machine. simpl.
  destruct (coffeeMachine s), (hasPastryDisplay s); shares; lra.
Qed.

(** ** The panel *)

(** Opening and closing the panel changes nothing in the shop or in the
    player's statistics; it refreshes the buttons and leaves the game
    running, whether it was paused before or not. *)
Theorem panel_round_trip s :
  isPanelOpen s = false ->
  closePanel (openPanel s) = set_isPaused false (set_disabledButtons (button_states s) s).
Proof.
  intros Hclosed. unfold openPanel, closePanel, updateUI, pause, resume.
  rewrite Hclosed. simpl. destruct s. simpl in *. by subst.
Qed.


Lemma enabled_purchase_is_sound_witness :
  let s := openPanel (new_ManagementSystem 1000 50 1 0 true) in
  let s' := clickPurchase "buy-desk" s in
  (In "buy-desk" purchaseButtons /\ button_disabled s "buy-desk" = false /\ furnished s) /\
  furnished s' /\ 0 <= money s' /\
  (machine_rank (coffeeMachine s) <= machine_rank (coffeeMachine s'))%nat /\
  (money s' < money s \/ (hasBarista s = false /\ hasBarista s' = true)).
Proof.
  intros s s'.
  assert (In "buy-desk" purchaseButtons) as H1 by (simpl; tauto).
  assert (button_disabled s "buy-desk" = false) as H2 by reflexivity.
  assert (furnished s) as H3 by (unfold furnished; simpl; lia).
  split; [exact (conj H1 (conj H2 H3))|].
  exact (enabled_purchase_is_sound "buy-desk" s H1 H2 H3).
Defined.

Lemma nextDay_bounds_witness :
  let s := purchase "coffee-machine" (openPanel (new_ManagementSystem 1000 50 1 0 true)) in
  let s' := nextDay s in
  0 <= reputation s /\
  day s' = S (day s) /\
  money s - (baseRent s + 50) <= money s' /\
  (customersServed s <= customersServed s')%Z.
Proof.
  intros s s'.
  assert (0 <= reputation s) as H by discriminate.
  split; [exact H|]. exact (nextDay_bounds s H).
Defined.

Lemma barista_never_pays_witness :
  let s := purchase "pro-coffee-machine" (new_ManagementSystem 2000 75 1 0 true) in
  reputation s <= 100 /\
  money (nextDay (set_hasBarista true s)) < money (nextDay (set_hasBarista false s)).
Proof.
  intros s.
  assert (reputation s <= 100) as H by discriminate.
  split; [exact H|]. exact (barista_never_pays s H).
Defined.

Lemma panel_round_trip_witness :
  let s := new_ManagementSystem 1000 50 1 0 true in
  isPanelOpen s = false /\
  closePanel (openPanel s) = set_isPaused false (set_disabledButtons (button_states s) s).
Proof.
  intros s.
  assert (isPanelOpen s = false) as H by reflexivity.
  split; [exact H|]. exact (panel_round_trip s H).
Defined.

End ManagementFacts.

Module BakeryFacts.
Import Bakery String.StringSyntax.
#[local] Open Scope Q_scope.
#[local] Open Scope string_scope.

(** ** Baking *)

Lemma assign_eq {K V} `{EqDecision K} (key : K) (value : V) object :
  assign key value object key = value.
Proof. unfold assign. by rewrite decide_True. Qed.

Lemma assign_ne {K V} `{EqDecision K} (key k : K) (value : V) object :
  k <> key -> assign key value object k = object k.
Proof. intros Hne. unfold assign. by rewrite decide_False. Qed.

(** An ingredient that the recipe does not list is not touched. *)
Lemma deduct_other quantity recipe inv i :
  ~ In i (map fst recipe) -> deduct quantity recipe inv i = inv i.
Proof.
  unfold deduct. revert inv. induction recipe as [|[j a] recipe IH]; intros inv Hi; [done|].
  simpl in *. rewrite IH by tauto. apply assign_ne. intros ->. tauto.
Qed.

(** An ingredient that the recipe lists once loses the amount the batch
    needs. *)
Lemma deduct_listed quantity recipe inv i a :
  List.NoDup (map fst recipe) -> In (i, a) recipe ->
  deduct quantity recipe inv i = inv i - a * quantity.
Proof.
  unfold deduct. revert inv. induction recipe as [|[j b] recipe IH]; intros inv Hnd Hin; [done|].
  simpl in *. apply List.NoDup_cons_iff in Hnd as [Hj Hnd].
  destruct Hin as [[= -> ->]|Hin].
  - change (fold_left _ recipe ?x i) with (deduct quantity recipe x i).
    rewrite deduct_other by done. by rewrite assign_eq.
  - rewrite (IH _ Hnd Hin). rewrite assign_ne; [done|].
    intros ->. apply Hj. by apply (in_map fst _ (j, a)).
Qed.

Lemma recipe_NoDup p : List.NoDup (map fst (ingredients (BAKERY_PRODUCTS p))).
Proof.
  destruct p; simpl; repeat (apply List.NoDup_cons; [simpl; intuition discriminate|]);
    apply List.NoDup_nil.
Qed.

Lemma lacking_None quantity s recipe :
  lacking quantity s recipe = None ->
  forall i a, In (i, a) recipe -> a * quantity <= inventory s i.
Proof.
  unfold lacking. intros Hnone i a Hin.
  destruct (List.find _ recipe) as [entry|] eqn:Hfind; [done|].
  pose proof (List.find_none _ _ Hfind (i, a) Hin) as Hok. simpl in Hok.
  by apply CafeFacts.Qltb_ge.
Qed.

Lemma lacking_Some quantity s recipe i :
  lacking quantity s recipe = Some i ->
  exists a, In (i, a) recipe /\ inventory s i < a * quantity.
Proof.
  unfold lacking. destruct (List.find _ recipe) as [[j a]|] eqn:Hfind; [|done].
  intros [= <-]. apply List.find_some in Hfind as [Hin Hlt]. simpl in *.
  exists a. split; [done|]. by apply CafeFacts.Qltb_lt.
Qed.

(** [bakeProduct] either throws and leaves the bakery as it is, for a
    name that is neither a product nor an inherited property or for an
    ingredient that is short, or it queues one batch of the product and
    takes from the inventory exactly what the recipe needs for the
    quantity, leaving no stock negative.  Only for an inherited property
    does it do neither. *)
Theorem bakeProduct_spec name quantity gameTime s :
  (forall i, 0 <= inventory s i) ->
  match bakeProduct name quantity gameTime s with
  | Some (Returned batch s') =>
      exists p,
        product_of_name name = Some p /\
        batch = {| productId := p; quantity := quantity; startTime := gameTime;
                   timeRemaining := recipe_prepTime (BAKERY_PRODUCTS p) * quantity / skillLevel;
                   batch_quality := 1 |} /\
        queue s' = queue s ++ [batch] /\ activeBatches s' = activeBatches s /\
        money s' = money s /\
        (forall i, 0 <= inventory s' i) /\
        (forall i a, In (i, a) (ingredients (BAKERY_PRODUCTS p)) ->
                     inventory s' i = inventory s i - a * quantity) /\
        (forall i, ~ In i (map fst (ingredients (BAKERY_PRODUCTS p))) ->
                   inventory s' i = inventory s i)
  | Some (Thrown message s') =>
      s' = s /\
      ((product_of_name name = None /\ inherited name = false) \/
       exists p i a, product_of_name name = Some p /\
                     In (i, a) (ingredients (BAKERY_PRODUCTS p)) /\
                     inventory s i < a * quantity)
  | None => product_of_name name = None /\ inherited name = true
  end.
Proof.
  intros Hstock. unfold bakeProduct.
  destruct (product_of_name name) as [p|].
  2: { destruct (inherited name); [done|]. split; [done|]. by left. }
  destruct (lacking quantity s _) as [i|] eqn:Hlack.
  - split; [done|]. right. apply lacking_Some in Hlack as (a & Hin & Hlt). by exists p, i, a.
  - exists p. simpl. repeat split; try done.
    + intros i. destruct (in_dec Ingredient_eq_dec i (map fst (ingredients (BAKERY_PRODUCTS p))))
        as [Hin|Hout].
      * apply in_map_iff in Hin as ([j a] & <- & Hin). simpl.
        rewrite (deduct_listed quantity _ _ j a (recipe_NoDup p) Hin).
        pose proof (lacking_None quantity s _ Hlack j a Hin). lra.
      * rewrite deduct_other by done. apply Hstock.
    + intros i a Hin. by apply deduct_listed; [apply recipe_NoDup|].
    + intros i Hout. by apply deduct_other.
Qed.

Lemma bakeProduct_spec_witness :
  let s := initBakery 100 in
  (forall i, 0 <= inventory s i) /\
  match bakeProduct "croissant" 5 360 s with
  | Some (Returned batch s') =>
      exists p,
        product_of_name "croissant" = Some p /\
        batch = {| productId := p; quantity := 5; startTime := 360;
                   timeRemaining := recipe_prepTime (BAKERY_PRODUCTS p) * 5 / skillLevel;
                   batch_quality := 1 |} /\
        queue s' = queue s ++ [batch] /\ activeBatches s' = activeBatches s /\
        money s' = money s /\
        (forall i, 0 <= inventory s' i) /\
        (forall i a, In (i, a) (ingredients (BAKERY_PRODUCTS p)) ->
                     inventory s' i = inventory s i - a * 5) /\
        (forall i, ~ In i (map fst (ingredients (BAKERY_PRODUCTS p))) ->
                   inventory s' i = inventory s i)
  | Some (Thrown message s') =>
      s' = s /\
      ((product_of_name "croissant" = None /\ inherited "croissant" = false) \/
       exists p i a, product_of_name "croissant" = Some p /\
                     In (i, a) (ingredients (BAKERY_PRODUCTS p)) /\
                     inventory s i < a * 5)
  | None => product_of_name "croissant" = None /\ inherited "croissant" = true
  end.
Proof.
  intros s.
  assert (forall i, 0 <= inventory s i) as H by (intros []; discriminate).
  split; [exact H|].
  exact (bakeProduct_spec "croissant" 5 360 s H).
Defined.

(** [processQueue] moves batches from the head of the queue to the free
    bakers, in order: no batch is lost or reordered, no baker gets a second
    batch, and afterwards the queue is empty or no baker is free. *)
Theorem processQueue_spec s :
  let s' := processQueue s in
  activeBatches s' ++ queue s' = activeBatches s ++ queue s /\
  (length (activeBatches s') <= Nat.max bakers (length (activeBatches s)))%nat /\
  (queue s' = [] \/ (bakers <= length (activeBatches s'))%nat) /\
  inventory s' = inventory s /\ products s' = products s /\ money s' = money s.
Proof.
  unfold processQueue. destruct (queue s) as [|b q] eqn:Hq.
  { rewrite Hq. repeat split; try lia; by left. }
  rewrite <-Hq. clear b q Hq.
  destruct (Z.leb_spec (Z.of_nat bakers - Z.of_nat (length (activeBatches s))) 0) as [Hfull|Hfree].
  { repeat split; lia. }
  simpl. set (n := Z.to_nat _).
  rewrite <-app_assoc, take_drop, length_app, length_take.
  repeat split; try done; try lia.
  all: destruct (decide (length (queue s) <= n)%nat) as [Hall|Hsome].
  - left. by apply drop_ge.
  - right. lia.
Qed.

(** ** Batches at work *)

Section Batches.
Variable random : nat -> Q.
Variable deltaTime : Q.

Lemma in_the_oven_app p l1 l2 :
  in_the_oven p (l1 ++ l2) == in_the_oven p l1 + in_the_oven p l2.
Proof.
  induction l1 as [|b l1 IH]; simpl; [lra|]. destruct (decide _); lra.
Qed.

Lemma in_the_oven_worked p e l :
  in_the_oven p (worked deltaTime e <$> l) = in_the_oven p l.
Proof.
  induction l as [|b l IH]; [done|]. rewrite fmap_cons.
  change (in_the_oven p (?x :: ?l)) with
    (if decide (productId x = p) then quantity x + in_the_oven p l else in_the_oven p l).
  by rewrite IH.
Qed.

Lemma in_the_oven_split p l :
  in_the_oven p l ==
  in_the_oven p (List.filter unfinished l)
  + in_the_oven p (List.filter (fun b => negb (unfinished b)) l).
Proof.
  induction l as [|b l IH]; simpl; [lra|].
  destruct (unfinished b); simpl; destruct (decide _); lra.
Qed.

Lemma filter_snoc {A} (f : A -> bool) l x :
  List.filter f (l ++ [x]) = List.filter f l ++ (if f x then [x] else []).
Proof. by rewrite List.filter_app. Qed.

(** The loop of [updateBatches] from index [length pre - 1] down to 0 works
    on the batches of [pre] and leaves those behind them alone. *)
Lemma updateBatches_loop pre : forall post s,
  activeBatches s = pre ++ post ->
  let s' := fold_left (updateBatch_at random deltaTime) (rev (seq 0 (length pre))) s in
  activeBatches s' = List.filter unfinished (worked deltaTime (efficiency s) <$> pre) ++ post /\
  efficiency s' = efficiency s /\ queue s' = queue s /\ inventory s' = inventory s /\
  money s' = money s /\
  forall p,
    currentStock (products s' p) ==
    currentStock (products s p)
    + in_the_oven p (List.filter (fun b => negb (unfinished b))
                                 (worked deltaTime (efficiency s) <$> pre)).
Proof.
  induction pre as [|b pre IH] using rev_ind; intros post s Hactive.
  { simpl. repeat split; try done. intros p. lra. }
  rewrite length_app, Nat.add_1_r, seq_S, rev_app_distr. simpl.
  rewrite <-app_assoc in Hactive. simpl in Hactive.
  assert (activeBatches s !! length pre = Some b) as Hat.
  { rewrite Hactive. by rewrite list_lookup_middle. }
  set (b' := worked deltaTime (efficiency s) b).
  rewrite fmap_app, !List.filter_app.
  change (worked deltaTime (efficiency s) <$> [b]) with [b']. cbn [List.filter].
  assert (<[length pre := b']> (activeBatches s) = pre ++ b' :: post) as Hset.
  { rewrite Hactive. rewrite insert_app_r_alt by lia. by rewrite Nat.sub_diag. }
  remember (updateBatch_at random deltaTime s (length pre)) as s1 eqn:Hs1.
  unfold updateBatch_at in Hs1. rewrite Hat in Hs1. cbv zeta in Hs1.
  change (set_timeRemaining (timeRemaining b - deltaTime * skillLevel * efficiency s) b)
    with b' in Hs1.
  change (negb (Qle_bool (timeRemaining b') 0)) with (unfinished b').
  destruct (Qle_bool (timeRemaining b') 0) eqn:Hdone.
  - assert (unfinished b' = false) as -> by (unfold unfinished; by rewrite Hdone).
    simpl. rewrite app_nil_r.
    assert (activeBatches s1 = pre ++ post) as Hactive1.
    { rewrite Hs1. simpl. rewrite Hset. by rewrite delete_middle. }
    destruct (IH post s1 Hactive1) as (Ha & He & Hq & Hi & Hm & Hstock).
    assert (efficiency s1 = efficiency s) as Heff by (by rewrite Hs1).
    rewrite Heff in *.
    repeat split; try done; try (by rewrite Hs1 in *).
    intros p. rewrite Hstock. rewrite in_the_oven_app. rewrite Hs1. simpl.
    unfold assign. destruct (decide (p = productId b)) as [->|Hne]; simpl.
    + rewrite decide_True by done. lra.
    + rewrite decide_False by done. lra.
  - assert (unfinished b' = true) as -> by (unfold unfinished; by rewrite Hdone).
    simpl. rewrite app_nil_r.
    assert (activeBatches s1 = pre ++ b' :: post) as Hactive1 by (rewrite Hs1; simpl; exact Hset).
    destruct (IH (b' :: post) s1 Hactive1) as (Ha & He & Hq & Hi & Hm & Hstock).
    assert (efficiency s1 = efficiency s) as Heff by (by rewrite Hs1).
    rewrite Heff in *.
    rewrite <-app_assoc. repeat split; try done; try (by rewrite Hs1 in *).
Qed.

(** [updateBatches] takes [deltaTime * skillLevel * efficiency] minutes off
    every active batch and keeps, in order, the batches that still have
    time left; the units of the finished batches go to the stock of their
    product, so that for each product the stock and the units at work
    together stay the same.  Queue, inventory and money are not touched. *)
Theorem updateBatches_spec (s : BakeryState) :
  let s' := updateBatches random deltaTime s in
  activeBatches s' =
    List.filter unfinished (worked deltaTime (efficiency s) <$> activeBatches s) /\
  (forall p,
     currentStock (products s' p) + in_the_oven p (activeBatches s') ==
     currentStock (products s p) + in_the_oven p (activeBatches s)) /\
  Forall (fun b => 0 < timeRemaining b) (activeBatches s') /\
  queue s' = queue s /\ inventory s' = inventory s /\ money s' = money s.
Proof.
  unfold updateBatches.
  destruct (updateBatches_loop (activeBatches s) [] s) as (Ha & He & Hq & Hi & Hm & Hstock).
  { by rewrite app_nil_r. }
  rewrite app_nil_r in Ha. repeat split; try done.
  - intros p. rewrite Hstock, Ha.
    rewrite <-(in_the_oven_worked p (efficiency s) (activeBatches s)).
    rewrite (in_the_oven_split p (worked deltaTime (efficiency s) <$> activeBatches s)). lra.
  - rewrite Ha. apply List.Forall_forall. intros b Hin.
    apply List.filter_In in Hin as [_ Hleft]. unfold unfinished in Hleft.
    by apply (CafeFacts.Qltb_lt 0 (timeRemaining b)).
Qed.

End Batches.

(** The game loop stops at the first random event. *)
Section Events.
Variable random : nat -> Q.

Lemma select_event_some r :
  r <= 1 ->
  exists event,
    select_event r 0 [Happy_Accident; Efficient_Day; Oven_Malfunction; Ingredient_Spoilage]
    = Some event.
Proof.
  intros Hr. simpl.
  assert (Qle_bool r (0 + (3 # 10) + (4 # 10) + (2 # 10) + (1 # 10)) = true) as ->
    by (apply Qle_bool_iff; lra).
  repeat match goal with |- context [if ?b then _ else _] => destruct b end; by eexists.
Qed.

Lemma triggerRandomEvent_undefined s :
  random (draws s) <= 1 ->
  exists s', triggerRandomEvent random false s = Thrown type_error s'.
Proof.
  intros Hr. unfold triggerRandomEvent.
  destruct (select_event_some _ Hr) as [event ->]. cbv zeta.
  destruct event; simpl; by eexists.
Qed.

(** Whenever the bakery's [update] decides on a random event (its draw is
    below [0.001 * deltaTime]) and the event's own draw is at most 1, as
    every value of [Math.random()] is, the call ends in a TypeError
    instead of returning: [update] calls [triggerRandomEvent] without the
    game it reads. *)
Theorem update_random_event_throws gameTime deltaTime s :
  let s4 :=
    processQueue
      (updateDemand random gameTime
         (updateProductQuality deltaTime (updateBatches random deltaTime s))) in
  random (draws s4) < (1 # 1000) * deltaTime ->
  random (S (draws s4)) <= 1 ->
  exists s', update random gameTime deltaTime s = Thrown type_error s'.
Proof.
  intros s4 Hevent Hr. unfold update. cbv zeta. fold s4.
  apply CafeFacts.Qltb_lt in Hevent. rewrite Hevent.
  by apply triggerRandomEvent_undefined.
Qed.

End Events.

Lemma update_random_event_throws_witness :
  exists s', update (fun _ => 0) 360 16 (initBakery 100) = Thrown type_error s'.
Proof.
  assert (0 < (1 # 1000) * 16) as H1 by (vm_compute; reflexivity).
  assert (0 <= 1) as H2 by (vm_compute; discriminate).
  exact (update_random_event_throws (fun _ => 0) 360 16 (initBakery 100) H1 H2).
Defined.

(** ** Stock keeping *)

Lemma order_cost_cons name amount order :
  order_cost ((name, amount) :: order) =
  match ingredient_of_name name with
  | Some i => pricePerUnit i * amount + order_cost order
  | None => order_cost order
  end.
Proof. reflexivity. Qed.

Lemma ordered_cons i name amount order :
  ordered i ((name, amount) :: order) =
  if decide (ingredient_of_name name = Some i) then amount + ordered i order
  else ordered i order.
Proof. reflexivity. Qed.

Lemma restock_spec order : forall totalCost inv,
  match restock order totalCost inv with
  | Some (inv', inl total) =>
      Forall (fun entry => is_Some (ingredient_of_name (fst entry))) order /\
      total == totalCost + order_cost order /\
      forall i, inv' i == inv i + ordered i order
  | Some (inv', inr name) =>
      exists before amount rest,
        order = before ++ (name, amount) :: rest /\
        Forall (fun entry => is_Some (ingredient_of_name (fst entry))) before /\
        ingredient_of_name name = None /\ inherited name = false /\
        forall i, inv' i == inv i + ordered i before
  | None =>
      exists before name amount rest,
        order = before ++ (name, amount) :: rest /\
        Forall (fun entry => is_Some (ingredient_of_name (fst entry))) before /\
        ingredient_of_name name = None /\ inherited name = true
  end.
Proof.
  induction order as [|[name amount] order IH]; intros totalCost inv.
  { simpl. repeat split; [constructor|lra|intros i; lra]. }
  cbn [restock]. destruct (ingredient_of_name name) as [j|] eqn:Hname.
  - specialize (IH (totalCost + pricePerUnit j * amount) (assign j (inv j + amount) inv)).
    destruct (restock order _ _) as [[inv' [total|bad]]|].
    + destruct IH as (Hall & Htotal & Hinv). repeat split.
      * constructor; [cbn [fst]; by rewrite Hname|done].
      * rewrite Htotal, order_cost_cons, Hname. lra.
      * intros i. rewrite Hinv, ordered_cons, Hname. unfold assign.
        destruct (decide (i = j)) as [->|Hne].
        -- rewrite decide_True by done. lra.
        -- rewrite decide_False by congruence. lra.
    + destruct IH as (before & amount' & rest & -> & Hall & Hbad & Hown & Hinv).
      exists ((name, amount) :: before), amount', rest. repeat split; try done.
      * constructor; [cbn [fst]; by rewrite Hname|done].
      * intros i. rewrite Hinv, ordered_cons, Hname. unfold assign.
        destruct (decide (i = j)) as [->|Hne].
        -- rewrite decide_True by done. lra.
        -- rewrite decide_False by congruence. lra.
    + destruct IH as (before & bad & amount' & rest & -> & Hall & Hbad & Hinh).
      exists ((name, amount) :: before), bad, amount', rest. repeat split; try done.
      constructor; [cbn [fst]; by rewrite Hname|done].
  - destruct (inherited name) eqn:Hinh.
    + by exists [], name, amount, order.
    + exists [], amount, order. repeat split; try done. intros i. simpl. lra.
Qed.

(** [restockIngredients] adds every ordered amount to the inventory and
    charges the price of the whole order, when every name of the order is
    an ingredient.  At the first name that is neither an ingredient nor an
    inherited property it throws: the entries before it have then been
    added to the inventory, and no money has been taken for them.  Only
    when it meets an inherited property first does it do neither. *)
Theorem restockIngredients_spec order s :
  match restockIngredients order s with
  | Some (Returned totalCost s') =>
      Forall (fun entry => is_Some (ingredient_of_name (fst entry))) order /\
      totalCost == order_cost order /\
      money s' = money s - totalCost /\
      forall i, inventory s' i == inventory s i + ordered i order
  | Some (Thrown message s') =>
      exists before name amount rest,
        order = before ++ (name, amount) :: rest /\
        Forall (fun entry => is_Some (ingredient_of_name (fst entry))) before /\
        ingredient_of_name name = None /\ inherited name = false /\
        message = String.append "Invalid ingredient: " name /\
        money s' = money s /\
        forall i, inventory s' i == inventory s i + ordered i before
  | None =>
      exists before name amount rest,
        order = before ++ (name, amount) :: rest /\
        Forall (fun entry => is_Some (ingredient_of_name (fst entry))) before /\
        ingredient_of_name name = None /\ inherited name = true
  end.
Proof.
  unfold restockIngredients. pose proof (restock_spec order 0 (inventory s)) as Hspec.
  destruct (restock order 0 (inventory s)) as [[inv' [total|bad]]|].
  - destruct Hspec as (Hall & Htotal & Hinv). repeat split; try done. rewrite Htotal. lra.
  - destruct Hspec as (before & amount & rest & -> & Hall & Hbad & Hown & Hinv).
    by exists before, bad, amount, rest.
  - exact Hspec.
Qed.

(** ** Prices *)

Lemma product_of_name_key p : product_of_name (product_key p) = Some p.
Proof. by destruct p. Qed.

Lemma product_of_name_Some name p : product_of_name name = Some p -> name = product_key p.
Proof.
  unfold product_of_name. intros Hfind. apply List.find_some in Hfind as [_ Heq].
  apply String.eqb_eq in Heq. by subst.
Qed.

Lemma updatePrices_other newPrices : forall s p,
  ~ In (product_key p) (map fst newPrices) ->
  products (updatePrices newPrices s) p = products s p.
Proof.
  unfold updatePrices.
  induction newPrices as [|[name v] newPrices IH]; intros s p Hout; [done|].
  simpl in *. rewrite IH by tauto.
  destruct (product_of_name name) as [q|] eqn:Hname; [|done].
  simpl. apply assign_ne. intros ->. apply product_of_name_Some in Hname. tauto.
Qed.

Lemma updatePrices_frame newPrices : forall s,
  let s' := updatePrices newPrices s in
  inventory s' = inventory s /\ queue s' = queue s /\ activeBatches s' = activeBatches s /\
  money s' = money s /\
  forall p, products s' p = set_price (price (products s' p)) (products s p).
Proof.
  unfold updatePrices.
  induction newPrices as [|[name v] newPrices IH]; intros s.
  { simpl. repeat split; try done. intros p. by destruct (products s p). }
  simpl. destruct (product_of_name name) as [q|]; [|apply IH].
  match goal with |- context [fold_left _ _ ?t] => set (s1 := t) end.
  destruct (IH s1) as (Hi & Hq & Ha & Hm & Hp). repeat split; try done.
  intros p. rewrite Hp at 1. unfold s1. simpl. unfold assign.
  by destruct (decide (p = q)) as [->|Hne].
Qed.

(** [updatePrices] sets the price of every product the new prices name,
    and [getAvailableProducts] then shows that price; a name that is no
    product is skipped, a product that is not named keeps its price, and
    nothing but prices changes. *)
Theorem updatePrices_shown newPrices s :
  List.NoDup (map fst newPrices) ->
  let s' := updatePrices newPrices s in
  (forall p v,
     In (product_key p, v) newPrices ->
     In {| offer_id := product_key p; offer_name := recipe_name (BAKERY_PRODUCTS p);
           offer_price := v; offer_stock := currentStock (products s p);
           offer_quality :=
             match quality (products s p) with
             | Some q => if Qeq_bool q 0 then 1 else q
             | None => 1
             end;
           offer_demand := demand (products s p) |}
        (getAvailableProducts s')) /\
  (forall p, ~ In (product_key p) (map fst newPrices) -> products s' p = products s p) /\
  (forall p, products s' p = set_price (price (products s' p)) (products s p)) /\
  inventory s' = inventory s /\ money s' = money s.
Proof.
  intros Hnd s'.
  destruct (updatePrices_frame newPrices s) as (Hi & _ & _ & Hm & Hp).
  repeat split; try done; [|by apply updatePrices_other].
  intros p v Hin.
  assert (price (products s' p) = v) as Hprice.
  { unfold s', updatePrices. clear Hi Hm Hp s'. revert s.
    induction newPrices as [|[name w] newPrices IH]; intros s; [done|].
    simpl in *. apply List.NoDup_cons_iff in Hnd as [Hfresh Hnd].
    destruct Hin as [[= -> ->]|Hin].
    - rewrite product_of_name_key.
      change (fold_left _ newPrices ?t) with (updatePrices newPrices t).
      rewrite updatePrices_other by done. simpl. by rewrite assign_eq.
    - by apply IH. }
  unfold getAvailableProducts. apply in_map_iff. exists p. split.
  - pose proof (Hp p) as Hpp. fold s' in Hpp.
    assert (currentStock (products s' p) = currentStock (products s p)) as ->
      by (by rewrite Hpp).
    assert (quality (products s' p) = quality (products s p)) as -> by (by rewrite Hpp).
    assert (demand (products s' p) = demand (products s p)) as -> by (by rewrite Hpp).
    by rewrite Hprice.
  - destruct p; simpl; tauto.
Qed.

Lemma updatePrices_shown_witness :
  let newPrices := [("croissant", 4); ("bagel", 2)] in
  let s' := updatePrices newPrices (initBakery 100) in
  List.NoDup (map fst newPrices) /\
  exists offer,
    In offer (getAvailableProducts s') /\ offer_id offer = "croissant" /\
    offer_price offer = 4.
Proof.
  intros newPrices s'.
  assert (List.NoDup (map fst newPrices)) as Hnd.
  { repeat (apply List.NoDup_cons; [simpl; intuition discriminate|]). apply List.NoDup_nil. }
  split; [exact Hnd|].
  destruct (updatePrices_shown newPrices (initBakery 100) Hnd) as (Hshown & _).
  eexists. split; [apply (Hshown croissant 4); simpl; tauto|]. split; reflexivity.
Defined.

End BakeryFacts.

Module MonteCarloFacts.
Import MonteCarlo.
#[local] Open Scope Q_scope.

Lemma ascending_head (x : Q) (data : list Q) :
  ascending (x :: data) = true -> ascending data = true /\ forall b, b ∈ data -> x <= b.
Proof.
  revert x. induction data as [|y data IH]; intros x Hsorted.
  { split; [done|]. intros b Hb. by apply elem_of_nil in Hb. }
  cbn [ascending] in Hsorted. apply andb_prop in Hsorted as [Hxy Hrest].
  apply Qle_bool_iff in Hxy. split; [exact Hrest|].
  intros b Hb. apply elem_of_cons in Hb as [->|Hb]; [done|].
  destruct (IH y Hrest) as [_ Hall]. specialize (Hall b Hb). lra.
Qed.

Lemma ascending_lookup (data : list Q) :
  ascending data = true ->
  forall i j a b, (i <= j)%nat -> data !! i = Some a -> data !! j = Some b -> a <= b.
Proof.
  induction data as [|x data IH]; intros Hsorted i j a b Hij Hi Hj; [done|].
  apply ascending_head in Hsorted as [Hrest Hall].
  destruct i as [|i], j as [|j]; simpl in *; try lia.
  - injection Hi as <-. injection Hj as <-. lra.
  - injection Hi as <-. apply Hall. by apply (list_elem_of_lookup_2 _ j).
  - apply (IH Hrest i j); [lia|done..].
Qed.

Lemma element_inside (data : list Q) (i : Z) :
  (0 <= i < Z.of_nat (length data))%Z ->
  exists a, element data i = Some a /\ data !! Z.to_nat i = Some a.
Proof.
  intros Hi. unfold element.
  destruct (Z.ltb_spec i 0) as [Hneg|_]; [lia|].
  destruct (lookup_lt_is_Some_2 data (Z.to_nat i)) as [a Ha]; [lia|]. by exists a.
Qed.

Lemma index_inside (n : nat) (percentile : Q) :
  (0 < n)%nat -> 0 <= percentile -> percentile <= 100 ->
  let index := percentile / 100 * (inject_Z (Z.of_nat n) - 1) in
  0 <= index /\ index <= inject_Z (Z.of_nat n - 1) /\
  (0 <= Qfloor index)%Z /\ (Qfloor index <= Qceiling index)%Z /\
  (Qceiling index <= Z.of_nat n - 1)%Z.
Proof.
  intros Hn H0 H100 index.
  assert (1 <= inject_Z (Z.of_nat n)) as Hn'.
  { change 1 with (inject_Z 1). rewrite <-Zle_Qle. lia. }
  assert (inject_Z (Z.of_nat n - 1) == inject_Z (Z.of_nat n) - 1) as Hpred.
  { unfold Z.sub. rewrite inject_Z_plus. change (inject_Z (- (1))) with (- (1)). lra. }
  assert (0 <= percentile / 100) as Ht0.
  { apply Qle_shift_div_l; [reflexivity|lra]. }
  assert (percentile / 100 <= 1) as Ht1.
  { apply Qle_shift_div_r; [reflexivity|lra]. }
  assert (0 <= index) as Hlow.
  { unfold index. apply Qmult_le_0_compat; [done|lra]. }
  assert (index <= inject_Z (Z.of_nat n - 1)) as Hhigh.
  { rewrite Hpred. unfold index.
    assert (0 <= (1 - percentile / 100) * (inject_Z (Z.of_nat n) - 1)) as Hrest.
    { apply Qmult_le_0_compat; lra. }
    revert Hrest. generalize (percentile / 100), (inject_Z (Z.of_nat n)). intros t m Hrest.
    lra. }
  repeat split; try done.
  - change 0%Z with (Qfloor 0). by apply Qfloor_resp_le.
  - rewrite Zle_Qle. pose proof (Qfloor_le index). pose proof (Qle_ceiling index). lra.
  - rewrite <-(Qceiling_Z (Z.of_nat n - 1)). by apply Qceiling_resp_le.
Qed.

(** For a sample in ascending order that is not empty and a percentile
    from 0 to 100, [calculatePercentile] reads inside the array only, and
    with its interpolation evaluated exactly the result is a number from
    the first entry to the last, the first entry at percentile 0 and the
    last at percentile 100. *)
Theorem calculatePercentile_within (sortedData : list Q) (percentile : Q) :
  ascending sortedData = true -> sortedData <> [] ->
  0 <= percentile -> percentile <= 100 ->
  exists v lowest highest,
    calculatePercentile sortedData percentile = Some v /\
    head sortedData = Some lowest /\ last sortedData = Some highest /\
    lowest <= v /\ v <= highest /\
    calculatePercentile sortedData 0 = Some lowest /\
    calculatePercentile sortedData 100 = Some highest.
Proof.
  intros Hsorted Hdata H0 H100.
  assert (0 < length sortedData)%nat as Hn by (destruct sortedData; [done|simpl; lia]).
  set (n := length sortedData) in *.
  assert (exists lowest, head sortedData = Some lowest) as [lowest Hhead].
  { destruct sortedData; [done|by eexists]. }
  assert (exists highest, last sortedData = Some highest) as [highest Hlast].
  { destruct (last sortedData) eqn:Hl; [by eexists|]. by apply last_None in Hl. }
  assert (sortedData !! 0%nat = Some lowest) as Hfirst by (by rewrite <-head_lookup).
  assert (sortedData !! (n - 1)%nat = Some highest) as Hend.
  { rewrite last_lookup in Hlast. by replace (n - 1)%nat with (Nat.pred n) by lia. }
  assert (forall p, 0 <= p -> p <= 100 ->
            exists v, calculatePercentile sortedData p = Some v /\
                      lowest <= v /\ v <= highest) as Hany.
  { intros p Hp0 Hp100. unfold calculatePercentile. fold n.
    destruct (Nat.eqb_spec n 0) as [Hz|_]; [lia|]. cbv zeta.
    destruct (index_inside n p Hn Hp0 Hp100) as (Hlow & Hhigh & Hf0 & Hfc & Hcn).
    set (index := p / 100 * (inject_Z (Z.of_nat n) - 1)) in *.
    destruct (element_inside sortedData (Qfloor index)) as (l & -> & Hl); [fold n; lia|].
    destruct (element_inside sortedData (Qceiling index)) as (u & -> & Hu); [fold n; lia|].
    assert (lowest <= l) as Hll.
    { apply (ascending_lookup _ Hsorted 0%nat (Z.to_nat (Qfloor index))); [lia|done..]. }
    assert (l <= u) as Hlu.
    { apply (ascending_lookup _ Hsorted (Z.to_nat (Qfloor index))
                              (Z.to_nat (Qceiling index))); [lia|done..]. }
    assert (u <= highest) as Huh.
    { apply (ascending_lookup _ Hsorted (Z.to_nat (Qceiling index)) (n - 1)%nat);
        [lia|done..]. }
    destruct (Z.eqb_spec (Qfloor index) (Qceiling index)) as [Heq|Hne].
    - exists l. repeat split; [done|lra].
    - exists (l + (u - l) * (index - inject_Z (Qfloor index))). split; [done|].
      pose proof (Qfloor_le index) as Hfl. pose proof (Qlt_floor index) as Hlt.
      rewrite inject_Z_plus in Hlt. change (inject_Z 1) with 1 in Hlt.
      assert (0 <= (u - l) * (index - inject_Z (Qfloor index))) as Hup.
      { apply Qmult_le_0_compat; lra. }
      assert (0 <= (u - l) * (1 - (index - inject_Z (Qfloor index)))) as Hdown.
      { apply Qmult_le_0_compat; lra. }
      revert Hup Hdown. generalize (index - inject_Z (Qfloor index)). intros t Hup Hdown.
      split; lra. }
  destruct (Hany percentile H0 H100) as (v & Hv & Hlo & Hhi).
  exists v, lowest, highest. repeat split; try done.
  - unfold calculatePercentile. fold n.
    destruct (Nat.eqb_spec n 0) as [Hz|_]; [lia|]. cbv zeta.
    assert (0 / 100 * (inject_Z (Z.of_nat n) - 1) == 0) as Hindex by (unfold Qdiv; ring).
    rewrite (Qfloor_comp _ _ Hindex), (Qceiling_comp _ _ Hindex).
    change (Qfloor 0) with 0%Z. change (Qceiling 0) with 0%Z. simpl.
    unfold element. simpl. exact Hfirst.
  - unfold calculatePercentile. fold n.
    destruct (Nat.eqb_spec n 0) as [Hz|_]; [lia|]. cbv zeta.
    assert (100 / 100 * (inject_Z (Z.of_nat n) - 1) == inject_Z (Z.of_nat n - 1)) as Hindex.
    { unfold Z.sub. rewrite inject_Z_plus. change (inject_Z (- (1))) with (- (1)). field. }
    rewrite (Qfloor_comp _ _ Hindex), (Qceiling_comp _ _ Hindex).
    rewrite Qfloor_Z, Qceiling_Z, Z.eqb_refl.
    destruct (element_inside sortedData (Z.of_nat n - 1)) as (a & -> & Ha); [fold n; lia|].
    replace (Z.to_nat (Z.of_nat n - 1)) with (n - 1)%nat in Ha by lia. congruence.
Qed.

Lemma calculatePercentile_within_witness :
  let data := [1; 2; 4] in
  (ascending data = true /\ data <> [] /\ 0 <= 75 /\ 75 <= 100) /\
  exists v lowest highest,
    calculatePercentile data 75 = Some v /\
    head data = Some lowest /\ last data = Some highest /\
    lowest <= v /\ v <= highest /\
    calculatePercentile data 0 = Some lowest /\
    calculatePercentile data 100 = Some highest.
Proof.
  intros data.
  assert (ascending data = true) as H1 by reflexivity.
  assert (data <> []) as H2 by discriminate.
  assert (0 <= 75) as H3 by discriminate.
  assert (75 <= 100) as H4 by discriminate.
  split; [exact (conj H1 (conj H2 (conj H3 H4)))|].
  exact (calculatePercentile_within data 75 H1 H2 H3 H4).
Defined.

Section StatisticsFacts.
Variable Math_sqrt : Q -> Q.

(** [calculateStatistics] takes its median from the sample as it is given,
    without sorting it: for a sample of [2k + 1] values the median it
    reports is the value at position [k]. *)
Theorem calculateStatistics_median_by_position (data : list Q) (k : nat) :
  length data = (2 * k + 1)%nat ->
  median (calculateStatistics Math_sqrt data) = data !! k.
Proof.
  intros Hlen. unfold calculateStatistics, calculatePercentile. rewrite Hlen.
  replace (2 * k + 1 =? 0)%nat with false by (symmetry; apply Nat.eqb_neq; lia).
  cbv zeta. cbn [median].
  assert (50 / 100 * (inject_Z (Z.of_nat (2 * k + 1)) - 1) == inject_Z (Z.of_nat k)) as Hindex.
  { replace (Z.of_nat (2 * k + 1)) with (2 * Z.of_nat k + 1)%Z by lia.
    rewrite inject_Z_plus, inject_Z_mult. change (inject_Z 1) with 1.
    change (inject_Z 2) with 2. field. }
  rewrite (Qfloor_comp _ _ Hindex), (Qceiling_comp _ _ Hindex).
  rewrite Qfloor_Z, Qceiling_Z, Z.eqb_refl. unfold element.
  destruct (Z.ltb_spec (Z.of_nat k) 0) as [Hneg|_]; [lia|]. by rewrite Nat2Z.id.
Qed.

End StatisticsFacts.

Lemma calculateStatistics_median_by_position_witness :
  length [3; 1; 2] = (2 * 1 + 1)%nat /\
  median (calculateStatistics (fun x => x) [3; 1; 2]) = [3; 1; 2] !! 1%nat.
Proof.
  assert (length [3; 1; 2] = (2 * 1 + 1)%nat) as H by reflexivity.
  split; [exact H|].
  exact (calculateStatistics_median_by_position (fun x => x) [3; 1; 2] 1 H).
Defined.

End MonteCarloFacts.
